(* ===== verification/_CoqProject ===== *)
-Q . S2P
Prelude.v
GoStrings.v
GoSort.v
Bencode.v
Bitfield.v
Metainfo.v
Tracker.v
Peer.v
Piece.v
TorrentLink.v
IrcMessage.v
RingBuf.v
GoTime.v
GoEncoding.v
ChatHistory.v
HistoryStore.v
IrcMode.v
IrcScram.v
SftpWire.v
SftpServer.v
SftpMux.v
SftpClient.v
SftpLink.v
Paths.v
Osfs.v
Sftpd.v
Dcc.v
DccTransfer.v
Xdcc.v
FtpWire.v
FtpSession.v
FtpServer.v
FtpClient.v
FtpLink.v
IrcNames.v
IrcConst.v
IrcServer.v
IrcHandlers.v
IrcReason.v
IrcInvariant.v
IrcAuthority.v
IrcSessions.v
IrcSasl.v
IrcClient.v
IrcLink.v
Bouncer.v
BouncerRelay.v
BouncerSessions.v
BouncerReplay.v
IrcConfig.v
IrcWriter.v
IrcOutput.v
IrcListener.v
IrcLabels.v
IrcDelivery.v
IrcRuns.v
IrcSystem.v
IrcSystemRuns.v
IrcInput.v
IrcNumerics.v
Ircx.v
Programs.v
