(* ===== verification/Prelude.v ===== *)
(** * go-protocols: a verification development

    The repository holds four independent protocol suites in Go: BitTorrent
    ([torrent/]), IRC ([irc/]: message library, server, client, bouncer), SFTP
    ([sftp/]) and FTP ([ftp/]).  This library models their protocol logic as executable
    functions and proves what makes it correct.

    ** Conventions

    Go strings and byte slices are lists of bytes ([bytes]); Go integers are [Z], with
    the wrap-around of their width written out wherever the code computes with values
    that can reach it.  Errors are the [Err] of a [res] or an [option]; a run-time
    panic of Go is a value of its own ([Panic] or [None], as the file says) and theorems
    say when it cannot occur.  A stream that is read is the bytes still to come, a
    stream that is written the bytes sent.  Code that is outside the repository enters
    as a type class whose instance is any implementation:
    - [GoUnicode] (GoStrings.v): case mapping of text outside ASCII, no law assumed;
    - [MapOrder] (IrcMessage.v), [IterOrder] (this file): the order in which Go walks
      a map, any permutation;
    - [Sha1] (Metainfo.v): twenty bytes; [Bcrypt] (IrcServer.v): the password check;
    - [GoNet] (Tracker.v): URL parsing, HTTP, IP addresses; [Env] (IrcServer.v): the
      clock, its time zone and the random parts of identifiers;
    - [Backend] (SftpServer.v), [OS] (Osfs.v), [Filesystem], [Disk], [DataNet], [GoFmt]
      (FtpSession.v): storage, operating system and data connections;
    - [Config] (IrcServer.v): the part of the configuration the handlers read;
      [BcryptCost] (IrcConfig.v): the cost of a password hash; [World] (Bouncer.v): the
      clock and the identifiers of the bouncer;
    - [Crypto] (IrcScram.v): hashes, HMAC, PBKDF2; [Mechanism] (IrcClient.v): a SASL
      mechanism, with instances for those of the repository;
    - [Requests] (SftpClient.v), [FtpPeer] (FtpClient.v): what answers a client, which
      the files on the links instantiate with the servers of this library;
    - [GoIP] (Dcc.v), [GoFloat] (Xdcc.v), [GoAddr] (FtpClient.v): addresses and
      floating-point numbers as text;
    - [SSH], with [SSHAuth] (Sftpd.v): connections, channels and the password callback.

    ** Shared files

    Prelude.v (this file): bytes, fixed-width integers, big-endian words, results,
    generic lemmas and tactics.  GoStrings.v, GoSort.v, GoTime.v, GoEncoding.v: what the
    sources use of [strings], [strconv], [unicode/utf8], [bufio], [sort], [time], [fmt]
    and [encoding/base64].

    ** BitTorrent

    - Bencode.v, torrent/bencode: [Decode] and [Encode].  The decoders recurse with
      fuel [2 * length + 1]; [Decode_total] proves it enough, [Decode_Encode_roundtrip]
      and [Encode_canonical] relate the two directions.
    - Bitfield.v, torrent/bitfield: bit sets of pieces, [Validate_spec].
    - Metainfo.v, torrent/metainfo, over Bencode.v: piece hashes and the info hash.
    - Tracker.v, torrent/tracker, over Bencode.v: the query and the parsed response.
    - Peer.v, torrent/peer: handshake and messages; [handshake_agreement] runs both
      ends, [messages_roundtrip] a whole stream.
    - Piece.v, torrent/piece: requests tile the piece ([NextRequest_tiles]); blocks in
      any order assemble it ([Store_any_order]).
    - TorrentLink.v: a piece from its requests to [Verify] over Peer.v, against a peer
      written from BEP 3 ([piece_over_the_wire]); the loops have as fuel the length of what
      they read.

    ** IRC

    - IrcMessage.v, irc/irc/message.go: [Parse] and [Format], [Parse_Format].
    - IrcMode.v, irc/irc/mode.go and irc/server/mode/set.go: mode strings and mode
      sets; [Apply_replay] says that the reported changes are those applied.
    - ChatHistory.v, irc/irc/chathistory.go: selection by time or message id.
    - RingBuf.v, irc/internal/ringbuf: the circular buffer, the interface [BoundedLog]
      it implements and the refinement to a list ([RingBuf_keeps_last]).
    - HistoryStore.v, irc/bouncer/history: the store, proved against [BoundedLog];
      [MemoryStore_refines_archive] is its refinement of an unbounded archive.
    - IrcNames.v: the name, mask and line-splitting helpers of irc/server/handlers.go.
    - IrcConst.v: numerics and capabilities in use.  IrcNumerics.v, irc/irc/numeric.go and
      commands.go: all constants as tables.
    - IrcServer.v, irc/server/server.go: the state ([Server]: the store of sessions,
      registry, channels, monitors, output), the monad [M] of handlers, output with
      tags and labelled responses.  A Go pointer to a session is its number in the
      store, so that aliasing between registry and channels is as in the code.
    - IrcHandlers.v, irc/server/handlers.go: every handler, dispatch, connection and
      removal of sessions.  Handlers are atomic steps.
    - IrcReason.v: the weakest-precondition calculus the proofs about handlers use.
    - IrcInvariant.v: the invariant of all reachable states ([server_invariant], by
      rule induction on [step]).
    - IrcAuthority.v, IrcSessions.v: what a command may change, and who may issue it:
      [channel_authority], [join_admission], [oper_authority], [unregistered_confined],
      and [prepare_tags] for what a client is sent.
    - IrcWriter.v: the output queue of a session and the goroutine that writes it, with
      [enqueue] and [flush], as events that interleave: [output_queue],
      [flush_waits_for_output], and [flush_returns], whose bound on the number of steps
      is a measure of the queue.
    - IrcOutput.v: the goroutines of all sessions as lists of actions on all outputs, with
      the lock that keeps one message or one labelled response together, interleaved with
      the writers.  [todo_all] bounds the steps until they rest ([output_settles]).
    - IrcSystem.v: the handlers of IrcHandlers.v over IrcOutput.v, from a line of input to the
      bytes on every connection: [messages_reach_clients], [server_settles],
      [goodbye_is_received].  IrcSystemRuns.v: a scheduler, with fuel, and runs on it.
      IrcInput.v: the bytes that clients send, in pieces, and the scanner that makes lines of
      them ([session_reads_lines]).
    - IrcListener.v: the accept loops with their limit on clients ([clients_limited]) and the
      listeners ([close_stops_accepting]).
    - IrcConfig.v, irc/config, irc/cmd/ircd, irc/cmd/ircb and the construction of the server
      in irc/server/server.go: from the file to the configuration that the handlers and
      the bouncer read; [ircd_serves_the_file], [ircb_sasl_over_tls].
    - IrcLabels.v, IrcDelivery.v: labelled responses and the delivery of messages.
    - IrcSasl.v: irc/client's SASL PLAIN chunks against the server's AUTHENTICATE; the
      chunk loop has fuel [S (length encoded)], and [sasl_plain_agreement] shows that
      nothing of the response is lost.
    - IrcScram.v, irc/client/sasl/mechanism.go: SCRAM; [scram_agreement] runs it against a
      server written from RFC 5802, [scram_done_is_signed] says that success needs the
      server's signature.
    - IrcClient.v, irc/client/client.go: handlers, negotiation, SASL, the read loop,
      Connect and Disconnect over any mechanism.  [negotiation_ends] bounds the
      negotiation, [sasl_only_after_ack] orders it, [irc_client_no_panic] is for any input.
    - IrcLink.v: the client against the server of IrcHandlers.v: [capabilities_agree], and
      the whole registration by evaluation.
    - Dcc.v, irc/client/dcc: offers, CTCP, sessions and the manager's table.
      DccTransfer.v: sender and receiver as a step relation with resume, errors and
      cancellation at any time; [received_is_prefix], [completed_is_whole] and the run
      that blocks, [transfer_hangs].
    - Xdcc.v, irc/client/xdcc: packs, listings and the bot; [slots_bounded].
    - Ircx.v, irc/cmd/ircx: the downloader's handlers; [ircx_accepts_offer] against the
      offers of Dcc.v, [ircx_panics_iff].
    - Bouncer.v, irc/bouncer/bouncer.go: networks with their upstream clients, sessions
      from registration to relay, history and replay, over IrcClient.v and
      HistoryStore.v; one event at a time.  BouncerRelay.v: a weakest-precondition
      calculus that includes the absence of panics, the programs that only write to one
      session ([talks]), the invariant, messages from upstream.  BouncerSessions.v: lines of sessions;
      [bouncer_invariant], [upstream_reaches_attached], [session_confined].
      BouncerReplay.v: [replay_is_archive], and runs by evaluation.
    - IrcRuns.v: whole runs by evaluation: witnesses, and behaviours that differ from
      what the code sets out to do.

    ** SFTP

    - SftpWire.v, sftp/sftp: packets, attributes, status, version; round trips.
    - SftpServer.v, sftp/server/server.go: a handler per request over any [Backend],
      and [Serve] over the bytes of the channel with fuel [S (length input)]
      ([Serve_total]).  One reply per request ([dispatch_one_reply]), the table of
      handles ([dispatch_handles]), absence of panics ([Serve_no_panic]).
    - SftpMux.v, sftp/client/client.go: concurrent calls and the read loop as a step
      relation; [replies_matched], [waiting_call_returns], [mux_panics_iff].
    - SftpClient.v: every operation of the client over the interface [Requests].
    - SftpLink.v: the operations through the wire and the server are those of the backend
      ([remote_is_backend]).
    - Osfs.v, sftp/server/backend/osfs: the backend over the system calls of [OS];
      [osfs_files] says that its handles are the open files.

    ** FTP

    - FtpWire.v, ftp/ftp: commands, replies and addresses.
    - FtpSession.v, ftp/server: authenticators, every command handler, dispatch and the
      command loop (fuel [S (length input)]); [handleConn_sandboxed] shows by an
      invariant of the session that it ends, that paths are clean and that none is
      touched before a login.
    - FtpServer.v, ftp/server/server.go, ftp/config, ftp/cmd/ftpd: defaults, users, the
      accept loop and the shutdown around the sessions; [connections_limited],
      [shutdown_drains], [ftpd_logins].
    - FtpClient.v, ftp/client and ftp/client/ftps: every command over [FtpPeer].
    - FtpLink.v: the client against the session of FtpSession.v: every command is answered
      once ([ftp_commands_answered]), [login_agrees], [rename_agrees].
    - Paths.v, ftp/server/fs and sftp/server/backend/osfs: path resolution;
      [full_in_sandbox] puts the clean paths of a session under the root on the host.

    ** Programs

    Programs.v: torrent/cmd/gotorrent.  Sftpd.v: sftp/cmd/sftpd, from its flags to the
    sessions ([sftpd_sessions]); the SSH package is the class [SSH].

    ** What is not modelled

    Sockets, TLS and SSH themselves, deadlines, and the decoding of configuration files,
    which third-party packages do.  Goroutines, queues and locks are events that
    interleave in SftpMux.v, DccTransfer.v, IrcWriter.v, IrcOutput.v, IrcSystem.v, IrcInput.v,
    IrcListener.v and FtpServer.v (in IrcSystem.v a handler still changes the state of the server in one step,
    and what it sends is spread over many); in
    the other files a handler, a store operation and a write are atomic, and a write
    succeeds, a broken connection being seen by the next read.  The path theorems do not
    speak of symbolic links.  Accessors that return a field or a copy of it, log lines,
    usage texts and the progress display of ircx have no definitions. *)

From stdpp Require Export base numbers list gmap sorting.
From stdpp Require Import strings.
From Stdlib Require Export ZArith Lia.
From Stdlib Require Strings.Byte Strings.String.
Export Byte.ByteSyntaxNotations String.StringSyntax.

Abbreviation byte := Byte.byte.
(** Go's [string] and [[]byte]: finite byte sequences. *)
Abbreviation bytes := (list Byte.byte).

Declare Scope go_scope.
Delimit Scope go_scope with go.
#[global] Delimit Scope byte_scope with byte.
#[global] Open Scope Z_scope.

(* ------------------------------------------------------------------ *)
(** ** Bytes as integers *)

Definition bz (c : byte) : Z := Z.of_N (Byte.to_N c).

(** [byte(z)] of Go: conversion truncates to the low eight bits. *)
Definition zb (z : Z) : byte :=
  default Byte.x00 (Byte.of_N (Z.to_N (z mod 256))).

(** String literals: [str "abc"] is the Go constant with these bytes. *)
Definition str (s : string) : bytes := String.list_byte_of_string s.
Arguments str _%_string.

Lemma bz_range c : 0 <= bz c < 256.
Proof. unfold bz. pose proof (Byte.to_N_bounded c). lia. Qed.

Lemma zb_bz c : zb (bz c) = c.
Proof.
  unfold zb. rewrite Z.mod_small by apply bz_range.
  unfold bz. by rewrite N2Z.id, Byte.of_to_N.
Qed.

Lemma bz_zb z : bz (zb z) = z mod 256.
Proof.
  unfold zb. pose proof (Z.mod_pos_bound z 256 eq_refl) as Hb.
  destruct (Byte.of_N (Z.to_N (z mod 256))) as [y|] eqn:E; simpl.
  - apply Byte.to_of_N in E. unfold bz. lia.
  - apply Byte.of_N_None_iff in E. lia.
Qed.

Lemma bz_inj c d : bz c = bz d -> c = d.
Proof. intros H. by rewrite <- (zb_bz c), H, zb_bz. Qed.

#[export] Instance byte_eq_dec : EqDecision byte := Byte.byte_eq_dec.
#[export] Program Instance byte_countable : Countable byte :=
  inj_countable Byte.to_N Byte.of_N _.
Next Obligation. intros c. apply Byte.of_to_N. Qed.

(** Byte comparison as the code writes it, [c == 'x']. *)
Definition beqb (c d : byte) : bool := bool_decide (c = d).
Lemma beqb_spec c d : reflect (c = d) (beqb c d).
Proof. apply bool_decide_reflect. Qed.
Lemma beqb_refl c : beqb c c = true.
Proof. by apply bool_decide_eq_true. Qed.
Lemma beqb_ne c d : c <> d -> beqb c d = false.
Proof. by apply bool_decide_eq_false_2. Qed.

(** String comparison, [s == t]. *)
Definition seqb (s t : bytes) : bool := bool_decide (s = t).
Lemma seqb_spec s t : reflect (s = t) (seqb s t).
Proof. apply bool_decide_reflect. Qed.
Lemma seqb_refl s : seqb s s = true.
Proof. by apply bool_decide_eq_true. Qed.
Lemma seqb_ne s t : s <> t -> seqb s t = false.
Proof. by apply bool_decide_eq_false_2. Qed.

(** [len(s)] as a Go [int]. *)
Definition blen {A} (s : list A) : Z := Z.of_nat (length s).

Lemma blen_nonneg {A} (l : list A) : 0 <= blen l.
Proof. unfold blen. lia. Qed.

(* ------------------------------------------------------------------ *)
(** ** Machine integers *)

Definition wrap_u (w : Z) (z : Z) : Z := z mod 2 ^ w.
Definition wrap_s (w : Z) (z : Z) : Z := (z + 2 ^ (w - 1)) mod 2 ^ w - 2 ^ (w - 1).

Abbreviation u8 := (wrap_u 8).
Abbreviation u16 := (wrap_u 16).
Abbreviation u32 := (wrap_u 32).
Abbreviation u64 := (wrap_u 64).
(** Go [int] and [int64] on a 64-bit platform. *)
Abbreviation i64 := (wrap_s 64).

Definition in_u (w z : Z) : Prop := 0 <= z < 2 ^ w.
Definition in_i64 (z : Z) : Prop := - 2 ^ 63 <= z < 2 ^ 63.
#[export] Instance in_u_dec w z : Decision (in_u w z).
Proof. unfold in_u. apply _. Defined.
#[export] Instance in_i64_dec z : Decision (in_i64 z).
Proof. unfold in_i64. apply _. Defined.

Lemma wrap_u_small w z : in_u w z -> wrap_u w z = z.
Proof. apply Z.mod_small. Qed.

Lemma wrap_u_range w z : 0 <= w -> in_u w (wrap_u w z).
Proof. intros. apply Z.mod_pos_bound, Z.pow_pos_nonneg; lia. Qed.

Lemma i64_small z : in_i64 z -> i64 z = z.
Proof.
  unfold in_i64, wrap_s. intros. rewrite Z.mod_small; [lia|].
  change (2 ^ (64 - 1)) with (2 ^ 63). lia.
Qed.

Lemma i64_range z : in_i64 (i64 z).
Proof.
  unfold in_i64, wrap_s. change (64 - 1) with 63.
  pose proof (Z.mod_pos_bound (z + 2 ^ 63) (2 ^ 64) ltac:(lia)). lia.
Qed.

(* ------------------------------------------------------------------ *)
(** ** encoding/binary.BigEndian *)

(** [PutUintN]: the [n] low bytes of [z], most significant first. *)
Fixpoint be_put (n : nat) (z : Z) : bytes :=
  match n with
  | O => []
  | S n' => be_put n' (z / 256) ++ [zb z]
  end.

(** [UintN]: the number the bytes denote. *)
Definition be_get (s : bytes) : Z := fold_left (fun acc c => acc * 256 + bz c) s 0.

Lemma be_put_length n z : length (be_put n z) = n.
Proof. revert z. induction n as [|n IH]; intros z; simpl; [done|].
  rewrite length_app, IH. simpl. lia. Qed.

Lemma be_get_snoc s c : be_get (s ++ [c]) = be_get s * 256 + bz c.
Proof. unfold be_get. by rewrite fold_left_app. Qed.

Lemma be_get_put n z : be_get (be_put n z) = z mod 256 ^ Z.of_nat n.
Proof.
  revert z. induction n as [|n IH]; intros z; simpl be_put.
  - by rewrite Z.mod_1_r.
  - rewrite be_get_snoc, IH, bz_zb.
    replace (Z.of_nat (S n)) with (Z.of_nat n + 1) by lia.
    rewrite Z.pow_add_r, Z.pow_1_r, (Z.mul_comm (256 ^ _)) by lia.
    pose proof (Z.pow_pos_nonneg 256 (Z.of_nat n)).
    rewrite Z.rem_mul_r by lia. lia.
Qed.

Lemma be_get_range s : 0 <= be_get s < 256 ^ blen s.
Proof.
  unfold blen. induction s as [|c s IH] using rev_ind; [done|].
  rewrite be_get_snoc, length_app, Nat2Z.inj_add. simpl length.
  rewrite Z.pow_add_r by lia. pose proof (bz_range c). nia.
Qed.

Lemma be_put_get s : be_put (length s) (be_get s) = s.
Proof.
  induction s as [|c s IH] using rev_ind; [done|].
  rewrite length_app, be_get_snoc. simpl. rewrite Nat.add_comm. simpl.
  pose proof (bz_range c).
  rewrite (Z.add_comm _ (bz c)), Z.div_add, Z.div_small, Z.add_0_l, IH by lia.
  f_equal. f_equal. rewrite <- (zb_bz c) at 2. unfold zb.
  by rewrite Z.mod_add by lia.
Qed.

Lemma be_get_put_u (n : nat) z : in_u (8 * Z.of_nat n) z -> be_get (be_put n z) = z.
Proof.
  intros H. rewrite be_get_put. apply Z.mod_small. red in H.
  by rewrite Z.pow_mul_r in H by lia.
Qed.

Lemma be_get_u32 s : (4 <= length s)%nat -> in_u 32 (be_get (take 4 s)).
Proof.
  intros H. pose proof (be_get_range (take 4 s)) as R. unfold blen in R.
  rewrite length_take_le in R by lia. exact R.
Qed.

(* ------------------------------------------------------------------ *)
(** ** Results: a Go call returns a value, returns an error, or panics *)

Inductive res (E A : Type) : Type :=
| Ok (a : A)
| Err (e : E)
| Panic.
Arguments Ok {E A} a.
Arguments Err {E A} e.
Arguments Panic {E A}.

Definition res_bind {E A B} (m : res E A) (k : A -> res E B) : res E B :=
  match m with
  | Ok a => k a
  | Err e => Err e
  | Panic => Panic
  end.

(** [fmt.Errorf("...: %w", err)]: the caller wraps the callee's error. *)
Definition res_wrap {E E' A} (f : E -> E') (m : res E A) : res E' A :=
  match m with
  | Ok a => Ok a
  | Err e => Err (f e)
  | Panic => Panic
  end.

Notation "'let!' x ':=' m 'in' k" := (res_bind m (fun x => k))
  (at level 10, x pattern, m at level 100, k at level 200) : go_scope.
#[global] Open Scope go_scope.

(** A guard with an early error return. *)
Notation "'guard!' c 'else' e ';' k" := (if c then k else Err e)
  (at level 10, c at level 100, e at level 100, k at level 200) : go_scope.

Definition is_ok {E A} (m : res E A) : bool :=
  match m with Ok _ => true | _ => false end.

(* ------------------------------------------------------------------ *)
(** ** Tactics and hints *)

Create HintDb go.

(** Linear arithmetic with division and remainder by constants. *)
Ltac dlia := zify; Z.to_euclidean_division_equations; lia.

(** Case analysis on the boolean tests of the modelled code. *)
Ltac bool_cases :=
  repeat match goal with
  | |- context [beqb ?x ?y] => destruct (beqb_spec x y)
  | H : context [beqb ?x ?y] |- _ => destruct (beqb_spec x y)
  | |- context [seqb ?x ?y] => destruct (seqb_spec x y)
  | H : context [seqb ?x ?y] |- _ => destruct (seqb_spec x y)
  | |- context [Z.eqb ?x ?y] => destruct (Z.eqb_spec x y)
  | H : context [Z.eqb ?x ?y] |- _ => destruct (Z.eqb_spec x y)
  | |- context [Z.ltb ?x ?y] => destruct (Z.ltb_spec x y)
  | H : context [Z.ltb ?x ?y] |- _ => destruct (Z.ltb_spec x y)
  | |- context [Z.leb ?x ?y] => destruct (Z.leb_spec x y)
  | H : context [Z.leb ?x ?y] |- _ => destruct (Z.leb_spec x y)
  end.

(** Split the matches and conditionals of a hypothesis [H : f .. = r]. *)
Ltac inv_code H :=
  repeat match type of H with
  | context [match ?x with _ => _ end] => destruct x eqn:?; simplify_eq/=
  end; simplify_eq/=.

Create Rewrite HintDb len.
#[export] Hint Rewrite @length_app @length_take @length_drop @length_fmap be_put_length : len.
(** Case analysis on the first [if] of the goal. *)
Ltac if_step :=
  match goal with |- context [if ?b then _ else _] => destruct b eqn:? end.
Ltac len_solve := autorewrite with len in *; simpl length in *; lia.

#[export] Hint Resolve bz_range i64_range : go.

(* ------------------------------------------------------------------ *)
(** ** Lists *)

Section Lists.
Context {A : Type}.
Implicit Types l : list A.

(** [l[len(l)-n:]], the last [n] elements. *)
Definition last_n (n : nat) l : list A := drop (length l - n) l.

Lemma last_n_all n l : (length l <= n)%nat -> last_n n l = l.
Proof. intros. unfold last_n. by replace (length l - n)%nat with 0%nat by lia. Qed.

Lemma last_n_length n l : length (last_n n l) = Nat.min n (length l).
Proof. unfold last_n. rewrite length_drop. lia. Qed.

Lemma last_n_suffix n l : last_n n l `suffix_of` l.
Proof. exists (take (length l - n) l). symmetry. apply take_drop. Qed.

Lemma last_n_snoc_full n l x :
  (0 < n)%nat -> length l = n -> last_n n (l ++ [x]) = drop 1 l ++ [x].
Proof.
  intros Hn Hl. unfold last_n. rewrite length_app. simpl.
  replace (length l + 1 - n)%nat with 1%nat by lia.
  by rewrite drop_app_le by lia.
Qed.

Lemma last_n_last_n_app n l vs : last_n n (last_n n l ++ vs) = last_n n (l ++ vs).
Proof.
  unfold last_n. rewrite !length_app, length_drop.
  rewrite <- (drop_app_le l vs) by lia. rewrite drop_drop. f_equal. lia.
Qed.

(** The order-preserving filter of a Go [for] loop with [continue]. *)
Fixpoint filterb (p : A -> bool) l : list A :=
  match l with
  | [] => []
  | x :: l' => if p x then x :: filterb p l' else filterb p l'
  end.

Lemma elem_of_filterb p l x : x ∈ filterb p l <-> p x = true /\ x ∈ l.
Proof.
  induction l as [|y l IH]; simpl.
  - rewrite elem_of_nil. tauto.
  - destruct (p y) eqn:E; rewrite ?elem_of_cons, IH; naive_solver congruence.
Qed.

Lemma filterb_length p l : (length (filterb p l) <= length l)%nat.
Proof. induction l as [|y l IH]; simpl; [lia|]. destruct (p y); simpl; lia. Qed.

Lemma filterb_sublist p l : filterb p l `sublist_of` l.
Proof. induction l as [|y l IH]; simpl; [constructor|]. destruct (p y); by constructor. Qed.

Lemma NoDup_filterb p l : NoDup l -> NoDup (filterb p l).
Proof. intros. by eapply sublist_NoDup, filterb_sublist. Qed.

Lemma Permutation_filterb p l l' : l ≡ₚ l' -> filterb p l ≡ₚ filterb p l'.
Proof.
  induction 1; simpl; auto.
  - destruct (p x); auto.
  - destruct (p x), (p y); auto. apply perm_swap.
  - by etrans.
Qed.
End Lists.

Lemma filterb_ext {A} (p q : A -> bool) l :
  (forall x, x ∈ l -> p x = q x) -> filterb p l = filterb q l.
Proof.
  induction l as [|x l IH]; intros H; simpl; [done|].
  rewrite (H x) by constructor. rewrite IH; [done|]. intros y Hy. apply H. by constructor.
Qed.

Lemma filterb_all {A} (p : A -> bool) l : (forall x, x ∈ l -> p x = true) -> filterb p l = l.
Proof.
  induction l as [|x l IH]; intros H; simpl; [done|]. rewrite H by constructor. f_equal. apply IH.
  intros y Hy. apply H. by constructor.
Qed.

Lemma filterb_app {A} (p : A -> bool) l l' : filterb p (l ++ l') = filterb p l ++ filterb p l'.
Proof. induction l as [|x l IH]; simpl; [done|]. rewrite IH. by destruct (p x). Qed.

Lemma filterb_fmap {A B} (f : A -> B) (p : B -> bool) l :
  length (filterb p (f <$> l)) = length (filterb (fun x => p (f x)) l).
Proof. induction l as [|x l IH]; simpl; [done|]. destruct (p (f x)); simpl; [f_equal|]; exact IH. Qed.

Lemma last_app_nonempty {A} (a b : list A) : b <> [] -> last (a ++ b) = last b.
Proof. destruct b as [|x b] using rev_ind; [done|]. intros _. by rewrite app_assoc, !last_snoc. Qed.

(* ------------------------------------------------------------------ *)
(** ** Iteration over maps *)

(** The size of a set with one element more or less. *)
Lemma size_add `{Countable A} (X : gset A) i : i ∉ X -> size ({[i]} ∪ X) = S (size X).
Proof. intros Hi. rewrite size_union by set_solver. by rewrite size_singleton. Qed.
Lemma size_del `{Countable A} (X : gset A) i : i ∈ X -> Z.of_nat (size (X ∖ {[i]})) = Z.of_nat (size X) - 1.
Proof.
  intros Hi. assert (X = {[i]} ∪ X ∖ {[i]}) as E by (apply leibniz_equiv; by apply union_difference, singleton_subseteq_l).
  rewrite E at 2. rewrite size_add by set_solver. lia.
Qed.

(** A map filled from a list without repeated keys. *)
Lemma fold_insert_lookup {A V} `{Countable K} (key : A -> K) (val : A -> V) (l : list A) (m : gmap K V) k v :
  NoDup (key <$> l) ->
  fold_left (fun m a => <[key a := val a]> m) l m !! k = Some v <->
  (exists a, a ∈ l /\ key a = k /\ val a = v) \/ (k ∉ key <$> l /\ m !! k = Some v).
Proof.
  revert m. induction l as [|a l IH]; intros m; cbn [fmap list_fmap fold_left].
  { intros _. split; [intros; right; split; [set_solver|done]|]. intros [(?&?&_)|[_ ?]]; [set_solver|done]. }
  intros [Ha Hl]%NoDup_cons. rewrite IH by done. rewrite lookup_insert_Some.
  split.
  - intros [(b & Hb & Hk & Hv)|[Hn [[<- <-]|[Hne Hm]]]]; [left; exists b; set_solver|left; exists a; set_solver|right; set_solver].
  - intros [(b & [->|Hb]%elem_of_cons & <- & <-)|[Hn Hm]]; [right; split; [done|by left]|left; by exists b|].
    right. apply not_elem_of_cons in Hn as [Hne Hn]. split; [done|]. right. by split.
Qed.

(** Go walks a map in an order of its choosing: any permutation of its entries. *)
Class IterOrder := {
  iter : forall {A : Type}, list A -> list A;
  iter_perm : forall {A : Type} (l : list A), iter l ≡ₚ l
}.
Definition in_order : IterOrder := {| iter A l := l; iter_perm A l := Permutation_refl l |}.
