(* ===== verification/GoStrings.v ===== *)
(** * The parts of Go's [strings], [strconv], [unicode/utf8] and [bufio] the
    sources use

    Byte strings are [bytes].  Every function is executable; [IndexByte] and
    friends return [None] where Go returns [-1].  Case mapping outside ASCII
    needs the Unicode tables, which enter through the class [GoUnicode]: an
    instance supplies what [strings.ToUpper], [ToLower] and [EqualFold] do on
    inputs with a byte >= 0x80, and no law about it is assumed. *)

From S2P Require Import Prelude.

(* ------------------------------------------------------------------ *)
(** ** Searching and cutting *)

Fixpoint IndexByte (s : bytes) (c : byte) : option nat :=
  match s with
  | [] => None
  | x :: s' => if beqb x c then Some 0%nat else S <$> IndexByte s' c
  end.

Fixpoint LastIndexByte (s : bytes) (c : byte) : option nat :=
  match s with
  | [] => None
  | x :: s' => match LastIndexByte s' c with
               | Some i => Some (S i)
               | None => if beqb x c then Some 0%nat else None
               end
  end.

Fixpoint HasPrefix (s p : bytes) : bool :=
  match p, s with
  | [], _ => true
  | _ :: _, [] => false
  | y :: p', x :: s' => beqb x y && HasPrefix s' p'
  end.

Definition HasSuffix (s p : bytes) : bool := HasPrefix (rev s) (rev p).

Definition TrimPrefix (s p : bytes) : bytes :=
  if HasPrefix s p then drop (length p) s else s.

(** [strings.Contains]. *)
Fixpoint Contains (s p : bytes) : bool :=
  HasPrefix s p || match s with [] => false | _ :: s' => Contains s' p end.

(** Membership of a byte in an (ASCII) cutset. *)
Definition in_set (cs : bytes) (c : byte) : bool := existsb (beqb c) cs.

Fixpoint take_while (p : byte -> bool) (s : bytes) : bytes :=
  match s with c :: s' => if p c then c :: take_while p s' else [] | [] => [] end.
Fixpoint TrimLeft (cs s : bytes) : bytes :=
  match s with
  | [] => []
  | c :: s' => if in_set cs c then TrimLeft cs s' else s
  end.

Definition TrimRight (cs s : bytes) : bytes := rev (TrimLeft cs (rev s)).

(** [strings.ContainsAny(s, cs)] for an ASCII [cs]. *)
Definition ContainsAny (s cs : bytes) : bool := existsb (in_set cs) s.

(** [strings.Split(s, sep)] for a one-byte separator. *)
Fixpoint Split (s : bytes) (c : byte) : list bytes :=
  match s with
  | [] => [[]]
  | x :: s' =>
      if beqb x c then [] :: Split s' c
      else match Split s' c with
           | w :: ws => (x :: w) :: ws
           | [] => [[x]]
           end
  end.

(** [strings.Join]. *)
Fixpoint Join (ws : list bytes) (sep : bytes) : bytes :=
  match ws with
  | [] => []
  | [w] => w
  | w :: ws' => w ++ sep ++ Join ws' sep
  end.

(** [strings.ReplaceAll] of one byte by a string. *)
Definition ReplaceByte (s : bytes) (c : byte) (r : bytes) : bytes :=
  flat_map (fun x => if beqb x c then r else [x]) s.

(* ------------------------------------------------------------------ *)
(** ** ASCII case and folding *)

Definition is_upper (c : byte) : bool := (65 <=? bz c) && (bz c <=? 90).
Definition is_lower (c : byte) : bool := (97 <=? bz c) && (bz c <=? 122).
Definition is_digit (c : byte) : bool := (48 <=? bz c) && (bz c <=? 57).
Definition ascii_lower (c : byte) : byte := if is_upper c then zb (bz c + 32) else c.
Definition ascii_upper (c : byte) : byte := if is_lower c then zb (bz c - 32) else c.
Definition is_ascii (s : bytes) : bool := forallb (fun c => bz c <? 128) s.

Class GoUnicode := {
  unicode_upper : bytes -> bytes;
  unicode_lower : bytes -> bytes;
  unicode_fold : bytes -> bytes -> bool
}.

Definition ToLower `{GoUnicode} (s : bytes) : bytes :=
  if is_ascii s then map ascii_lower s else unicode_lower s.
Definition ToUpper `{GoUnicode} (s : bytes) : bytes :=
  if is_ascii s then map ascii_upper s else unicode_upper s.

(** [strings.EqualFold]: an ASCII loop that leaves for the Unicode one at the
    first byte >= 0x80 of either string. *)
Fixpoint EqualFold `{GoUnicode} (s t : bytes) : bool :=
  match s, t with
  | [], [] => true
  | [], _ :: _ | _ :: _, [] => false
  | x :: s', y :: t' =>
      if (bz x <? 128) && (bz y <? 128)
      then beqb (ascii_lower x) (ascii_lower y) && EqualFold s' t'
      else unicode_fold s t
  end.

(** A concrete instance, used by witnesses: bytes outside ASCII are caseless. *)
Definition ascii_only : GoUnicode := {|
  unicode_upper := map ascii_upper;
  unicode_lower := map ascii_lower;
  unicode_fold := fun s t => seqb (map ascii_lower s) (map ascii_lower t)
|}.

(* ------------------------------------------------------------------ *)
(** ** UTF-8 *)

Definition RuneError : Z := 0xFFFD.
Definition cont (lo hi : Z) (c : byte) : bool := (lo <=? bz c) && (bz c <=? hi).

(** [utf8.DecodeRuneInString]: the first rune and its width; an invalid
    sequence decodes as [RuneError] of width 1. *)
Definition decode_rune (s : bytes) : Z * nat :=
  match s with
  | [] => (RuneError, 0%nat)
  | b0 :: s1 =>
      let x := bz b0 in
      if x <? 0x80 then (x, 1%nat)
      else if (0xC2 <=? x) && (x <=? 0xDF) then
        match s1 with
        | b1 :: _ => if cont 0x80 0xBF b1
                     then (Z.land x 0x1F * 64 + Z.land (bz b1) 0x3F, 2%nat)
                     else (RuneError, 1%nat)
        | _ => (RuneError, 1%nat)
        end
      else if (0xE0 <=? x) && (x <=? 0xEF) then
        match s1 with
        | b1 :: b2 :: _ =>
            if cont (if x =? 0xE0 then 0xA0 else 0x80) (if x =? 0xED then 0x9F else 0xBF) b1
               && cont 0x80 0xBF b2
            then (Z.land x 0x0F * 4096 + Z.land (bz b1) 0x3F * 64 + Z.land (bz b2) 0x3F, 3%nat)
            else (RuneError, 1%nat)
        | _ => (RuneError, 1%nat)
        end
      else if (0xF0 <=? x) && (x <=? 0xF4) then
        match s1 with
        | b1 :: b2 :: b3 :: _ =>
            if cont (if x =? 0xF0 then 0x90 else 0x80) (if x =? 0xF4 then 0x8F else 0xBF) b1
               && cont 0x80 0xBF b2 && cont 0x80 0xBF b3
            then (Z.land x 0x07 * 262144 + Z.land (bz b1) 0x3F * 4096
                  + Z.land (bz b2) 0x3F * 64 + Z.land (bz b3) 0x3F, 4%nat)
            else (RuneError, 1%nat)
        | _ => (RuneError, 1%nat)
        end
      else (RuneError, 1%nat)
  end.

(** A Unicode scalar value. *)
Definition valid_rune (r : Z) : bool :=
  ((0 <=? r) && (r <? 0xD800)) || ((0xDFFF <? r) && (r <=? 0x10FFFF)).

(** [utf8.AppendRune], the encoder behind [WriteRune] and [string(r)]. *)
Definition encode_valid (r : Z) : bytes :=
  if r <? 0x80 then [zb r]
  else if r <? 0x800 then [zb (0xC0 + r / 64); zb (0x80 + r mod 64)]
  else if r <? 0x10000 then
    [zb (0xE0 + r / 4096); zb (0x80 + (r / 64) mod 64); zb (0x80 + r mod 64)]
  else [zb (0xF0 + r / 262144); zb (0x80 + (r / 4096) mod 64);
        zb (0x80 + (r / 64) mod 64); zb (0x80 + r mod 64)].
Definition encode_rune (r : Z) : bytes :=
  encode_valid (if valid_rune r then r else RuneError).

(** [for i, r := range s]: byte index and rune, in order.  The fuel is the
    string's length: every step consumes at least one byte. *)
Fixpoint range_runes (fuel : nat) (i : nat) (s : bytes) : list (nat * Z) :=
  match fuel, s with
  | S fuel', _ :: _ =>
      let '(r, w) := decode_rune s in
      (i, r) :: range_runes fuel' (i + w) (drop w s)
  | _, _ => []
  end.
Definition runes (s : bytes) : list Z := (range_runes (length s) 0 s).*2.

(** [unicode.IsSpace]. *)
Definition is_space (r : Z) : bool :=
  existsb (Z.eqb r) [9; 10; 11; 12; 13; 32; 0x85; 0xA0; 0x1680; 0x2028; 0x2029;
                     0x202F; 0x205F; 0x3000]
  || ((0x2000 <=? r) && (r <=? 0x200A)).

(** The left half of [strings.TrimSpace]. *)
Fixpoint trim_space_left (fuel : nat) (s : bytes) : bytes :=
  match fuel, s with
  | S fuel', _ :: _ =>
      let '(r, w) := decode_rune s in
      if is_space r then trim_space_left fuel' (drop w s) else s
  | _, _ => s
  end.

(** [utf8.DecodeLastRuneInString]: back up over at most three continuation
    bytes to a start byte; if the rune found there does not end the string the
    last byte is invalid. *)
Fixpoint last_start (n : nat) (k : nat) (s : bytes) : nat :=
  match n with
  | O => 1%nat
  | S n' => match s !! (length s - k)%nat with
            | Some c => if cont 0x80 0xBF c then last_start n' (S k) s else k
            | None => 1%nat
            end
  end.
Definition decode_last_rune (s : bytes) : Z * nat :=
  let k := last_start 4 1 s in
  let '(r, w) := decode_rune (drop (length s - k) s) in
  if Nat.eqb w k then (r, k) else (RuneError, 1%nat).
Fixpoint trim_space_right (fuel : nat) (s : bytes) : bytes :=
  match fuel, s with
  | S fuel', _ :: _ =>
      let '(r, w) := decode_last_rune s in
      if is_space r then trim_space_right fuel' (take (length s - w) s) else s
  | _, _ => s
  end.
Definition TrimSpace (s : bytes) : bytes :=
  let l := trim_space_left (length s) s in trim_space_right (length l) l.

(* ------------------------------------------------------------------ *)
(** ** strconv *)

Definition digit (d : Z) : byte := zb (48 + d).

Fixpoint fmt_nat (fuel : nat) (n : Z) : bytes :=
  match fuel with
  | O => []
  | S fuel' => if n <? 10 then [digit n] else fmt_nat fuel' (n / 10) ++ [digit (n mod 10)]
  end.

(** [strconv.Itoa], [FormatInt(z, 10)] and the verb [%d]. *)
Definition fmt_uint (n : Z) : bytes := fmt_nat (S (Z.to_nat (Z.log2 n))) n.
Definition Itoa (z : Z) : bytes :=
  if z <? 0 then str "-" ++ fmt_uint (- z) else fmt_uint z.

Inductive num_err := ErrSyntax | ErrRange.

Definition max_u64 : Z := 2 ^ 64 - 1.

(** The loop of [strconv.ParseUint(s, 10, 64)]. *)
Fixpoint parse_uint_loop (acc : Z) (s : bytes) : Z * option num_err :=
  match s with
  | [] => (acc, None)
  | c :: s' =>
      if is_digit c then
        if max_u64 / 10 + 1 <=? acc then (max_u64, Some ErrRange)
        else let n1 := acc * 10 + (bz c - 48) in
             if max_u64 <? n1 then (max_u64, Some ErrRange)
             else parse_uint_loop n1 s'
      else (0, Some ErrSyntax)
  end.
Definition ParseUint (s : bytes) : Z * option num_err :=
  match s with [] => (0, Some ErrSyntax) | _ => parse_uint_loop 0 s end.

(** [strconv.ParseInt(s, 10, 64)] and [strconv.Atoi] on a 64-bit platform:
    the value is returned next to the error (0, or the clamped bound). *)
Definition ParseInt (s : bytes) : Z * option num_err :=
  match s with
  | [] => (0, Some ErrSyntax)
  | c :: s' =>
      let neg := beqb c "-"%byte in
      let body := if neg || beqb c "+"%byte then s' else s in
      match ParseUint body with
      | (_, Some ErrSyntax) => (0, Some ErrSyntax)
      | (un, _) =>
          if negb neg && (2 ^ 63 <=? un) then (2 ^ 63 - 1, Some ErrRange)
          else if neg && (2 ^ 63 <? un) then (- 2 ^ 63, Some ErrRange)
          else (if neg then - un else un, None)
      end
  end.
Definition Atoi := ParseInt.

(* ------------------------------------------------------------------ *)
(** ** Readers over a finite input *)

Inductive io_err := EOF | UnexpectedEOF.

(** [bufio.Reader.ReadString(delim)]: the text up to and including [delim],
    and what is left to read; [io.EOF] when the delimiter never comes. *)
Definition ReadString (r : bytes) (delim : byte) : res io_err (bytes * bytes) :=
  match IndexByte r delim with
  | Some i => Ok (take (S i) r, drop (S i) r)
  | None => Err EOF
  end.

Definition ReadByte (r : bytes) : res io_err (byte * bytes) :=
  match r with
  | c :: r' => Ok (c, r')
  | [] => Err EOF
  end.

(** [io.ReadFull(r, make([]byte, n))]. *)
Definition ReadFull (r : bytes) (n : nat) : res io_err (bytes * bytes) :=
  if Nat.leb n (length r) then Ok (take n r, drop n r)
  else match r with [] => Err EOF | _ => Err UnexpectedEOF end.

(** [make([]byte, n)]: panics for a negative length and for one beyond the
    address space of a 64-bit platform. *)
Definition max_alloc : Z := 2 ^ 48.
Definition makeslice_ok (n : Z) : bool := (0 <=? n) && (n <=? max_alloc).

(* ------------------------------------------------------------------ *)
(** ** Facts about searching and cutting *)

Lemma IndexByte_app p c s : c ∉ p -> IndexByte (p ++ c :: s) c = Some (length p).
Proof.
  induction p as [|x p IH]; simpl; intros H; [by rewrite beqb_refl|].
  apply not_elem_of_cons in H as [? ?]. rewrite beqb_ne by done.
  by rewrite IH.
Qed.

Lemma IndexByte_None s c : IndexByte s c = None <-> c ∉ s.
Proof.
  induction s as [|x s IH]; simpl; [split; [by intros; apply not_elem_of_nil|done]|].
  destruct (beqb_spec x c) as [->|?].
  - split; [done|]. intros H. destruct H. constructor.
  - rewrite fmap_None, IH, not_elem_of_cons. naive_solver.
Qed.

Lemma IndexByte_Some s c i :
  IndexByte s c = Some i -> exists p t, s = p ++ c :: t /\ length p = i /\ c ∉ p.
Proof.
  revert i. induction s as [|x s IH]; simpl; intros i H; [done|].
  destruct (beqb_spec x c) as [->|?]; simplify_eq.
  - exists [], s. repeat split. apply not_elem_of_nil.
  - apply fmap_Some in H as (j & Hj & ->). destruct (IH _ Hj) as (p & t & -> & <- & Hp).
    exists (x :: p), t. repeat split. by apply not_elem_of_cons.
Qed.

Lemma IndexByte_lt s c i : IndexByte s c = Some i -> (i < length s)%nat.
Proof. intros (p & t & -> & <- & _)%IndexByte_Some. rewrite length_app. simpl. lia. Qed.

Lemma HasPrefix_app p s : HasPrefix (p ++ s) p = true.
Proof. induction p as [|x p IH]; simpl; [by destruct s|]. by rewrite beqb_refl. Qed.

Lemma HasPrefix_spec s p : HasPrefix s p = true <-> exists t, s = p ++ t.
Proof.
  split.
  - revert s. induction p as [|y p IH]; simpl; intros s H; [by exists s|].
    destruct s as [|x s]; [done|]. apply andb_true_iff in H as [Hx H].
    destruct (beqb_spec x y) as [->|]; [|done]. destruct (IH _ H) as [t ->]. by exists t.
  - intros [t ->]. apply HasPrefix_app.
Qed.

Lemma in_set_spec cs c : in_set cs c = true <-> c ∈ cs.
Proof.
  unfold in_set. rewrite existsb_exists. setoid_rewrite <- list_elem_of_In.
  split; [|intros; exists c; by rewrite beqb_refl].
  intros (x & Hx & H). by destruct (beqb_spec c x) as [->|].
Qed.

Lemma ContainsAny_false s cs : ContainsAny s cs = false <-> forall c, c ∈ cs -> c ∉ s.
Proof.
  unfold ContainsAny. rewrite <- not_true_iff_false, existsb_exists.
  setoid_rewrite <- list_elem_of_In. setoid_rewrite in_set_spec. naive_solver.
Qed.

Lemma ContainsAny_notin cs c s : in_set cs c = true -> ContainsAny s cs = false -> c ∉ s.
Proof. intros Hc Hs. by apply (proj1 (ContainsAny_false s cs) Hs), in_set_spec. Qed.

Lemma drop_app_S {A} (p : list A) c s : drop (S (length p)) (p ++ c :: s) = s.
Proof. rewrite cons_middle, app_assoc. apply drop_app_length'. rewrite length_app. simpl. lia. Qed.

Lemma TrimLeft_id cs s : match s with [] => True | c :: _ => c ∉ cs end -> TrimLeft cs s = s.
Proof.
  destruct s as [|c s]; simpl; [done|]. intros H. rewrite <- in_set_spec in H.
  by destruct (in_set cs c).
Qed.

Lemma TrimLeft_length cs s : (length (TrimLeft cs s) <= length s)%nat.
Proof. induction s as [|c s IH]; simpl; [lia|]. destruct (in_set cs c); simpl; lia. Qed.

Lemma TrimLeft_app cs p s :
  (forall c, c ∈ p -> c ∈ cs) -> TrimLeft cs (p ++ s) = TrimLeft cs s.
Proof.
  induction p as [|x p IH]; simpl; [done|]. intros H.
  rewrite (proj2 (in_set_spec cs x)) by (apply H; constructor).
  apply IH. intros c Hc. apply H. by constructor.
Qed.

Lemma TrimRight_id cs s :
  (forall c, last s = Some c -> c ∉ cs) -> TrimRight cs s = s.
Proof.
  intros H. unfold TrimRight. rewrite TrimLeft_id, rev_involutive; [done|].
  destruct (rev s) as [|c r] eqn:E; [done|]. apply H.
  rewrite <- (rev_involutive s), E. simpl. apply last_snoc.
Qed.

Lemma TrimRight_none cs s : (forall c, c ∈ cs -> c ∉ s) -> TrimRight cs s = s.
Proof.
  intros H. apply TrimRight_id. intros c Hc Hcs. apply (H c Hcs).
  apply last_Some in Hc as [l ->]. set_solver.
Qed.

Lemma TrimRight_app cs s p :
  (forall c, c ∈ p -> c ∈ cs) -> TrimRight cs (s ++ p) = TrimRight cs s.
Proof.
  intros H. unfold TrimRight. rewrite rev_app_distr. rewrite TrimLeft_app; [done|].
  intros c Hc. apply H. by rewrite list_elem_of_In, <- in_rev, <- list_elem_of_In in Hc.
Qed.

Lemma Split_nonempty s c : Split s c <> [].
Proof. destruct s as [|x s]; simpl; [done|]. destruct (beqb x c); [done|]. by destruct (Split s c). Qed.

Lemma Split_none s c : c ∉ s -> Split s c = [s].
Proof.
  induction s as [|x s IH]; simpl; [done|]. intros [? ?]%not_elem_of_cons.
  rewrite beqb_ne by done. by rewrite IH.
Qed.

Lemma Split_app w c s : c ∉ w -> Split (w ++ c :: s) c = w :: Split s c.
Proof.
  induction w as [|x w IH]; simpl; [by rewrite beqb_refl|].
  intros [? ?]%not_elem_of_cons. rewrite beqb_ne by done. by rewrite IH.
Qed.

Lemma Split_Join ws c :
  ws <> [] -> Forall (fun w => c ∉ w) ws -> Split (Join ws [c]) c = ws.
Proof.
  induction ws as [|w ws IH]; [done|]. intros _ [Hw Hws]%Forall_cons.
  destruct ws as [|w' ws]; [by apply Split_none|].
  change (Join (w :: w' :: ws) [c]) with (w ++ c :: Join (w' :: ws) [c]).
  rewrite Split_app by done. f_equal. by apply IH.
Qed.

Lemma Join_Split s c : Join (Split s c) [c] = s.
Proof.
  induction s as [|x s IH]; simpl; [done|].
  destruct (beqb_spec x c) as [->|].
  - pose proof (Split_nonempty s c). destruct (Split s c) eqn:E; [done|].
    simpl in *. by rewrite IH.
  - destruct (Split s c) as [|w ws] eqn:E; [by apply Split_nonempty in E|].
    destruct ws; simpl in *; by rewrite <- IH.
Qed.

Lemma Join_elem c ws sep : c ∈ Join ws sep -> c ∈ sep \/ exists w, w ∈ ws /\ c ∈ w.
Proof.
  induction ws as [|w ws IH]; [by intros ?%not_elem_of_nil|]. destruct ws as [|w' ws].
  - intros H. right. exists w. split; [constructor|done].
  - change (Join (w :: w' :: ws) sep) with (w ++ sep ++ Join (w' :: ws) sep).
    rewrite !elem_of_app. intros [H|[H|H]]; [|by left|].
    + right. exists w. split; [constructor|done].
    + destruct (IH H) as [?|(x & ? & ?)]; [by left|]. right. exists x. split; [by constructor|done].
Qed.

Lemma Split_pieces s c : Forall (fun w => c ∉ w) (Split s c).
Proof.
  induction s as [|x s IH]; simpl; [repeat constructor; apply not_elem_of_nil|].
  destruct (beqb_spec x c) as [->|].
  - constructor; [apply not_elem_of_nil|done].
  - destruct (Split s c) as [|w ws]; [repeat constructor; set_solver|].
    apply Forall_cons in IH as [? ?]. constructor; [|done]. set_solver.
Qed.

(** ** Facts about case *)

Lemma ascii_lower_idem c : ascii_lower (ascii_lower c) = ascii_lower c.
Proof. destruct c; reflexivity. Qed.
Lemma ascii_upper_idem c : ascii_upper (ascii_upper c) = ascii_upper c.
Proof. destruct c; reflexivity. Qed.

Lemma is_ascii_map f s :
  (forall c, (bz c <? 128) = true -> (bz (f c) <? 128) = true) ->
  is_ascii s = true -> is_ascii (map f s) = true.
Proof.
  intros Hf. unfold is_ascii. induction s as [|c s IH]; simpl; [done|].
  intros [? ?]%andb_true_iff. apply andb_true_iff. auto.
Qed.

Lemma ascii_upper_ascii c : (bz c <? 128) = true -> (bz (ascii_upper c) <? 128) = true.
Proof. destruct c; by vm_compute. Qed.
Lemma ascii_lower_ascii c : (bz c <? 128) = true -> (bz (ascii_lower c) <? 128) = true.
Proof. destruct c; by vm_compute. Qed.

Lemma EqualFold_ascii `{GoUnicode} s t :
  is_ascii s = true -> is_ascii t = true ->
  EqualFold s t = true <-> ToLower s = ToLower t.
Proof.
  intros Hs Ht. unfold ToLower. rewrite Hs, Ht. revert t Hs Ht.
  unfold is_ascii. induction s as [|x s IH]; intros [|y t]; simpl; try done.
  intros [Hx Hs]%andb_true_iff [Hy Ht]%andb_true_iff. rewrite Hx, Hy. simpl.
  rewrite andb_true_iff, IH by done.
  destruct (beqb_spec (ascii_lower x) (ascii_lower y)); naive_solver congruence.
Qed.

(** ** Facts about strconv *)

Lemma bz_digit d : 0 <= d < 10 -> bz (digit d) = 48 + d.
Proof. intros. unfold digit. rewrite bz_zb, Z.mod_small; lia. Qed.

Lemma is_digit_digit d : 0 <= d < 10 -> is_digit (digit d) = true.
Proof. intros. unfold is_digit. rewrite bz_digit by lia. lia. Qed.

Lemma is_digit_spec c : is_digit c = true <-> 48 <= bz c <= 57.
Proof. unfold is_digit. lia. Qed.

Lemma fmt_nat_digits fuel n :
  0 <= n -> Forall (fun c => is_digit c = true) (fmt_nat fuel n).
Proof.
  revert n. induction fuel as [|fuel IH]; intros n Hn; simpl; [constructor|].
  destruct (Z.ltb_spec n 10).
  - repeat constructor. by apply is_digit_digit.
  - apply Forall_app. split; [apply IH; apply Z.div_pos; lia|].
    repeat constructor. apply is_digit_digit, Z.mod_pos_bound. lia.
Qed.

Lemma parse_uint_loop_app acc s t :
  parse_uint_loop acc (s ++ t) =
  match parse_uint_loop acc s with
  | (v, None) => parse_uint_loop v t
  | e => e
  end.
Proof.
  revert acc. induction s as [|c s IH]; intros acc; [done|].
  simpl. destruct (is_digit c); [|done].
  destruct (_ <=? acc); [done|]. destruct (_ <? _); [done|]. apply IH.
Qed.

Lemma parse_fmt_nat fuel n :
  (0 < fuel)%nat -> 0 <= n <= max_u64 -> n < 10 ^ Z.of_nat fuel ->
  parse_uint_loop 0 (fmt_nat fuel n) = (n, None).
Proof.
  revert n. induction fuel as [|fuel IH]; intros n Hf Hn Hlt; [lia|]. simpl.
  destruct (Z.ltb_spec n 10).
  - simpl. rewrite is_digit_digit, bz_digit by lia. unfold max_u64 in *.
    replace (0 * 10 + (48 + n - 48)) with n by lia.
    by destruct (Z.ltb_spec (2 ^ 64 - 1) n); [lia|].
  - rewrite Nat2Z.inj_succ, Z.pow_succ_r in Hlt by lia.
    pose proof (Z.div_mod n 10 ltac:(lia)) as Hdm.
    pose proof (Z.mod_pos_bound n 10 ltac:(lia)).
    rewrite parse_uint_loop_app, IH; cycle 1.
    { destruct fuel; [simpl in Hlt; lia|lia]. }
    { lia. } { lia. }
    simpl. rewrite is_digit_digit, bz_digit by lia.
    replace (n / 10 * 10 + (48 + n mod 10 - 48)) with n by lia.
    unfold max_u64 in *.
    destruct (Z.leb_spec ((2 ^ 64 - 1) / 10 + 1) (n / 10)) as [Hc|_].
    { change ((2 ^ 64 - 1) / 10 + 1) with 1844674407370955162 in Hc. lia. }
    by destruct (Z.ltb_spec (2 ^ 64 - 1) n); [lia|].
Qed.

Lemma fmt_fuel_enough n : 0 <= n -> n < 10 ^ Z.of_nat (S (Z.to_nat (Z.log2 n))).
Proof.
  intros Hn. destruct (Z.eq_dec n 0) as [->|]; [done|].
  pose proof (Z.log2_spec n ltac:(lia)) as [_ Hlt].
  pose proof (Z.log2_nonneg n).
  replace (Z.of_nat (S (Z.to_nat (Z.log2 n)))) with (Z.succ (Z.log2 n)) by lia.
  eapply Z.lt_le_trans; [exact Hlt|]. apply Z.pow_le_mono_l. lia.
Qed.

Lemma ParseUint_fmt n : 0 <= n <= max_u64 -> ParseUint (fmt_uint n) = (n, None).
Proof.
  intros Hn. unfold ParseUint.
  assert (parse_uint_loop 0 (fmt_uint n) = (n, None)) as Hp.
  { apply parse_fmt_nat; [lia|lia|]. apply fmt_fuel_enough. lia. }
  destruct (fmt_uint n) eqn:E; [|done].
  unfold fmt_uint in E. simpl in E. case_match; [done|].
  by apply app_eq_nil in E as [_ ?].
Qed.

Lemma fmt_uint_digits n : 0 <= n -> Forall (fun c => is_digit c = true) (fmt_uint n).
Proof. apply fmt_nat_digits. Qed.

Lemma fmt_uint_head n :
  0 <= n -> exists c s, fmt_uint n = c :: s /\ is_digit c = true.
Proof.
  intros Hn. pose proof (fmt_uint_digits n Hn) as H.
  destruct (fmt_uint n) as [|c s] eqn:E.
  - unfold fmt_uint in E. simpl in E. case_match; [done|]. by apply app_eq_nil in E as [_ ?].
  - apply Forall_cons in H as [? _]. eauto.
Qed.

(** Printing an [int64] and parsing it back is the identity. *)
Lemma ParseInt_Itoa z : in_i64 z -> ParseInt (Itoa z) = (z, None).
Proof.
  unfold in_i64. intros Hz. unfold Itoa. destruct (Z.ltb_spec z 0).
  - simpl. rewrite ParseUint_fmt by (unfold max_u64; lia).
    destruct (Z.ltb_spec (2 ^ 63) (- z)); [lia|]. simpl. f_equal. lia.
  - destruct (fmt_uint_head z) as (c & s & E & Hc); [lia|]. rewrite E. unfold ParseInt.
    assert (beqb c "-"%byte = false /\ beqb c "+"%byte = false) as [-> ->].
    { split; destruct (beqb_spec c "-"%byte), (beqb_spec c "+"%byte); by subst. }
    simpl orb. cbv iota. rewrite <- E, ParseUint_fmt by (unfold max_u64; lia).
    destruct (Z.leb_spec (2 ^ 63) z); [lia|]. done.
Qed.

Lemma Itoa_chars z c : c ∈ Itoa z -> is_digit c = true \/ c = "-"%byte.
Proof.
  unfold Itoa. destruct (Z.ltb_spec z 0); intros Hc.
  - apply elem_of_cons in Hc as [->|Hc]; [by right|].
    left. eapply Forall_forall in Hc; [|apply fmt_uint_digits; lia]. done.
  - left. eapply Forall_forall in Hc; [|apply fmt_uint_digits; lia]. done.
Qed.

Lemma Itoa_not_in z c : is_digit c = false -> c <> "-"%byte -> c ∉ Itoa z.
Proof. intros ? ? [?|?]%Itoa_chars; congruence. Qed.

(** A parsed integer is in range. *)
Lemma parse_uint_loop_range acc s v e :
  0 <= acc <= max_u64 -> parse_uint_loop acc s = (v, e) -> 0 <= v <= max_u64.
Proof.
  revert acc. induction s as [|c s IH]; simpl; intros acc Ha H; [by simplify_eq|].
  destruct (is_digit c) eqn:Ec; [|simplify_eq; unfold max_u64; lia].
  apply is_digit_spec in Ec.
  destruct (Z.leb_spec (max_u64 / 10 + 1) acc); [simplify_eq; unfold max_u64; lia|].
  destruct (Z.ltb_spec max_u64 (acc * 10 + (bz c - 48))); [simplify_eq; unfold max_u64; lia|].
  eapply IH; [|done]. lia.
Qed.

Lemma ParseUint_range s v e : ParseUint s = (v, e) -> 0 <= v <= max_u64.
Proof.
  unfold ParseUint. intros H. case_match; [simplify_eq; unfold max_u64; lia|].
  eapply parse_uint_loop_range; [|done]. unfold max_u64; lia.
Qed.

Lemma ParseInt_range s v e : ParseInt s = (v, e) -> in_i64 v.
Proof.
  unfold ParseInt, in_i64. destruct s as [|c s]; [intros; simplify_eq; lia|]. intros H.
  destruct (ParseUint _) as [un eu] eqn:E. apply ParseUint_range in E.
  destruct (beqb c "-"%byte); simpl in H; destruct eu as [[]|]; simplify_eq; try lia;
    case_match; simplify_eq; lia.
Qed.

(** A decimal that starts with a digit is never negative. *)
Lemma Atoi_digit_first c s v e : is_digit c = true -> Atoi (c :: s) = (v, e) -> 0 <= v.
Proof.
  intros Hc. unfold Atoi, ParseInt.
  assert (beqb c "-"%byte = false) as ->.
  { destruct (beqb_spec c "-"%byte) as [->|]; [by vm_compute in Hc|done]. }
  intros H. simpl in H. destruct (ParseUint _) as [un eu] eqn:E. apply ParseUint_range in E.
  destruct eu as [[]|]; simplify_eq; try lia; case_match; simplify_eq; lia.
Qed.

(** ** Facts about UTF-8 *)

Lemma land_mask w z : 0 <= w -> Z.land z (Z.ones w) = z mod 2 ^ w.
Proof. intros. by apply Z.land_ones. Qed.

Lemma bz_zb_small z : 0 <= z < 256 -> bz (zb z) = z.
Proof. intros. rewrite bz_zb. by apply Z.mod_small. Qed.

Local Ltac utf8_bounds r :=
  pose proof (Z.mod_pos_bound r 64 eq_refl);
  pose proof (Z.mod_pos_bound (r / 64) 64 eq_refl);
  pose proof (Z.mod_pos_bound (r / 4096) 64 eq_refl).

Lemma decode_encode_valid r s :
  valid_rune r = true ->
  decode_rune (encode_valid r ++ s) = (r, length (encode_valid r)).
Proof.
  intros Hv. unfold encode_valid, valid_rune in *. utf8_bounds r.
  unfold decode_rune, cont.
  change 0x1F with (Z.ones 5). change 0x0F with (Z.ones 4).
  change 0x07 with (Z.ones 3). change 0x3F with (Z.ones 6).
  destruct (Z.ltb_spec r 0x80); [|destruct (Z.ltb_spec r 0x800); [|destruct (Z.ltb_spec r 0x10000)]];
    simpl app; cbv beta iota; rewrite ?land_mask by dlia; rewrite !bz_zb_small by dlia.
  - destruct (Z.ltb_spec r 128); [done|lia].
  - replace (_ && _) with true by dlia. replace (192 + r / 64 <? 128) with false by dlia.
    replace (_ && _) with true by dlia. f_equal. dlia.
  - replace (_ <? _) with false by dlia. replace (_ && _) with false by dlia.
    replace (_ && _) with true by dlia.
    destruct (Z.eqb_spec (224 + r / 4096) 224), (Z.eqb_spec (224 + r / 4096) 237);
      replace (_ && _ && _) with true by dlia; f_equal; dlia.
  - replace (_ <? _) with false by dlia. replace (_ && _) with false by dlia.
    replace (_ && _) with false by dlia. replace (_ && _) with true by dlia.
    destruct (Z.eqb_spec (240 + r / 262144) 240), (Z.eqb_spec (240 + r / 262144) 244);
      replace (_ && _ && _) with true by dlia; f_equal; dlia.
Qed.

Lemma encode_valid_nonempty r : exists c t, encode_valid r = c :: t.
Proof. unfold encode_valid. repeat case_match; eauto. Qed.

Lemma encode_rune_valid r : valid_rune r = true -> encode_rune r = encode_valid r.
Proof. unfold encode_rune. by intros ->. Qed.

Lemma range_runes_encode fuel i rs :
  Forall (fun r => valid_rune r = true) rs ->
  (length (flat_map encode_rune rs) <= fuel)%nat ->
  (range_runes fuel i (flat_map encode_rune rs)).*2 = rs.
Proof.
  intros Hv. revert fuel i. induction Hv as [|r rs Hr Hrs IH]; intros fuel i Hlen.
  - simpl. by destruct fuel.
  - cbn [flat_map] in *. rewrite encode_rune_valid in * by done.
    pose proof (decode_encode_valid r (flat_map encode_rune rs) Hr) as Hd.
    destruct (encode_valid_nonempty r) as (c & t & E).
    rewrite length_app in Hlen. destruct fuel as [|fuel]; [rewrite E in Hlen; simpl in Hlen; lia|].
    rewrite E in *. cbn [app range_runes]. cbn [app] in Hd. rewrite Hd. simpl. f_equal.
    rewrite drop_app_length. apply IH. simpl in Hlen. lia.
Qed.

(** Decoding a sequence of encoded scalar values gives it back. *)
Lemma runes_encode rs :
  Forall (fun r => valid_rune r = true) rs -> runes (flat_map encode_rune rs) = rs.
Proof. intros. by apply range_runes_encode. Qed.

Lemma decode_rune_ascii c s : bz c < 128 -> decode_rune (c :: s) = (bz c, 1%nat).
Proof. intros H. unfold decode_rune. by destruct (Z.ltb_spec (bz c) 0x80); [|lia]. Qed.

Lemma decode_rune_width c s : (1 <= (decode_rune (c :: s)).2)%nat.
Proof. unfold decode_rune. repeat case_match; simpl; lia. Qed.

(** A rune below 0x80 is the single byte itself. *)
Lemma decode_rune_small c s : (decode_rune (c :: s)).1 < 128 -> bz c < 128.
Proof.
  intros H. destruct (Z.ltb_spec (bz c) 128); [done|]. revert H.
  pose proof (bz_range c). unfold decode_rune.
  change 0x1F with (Z.ones 5). change 0x0F with (Z.ones 4).
  change 0x07 with (Z.ones 3). change 0x3F with (Z.ones 6).
  unfold RuneError, cont.
  repeat case_match; simpl; try lia; rewrite !land_mask by lia; dlia.
Qed.

Lemma runes_ascii s : is_ascii s = true -> runes s = map bz s.
Proof.
  unfold runes, is_ascii. intros Hs.
  assert (forall i fuel, (length s <= fuel)%nat -> (range_runes fuel i s).*2 = map bz s) as H;
    [|by apply H].
  induction s as [|c s IH]; intros i fuel Hf; [by destruct fuel|].
  simpl in Hs. apply andb_true_iff in Hs as [Hc Hs].
  destruct fuel as [|fuel]; [simpl in Hf; lia|].
  cbn [range_runes]. rewrite decode_rune_ascii by lia. simpl. f_equal. apply IH; [done|].
  simpl in Hf. lia.
Qed.

Lemma ReadFull_app s t : ReadFull (s ++ t) (length s) = Ok (s, t).
Proof.
  unfold ReadFull. rewrite (proj2 (Nat.leb_le _ _)) by (rewrite length_app; lia).
  by rewrite take_app_length, drop_app_length.
Qed.

Lemma ReadFull_app_n s t n : length s = n -> ReadFull (s ++ t) n = Ok (s, t).
Proof. intros <-. apply ReadFull_app. Qed.

Lemma ReadFull_inv r n s r' : ReadFull r n = Ok (s, r') -> r = s ++ r' /\ length s = n.
Proof.
  unfold ReadFull. destruct (Nat.leb_spec n (length r)); [|by destruct r].
  intros [= <- <-]. rewrite take_drop, length_take. split; [done|lia].
Qed.

Lemma ReadString_app p c s : c ∉ p -> ReadString (p ++ c :: s) c = Ok (p ++ [c], s).
Proof.
  intros H. unfold ReadString. rewrite IndexByte_app by done.
  rewrite (cons_middle c p s), app_assoc.
  rewrite take_app_length' by (rewrite length_app; simpl; lia).
  by rewrite drop_app_length' by (rewrite length_app; simpl; lia).
Qed.

Lemma ReadString_shorter r c s r' :
  ReadString r c = Ok (s, r') -> (length r' < length r)%nat.
Proof.
  unfold ReadString. destruct (IndexByte r c) eqn:E; [|done]. intros [= _ <-].
  apply IndexByte_lt in E. rewrite length_drop. lia.
Qed.
