(* ===== verification/GoSort.v ===== *)
(** * Ordering of Go strings

    The byte-wise order of strings and [sort.Strings] ([slices.Sort] on strings). *)

From S2P Require Import Prelude.

(** The byte-wise order of Go strings. *)
Fixpoint str_leb (s t : bytes) : bool :=
  match s, t with
  | [], _ => true
  | _ :: _, [] => false
  | x :: s', y :: t' =>
      if bz x <? bz y then true else if bz y <? bz x then false else str_leb s' t'
  end.
Definition str_le (s t : bytes) : Prop := str_leb s t = true.
#[export] Instance str_le_dec : RelDecision str_le.
Proof. intros s t. unfold str_le. apply _. Defined.

(** [sort.Strings]. *)
Definition sort_strings (l : list bytes) : list bytes := merge_sort str_le l.

#[export] Instance str_le_total : Total str_le.
Proof.
  intros s. unfold str_le. induction s as [|x s IH]; intros [|y t]; simpl; auto.
  destruct (Z.ltb_spec (bz x) (bz y)), (Z.ltb_spec (bz y) (bz x)); auto.
Qed.

#[export] Instance str_le_trans : Transitive str_le.
Proof.
  intros s. unfold str_le. induction s as [|x s IH]; intros [|y t] [|z u]; simpl; auto; [done|].
  repeat match goal with |- context [bz ?a <? bz ?b] => destruct (Z.ltb_spec (bz a) (bz b)) end;
    try done; try lia. apply IH.
Qed.

#[export] Instance str_le_antisymm : AntiSymm (=) str_le.
Proof.
  intros s. unfold str_le. induction s as [|x s IH]; intros [|y t]; simpl; try done.
  destruct (Z.ltb_spec (bz x) (bz y)), (Z.ltb_spec (bz y) (bz x)); try done; try lia.
  intros. f_equal; [apply bz_inj; lia|auto].
Qed.

Lemma sort_strings_perm l : sort_strings l ≡ₚ l.
Proof. apply merge_sort_Permutation. Qed.

Lemma sort_strings_sorted l : Sorted str_le (sort_strings l).
Proof. apply Sorted_merge_sort, _. Qed.

(** Sorting depends only on the set of keys, not on the iteration order. *)
Lemma sort_strings_unique l l' : l ≡ₚ l' -> sort_strings l = sort_strings l'.
Proof.
  intros H. apply (Sorted_unique str_le); [apply sort_strings_sorted..|].
  by rewrite !sort_strings_perm.
Qed.

Lemma sort_strings_id l : Sorted str_le l -> sort_strings l = l.
Proof.
  intros. apply (Sorted_unique str_le); [apply sort_strings_sorted|done|apply sort_strings_perm].
Qed.
