(* ===== verification/Bencode.v ===== *)
(** * torrent/bencode: the bencoding serialiser and parser

    [Decode] runs over a [bufio.Reader], here the bytes still to be read.  A Go
    [map[string]any] is an association list in iteration order, so nothing the
    encoder does may depend on that order.  The three mutually recursive
    decoders take fuel; [decode_total] shows that [2 * length + 1] is enough. *)

From S2P Require Import Prelude GoStrings GoSort.

(** Values of type [any] that reach this package. *)
Inductive value :=
| VInt64 (n : Z)
| VInt (n : Z)
| VStr (s : bytes)
| VBytes (s : bytes)
| VList (l : list value)
| VDict (m : list (bytes * value))
| VOther (ty : bytes).

Inductive berr :=
| EIO (e : io_err)
| EUnexpected (c : byte)
| EReadInt (e : io_err)
| ENegativeZero
| EInvalidInt (s : bytes) (e : num_err)
| EReadLength (e : io_err)
| EInvalidLength (s : bytes) (e : num_err)
| EReadData (e : io_err)
| EReadList (e : io_err)
| EReadDict (e : io_err)
| EDictKey (e : berr)
| EDictValue (key : bytes) (e : berr).

(* ------------------------------------------------------------------ *)
(** ** Go maps as association lists *)

(** [m[k] = v]. *)
Fixpoint map_set {A} (m : list (bytes * A)) (k : bytes) (v : A) : list (bytes * A) :=
  match m with
  | [] => [(k, v)]
  | (k', v') :: m' => if seqb k' k then (k, v) :: m' else (k', v') :: map_set m' k v
  end.

(** [v, ok := m[k]]. *)
Fixpoint map_get {A} (m : list (bytes * A)) (k : bytes) : option A :=
  match m with
  | [] => None
  | (k', v') :: m' => if seqb k' k then Some v' else map_get m' k
  end.

(* ------------------------------------------------------------------ *)
(** ** Decoding *)

Definition decodeInt (r : bytes) : res berr (Z * bytes) :=
  let! (s, r') := res_wrap EReadInt (ReadString r "e"%byte) in
  let s := take (length s - 1) s in
  if seqb s (str "-0") then Err ENegativeZero
  else match ParseInt s with
       | (n, None) => Ok (n, r')
       | (_, Some e) => Err (EInvalidInt s e)
       end.

Definition decodeString (r : bytes) : res berr (bytes * bytes) :=
  let! (lenStr, r') := res_wrap EReadLength (ReadString r ":"%byte) in
  let lenStr := take (length lenStr - 1) lenStr in
  match Atoi lenStr with
  | (_, Some e) => Err (EInvalidLength lenStr e)
  | (n, None) =>
      if makeslice_ok n then res_wrap EReadData (ReadFull r' (Z.to_nat n)) else Panic
  end.

(** [None] is the model running out of fuel. *)
Fixpoint decode (fuel : nat) (r : bytes) : option (res berr (value * bytes)) :=
  match fuel with
  | O => None
  | S fuel' =>
      match ReadByte r with
      | Err e => Some (Err (EIO e))
      | Panic => Some Panic
      | Ok (b, r') =>
          if beqb b "i"%byte then
            Some (let! (n, r2) := decodeInt r' in Ok (VInt64 n, r2))
          else if beqb b "l"%byte then decodeList fuel' [] r'
          else if beqb b "d"%byte then decodeDict fuel' [] r'
          else if is_digit b then
            (* UnreadByte: decodeString starts again at the first digit *)
            Some (let! (s, r2) := decodeString r in Ok (VStr s, r2))
          else Some (Err (EUnexpected b))
      end
  end
with decodeList (fuel : nat) (list : list value) (r : bytes) : option (res berr (value * bytes)) :=
  match fuel with
  | O => None
  | S fuel' =>
      match ReadByte r with
      | Err e => Some (Err (EReadList e))
      | Panic => Some Panic
      | Ok (b, r') =>
          if beqb b "e"%byte then Some (Ok (VList list, r'))
          else match decode fuel' r with
               | Some (Ok (val, r2)) => decodeList fuel' (list ++ [val]) r2
               | other => other
               end
      end
  end
with decodeDict (fuel : nat) (m : list (bytes * value)) (r : bytes) : option (res berr (value * bytes)) :=
  match fuel with
  | O => None
  | S fuel' =>
      match ReadByte r with
      | Err e => Some (Err (EReadDict e))
      | Panic => Some Panic
      | Ok (b, r') =>
          if beqb b "e"%byte then Some (Ok (VDict m, r'))
          else match decodeString r with
               | Err e => Some (Err (EDictKey e))
               | Panic => Some Panic
               | Ok (key, r1) =>
                   match decode fuel' r1 with
                   | Some (Ok (val, r2)) => decodeDict fuel' (map_set m key val) r2
                   | Some (Err e) => Some (Err (EDictValue key e))
                   | other => other
                   end
               end
      end
  end.

Definition decode_fuel (r : bytes) : nat := 2 * length r + 1.
Definition Decode (r : bytes) : option (res berr (value * bytes)) := decode (decode_fuel r) r.

(* ------------------------------------------------------------------ *)
(** ** Encoding *)

Inductive enc_err := EUnsupported (ty : bytes).

Definition enc_str (s : bytes) : bytes := Itoa (blen s) ++ str ":" ++ s.
Definition enc_int (n : Z) : bytes := str "i" ++ Itoa n ++ str "e".

(** The items of a list, then the closing ['e']; stops at the first error. *)
Fixpoint encode_items (items : list (bytes -> bytes * option enc_err)) (w : bytes)
    : bytes * option enc_err :=
  match items with
  | [] => (w ++ str "e", None)
  | f :: items' => match f w with
                   | (w', None) => encode_items items' w'
                   | failed => failed
                   end
  end.

(** The keys in order, each followed by [val[k]], then the closing ['e']. *)
Fixpoint encode_entries (keys : list bytes) (val : list (bytes * (bytes -> bytes * option enc_err)))
    (w : bytes) : bytes * option enc_err :=
  match keys with
  | [] => (w ++ str "e", None)
  | k :: keys' =>
      let w1 := w ++ enc_str k in
      match map_get val k with
      | None => (w1, Some (EUnsupported (str "<nil>")))
      | Some f => match f w1 with
                  | (w2, None) => encode_entries keys' val w2
                  | failed => failed
                  end
      end
  end.

(** [Encode(w, v)]: what has been written to [w], and the error. *)
Fixpoint Encode (v : value) (w : bytes) : bytes * option enc_err :=
  match v with
  | VInt64 n | VInt n => (w ++ enc_int n, None)
  | VStr s | VBytes s => (w ++ enc_str s, None)
  | VList l => encode_items (map Encode l) (w ++ str "l")
  | VDict m =>
      encode_entries (sort_strings (map fst m)) (map (fun '(k, x) => (k, Encode x)) m)
        (w ++ str "d")
  | VOther ty => (w, Some (EUnsupported ty))
  end.

Definition EncodeToString (v : value) : res enc_err bytes :=
  match Encode v [] with
  | (s, None) => Ok s
  | (_, Some e) => Err e
  end.

(* ------------------------------------------------------------------ *)
(** ** Induction over values *)

Section ValueInd.
Context (P : value -> Prop).
Context (Hint64 : forall n, P (VInt64 n)) (Hint : forall n, P (VInt n)).
Context (Hstr : forall s, P (VStr s)) (Hbytes : forall s, P (VBytes s)).
Context (Hlist : forall l, Forall P l -> P (VList l)).
Context (Hdict : forall m, Forall (fun e => P e.2) m -> P (VDict m)).
Context (Hother : forall ty, P (VOther ty)).

Fixpoint value_rect_nested (v : value) : P v :=
  match v with
  | VInt64 n => Hint64 n
  | VInt n => Hint n
  | VStr s => Hstr s
  | VBytes s => Hbytes s
  | VList l => Hlist l
      ((fix go l : Forall P l :=
          match l with
          | [] => Forall_nil_2 _
          | x :: l' => Forall_cons_2 _ _ _ (value_rect_nested x) (go l')
          end) l)
  | VDict m => Hdict m
      ((fix go m : Forall (fun e => P e.2) m :=
          match m with
          | [] => Forall_nil_2 _
          | (k, x) :: m' => Forall_cons_2 _ (k, x) _ (value_rect_nested x) (go m')
          end) m)
  | VOther ty => Hother ty
  end.
End ValueInd.

(* ------------------------------------------------------------------ *)
(** ** The order of keys *)

(** Entries ordered by key. *)
Definition entry_le {A} (e f : bytes * A) : Prop := str_le e.1 f.1.
#[export] Instance entry_le_dec {A} : RelDecision (@entry_le A).
Proof. intros e f. unfold entry_le. apply _. Defined.
#[export] Instance entry_le_total {A} : Total (@entry_le A).
Proof. intros e f. apply str_le_total. Qed.
#[export] Instance entry_le_trans {A} : Transitive (@entry_le A).
Proof. intros e f g. apply str_le_trans. Qed.
Definition sort_entries {A} (m : list (bytes * A)) : list (bytes * A) := merge_sort entry_le m.

Lemma sort_entries_perm {A} (m : list (bytes * A)) : sort_entries m ≡ₚ m.
Proof. apply merge_sort_Permutation. Qed.

Lemma sort_entries_keys {A} (m : list (bytes * A)) :
  map fst (sort_entries m) = sort_strings (map fst m).
Proof.
  apply (Sorted_unique str_le).
  - apply (Sorted_fmap fst entry_le); [done|]. apply Sorted_merge_sort, _.
  - apply sort_strings_sorted.
  - rewrite sort_strings_perm. by rewrite sort_entries_perm.
Qed.

(* ------------------------------------------------------------------ *)
(** ** Association lists as maps *)

Lemma map_get_elem {A} (m : list (bytes * A)) k v :
  NoDup (map fst m) -> (k, v) ∈ m -> map_get m k = Some v.
Proof.
  induction m as [|[k' v'] m IH]; simpl; [by intros _ ?%elem_of_nil|].
  intros [Hk Hn]%NoDup_cons [[= <- <-]|Hin]%elem_of_cons; [by rewrite seqb_refl|].
  rewrite seqb_ne; [by apply IH|]. intros ->. apply Hk.
  change k with (fst (k, v)). by apply list_elem_of_fmap_2.
Qed.

Lemma map_get_In {A} (m : list (bytes * A)) k v : map_get m k = Some v -> (k, v) ∈ m.
Proof.
  induction m as [|[k' v'] m IH]; simpl; [done|].
  destruct (seqb_spec k' k); intros ?; simplify_eq; constructor. auto.
Qed.

Lemma map_get_perm {A} (m m' : list (bytes * A)) k :
  NoDup (map fst m) -> m ≡ₚ m' -> map_get m k = map_get m' k.
Proof.
  intros Hn Hp. assert (NoDup (map fst m')) as Hn' by (by rewrite <- Hp).
  destruct (map_get m' k) as [v|] eqn:E.
  - apply map_get_elem; [done|]. rewrite Hp. by apply map_get_In.
  - clear Hn Hn'. destruct (map_get m k) as [v|] eqn:E'; [|done]. exfalso.
    assert ((k, v) ∈ m') as Hin by (rewrite <- Hp; by apply map_get_In).
    clear -E Hin. induction m' as [|[k' v'] m' IH]; [by apply elem_of_nil in Hin|].
    simpl in E. destruct (seqb_spec k' k) as [|Hne]; [done|].
    apply elem_of_cons in Hin as [?|?]; [naive_solver|auto].
Qed.

Lemma map_set_fresh {A} (m : list (bytes * A)) k v :
  k ∉ map fst m -> map_set m k v = m ++ [(k, v)].
Proof.
  induction m as [|[k' v'] m IH]; simpl; [done|]. intros [? ?]%not_elem_of_cons.
  rewrite seqb_ne by done. by rewrite IH.
Qed.

Lemma map_get_set_eq {A} (m : list (bytes * A)) k v : map_get (map_set m k v) k = Some v.
Proof.
  induction m as [|[k' v'] m IH]; simpl; [by rewrite seqb_refl|].
  destruct (seqb_spec k' k); simpl; [by rewrite seqb_refl|]. by rewrite seqb_ne.
Qed.

Lemma map_get_set_ne {A} (m : list (bytes * A)) k k' v :
  k <> k' -> map_get (map_set m k v) k' = map_get m k'.
Proof.
  intros Hne. induction m as [|[k0 v0] m IH]; simpl; [by rewrite seqb_ne|].
  destruct (seqb_spec k0 k) as [->|]; simpl; [by rewrite seqb_ne|].
  destruct (seqb k0 k'); auto.
Qed.

Lemma map_get_fmap {A B} (f : A -> B) (m : list (bytes * A)) k :
  map_get (map (fun '(k, x) => (k, f x)) m) k = f <$> map_get m k.
Proof. induction m as [|[k' v'] m IH]; simpl; [done|]. by destruct (seqb k' k). Qed.

Lemma map_fst_entries {A B} (f : A -> B) (m : list (bytes * A)) :
  map fst (map (fun '(k, x) => (k, f x)) m) = map fst m.
Proof. induction m as [|[k' v'] m IH]; simpl; [done|]. by rewrite IH. Qed.

(* ------------------------------------------------------------------ *)
(** ** Every decoder consumes input, and the fuel is enough *)

Lemma decodeInt_shorter r n r' : decodeInt r = Ok (n, r') -> (length r' < length r)%nat.
Proof.
  unfold decodeInt. destruct (ReadString r _) as [[s r1]| |] eqn:E; simpl; try done.
  apply ReadString_shorter in E. intros H. inv_code H. lia.
Qed.

Lemma ReadFull_shorter r n s r' : ReadFull r n = Ok (s, r') -> (length r' <= length r)%nat.
Proof.
  unfold ReadFull. intros H. case_match; [|by case_match]. simplify_eq.
  rewrite length_drop. lia.
Qed.

Lemma decodeString_shorter r s r' : decodeString r = Ok (s, r') -> (length r' < length r)%nat.
Proof.
  unfold decodeString. destruct (ReadString r _) as [[l r1]| |] eqn:E; simpl; try done.
  apply ReadString_shorter in E. intros H. case_match. case_match; [done|]. case_match; [|done].
  destruct (ReadFull r1 _) as [[? ?]| |] eqn:F; simplify_eq/=. apply ReadFull_shorter in F. lia.
Qed.

Definition returns (r : bytes) (o : option (res berr (value * bytes))) : Prop :=
  exists out, o = Some out /\ forall v r', out = Ok (v, r') -> (length r' < length r)%nat.

Lemma returns_done r out : (forall v r', out = Ok (v, r') -> (length r' < length r)%nat) ->
  returns r (Some out).
Proof. intros H. by exists out. Qed.

Lemma returns_weaken r r1 o : (length r1 <= length r)%nat -> returns r1 o -> returns r o.
Proof. intros Hl (out & -> & H). exists out. split; [done|]. intros v r' E. apply H in E. lia. Qed.

Lemma decode_returns fuel :
  (forall r, (2 * length r + 1 <= fuel)%nat -> returns r (decode fuel r)) /\
  (forall acc r, (2 * length r + 2 <= fuel)%nat -> returns r (decodeList fuel acc r)) /\
  (forall m r, (2 * length r + 2 <= fuel)%nat -> returns r (decodeDict fuel m r)).
Proof.
  induction fuel as [|fuel (IHd & IHl & IHm)]; [repeat split; intros; lia|].
  repeat split.
  - intros [|b r] Hf; simpl in *; [by apply returns_done|].
    destruct (beqb b "i"%byte).
    { apply returns_done. intros v r'. destruct (decodeInt r) as [[n r1]| |] eqn:E; simpl; try done.
      intros [= _ ->]. apply decodeInt_shorter in E. simpl; lia. }
    destruct (beqb b "l"%byte); [eapply returns_weaken; [|apply IHl; lia]; simpl; lia|].
    destruct (beqb b "d"%byte); [eapply returns_weaken; [|apply IHm; lia]; simpl; lia|].
    destruct (is_digit b); [|by apply returns_done].
    apply returns_done. intros v r'. destruct (decodeString _) as [[s r1]| |] eqn:E; simpl; try done.
    intros [= _ ->]. by apply decodeString_shorter in E.
  - intros acc [|b r] Hf; simpl in *; [by apply returns_done|].
    destruct (beqb b "e"%byte); [apply returns_done; intros ? ? [= _ <-]; simpl; lia|].
    destruct (IHd (b :: r)) as (out & -> & Hout); [simpl; lia|].
    destruct out as [[v r2]| |]; [|by apply returns_done..].
    specialize (Hout v r2 eq_refl). simpl in Hout.
    eapply returns_weaken; [|apply IHl; lia]. simpl; lia.
  - intros m [|b r] Hf; simpl in *; [by apply returns_done|].
    destruct (beqb b "e"%byte); [apply returns_done; intros ? ? [= _ <-]; simpl; lia|].
    destruct (decodeString (b :: r)) as [[k r1]| |] eqn:E; [|by apply returns_done..].
    apply decodeString_shorter in E. simpl in E.
    destruct (IHd r1) as (out & -> & Hout); [lia|].
    destruct out as [[v r2]| |]; [|by apply returns_done..].
    specialize (Hout v r2 eq_refl).
    eapply returns_weaken; [|apply IHm; lia]. simpl; lia.
Qed.

Lemma decode_fuel_mono fuel :
  (forall r x, decode fuel r = Some x -> decode (S fuel) r = Some x) /\
  (forall acc r x, decodeList fuel acc r = Some x -> decodeList (S fuel) acc r = Some x) /\
  (forall m r x, decodeDict fuel m r = Some x -> decodeDict (S fuel) m r = Some x).
Proof.
  induction fuel as [|fuel (IHd & IHl & IHm)]; [done|].
  repeat split.
  - intros [|b r] x; [done|]. cbn [decode ReadByte].
    destruct (beqb b "i"%byte); [done|]. destruct (beqb b "l"%byte); [apply IHl|].
    destruct (beqb b "d"%byte); [apply IHm|]. done.
  - intros acc [|b r] x; [done|]. cbn [decodeList ReadByte].
    destruct (beqb b "e"%byte); [done|].
    destruct (decode fuel (b :: r)) as [y|] eqn:E; [|done].
    rewrite (IHd _ _ E). destruct y as [[v r2]| |]; [apply IHl|done..].
  - intros m [|b r] x; [done|]. cbn [decodeDict ReadByte].
    destruct (beqb b "e"%byte); [done|].
    destruct (decodeString _) as [[k r1]| |]; [|done..].
    destruct (decode fuel r1) as [y|] eqn:E; [|done].
    rewrite (IHd _ _ E). destruct y as [[v r2]| |]; [apply IHm|done..].
Qed.

Lemma decode_fuel_le fuel fuel' r x :
  (fuel <= fuel')%nat -> decode fuel r = Some x -> decode fuel' r = Some x.
Proof.
  induction 1 as [|fuel' Hle IH]; [done|]. intros Hd. apply decode_fuel_mono. auto.
Qed.

(* ------------------------------------------------------------------ *)
(** ** The reference encoding *)

(** What the decoder returns for an encoded value: dictionaries in key order,
    [int] as [int64] and [[]byte] as [string]. *)
Fixpoint canon (v : value) : value :=
  match v with
  | VInt64 n | VInt n => VInt64 n
  | VStr s | VBytes s => VStr s
  | VList l => VList (map canon l)
  | VDict m => VDict (sort_entries (map (fun '(k, x) => (k, canon x)) m))
  | VOther ty => VOther ty
  end.

Definition enc_entry (e : bytes * bytes) : bytes := enc_str e.1 ++ e.2.

(** BEP 3 bencoding, as one string. *)
Fixpoint enc (v : value) : bytes :=
  match v with
  | VInt64 n | VInt n => enc_int n
  | VStr s | VBytes s => enc_str s
  | VList l => str "l" ++ concat (map enc l) ++ str "e"
  | VDict m =>
      str "d" ++ concat (map enc_entry (sort_entries (map (fun '(k, x) => (k, enc x)) m))) ++ str "e"
  | VOther _ => []
  end.

(** Values the encoder supports and a 64-bit Go program can hold: integers in
    range, strings that can be allocated, map keys distinct. *)
Fixpoint wf_value (v : value) : bool :=
  match v with
  | VInt64 n | VInt n => bool_decide (in_i64 n)
  | VStr s | VBytes s => blen s <=? max_alloc
  | VList l => forallb wf_value l
  | VDict m =>
      bool_decide (NoDup (map fst m)) &&
      forallb (fun '(k, x) => (blen k <=? max_alloc) && wf_value x) m
  | VOther _ => false
  end.

Lemma encode_items_spec {A} (f : A -> bytes -> bytes * option enc_err) (g : A -> bytes) l w :
  Forall (fun x => forall w, f x w = (w ++ g x, None)) l ->
  encode_items (map f l) w = (w ++ concat (map g l) ++ str "e", None).
Proof.
  intros H. revert w. induction H as [|x l Hx _ IH]; intros w; simpl; [done|].
  rewrite Hx, IH. by rewrite <- !app_assoc.
Qed.

Lemma encode_entries_spec es val w :
  Forall (fun e => exists f, map_get val e.1 = Some f /\ forall w, f w = (w ++ e.2, None)) es ->
  encode_entries (map fst es) val w = (w ++ concat (map enc_entry es) ++ str "e", None).
Proof.
  intros H. revert w. induction H as [|[k e] es (f & Hg & Hf) _ IH]; intros w; simpl in *; [done|].
  rewrite Hg, Hf, IH. unfold enc_entry. simpl. by rewrite <- !app_assoc.
Qed.

Lemma forallb_Forall {A} (p : A -> bool) l : forallb p l = true <-> Forall (fun x => p x = true) l.
Proof. rewrite forallb_forall, Forall_forall. by setoid_rewrite list_elem_of_In. Qed.

Lemma wf_dict_inv m :
  wf_value (VDict m) = true ->
  NoDup (map fst m) /\ Forall (fun e => blen e.1 <= max_alloc /\ wf_value e.2 = true) m.
Proof.
  simpl. intros [Hn%bool_decide_eq_true Hf%forallb_Forall]%andb_true_iff. split; [done|].
  eapply Forall_impl; [exact Hf|]. intros [k x] [? ?]%andb_true_iff. simpl. split; [lia|done].
Qed.

(** The writer-passing encoder computes the reference encoding. *)
Lemma Encode_enc v w : wf_value v = true -> Encode v w = (w ++ enc v, None).
Proof.
  revert w. induction v as [n|n|s|s|l IH|m IH|ty] using value_rect_nested;
    intros w Hwf; try done.
  - simpl in Hwf. apply forallb_Forall in Hwf. cbn [Encode enc].
    rewrite (encode_items_spec Encode enc); [by rewrite <- !app_assoc|].
    eapply Forall_impl; [apply Forall_and; exact (conj IH Hwf)|]. naive_solver.
  - apply wf_dict_inv in Hwf as [Hn Hf]. cbn [Encode enc].
    set (es := sort_entries (map (fun '(k, x) => (k, enc x)) m)).
    rewrite <- (map_fst_entries enc m), <- sort_entries_keys. fold es.
    rewrite encode_entries_spec; [by rewrite <- !app_assoc|].
    apply Forall_forall. intros [k e] Hin. simpl.
    unfold es in Hin. rewrite sort_entries_perm in Hin.
    apply list_elem_of_fmap in Hin as ([k' x] & [= -> ->] & Hin).
    exists (Encode x). rewrite map_get_fmap, (map_get_elem m k' x) by done. split; [done|].
    intros w'. rewrite Forall_forall in IH, Hf.
    apply (IH _ Hin). apply (Hf _ Hin).
Qed.

Lemma EncodeToString_enc v : wf_value v = true -> EncodeToString v = Ok (enc v).
Proof. intros. unfold EncodeToString. by rewrite Encode_enc. Qed.

(* ------------------------------------------------------------------ *)
(** ** Decoding what the encoder wrote *)

Lemma chop_last (p : bytes) c : take (length (p ++ [c]) - 1) (p ++ [c]) = p.
Proof. rewrite length_app. simpl. by rewrite Nat.add_sub, take_app_length. Qed.

Lemma Itoa_not_neg_zero n : in_i64 n -> Itoa n <> str "-0".
Proof.
  intros Hn E. pose proof (ParseInt_Itoa n Hn) as H. rewrite E in H. vm_compute in H.
  by simplify_eq.
Qed.

Lemma decodeInt_enc n rest : in_i64 n -> decodeInt (Itoa n ++ "e"%byte :: rest) = Ok (n, rest).
Proof.
  intros Hn. unfold decodeInt. rewrite ReadString_app by by apply Itoa_not_in.
  simpl res_wrap. cbn [res_bind]. rewrite chop_last.
  rewrite seqb_ne by by apply Itoa_not_neg_zero. by rewrite ParseInt_Itoa.
Qed.

Lemma decodeString_enc s rest :
  blen s <= max_alloc -> decodeString (enc_str s ++ rest) = Ok (s, rest).
Proof.
  intros Hs. pose proof (blen_nonneg s). unfold decodeString, enc_str.
  rewrite <- app_assoc. change (str ":" ++ s) with (":"%byte :: s).
  change ((":"%byte :: s) ++ rest) with (":"%byte :: (s ++ rest)).
  rewrite ReadString_app by by apply Itoa_not_in.
  simpl res_wrap. cbn [res_bind]. rewrite chop_last. unfold Atoi.
  rewrite ParseInt_Itoa by (unfold in_i64, max_alloc in *; lia).
  unfold makeslice_ok. replace (_ && _) with true by lia.
  unfold ReadFull, blen. rewrite Nat2Z.id, length_app.
  rewrite (proj2 (Nat.leb_le _ _)) by lia. simpl.
  by rewrite take_app_length, drop_app_length.
Qed.

Lemma enc_str_head s : exists c t, enc_str s = c :: t /\ is_digit c = true.
Proof.
  unfold enc_str, Itoa. pose proof (blen_nonneg s).
  destruct (Z.ltb_spec (blen s) 0); [lia|].
  destruct (fmt_uint_head (blen s)) as (c & t & -> & Hc); [done|]. by eexists _, _.
Qed.

Lemma digit_neq c d : is_digit c = true -> is_digit d = false -> beqb c d = false.
Proof. intros ? ?. apply beqb_ne. congruence. Qed.

Lemma enc_head v : wf_value v = true -> exists c t, enc v = c :: t /\ beqb c "e"%byte = false.
Proof.
  intros Hv. destruct v as [n|n|s|s|l|m|ty]; try done; try by eexists _, _.
  all: destruct (enc_str_head s) as (c & t & E & Hc); exists c, t; split; [done|].
  all: by apply digit_neq.
Qed.

Lemma sort_entries_map {A B} (f : A -> B) (m : list (bytes * A)) :
  NoDup (map fst m) ->
  sort_entries (map (fun '(k, x) => (k, f x)) m) = map (fun '(k, x) => (k, f x)) (sort_entries m).
Proof.
  intros Hn. set (g := fun '(k, x) => (k, f x)).
  assert (forall e, (g e).1 = e.1) as Hg by by intros [k x].
  assert (NoDup (map fst (map g m))) as Hn'.
  { unfold g. by rewrite map_fst_entries. }
  apply (StronglySorted_unique_strong entry_le).
  - intros [k1 x1] [k2 x2] H1 H2 Hle1 Hle2.
    rewrite sort_entries_perm in H1.
    assert ((k2, x2) ∈ map g m) as H2'.
    { apply list_elem_of_fmap in H2 as (e & -> & He). rewrite sort_entries_perm in He.
      by apply list_elem_of_fmap_2. }
    assert (k1 = k2) as <- by by apply (anti_symm str_le).
    apply map_get_elem in H1, H2'; [|done..]. congruence.
  - apply StronglySorted_merge_sort; apply _.
  - apply (StronglySorted_fmap g entry_le).
    { intros e1 e2. unfold entry_le. by rewrite !Hg. }
    apply StronglySorted_merge_sort; apply _.
  - rewrite sort_entries_perm. by rewrite sort_entries_perm.
Qed.

Definition decodes (x : value) : Prop :=
  exists f, forall rest, decode f (enc x ++ rest) = Some (Ok (canon x, rest)).

Lemma decodeList_enc l :
  Forall (fun x => wf_value x = true /\ decodes x) l ->
  exists f, forall acc rest,
    decodeList f acc (concat (map enc l) ++ "e"%byte :: rest)
    = Some (Ok (VList (acc ++ map canon l), rest)).
Proof.
  induction 1 as [|x l [Hwf [f1 Hf1]] _ [f2 Hf2]].
  { exists 1%nat. intros. simpl. by rewrite app_nil_r. }
  exists (S (f1 + f2)). intros acc rest. cbn [map concat].
  rewrite <- app_assoc. destruct (enc_head x Hwf) as (c & t & E & Hc).
  specialize (Hf1 (concat (map enc l) ++ "e"%byte :: rest)). rewrite E in *.
  cbn [app decodeList ReadByte] in *. rewrite Hc.
  rewrite (decode_fuel_le f1 (f1 + f2) _ _ ltac:(lia) Hf1).
  assert (forall f m acc r y, decodeList f acc r = Some y -> decodeList (m + f) acc r = Some y) as Hle.
  { induction m; [done|]. intros. simpl plus. apply decode_fuel_mono. auto. }
  rewrite (Hle f2 f1 _ _ _ (Hf2 _ rest)). by rewrite <- app_assoc.
Qed.

Lemma decodeDict_enc m :
  NoDup (map fst m) ->
  Forall (fun e => blen e.1 <= max_alloc /\ decodes e.2) m ->
  exists f, forall acc rest, (forall k, k ∈ map fst m -> k ∉ map fst acc) ->
    decodeDict f acc (concat (map enc_entry (map (fun '(k, x) => (k, enc x)) m)) ++ "e"%byte :: rest)
    = Some (Ok (VDict (acc ++ map (fun '(k, x) => (k, canon x)) m), rest)).
Proof.
  intros Hn H. induction H as [|[k x] m [Hk [f1 Hf1]] _ IH].
  { exists 1%nat. intros. simpl. by rewrite app_nil_r. }
  simpl in Hn. apply NoDup_cons in Hn as [Hkm Hn]. destruct (IH Hn) as [f2 Hf2]. simpl in *.
  exists (S (f1 + f2)). intros acc rest Hacc.
  change (enc_entry (k, enc x)) with (enc_str k ++ enc x). rewrite <- !app_assoc. destruct (enc_str_head k) as (c & t & E & Hc).
  pose proof (decodeString_enc k (enc x ++ concat (map enc_entry (map (λ '(k, x), (k, enc x)) m)) ++ "e"%byte :: rest) Hk) as Hs.
  rewrite E in *. cbn [app ReadByte decodeDict] in *.
  rewrite (digit_neq c "e"%byte Hc eq_refl), Hs.
  rewrite (decode_fuel_le f1 (f1 + f2) _ _ ltac:(lia) (Hf1 _)).
  rewrite map_set_fresh by (apply Hacc; constructor).
  assert (forall f m' acc r y, decodeDict f acc r = Some y -> decodeDict (m' + f) acc r = Some y) as Hle.
  { induction m'; [done|]. intros. simpl plus. apply decode_fuel_mono. auto. }
  erewrite Hle; [|apply Hf2]; [by rewrite <- app_assoc|].
  intros k' Hk'. change (map fst (acc ++ [(k, canon x)])) with (fst <$> (acc ++ [(k, canon x)])).
  rewrite fmap_app, not_elem_of_app. split; [apply Hacc; by constructor|].
  simpl. intros ->%list_elem_of_singleton. done.
Qed.

Lemma decodes_wf v : wf_value v = true -> decodes v.
Proof.
  induction v as [n|n|s|s|l IH|m IH|ty] using value_rect_nested; intros Hwf; try done.
  1,2: simpl in Hwf; apply bool_decide_eq_true in Hwf; exists 1%nat; intros rest; simpl;
    rewrite <- app_assoc; change (str "e" ++ rest) with ("e"%byte :: rest); by rewrite decodeInt_enc.
  1,2: simpl in Hwf; exists 1%nat; intros rest; simpl;
    pose proof (decodeString_enc s rest ltac:(lia)) as Hs;
    destruct (enc_str_head s) as (c & t & E & Hc); rewrite E in *; cbn [app ReadByte] in *;
    rewrite !(digit_neq c) by done; rewrite Hc; cbn [app] in Hs; by rewrite Hs.
  - simpl in Hwf. apply forallb_Forall in Hwf.
    destruct (decodeList_enc l) as [f Hf].
    { eapply Forall_impl; [apply Forall_and; exact (conj IH Hwf)|]. naive_solver. }
    exists (S f). intros rest. cbn [enc canon]. rewrite <- !app_assoc. simpl.
    by rewrite Hf.
  - apply wf_dict_inv in Hwf as [Hn Hf].
    destruct (decodeDict_enc (sort_entries m)) as [f Hd].
    { rewrite sort_entries_keys, sort_strings_perm. done. }
    { rewrite sort_entries_perm. eapply Forall_impl; [apply Forall_and; exact (conj IH Hf)|]. naive_solver. }
    exists (S f). intros rest. cbn [enc canon]. rewrite !sort_entries_map by done.
    rewrite <- !app_assoc. simpl. rewrite Hd; [done|]. intros k _. apply not_elem_of_nil.
Qed.

(* ------------------------------------------------------------------ *)
(** ** Canonical forms *)

Lemma sort_entries_unique {A} (m m' : list (bytes * A)) :
  NoDup (map fst m) -> m ≡ₚ m' -> sort_entries m = sort_entries m'.
Proof.
  intros Hn Hp. apply (Sorted_unique_strong entry_le).
  - intros [k1 x1] [k2 x2]. rewrite !sort_entries_perm. intros H1 H2 Hle1 Hle2.
    rewrite <- Hp in H2. assert (k1 = k2) as <- by by apply (anti_symm str_le).
    apply map_get_elem in H1, H2; [|done..]. congruence.
  - apply Sorted_merge_sort, _.
  - apply Sorted_merge_sort, _.
  - by rewrite !sort_entries_perm.
Qed.

Lemma NoDup_keys_sort {A} (m : list (bytes * A)) :
  NoDup (map fst m) -> NoDup (map fst (sort_entries m)).
Proof. intros. by rewrite sort_entries_keys, sort_strings_perm. Qed.

Lemma wf_canon v : wf_value v = true -> wf_value (canon v) = true.
Proof.
  induction v as [n|n|s|s|l IH|m IH|ty] using value_rect_nested; intros Hwf; try done.
  - simpl in *. rewrite forallb_Forall in *. apply Forall_fmap.
    eapply Forall_impl; [apply Forall_and; exact (conj IH Hwf)|]. naive_solver.
  - apply wf_dict_inv in Hwf as [Hn Hf]. cbn [canon wf_value]. apply andb_true_iff. split.
    + apply bool_decide_eq_true, NoDup_keys_sort. by rewrite map_fst_entries.
    + apply forallb_Forall. rewrite sort_entries_perm. apply Forall_fmap.
      eapply Forall_impl; [apply Forall_and; exact (conj IH Hf)|].
      intros [k x]; simpl. intros (Hx & Hk & Hw). apply andb_true_iff. split; [lia|auto].
Qed.

Lemma enc_canon v : wf_value v = true -> enc (canon v) = enc v.
Proof.
  induction v as [n|n|s|s|l IH|m IH|ty] using value_rect_nested; intros Hwf; try done.
  - simpl in *. rewrite forallb_Forall in Hwf. do 2 f_equal. f_equal. rewrite map_map.
    apply map_ext_Forall. eapply Forall_impl; [apply Forall_and; exact (conj IH Hwf)|]. naive_solver.
  - apply wf_dict_inv in Hwf as [Hn Hf]. cbn [canon enc]. do 4 f_equal.
    rewrite !(sort_entries_map _ m) by done.
    rewrite sort_entries_map; [|rewrite map_fst_entries; by apply NoDup_keys_sort].
    rewrite sort_entries_map by by apply NoDup_keys_sort.
    rewrite (sort_entries_unique (sort_entries m) m) by
      (by apply NoDup_keys_sort || apply sort_entries_perm).
    rewrite map_map. apply map_ext_Forall. rewrite sort_entries_perm.
    eapply Forall_impl; [apply Forall_and; exact (conj IH Hf)|]. intros [k x]; simpl.
    intros (Hx & _ & Hw). by rewrite Hx.
Qed.

(** The fuel is enough and irrelevant. *)
Lemma Decode_decode fuel r x : decode fuel r = Some x -> Decode r = Some x.
Proof.
  intros H. unfold Decode.
  destruct (proj1 (decode_returns (decode_fuel r)) r) as (out & E & _); [unfold decode_fuel; lia|].
  rewrite E. apply (decode_fuel_le _ (decode_fuel r + fuel)) in E; [|lia].
  apply (decode_fuel_le _ (decode_fuel r + fuel)) in H; [|lia]. congruence.
Qed.

Lemma Decode_enc v rest : wf_value v = true -> Decode (enc v ++ rest) = Some (Ok (canon v, rest)).
Proof. intros H. destruct (decodes_wf v H) as [f Hf]. apply (Decode_decode f), Hf. Qed.

(* ------------------------------------------------------------------ *)
(** ** Properties *)

(** Decoding always terminates: on every input the recursive descent
    returns a value, an error or a panic within [2 * length + 1] calls, and the
    outcome does not change if more are allowed. *)
Theorem Decode_total r :
  exists out, forall extra, decode (decode_fuel r + extra) r = Some out.
Proof.
  destruct (proj1 (decode_returns (decode_fuel r)) r) as (out & E & _); [unfold decode_fuel; lia|].
  exists out. intros extra. eapply decode_fuel_le; [|exact E]. lia.
Qed.

(** C5. Round trip: every supported value is encoded without error, and
    decoding the encoding, whatever follows it in the stream, gives back the
    value (dictionaries in key order, [int] read as [int64], [[]byte] as
    [string]) and leaves exactly what followed. *)
Theorem Decode_Encode_roundtrip v rest (Hv : wf_value v = true) :
  exists s, EncodeToString v = Ok s /\ Decode (s ++ rest) = Some (Ok (canon v, rest)).
Proof. exists (enc v). split; [by apply EncodeToString_enc|by apply Decode_enc]. Qed.

Definition sample_value : value :=
  VDict [(str "spam", VList [VInt (-42); VBytes (str "e:i"); VList []]);
         (str "eggs", VInt64 (2 ^ 63 - 1))].

Lemma Decode_Encode_roundtrip_witness :
  exists s, EncodeToString sample_value = Ok s /\
            Decode (s ++ str "i1e") = Some (Ok (canon sample_value, str "i1e")).
Proof. apply (Decode_Encode_roundtrip sample_value (str "i1e")). vm_compute. reflexivity. Defined.

(** The encoding is a canonical form: two supported values have the same
    encoding exactly when they are the same value up to the iteration order of
    their maps (at every depth) and the [int]/[int64], [[]byte]/[string] choice. *)
Theorem Encode_canonical v v' (Hv : wf_value v = true) (Hv' : wf_value v' = true) :
  EncodeToString v = EncodeToString v' <-> canon v = canon v'.
Proof.
  rewrite !EncodeToString_enc by done. split.
  - intros [= E]. pose proof (Decode_enc v [] Hv) as H. rewrite E, Decode_enc in H by done. congruence.
  - intros E. by rewrite <- (enc_canon v), E, enc_canon.
Qed.

Lemma Encode_canonical_witness :
  EncodeToString (VDict [(str "b", VInt 1); (str "a", VStr [])]) =
  EncodeToString (VDict [(str "a", VBytes []); (str "b", VInt64 1)]).
Proof. apply Encode_canonical; vm_compute; reflexivity. Defined.

(** The bytes written for a map, and the error if a value in it is not
    supported, do not depend on the order in which Go iterates the map. *)
Theorem Encode_iteration_order m m' w (Hn : NoDup (map fst m)) (Hp : m ≡ₚ m') :
  Encode (VDict m) w = Encode (VDict m') w.
Proof.
  cbn [Encode]. rewrite (sort_strings_unique (map fst m) (map fst m')) by by rewrite Hp.
  generalize (sort_strings (map fst m')) (w ++ str "d"). intros keys.
  induction keys as [|k keys IH]; intros w'; simpl; [done|].
  rewrite !map_get_fmap, (map_get_perm m m') by done.
  destruct (map_get m' k); simpl; [|done]. destruct (Encode _ _) as [w2 [e|]]; [done|apply IH].
Qed.

Lemma Encode_iteration_order_witness :
  Encode (VDict [(str "a", VOther (str "float64")); (str "b", VInt 1)]) [] =
  Encode (VDict [(str "b", VInt 1); (str "a", VOther (str "float64"))]) [].
Proof. apply Encode_iteration_order; [by apply (bool_decide_unpack _); vm_compute|apply perm_swap]. Defined.

(** A dictionary key with a negative length crashes the decoder: the key
    is read by [decodeString] without the digit check [decode] makes, and
    [make([]byte, n)] panics.  Any input [d-n:...] with [n > 0] does it. *)
Theorem Decode_negative_key_panics n s (Hn : 0 < n <= 2 ^ 63) :
  Decode (str "d-" ++ fmt_uint n ++ str ":" ++ s) = Some Panic.
Proof.
  apply (Decode_decode 2). cbn -[decodeString fmt_uint].
  assert (Itoa (- n) = str "-" ++ fmt_uint n) as E.
  { unfold Itoa. destruct (Z.ltb_spec (- n) 0); [|lia]. by rewrite Z.opp_involutive. }
  assert (decodeString ("-"%byte :: fmt_uint n ++ ":"%byte :: s) = Panic) as ->; [|done].
  change ("-"%byte :: fmt_uint n ++ ":"%byte :: s) with ((str "-" ++ fmt_uint n) ++ ":"%byte :: s).
  rewrite <- E. unfold decodeString. rewrite ReadString_app by by apply Itoa_not_in.
  simpl res_wrap. cbn [res_bind]. rewrite chop_last. unfold Atoi.
  rewrite ParseInt_Itoa by (unfold in_i64; lia).
  unfold makeslice_ok. by replace (_ && _) with false by lia.
Qed.

Lemma Decode_negative_key_panics_witness :
  Decode (str "d-1:" ++ str "i1ee") = Some Panic.
Proof. apply (Decode_negative_key_panics 1 (str "i1ee")). lia. Defined.
