(* ===== verification/Bitfield.v ===== *)
(** * torrent/bitfield: which pieces a peer has

    A [Bitfield] is the byte slice itself, bit 7 of byte 0 standing for piece 0.
    [Set] mutates the slice: the model returns the new contents. *)

From S2P Require Import Prelude.

(** [New(n)]; Go division truncates towards zero, and [make] panics on a
    negative length. *)
Definition New (n : Z) : res unit bytes :=
  let size := Z.quot (i64 (n + 7)) 8 in
  if size <? 0 then Panic else Ok (replicate (Z.to_nat size) Byte.x00).

Definition in_range (b : bytes) (i : Z) : bool := negb ((i <? 0) || (i >=? blen b * 8)).

(** The byte [b[i/8]] of an index that has passed the range check. *)
Definition octet_at (b : bytes) (i : Z) : Z :=
  match b !! Z.to_nat (i / 8) with Some c => bz c | None => 0 end.

Definition Has (b : bytes) (i : Z) : bool :=
  if (i <? 0) || (i >=? blen b * 8) then false
  else Z.land (Z.shiftr (octet_at b i) (7 - i mod 8)) 1 =? 1.

Definition Set_ (b : bytes) (i : Z) : bytes :=
  if (i <? 0) || (i >=? blen b * 8) then b
  else <[Z.to_nat (i / 8) := zb (Z.lor (octet_at b i) (Z.shiftl 1 (7 - i mod 8)))]> b.

(** [for ; octet != 0; octet &= octet - 1 { n++ }]; each pass clears a bit, so
    eight passes are enough for a byte. *)
Fixpoint count_octet (fuel : nat) (octet n : Z) : Z :=
  match fuel with
  | O => n
  | S fuel' => if octet =? 0 then n else count_octet fuel' (Z.land octet (octet - 1)) (n + 1)
  end.
Definition Count (b : bytes) : Z := fold_left (fun n c => count_octet 8 (bz c) n) b 0.

Inductive verr := EBitfieldLength | ESpareBits.

Definition Validate (b : bytes) (n : Z) : res verr unit :=
  let expected := Z.quot (i64 (n + 7)) 8 in
  if negb (blen b =? expected) then Err EBitfieldLength
  else
    let spare := Z.rem n 8 in
    if negb (spare =? 0) && (0 <? blen b) then
      if spare <? 0 then Panic (* a negative shift count panics *)
      else match last b with
           | Some c => if Z.land (bz c) (u8 (Z.shiftr 255 spare)) =? 0 then Ok tt
                       else Err ESpareBits
           | None => Ok tt
           end
    else Ok tt.

(* ------------------------------------------------------------------ *)
(** ** Bits of a byte *)

Lemma land1_testbit z k : 0 <= k -> (Z.land (Z.shiftr z k) 1 =? 1) = Z.testbit z k.
Proof.
  intros Hk. change 1 with (Z.ones 1). rewrite Z.land_ones by lia.
  rewrite <- (Z.add_0_l k) at 2. rewrite <- Z.shiftr_spec by lia.
  rewrite Z.bit0_odd, Zmod_odd. by destruct (Z.odd _).
Qed.

Lemma octet_range b i : 0 <= octet_at b i < 256.
Proof. unfold octet_at. case_match; [apply bz_range|lia]. Qed.

Lemma lor_byte_range x k : 0 <= x < 256 -> 0 <= k < 8 -> 0 <= Z.lor x (Z.shiftl 1 k) < 256.
Proof.
  intros Hx Hk. rewrite Z.shiftl_1_l. split.
  - apply Z.lor_nonneg. split; [lia|]. apply Z.pow_nonneg. lia.
  - destruct (Z.eq_dec (Z.lor x (2 ^ k)) 0) as [->|Hne]; [lia|].
    apply (Z.log2_lt_pow2 _ 8); [assert (0 <= Z.lor x (2 ^ k)) by
      (apply Z.lor_nonneg; split; [lia|apply Z.pow_nonneg; lia]); lia|].
    rewrite Z.log2_lor by (try apply Z.pow_nonneg; lia).
    rewrite Z.log2_pow2 by lia.
    destruct (Z.eq_dec x 0) as [->|]; [simpl; lia|].
    assert (Z.log2 x < 8) by (apply Z.log2_lt_pow2; lia). lia.
Qed.

Lemma Has_in_range b i : in_range b i = true -> Has b i = Z.testbit (octet_at b i) (7 - i mod 8).
Proof.
  unfold in_range, Has. destruct (_ || _); [done|]. intros _.
  apply land1_testbit. pose proof (Z.mod_pos_bound i 8 eq_refl). lia.
Qed.

Lemma Has_out_of_range b i : in_range b i = false -> Has b i = false.
Proof. unfold in_range, Has. by destruct (_ || _). Qed.

Lemma Set_length b i : length (Set_ b i) = length b.
Proof. unfold Set_. case_match; [done|]. apply length_insert. Qed.

Lemma Set_in_range b i j : in_range (Set_ b i) j = in_range b j.
Proof. unfold in_range, blen. by rewrite Set_length. Qed.

Lemma in_range_spec b i : in_range b i = true <-> 0 <= i < 8 * blen b.
Proof. unfold in_range. lia. Qed.

Lemma Set_octet b i j :
  in_range b i = true -> in_range b j = true ->
  octet_at (Set_ b i) j =
  if i / 8 =? j / 8 then Z.lor (octet_at b i) (Z.shiftl 1 (7 - i mod 8)) else octet_at b j.
Proof.
  intros Hi Hj. pose proof Hi as Hi'. unfold in_range in Hi'. apply in_range_spec in Hi, Hj.
  unfold Set_. destruct (_ || _); [done|]. unfold octet_at at 1. unfold blen in *.
  destruct (Z.eqb_spec (i / 8) (j / 8)) as [<-|Hne].
  - rewrite list_lookup_insert_eq by dlia. rewrite bz_zb. apply Z.mod_small.
    apply lor_byte_range; [apply octet_range|]. pose proof (Z.mod_pos_bound i 8 eq_refl). lia.
  - rewrite list_lookup_insert_ne; [done|]. dlia.
Qed.

(** ** Counting *)

(** The pieces a byte and a bitfield mark, by testing every bit. *)
Definition ones8 (x : Z) : Z := Z.of_nat (length (filterb (Z.testbit x) (seqZ 0 8))).

Lemma count_octet_acc fuel x n : count_octet fuel x n = n + count_octet fuel x 0.
Proof.
  revert x n. induction fuel as [|fuel IH]; intros x n; simpl; [lia|].
  destruct (x =? 0); [lia|]. rewrite IH, (IH _ (0 + 1)). lia.
Qed.

Lemma count_octet_ones c : count_octet 8 (bz c) 0 = ones8 (bz c).
Proof. destruct c; vm_compute; reflexivity. Qed.

Lemma Count_snoc b c : Count (b ++ [c]) = Count b + ones8 (bz c).
Proof. unfold Count. rewrite fold_left_app. cbn [fold_left].
  rewrite count_octet_acc. by rewrite count_octet_ones. Qed.

Lemma ones8_rev c :
  ones8 (bz c) = Z.of_nat (length (filterb (fun r => Z.testbit (bz c) (7 - r)) (seqZ 0 8))).
Proof. destruct c; vm_compute; reflexivity. Qed.

Lemma Has_snoc_old b c i : 0 <= i < 8 * blen b -> Has (b ++ [c]) i = Has b i.
Proof.
  intros Hi. rewrite !Has_in_range by (rewrite in_range_spec; unfold blen in *; rewrite ?length_app; simpl; lia).
  unfold octet_at. rewrite lookup_app_l; [done|]. unfold blen in *. dlia.
Qed.

Lemma Has_snoc_new b c r : 0 <= r < 8 -> Has (b ++ [c]) (8 * blen b + r) = Z.testbit (bz c) (7 - r).
Proof.
  intros Hr. unfold blen. rewrite Has_in_range by (rewrite in_range_spec; unfold blen; rewrite length_app; simpl; lia).
  unfold octet_at. replace (Z.to_nat _) with (length b) by dlia.
  rewrite lookup_app_r, Nat.sub_diag by lia. simpl. do 2 f_equal. dlia.
Qed.

Lemma testbit_set x k k' :
  0 <= k -> 0 <= k' -> Z.testbit (Z.lor x (Z.shiftl 1 k)) k' = (k =? k') || Z.testbit x k'.
Proof.
  intros. rewrite Z.lor_spec, Z.shiftl_1_l, Z.pow2_bits_eqb by done. apply orb_comm.
Qed.

(** The low [8 - spare] bits of a byte, where [Validate] wants zeros. *)
Lemma spare_mask c spare :
  0 < spare < 8 ->
  (Z.land (bz c) (u8 (Z.shiftr 255 spare)) =? 0) = true <->
  forall k, 0 <= k < 8 - spare -> Z.testbit (bz c) k = false.
Proof.
  intros Hs. assert (u8 (Z.shiftr 255 spare) = Z.ones (8 - spare)) as ->.
  { assert (spare ∈ [1; 2; 3; 4; 5; 6; 7]) as H by (apply list_elem_of_In; simpl; lia).
    repeat (apply elem_of_cons in H as [->|H]; [reflexivity|]). by apply elem_of_nil in H. }
  rewrite Z.eqb_eq. split.
  - intros E k Hk. apply (f_equal (fun z => Z.testbit z k)) in E.
    rewrite Z.land_spec, Z.bits_0, Z.ones_spec_low in E by lia. by rewrite andb_true_r in E.
  - intros H. apply Z.bits_inj_0. intros k. rewrite Z.land_spec.
    destruct (Z.ltb_spec k 0); [by rewrite Z.testbit_neg_r by lia|].
    destruct (Z.ltb_spec k (8 - spare)).
    + by rewrite H by lia.
    + rewrite Z.ones_spec_high by lia. apply andb_false_r.
Qed.

Lemma octet_last b c i :
  last b = Some c -> 8 * (blen b - 1) <= i < 8 * blen b -> octet_at b i = bz c.
Proof.
  intros [l ->]%last_Some Hi. unfold octet_at, blen in *. rewrite length_app in *. simpl in Hi.
  replace (Z.to_nat (i / 8)) with (length l) by dlia.
  by rewrite lookup_app_r, Nat.sub_diag by lia.
Qed.

(* ------------------------------------------------------------------ *)
(** ** Properties *)

(** [Set] marks exactly the given piece: afterwards a piece is present
    when it was before, or when it is the one set and lies inside the field; an
    index outside the field changes nothing. *)
Theorem Has_Set b i j : Has (Set_ b i) j = (in_range b i && (i =? j)) || Has b j.
Proof.
  destruct (in_range b i) eqn:Hi; cycle 1.
  { unfold in_range in Hi. unfold Set_. by destruct (_ || _). }
  destruct (in_range b j) eqn:Hj; cycle 1.
  { rewrite !Has_out_of_range by (rewrite ?Set_in_range; done).
    destruct (Z.eqb_spec i j); [congruence|done]. }
  rewrite !Has_in_range, Set_octet by (rewrite ?Set_in_range; done). simpl.
  pose proof (Z.mod_pos_bound i 8 eq_refl). pose proof (Z.mod_pos_bound j 8 eq_refl).
  destruct (Z.eqb_spec (i / 8) (j / 8)) as [E|E].
  - rewrite testbit_set by lia. unfold octet_at. rewrite E. f_equal.
    destruct (Z.eqb_spec i j), (Z.eqb_spec (7 - i mod 8) (7 - j mod 8)); try done; dlia.
  - destruct (Z.eqb_spec i j); [congruence|done].
Qed.

(** [Count], with its clear-the-lowest-bit loop, is the number of pieces
    the field marks. *)
Theorem Count_spec b :
  Count b = Z.of_nat (length (filterb (Has b) (seqZ 0 (8 * blen b)))).
Proof.
  induction b as [|c b IH] using rev_ind; [done|].
  rewrite Count_snoc, IH.
  replace (8 * blen (b ++ [c])) with (8 * blen b + 8) by (unfold blen; rewrite length_app; simpl; lia).
  rewrite seqZ_app by (unfold blen; lia).
  rewrite filterb_app, length_app, Nat2Z.inj_add. f_equal.
  - f_equal. f_equal. apply filterb_ext. intros i [Hi1 Hi2]%elem_of_seqZ.
    rewrite Has_snoc_old; [done|lia].
  - rewrite ones8_rev. f_equal. replace (seqZ (0 + 8 * blen b) 8) with (Z.add (8 * blen b) <$> seqZ 0 8).
    + rewrite filterb_fmap. f_equal. apply filterb_ext. intros i Hi%elem_of_seqZ.
      rewrite Has_snoc_new; [done|lia].
    + rewrite fmap_add_seqZ. f_equal. lia.
Qed.

(** [Validate] accepts exactly the fields of [ceil(n/8)] bytes in which no
    spare bit (no piece number from [n] on) is set. *)
Theorem Validate_spec b n (Hn : 0 <= n < 2 ^ 62) :
  Validate b n = Ok tt <->
  blen b = (n + 7) / 8 /\ forall i, n <= i -> Has b i = false.
Proof.
  unfold Validate. rewrite i64_small by (unfold in_i64; lia).
  rewrite Z.quot_div_nonneg, Z.rem_mod_nonneg by lia.
  destruct (Z.eqb_spec (blen b) ((n + 7) / 8)) as [El|El]; cbn [negb]; [|split; [done|tauto]].
  pose proof (Z.mod_pos_bound n 8 eq_refl).
  destruct (Z.eqb_spec (n mod 8) 0) as [Es|Es]; cbn [negb andb].
  { split; [|done]. intros _. split; [done|]. intros i Hi. apply Has_out_of_range.
    apply not_true_iff_false. rewrite in_range_spec. dlia. }
  destruct (Z.ltb_spec 0 (blen b)); [|dlia]. destruct (Z.ltb_spec (n mod 8) 0); [lia|].
  destruct (last b) as [c|] eqn:Hl; cycle 1.
  { apply last_None in Hl as ->. unfold blen in *. simpl in *. lia. }
  pose proof (spare_mask c (n mod 8) ltac:(lia)) as Hm. revert Hm.
  destruct (Z.land _ _ =? 0); intros Hm; split; try done.
  - intros _. split; [done|]. intros i Hi. destruct (in_range b i) eqn:Hr; [|by apply Has_out_of_range].
    pose proof Hr as Hr'. rewrite in_range_spec in Hr'. rewrite Has_in_range by done.
    rewrite (octet_last b c) by (done || dlia). apply (proj1 Hm eq_refl). dlia.
  - intros [_ Hh]. exfalso. enough (false = true) by done. apply Hm. intros k Hk.
    specialize (Hh (8 * (n / 8) + (7 - k)) ltac:(dlia)).
    rewrite Has_in_range in Hh by (rewrite in_range_spec; dlia).
    rewrite (octet_last b c) in Hh by (done || dlia). rewrite <- Hh. f_equal. dlia.
Qed.

Lemma Validate_spec_witness :
  Validate [Byte.xff; Byte.xc0] 10 = Ok tt <->
  blen [Byte.xff; Byte.xc0] = (10 + 7) / 8 /\
  forall i, 10 <= i -> Has [Byte.xff; Byte.xc0] i = false.
Proof. apply Validate_spec. lia. Defined.
