(* ===== verification/Metainfo.v ===== *)
(** * torrent/metainfo: .torrent files

    [Decode] turns the bencoded file into a [MetaInfo]; the digest function is
    the class [Sha1], of which only the output length is used. *)

From S2P Require Import Prelude GoStrings Bencode.

Class Sha1 := {
  sha1 : bytes -> bytes;
  sha1_length : forall s, length (sha1 s) = 20%nat
}.

Record FileInfo := { fi_Path : list bytes; fi_Length : Z }.

Record Info := {
  Name : bytes;
  Pieces : list bytes;      (* [20]byte each *)
  Files : list FileInfo;
  PieceLength : Z;
  Length : Z
}.

Record MetaInfo := {
  Announce : bytes;
  Comment : bytes;
  CreatedBy : bytes;
  AnnounceList : list (list bytes);
  mi_Info : Info;
  CreationDate : Z;
  InfoHash : bytes
}.

(** [Hash.String]: lowercase hexadecimal. *)
Definition hexdigit (z : Z) : byte := if z <? 10 then zb (48 + z) else zb (87 + z).
Definition Hash_String (h : bytes) : bytes :=
  flat_map (fun c => [hexdigit (bz c / 16); hexdigit (bz c mod 16)]) h.

(** [total += f.Length] wraps at 64 bits. *)
Definition TotalLength (info : Info) : Z :=
  if 0 <? Length info then Length info
  else fold_left (fun total f => i64 (total + fi_Length f)) (Files info) 0.

Definition PieceCount (info : Info) : Z := blen (Pieces info).

(** The closure [add]: the state is the pair of [seen] and [result]. *)
Definition tracker_add (st : gset bytes * list bytes) (u : bytes) : gset bytes * list bytes :=
  let '(seen, result) := st in
  let u := TrimSpace u in
  if seqb u [] then st
  else if bool_decide (u ∈ seen) then st
  else ({[u]} ∪ seen, result ++ [u]).

Definition Trackers (m : MetaInfo) : list bytes :=
  let st := tracker_add (∅, []) (Announce m) in
  (fold_left (fun st tier => fold_left tracker_add tier st) (AnnounceList m) st).2.

(** [v, _ := d[k].(string)] and [n, ok := d[k].(int64)], zero when absent. *)
Definition get_string (d : list (bytes * value)) (k : bytes) : bytes :=
  match map_get d k with Some (VStr s) => s | _ => [] end.
Definition get_int64 (d : list (bytes * value)) (k : bytes) : Z :=
  match map_get d k with Some (VInt64 n) => n | _ => 0 end.

(** [append] of the string elements of a list, others skipped. *)
Definition strings_of (l : list value) : list bytes :=
  omap (fun v => match v with VStr s => Some s | _ => None end) l.

Definition parseFileInfo (d : list (bytes * value)) : FileInfo := {|
  fi_Length := get_int64 d (str "length");
  fi_Path := match map_get d (str "path") with
             | Some (VList l) => strings_of l
             | _ => []
             end
|}.

Inductive merr :=
| EDecodeBencode (e : berr)
| ETopLevelNotDict
| EMissingInfo
| EInfoNotDict
| EReencode (e : enc_err)
| EMissingPieces
| EPiecesNotString
| EPiecesLength (n : Z)
| EFilesNotList
| EFileNotDict.

(** [piecesStr[i*20:(i+1)*20]] for each [i]. *)
Fixpoint chunks20 (n : nat) (s : bytes) : list bytes :=
  match n with
  | O => []
  | S n' => take 20 s :: chunks20 n' (drop 20 s)
  end.

Fixpoint parseFiles (l : list value) : res merr (list FileInfo) :=
  match l with
  | [] => Ok []
  | VDict fd :: l' => let! fs := parseFiles l' in Ok (parseFileInfo fd :: fs)
  | _ :: _ => Err EFileNotDict
  end.

Definition parseInfo (d : list (bytes * value)) : res merr Info :=
  match map_get d (str "pieces") with
  | None => Err EMissingPieces
  | Some (VStr piecesStr) =>
      if negb (blen piecesStr mod 20 =? 0) then Err (EPiecesLength (blen piecesStr))
      else
        let pieces := chunks20 (length piecesStr / 20) piecesStr in
        let! files :=
          match map_get d (str "files") with
          | None => Ok []
          | Some (VList fileList) => parseFiles fileList
          | Some _ => Err EFilesNotList
          end in
        Ok {| Name := get_string d (str "name");
              Pieces := pieces;
              Files := files;
              PieceLength := get_int64 d (str "piece length");
              Length := get_int64 d (str "length") |}
  | Some _ => Err EPiecesNotString
  end.

Definition announce_list (dict : list (bytes * value)) : list (list bytes) :=
  match map_get dict (str "announce-list") with
  | Some (VList tiers) =>
      omap (fun tier => match tier with VList trackers => Some (strings_of trackers) | _ => None end)
        tiers
  | _ => []
  end.

Section Metainfo.
Context `{Sha1}.

Definition decode_value (raw : value) : res merr MetaInfo :=
  match raw with
  | VDict dict =>
      match map_get dict (str "info") with
      | None => Err EMissingInfo
      | Some infoRaw =>
          match infoRaw with
          | VDict infoDict =>
              let! infoEncoded := res_wrap EReencode (EncodeToString infoRaw) in
              let! info := parseInfo infoDict in
              Ok {| Announce := get_string dict (str "announce");
                    Comment := get_string dict (str "comment");
                    CreatedBy := get_string dict (str "created by");
                    AnnounceList := announce_list dict;
                    mi_Info := info;
                    CreationDate := get_int64 dict (str "creation date");
                    InfoHash := sha1 infoEncoded |}
          | _ => Err EInfoNotDict
          end
      end
  | _ => Err ETopLevelNotDict
  end.

(** [metainfo.Decode] on the contents of the file; what follows the first
    bencoded value is ignored. *)
Definition Decode (data : bytes) : option (res merr MetaInfo) :=
  match Bencode.Decode data with
  | None => None
  | Some (Err e) => Some (Err (EDecodeBencode e))
  | Some Panic => Some Panic
  | Some (Ok (raw, _)) => Some (decode_value raw)
  end.
End Metainfo.

(* ------------------------------------------------------------------ *)
(** ** Pieces *)

Lemma chunks20_spec n s :
  length s = (20 * n)%nat ->
  concat (chunks20 n s) = s /\ Forall (fun h => length h = 20%nat) (chunks20 n s) /\
  length (chunks20 n s) = n.
Proof.
  revert s. induction n as [|n IH]; intros s Hs.
  - destruct s; [done|simpl in Hs; lia].
  - destruct (IH (drop 20 s)) as (Hc & Hf & Hl); [rewrite length_drop; lia|].
    cbn [chunks20 concat]. rewrite Hc, take_drop. split; [done|]. split; [|simpl; lia].
    constructor; [|done]. rewrite length_take. lia.
Qed.

Lemma parseInfo_pieces d info :
  parseInfo d = Ok info ->
  exists s, map_get d (str "pieces") = Some (VStr s) /\ concat (Pieces info) = s /\
    Forall (fun h => length h = 20%nat) (Pieces info) /\ (20 * PieceCount info = blen s).
Proof.
  unfold parseInfo. destruct (map_get d (str "pieces")) as [v|]; [|done].
  destruct v as [| |s| | | |]; try done. destruct (Z.eqb_spec (blen s mod 20) 0) as [E|]; [|done].
  cbn [negb]. match goal with |- context [res_bind ?m _] => destruct m as [files| |]; try done end.
  cbn [res_bind]. intros [= <-]. exists s. split; [done|]. cbn [Pieces].
  assert (length s = (20 * (length s / 20))%nat) as Hs.
  { pose proof (Nat.div_mod_eq (length s) 20). unfold blen in E.
    assert (length s mod 20 = 0)%nat; [|lia]. apply Nat2Z.inj. rewrite Nat2Z.inj_mod. exact E. }
  destruct (chunks20_spec _ _ Hs) as (Hc & Hf & Hl). refine (conj Hc (conj Hf _)).
  unfold PieceCount. cbn [Pieces]. unfold blen. fold (length s / 20)%nat. rewrite Hl. lia.
Qed.

(** ** Trackers *)

Definition tracker_inv (st : gset bytes * list bytes) : Prop :=
  NoDup st.2 /\ (forall u, u ∈ st.1 <-> u ∈ st.2) /\ [] ∉ st.2.

Lemma tracker_add_inv st u : tracker_inv st -> tracker_inv (tracker_add st u).
Proof.
  destruct st as [seen result]. intros (Hn & Hs & He). unfold tracker_add.
  destruct (seqb_spec (TrimSpace u) []) as [|Hne]; [done|].
  case_bool_decide as Hin; [done|]. unfold tracker_inv; simpl in *.
  split; [|split; set_solver].
  apply NoDup_app. split; [done|]. split; [|apply NoDup_singleton].
  intros x Hx ->%list_elem_of_singleton. by apply Hs in Hx.
Qed.

Lemma tracker_add_prefix st u : st.2 `prefix_of` (tracker_add st u).2.
Proof.
  destruct st as [seen result]. unfold tracker_add. repeat case_match; simpl; try done.
  by eexists.
Qed.

Lemma tracker_add_elem st u x :
  tracker_inv st ->
  x ∈ (tracker_add st u).2 <-> x ∈ st.2 \/ (x = TrimSpace u /\ x <> []).
Proof.
  destruct st as [seen result]. intros (_ & Hs & He). unfold tracker_add. simpl in *.
  destruct (seqb_spec (TrimSpace u) []) as [E|Hne]; simpl.
  - rewrite E. naive_solver.
  - case_bool_decide as Hin; simpl; [apply Hs in Hin; naive_solver|].
    rewrite elem_of_app, list_elem_of_singleton. naive_solver.
Qed.

Lemma tracker_fold us st :
  tracker_inv st ->
  tracker_inv (fold_left tracker_add us st) /\
  st.2 `prefix_of` (fold_left tracker_add us st).2 /\
  forall x, x ∈ (fold_left tracker_add us st).2 <->
            x ∈ st.2 \/ exists u, u ∈ us /\ x = TrimSpace u /\ x <> [].
Proof.
  revert st. induction us as [|u us IH]; intros st Hst; simpl.
  - split; [done|]. split; [done|]. intros x. split; [by left|].
    intros [?|(u & ?%elem_of_nil & _)]; done.
  - destruct (IH (tracker_add st u)) as (Hi & Hp & He); [by apply tracker_add_inv|].
    split; [done|]. split; [etrans; [apply tracker_add_prefix|done]|].
    intros x. rewrite He, tracker_add_elem by done. set_solver.
Qed.

Lemma Trackers_fold m :
  Trackers m = (fold_left tracker_add (Announce m :: concat (AnnounceList m)) (∅, [])).2.
Proof.
  unfold Trackers. cbn [fold_left]. generalize (tracker_add (∅, []) (Announce m)).
  induction (AnnounceList m) as [|t ts IH]; intros st; [done|].
  cbn [fold_left concat]. by rewrite fold_left_app, IH.
Qed.

Lemma tracker_inv_empty : tracker_inv (∅, []).
Proof. split; [apply NoDup_nil_2|]. simpl. set_solver. Qed.

(* ------------------------------------------------------------------ *)
(** ** Properties *)

Section Properties.
Context `{Sha1}.

(** The InfoHash is the digest of the bytes of the [info] dictionary as
    they stand in the file: for every spec-compliant file (the bencoding of a
    dictionary [dict]) whose [info] entry is [infoRaw], the decoded hash is
    [sha1 (enc infoRaw)] and these bytes occur verbatim in the file, although
    the code hashes a re-encoding of the parsed dictionary. *)
Theorem InfoHash_of_file dict infoRaw mi
  (Hwf : wf_value (VDict dict) = true)
  (Hinfo : map_get dict (str "info") = Some infoRaw)
  (Hdec : Decode (enc (VDict dict)) = Some (Ok mi)) :
  InfoHash mi = sha1 (enc infoRaw) /\
  exists before after, enc (VDict dict) = before ++ enc infoRaw ++ after.
Proof.
  pose proof (wf_dict_inv _ Hwf) as [Hn Hf].
  assert ((str "info", infoRaw) ∈ dict) as Hin by by apply map_get_In.
  assert (wf_value infoRaw = true) as Hw.
  { rewrite Forall_forall in Hf. by apply (Hf _ Hin). }
  split.
  - unfold Decode in Hdec. pose proof (Decode_enc (VDict dict) [] Hwf) as Hd.
    rewrite app_nil_r in Hd. rewrite Hd in Hdec. cbn [canon] in Hdec.
    unfold decode_value in Hdec. injection Hdec as Hdec.
    rewrite sort_entries_map in Hdec by done.
    rewrite map_get_fmap, (map_get_perm _ dict) in Hdec by (by apply NoDup_keys_sort || apply sort_entries_perm).
    rewrite Hinfo in Hdec. cbn [fmap option_fmap option_map] in Hdec.
    destruct (canon infoRaw) as [| | | | |m|] eqn:Ec; try done.
    rewrite <- Ec, EncodeToString_enc in Hdec by by apply wf_canon.
    cbn [res_wrap res_bind] in Hdec. destruct (parseInfo m); try done.
    cbn [res_bind] in Hdec. injection Hdec as <-. simpl. by rewrite enc_canon.
  - cbn [enc]. assert ((str "info", enc infoRaw) ∈ sort_entries (map (fun '(k, x) => (k, enc x)) dict)) as Hin'.
    { rewrite sort_entries_perm. change (str "info", enc infoRaw) with
        ((fun '(k, x) => (k, enc x)) (str "info", infoRaw)). by apply list_elem_of_fmap_2. }
    apply list_elem_of_split in Hin' as (l1 & l2 & ->).
    rewrite map_app, concat_app. cbn [map concat].
    exists (str "d" ++ concat (map enc_entry l1) ++ enc_str (str "info")),
           (concat (map enc_entry l2) ++ str "e").
    unfold enc_entry at 2. cbn [fst snd]. by rewrite <- !app_assoc.
Qed.

(** The piece hashes of a decoded torrent cut the [pieces] string into
    20-byte digests, in order and with nothing left over. *)
Theorem Decode_pieces data mi (Hdec : Decode data = Some (Ok mi)) :
  exists dict infoDict rest s,
    Bencode.Decode data = Some (Ok (VDict dict, rest)) /\
    map_get dict (str "info") = Some (VDict infoDict) /\
    map_get infoDict (str "pieces") = Some (VStr s) /\
    concat (Pieces (mi_Info mi)) = s /\
    Forall (fun h => length h = 20%nat) (Pieces (mi_Info mi)) /\
    20 * PieceCount (mi_Info mi) = blen s.
Proof.
  unfold Decode in Hdec. destruct (Bencode.Decode data) as [[[raw rest]| |]|] eqn:E; try done.
  unfold decode_value in Hdec. destruct raw as [| | | | |dict|]; try done.
  destruct (map_get dict (str "info")) as [v|] eqn:Ei; try done. destruct v as [| | | | |infoDict|]; try done.
  destruct (EncodeToString _); try done. cbn [res_wrap res_bind] in Hdec.
  destruct (parseInfo infoDict) as [info| |] eqn:Ep; try done. cbn [res_bind] in Hdec.
  apply parseInfo_pieces in Ep as (s & Hs & Hc & Hf & Hl).
  exists dict, infoDict, rest, s. simplify_eq. simpl. done.
Qed.

End Properties.

(** [Trackers] lists every tracker URL once: no duplicates and no blank
    entries, exactly the trimmed non-blank URLs of [announce] and of the tiers,
    and the announce URL first when it is not blank. *)
Theorem Trackers_spec m :
  NoDup (Trackers m) /\
  (forall x, x ∈ Trackers m <->
     exists u, u ∈ Announce m :: concat (AnnounceList m) /\ x = TrimSpace u /\ x <> []) /\
  (TrimSpace (Announce m) = [] \/ [TrimSpace (Announce m)] `prefix_of` Trackers m).
Proof.
  rewrite Trackers_fold.
  destruct (tracker_fold (Announce m :: concat (AnnounceList m)) (∅, []) tracker_inv_empty)
    as ((Hn & _) & _ & He).
  split; [done|]. split; [intros x; rewrite He; set_solver|].
  cbn [fold_left]. destruct (tracker_fold (concat (AnnounceList m)) (tracker_add (∅, []) (Announce m)))
    as (_ & Hp & _); [apply tracker_add_inv, tracker_inv_empty|].
  unfold tracker_add at 1 in Hp. destruct (seqb_spec (TrimSpace (Announce m)) []) as [|Hne]; [by left|].
  right. rewrite bool_decide_eq_false_2 in Hp by set_solver. done.
Qed.

(** A 20-byte stand-in digest, for evaluation. *)
Definition toy_sha1 : Sha1.
Proof. refine {| sha1 s := take 20 (s ++ replicate 20 Byte.x00) |}.
  intros s. rewrite length_take, length_app, length_replicate. lia. Defined.

Definition sample_info : value :=
  VDict [(str "pieces", VStr (str "aaaaaaaaaaaaaaaaaaaabbbbbbbbbbbbbbbbbbbb"));
         (str "length", VInt64 5)].
Definition sample_torrent : list (bytes * value) := [(str "info", sample_info); (str "announce", VStr (str "http://t"))].
Definition sample_mi : MetaInfo :=
  match @Decode toy_sha1 (enc (VDict sample_torrent)) with
  | Some (Ok mi) => mi
  | _ => {| Announce := []; Comment := []; CreatedBy := []; AnnounceList := [];
            mi_Info := {| Name := []; Pieces := []; Files := []; PieceLength := 0; Length := 0 |};
            CreationDate := 0; InfoHash := [] |}
  end.

Lemma InfoHash_of_file_witness :
  InfoHash sample_mi = @sha1 toy_sha1 (enc sample_info) /\
  exists before after, enc (VDict sample_torrent) = before ++ enc sample_info ++ after.
Proof. apply (@InfoHash_of_file toy_sha1 sample_torrent sample_info sample_mi); vm_compute; reflexivity. Defined.

Lemma Decode_pieces_witness :
  exists dict infoDict rest s,
    Bencode.Decode (enc (VDict sample_torrent)) = Some (Ok (VDict dict, rest)) /\
    map_get dict (str "info") = Some (VDict infoDict) /\
    map_get infoDict (str "pieces") = Some (VStr s) /\
    concat (Pieces (mi_Info sample_mi)) = s /\
    Forall (fun h => length h = 20%nat) (Pieces (mi_Info sample_mi)) /\
    20 * PieceCount (mi_Info sample_mi) = blen s.
Proof. apply (@Decode_pieces toy_sha1). vm_compute. reflexivity. Defined.
