(* ===== verification/Tracker.v ===== *)
(** * torrent/tracker: the HTTP tracker client

    The request's query parameters and the parser of the response.  The URL
    parser, the HTTP exchange and [net.ParseIP] are the class [GoNet]. *)

From S2P Require Import Prelude GoStrings Bencode Metainfo.

(** [url.Values]: a query parameter has a list of values. *)
Abbreviation query := (gmap bytes (list bytes)).

Class GoNet := {
  url_Parse : bytes -> option query;                    (* [None]: a malformed URL *)
  http_Get : bytes -> query -> option bytes;            (* the response body *)
  net_ParseIP : bytes -> bytes                          (* nil is the empty slice *)
}.

Inductive Event := EventNone | EventStarted | EventStopped | EventCompleted.
Definition event_string (e : Event) : bytes :=
  match e with
  | EventNone => []
  | EventStarted => str "started"
  | EventStopped => str "stopped"
  | EventCompleted => str "completed"
  end.

Record AnnounceRequest := {
  req_Event : Event;
  Uploaded : Z;
  Downloaded : Z;
  Left : Z;
  NumWant : Z;
  req_Port : Z;
  req_InfoHash : bytes;
  PeerID : bytes
}.

Record Peer := { IP : bytes; Port : Z }.

Record AnnounceResponse := {
  TrackerID : bytes;
  Peers : list Peer;
  Interval : Z;
  MinInterval : Z;
  Complete : Z;
  Incomplete : Z
}.

Inductive terr :=
| EParseURL
| EGet
| EDecodeResponse (e : berr)
| EResponseNotDict
| ETrackerFailure (reason : value)
| ECompactLength (n : Z).

(** [q.Set(k, v)] replaces the values of a parameter. *)
Definition q_Set (k v : bytes) (q : query) : query := <[k := [v]]> q.

Definition announce_query (req : AnnounceRequest) (q : query) : query :=
  let q := q_Set (str "info_hash") (req_InfoHash req) q in
  let q := q_Set (str "peer_id") (PeerID req) q in
  let q := q_Set (str "port") (Itoa (req_Port req)) q in
  let q := q_Set (str "uploaded") (Itoa (Uploaded req)) q in
  let q := q_Set (str "downloaded") (Itoa (Downloaded req)) q in
  let q := q_Set (str "left") (Itoa (Left req)) q in
  let q := q_Set (str "compact") (str "1") q in
  let q := if 0 <=? NumWant req then q_Set (str "numwant") (Itoa (NumWant req)) q else q in
  match req_Event req with
  | EventNone => q
  | e => q_Set (str "event") (event_string e) q
  end.

(** BEP 23: four address bytes and a big-endian port. *)
Fixpoint compact_peers (n : nat) (s : bytes) : list Peer :=
  match n with
  | O => []
  | S n' => {| IP := take 4 s; Port := be_get (take 2 (drop 4 s)) |} :: compact_peers n' (drop 6 s)
  end.

Section Tracker.
Context `{GoNet}.

Definition dict_peer (pd : list (bytes * value)) : Peer := {|
  IP := match map_get pd (str "ip") with Some (VStr s) => net_ParseIP s | _ => [] end;
  Port := match map_get pd (str "port") with Some (VInt64 n) => u16 n | _ => 0 end
|}.

Definition peers_of (v : option value) : res terr (list Peer) :=
  match v with
  | Some (VStr peers) =>
      if negb (blen peers mod 6 =? 0) then Err (ECompactLength (blen peers))
      else Ok (compact_peers (length peers / 6) peers)
  | Some (VList peers) =>
      Ok (omap (fun p => match p with VDict pd => Some (dict_peer pd) | _ => None end) peers)
  | _ => Ok []
  end.

Definition response_of (raw : value) : res terr AnnounceResponse :=
  match raw with
  | VDict dict =>
      match map_get dict (str "failure reason") with
      | Some failure => Err (ETrackerFailure failure)
      | None =>
          let! peers := peers_of (map_get dict (str "peers")) in
          Ok {| Interval := get_int64 dict (str "interval");
                MinInterval := get_int64 dict (str "min interval");
                TrackerID := get_string dict (str "tracker id");
                Complete := get_int64 dict (str "complete");
                Incomplete := get_int64 dict (str "incomplete");
                Peers := peers |}
      end
  | _ => Err EResponseNotDict
  end.

Definition parseResponse (data : bytes) : option (res terr AnnounceResponse) :=
  match Bencode.Decode data with
  | None => None
  | Some (Err e) => Some (Err (EDecodeResponse e))
  | Some Panic => Some Panic
  | Some (Ok (raw, _)) => Some (response_of raw)
  end.

Definition Announce (trackerURL : bytes) (req : AnnounceRequest) : option (res terr AnnounceResponse) :=
  match url_Parse trackerURL with
  | None => Some (Err EParseURL)
  | Some q =>
      match http_Get trackerURL (announce_query req q) with
      | None => Some (Err EGet)
      | Some body => parseResponse body
      end
  end.
End Tracker.

(* ------------------------------------------------------------------ *)

(** The compact form of a peer list, as a tracker writes it. *)
Definition compact (ps : list Peer) : bytes :=
  flat_map (fun p => IP p ++ be_put 2 (Port p)) ps.
Definition wf_peer (p : Peer) : Prop := length (IP p) = 4%nat /\ in_u 16 (Port p).
#[export] Instance wf_peer_dec p : Decision (wf_peer p).
Proof. unfold wf_peer. apply _. Defined.

Lemma compact_length ps : Forall wf_peer ps -> length (compact ps) = (6 * length ps)%nat.
Proof.
  induction 1 as [|p ps [Hi _] _ IH]; [done|].
  cbn [compact flat_map]. fold (compact ps). rewrite !length_app, be_put_length, Hi, IH. simpl. lia.
Qed.

Lemma compact_peers_compact ps : Forall wf_peer ps -> compact_peers (length ps) (compact ps) = ps.
Proof.
  induction 1 as [|[ip port] ps [Hi Hp] _ IH]; [done|]. simpl in Hi, Hp.
  cbn [compact flat_map]. fold (compact ps). cbn [length compact_peers IP Port].
  rewrite <- app_assoc. rewrite (take_app_length' ip) by done.
  rewrite (drop_app_length' ip) by done.
  rewrite take_app_length' by by rewrite be_put_length.
  rewrite be_get_put_u by exact Hp.
  rewrite app_assoc, drop_app_length' by (rewrite length_app, be_put_length, Hi; done).
  by rewrite IH.
Qed.

(** A compact (BEP 23) response is read back exactly: for peers with IPv4
    addresses and 16-bit ports, the tracker's answer yields the same peers in
    the same order, with the interval it gives. *)
Theorem parseResponse_compact `{GoNet} ps interval
  (Hps : Forall wf_peer ps) (Hi : in_i64 interval) (Hlen : blen (compact ps) <= max_alloc) :
  exists ar,
    parseResponse (enc (VDict [(str "interval", VInt interval); (str "peers", VStr (compact ps))]))
      = Some (Ok ar) /\
    Peers ar = ps /\ Interval ar = interval.
Proof.
  set (v := VDict _). assert (wf_value v = true) as Hwf.
  { cbn [wf_value v forallb]. apply andb_true_iff. split; [by vm_compute|].
    rewrite (bool_decide_eq_true_2 _ Hi). rewrite (proj2 (Z.leb_le _ _) Hlen). by vm_compute. }
  unfold parseResponse. pose proof (Decode_enc v [] Hwf) as Hd. rewrite app_nil_r in Hd. rewrite Hd.
  clear Hd Hwf. subst v. cbn [canon map].
  change (sort_entries _) with [(str "interval", VInt64 interval); (str "peers", VStr (compact ps))].
  change (response_of _) with (res_bind (peers_of (Some (VStr (compact ps)))) (fun peers =>
    Ok {| TrackerID := []; Peers := peers; Interval := interval; MinInterval := 0;
          Complete := 0; Incomplete := 0 |} : res terr AnnounceResponse)).
  unfold peers_of.
  assert (blen (compact ps) mod 6 = 0) as ->.
  { unfold blen. rewrite compact_length by done. dlia. }
  cbn [negb Z.eqb res_bind]. eexists. split; [reflexivity|]. split; [|done].
  cbn [Peers]. rewrite compact_length by done.
  replace (6 * length ps / 6)%nat with (length ps) by (rewrite Nat.mul_comm, Nat.div_mul; done).
  by apply compact_peers_compact.
Qed.

#[local] Instance no_net : GoNet := {|
  url_Parse _ := Some ∅; http_Get _ _ := None; net_ParseIP s := s |}.

Lemma parseResponse_compact_witness :
  exists ar,
    parseResponse (enc (VDict [(str "interval", VInt 1800);
      (str "peers", VStr (compact [{| IP := [Byte.x7f; Byte.x00; Byte.x00; Byte.x01]; Port := 6881 |}]))]))
      = Some (Ok ar) /\
    Peers ar = [{| IP := [Byte.x7f; Byte.x00; Byte.x00; Byte.x01]; Port := 6881 |}] /\ Interval ar = 1800.
Proof.
  apply parseResponse_compact; [by apply (bool_decide_unpack _); vm_compute..|].
  vm_compute. discriminate.
Defined.
