(* ===== verification/Peer.v ===== *)
(** * torrent/peer: the BEP 3 peer wire protocol

    Handshake and length-prefixed messages over a byte stream; a reader is the
    list of bytes still to come, a writer returns the bytes it sends. *)

From S2P Require Import Prelude GoStrings.

(** [copy(buf[lo:hi], src)]. *)
Definition copy_at (buf : bytes) (lo hi : nat) (src : bytes) : bytes :=
  let n := Nat.min (hi - lo) (length src) in
  take lo buf ++ take n src ++ drop (lo + n) buf.

Definition protocolStr : bytes := str "BitTorrent protocol".
Definition protocolStrLen : byte := zb 19.
Definition handshakeLen : nat := 68.

Inductive perr :=
| EReadHandshake (e : io_err)
| EProtocolLength (n : byte)
| EProtocol (p : bytes)
| EInfoHash (got : bytes)
| ESendHandshake
| EReadLengthPrefix (e : io_err)
| EReadPayload (e : io_err)
| EPieceShort (n : Z)
| EHaveLength (n : Z).

Inductive MessageID :=
| MsgChoke | MsgUnchoke | MsgInterested | MsgNotInterested | MsgHave
| MsgBitfield | MsgRequest | MsgPiece | MsgCancel.
Definition MessageID_byte (m : MessageID) : byte :=
  zb match m with
     | MsgChoke => 0 | MsgUnchoke => 1 | MsgInterested => 2 | MsgNotInterested => 3
     | MsgHave => 4 | MsgBitfield => 5 | MsgRequest => 6 | MsgPiece => 7 | MsgCancel => 8
     end.

(** The ID of a message on the wire is any [uint8]. *)
Record Message := { Payload : bytes; ID : byte }.

Definition sendHandshake (infoHash peerID : bytes) : bytes :=
  let buf := replicate handshakeLen Byte.x00 in
  let buf := <[0%nat := protocolStrLen]> buf in
  let buf := copy_at buf 1 20 protocolStr in
  let buf := copy_at buf 28 48 infoHash in
  copy_at buf 48 68 peerID.

Definition recvHandshake (r : bytes) (expectedHash : bytes) : res perr (bytes * bytes) :=
  let! (buf, r') := res_wrap EReadHandshake (ReadFull r handshakeLen) in
  match buf !! 0%nat with
  | None => Panic
  | Some c =>
      if negb (beqb c protocolStrLen) then Err (EProtocolLength c)
      else if negb (seqb (take 19 (drop 1 buf)) protocolStr) then Err (EProtocol (take 19 (drop 1 buf)))
      else
        let gotHash := take 20 (drop 28 buf) in
        if negb (seqb gotHash expectedHash) then Err (EInfoHash gotHash)
        else Ok (take 20 (drop 48 buf), r')
  end.

(** [Handshake]: both directions run concurrently; the goroutine's send error
    ([sent = false]) is reported before the receive error. *)
Definition Handshake (sent : bool) (incoming infoHash peerID : bytes)
    : bytes * res perr (bytes * bytes) :=
  let received := recvHandshake incoming infoHash in
  (sendHandshake infoHash peerID,
   match received with
   | Panic => Panic
   | _ => if sent then received else Err ESendHandshake
   end).

(** [None] is a keepalive. *)
Definition ReadMessage (r : bytes) : res perr (option Message * bytes) :=
  let! (len4, r1) := res_wrap EReadLengthPrefix (ReadFull r 4) in
  let length := be_get len4 in
  if length =? 0 then Ok (None, r1)
  else
    let! (raw, r2) := res_wrap EReadPayload (ReadFull r1 (Z.to_nat length)) in
    match raw with
    | [] => Panic
    | id :: payload => Ok (Some {| ID := id; Payload := payload |}, r2)
    end.

Definition WriteMessage (msg : Message) : bytes :=
  be_put 4 (u32 (1 + blen (Payload msg))) ++ [ID msg] ++ Payload msg.

Definition FormatRequest (index begin len : Z) : bytes :=
  be_put 4 index ++ be_put 4 begin ++ be_put 4 len.

Definition ParsePiece (payload : bytes) : res perr (Z * Z * bytes) :=
  if blen payload <? 8 then Err (EPieceShort (blen payload))
  else Ok (be_get (take 4 payload), be_get (take 4 (drop 4 payload)), drop 8 payload).

Definition ParseHave (payload : bytes) : res perr Z :=
  if negb (blen payload =? 4) then Err (EHaveLength (blen payload))
  else Ok (be_get payload).

(* ------------------------------------------------------------------ *)

Definition reserved : bytes := replicate 8 Byte.x00.

(** The 68 bytes of the handshake, field by field. *)
Lemma sendHandshake_layout infoHash peerID :
  length infoHash = 20%nat -> length peerID = 20%nat ->
  sendHandshake infoHash peerID = [protocolStrLen] ++ protocolStr ++ reserved ++ infoHash ++ peerID.
Proof.
  intros Hi Hp. unfold sendHandshake.
  change (copy_at _ 1 20 protocolStr) with (([protocolStrLen] ++ protocolStr ++ reserved) ++ replicate 40 Byte.x00).
  set (h := [protocolStrLen] ++ protocolStr ++ reserved).
  change ([protocolStrLen] ++ protocolStr ++ reserved ++ infoHash ++ peerID) with (h ++ infoHash ++ peerID).
  assert (length h = 28%nat) as Hh by done. clearbody h.
  unfold copy_at at 2. rewrite Hi. cbn [Nat.min Nat.sub].
  rewrite take_app_length' by done. rewrite (take_ge infoHash) by lia.
  change 40%nat with (20 + 20)%nat. rewrite replicate_add, (app_assoc h (replicate 20 _)).
  rewrite drop_app_length' by (rewrite length_app, length_replicate; lia).
  unfold copy_at. rewrite Hp. cbn [Nat.min Nat.sub].
  rewrite (app_assoc h infoHash), take_app_length' by (rewrite length_app; lia).
  rewrite (take_ge peerID) by lia. rewrite drop_ge by (rewrite !length_app, length_replicate; lia).
  by rewrite app_nil_r, <- !app_assoc.
Qed.

(** Reading a list of messages off a stream, keepalives included. *)
Fixpoint read_all (n : nat) (r : bytes) : res perr (list (option Message) * bytes) :=
  match n with
  | O => Ok ([], r)
  | S n' =>
      let! (m, r1) := ReadMessage r in
      let! (ms, r2) := read_all n' r1 in
      Ok (m :: ms, r2)
  end.

Definition wire (m : option Message) : bytes :=
  match m with Some msg => WriteMessage msg | None => be_put 4 0 end.

Definition fits (m : option Message) : bool :=
  match m with Some msg => 1 + blen (Payload msg) <? 2 ^ 32 | None => true end.

Lemma ReadMessage_wire m rest : fits m = true -> ReadMessage (wire m ++ rest) = Ok (m, rest).
Proof.
  intros Hf. unfold ReadMessage. destruct m as [[payload id]|]; cbn [wire fits Payload] in *.
  - unfold WriteMessage. cbn [Payload ID]. rewrite <- !app_assoc.
    rewrite ReadFull_app_n by apply be_put_length. cbn [res_wrap res_bind].
    assert (0 <= blen payload) by (unfold blen; lia).
    rewrite wrap_u_small by (unfold in_u; lia).
    rewrite be_get_put_u by (unfold in_u; simpl; lia).
    destruct (Z.eqb_spec (1 + blen payload) 0); [lia|].
    rewrite app_assoc, (ReadFull_app_n ([id] ++ payload)) by (simpl; unfold blen; lia). done.
  - rewrite ReadFull_app_n by apply be_put_length. cbn [res_wrap res_bind].
    by rewrite be_get_put_u by (unfold in_u; simpl; lia).
Qed.

(** Handshake: what one side sends the other accepts exactly when both want
    the same torrent, returning the sender's peer ID and leaving the rest of the
    stream untouched; a different info hash is rejected with that error. *)
Theorem handshake_agreement infoHash expected peerID rest
  (Hi : length infoHash = 20%nat) (Hp : length peerID = 20%nat) :
  recvHandshake (sendHandshake infoHash peerID ++ rest) expected =
  if decide (infoHash = expected) then Ok (peerID, rest) else Err (EInfoHash infoHash).
Proof.
  unfold recvHandshake. rewrite sendHandshake_layout by done.
  rewrite ReadFull_app_n by (rewrite !length_app, Hi, Hp; done). cbn [res_wrap res_bind].
  set (buf := [protocolStrLen] ++ protocolStr ++ reserved ++ infoHash ++ peerID).
  assert (buf !! 0%nat = Some protocolStrLen) as -> by done.
  assert (take 19 (drop 1 buf) = protocolStr) as -> by done.
  assert (drop 28 buf = infoHash ++ peerID) as -> by done.
  rewrite beqb_refl, seqb_refl. cbn [negb].
  rewrite take_app_length' by done.
  assert (take 20 (drop 48 buf) = peerID) as ->.
  { change (drop 48 buf) with (drop 20 (infoHash ++ peerID)).
    rewrite drop_app_length' by done. by rewrite take_ge by lia. }
  case_decide as E; [subst; by rewrite seqb_refl|]. by rewrite seqb_ne.
Qed.

Lemma handshake_agreement_witness :
  recvHandshake (sendHandshake (replicate 20 Byte.x61) (replicate 20 Byte.x62) ++ str "x") (replicate 20 Byte.x61)
  = Ok (replicate 20 Byte.x62, str "x").
Proof. rewrite (handshake_agreement (replicate 20 Byte.x61) (replicate 20 Byte.x61) (replicate 20 Byte.x62) (str "x")); reflexivity. Defined.

(** Messages survive the wire: any sequence of messages and keepalives
    written one after another is read back as the same sequence, provided each
    payload's length plus one fits the 32-bit prefix. *)
Theorem messages_roundtrip ms rest (Hms : forallb fits ms = true) :
  read_all (length ms) (flat_map wire ms ++ rest) = Ok (ms, rest).
Proof.
  induction ms as [|m ms IH]; [done|]. cbn [forallb] in Hms.
  apply andb_true_iff in Hms as [Hm Hms]. cbn [flat_map length read_all].
  rewrite <- app_assoc, ReadMessage_wire by done. cbn [res_bind].
  by rewrite IH.
Qed.

Lemma messages_roundtrip_witness :
  read_all 2 (flat_map wire [None; Some {| ID := MessageID_byte MsgRequest; Payload := FormatRequest 1 0 16384 |}] ++ [])
  = Ok ([None; Some {| ID := MessageID_byte MsgRequest; Payload := FormatRequest 1 0 16384 |}], []).
Proof. apply (messages_roundtrip [None; Some {| ID := MessageID_byte MsgRequest; Payload := FormatRequest 1 0 16384 |}] []). vm_compute. reflexivity. Defined.

(** Reading a message is exact: whatever bytes [ReadMessage] accepts are
    those [WriteMessage] (or a keepalive) would have produced, so parsing loses
    nothing and never reads past the message. *)
Theorem ReadMessage_exact r m r' (Hr : ReadMessage r = Ok (m, r')) : r = wire m ++ r'.
Proof.
  unfold ReadMessage in Hr. destruct (ReadFull r 4) as [[len4 r1]| |] eqn:E1; try done.
  apply ReadFull_inv in E1 as [-> Hl]. cbn [res_wrap res_bind] in Hr.
  pose proof (be_get_range len4) as Hrange. unfold blen in Hrange. rewrite Hl in Hrange.
  destruct (Z.eqb_spec (be_get len4) 0) as [E0|].
  { simplify_eq. cbn [wire]. rewrite <- E0, <- Hl, be_put_get. done. }
  destruct (ReadFull r1 _) as [[raw r2]| |] eqn:E2; try done.
  apply ReadFull_inv in E2 as [-> Hraw]. cbn [res_wrap res_bind] in Hr.
  destruct raw as [|id payload]; [done|]. simplify_eq. cbn [wire]. unfold WriteMessage. cbn [Payload ID].
  simpl in Hraw. replace (1 + blen payload) with (be_get len4) by (unfold blen; lia).
  rewrite wrap_u_small by (unfold in_u; simpl in Hrange; lia).
  rewrite <- Hl, be_put_get, <- !app_assoc. done.
Qed.

Lemma ReadMessage_exact_witness :
  str "" ++ be_put 4 1 ++ [Byte.x01; Byte.x02] = wire (Some {| ID := Byte.x01; Payload := [] |}) ++ [Byte.x02].
Proof. apply ReadMessage_exact. vm_compute. reflexivity. Defined.
