(* ===== verification/Piece.v ===== *)
(** * torrent/piece: the download state of one piece

    [State] is mutated by [NextRequest] and [Store]; the model passes it
    explicitly.  Offsets and lengths are Go [int]s (64 bits, wrapping). *)

From S2P Require Import Prelude GoStrings Metainfo.

Definition BlockSize : Z := Z.shiftl 1 14.

Record State := {
  data : bytes;
  index : Z;
  length_ : Z;
  downloaded : Z;
  requested : Z;
  hash : bytes
}.

Definition New (index : Z) (hash : bytes) (length : Z) : res unit State :=
  if makeslice_ok length then
    Ok {| index := index; hash := hash; length_ := length;
          data := replicate (Z.to_nat length) Byte.x00; downloaded := 0; requested := 0 |}
  else Panic.

Definition Complete (s : State) : bool := length_ s <=? downloaded s.

(** Returns [(begin, blockLen, ok)] and advances the request cursor. *)
Definition NextRequest (s : State) : Z * Z * bool * State :=
  if length_ s <=? requested s then (0, 0, false, s)
  else
    let begin := requested s in
    let blockLen := if length_ s <? i64 (begin + BlockSize) then i64 (length_ s - begin) else BlockSize in
    (begin, blockLen, true,
     {| data := data s; index := index s; length_ := length_ s; downloaded := downloaded s;
        requested := i64 (requested s + blockLen); hash := hash s |}).

Inductive piece_err := EOverflow | EHashMismatch (got : bytes).

Definition Store (s : State) (begin : Z) (blk : bytes) : res piece_err State :=
  if length_ s <? i64 (begin + blen blk) then Err EOverflow
  else if (begin <? 0) || (blen (data s) <? begin) then Panic (* s.data[begin:] *)
  else
    let n := Nat.min (length (data s) - Z.to_nat begin) (length blk) in
    Ok {| data := take (Z.to_nat begin) (data s) ++ take n blk ++ drop (Z.to_nat begin + n) (data s);
          index := index s; length_ := length_ s;
          downloaded := i64 (downloaded s + blen blk);
          requested := requested s; hash := hash s |}.

Definition Verify `{Sha1} (s : State) : res piece_err unit :=
  let got := sha1 (data s) in
  if seqb got (hash s) then Ok tt else Err (EHashMismatch got).

(* ------------------------------------------------------------------ *)
(** ** The driver loops: ask for every block, store every block *)

(** [for { b, l, ok := s.NextRequest(); if !ok { break }; ... }]. *)
Fixpoint request_loop (fuel : nat) (s : State) : list (Z * Z) * State * bool :=
  match fuel with
  | O => ([], s, false)
  | S fuel' =>
      let '(begin, blockLen, ok, s') := NextRequest s in
      if ok then let '(rs, s2, done) := request_loop fuel' s' in ((begin, blockLen) :: rs, s2, done)
      else ([], s', true)
  end.

(** The block of [full] a request asks for. *)
Definition block_of (full : bytes) (r : Z * Z) : bytes :=
  take (Z.to_nat r.2) (drop (Z.to_nat r.1) full).

Fixpoint store_all (s : State) (full : bytes) (rs : list (Z * Z)) : res piece_err State :=
  match rs with
  | [] => Ok s
  | r :: rs' => let! s' := Store s r.1 (block_of full r) in store_all s' full rs'
  end.

(** The byte offsets a request covers. *)
Definition offsets (r : Z * Z) : list Z := seqZ r.1 r.2.

Definition small (n : Z) : Prop := 0 <= n <= max_alloc.

Lemma BlockSize_val : BlockSize = 16384.
Proof. reflexivity. Qed.

Lemma request_loop_tiles fuel s :
  small (length_ s) -> 0 <= requested s <= length_ s ->
  (length_ s - requested s + (BlockSize - 1)) / BlockSize < Z.of_nat fuel ->
  let '(rs, s', done) := request_loop fuel s in
  done = true /\ requested s' = length_ s /\ length_ s' = length_ s /\
  flat_map offsets rs = seqZ (requested s) (length_ s - requested s) /\
  Forall (fun r => requested s <= r.1 /\ 0 < r.2 <= BlockSize /\ r.1 + r.2 <= length_ s) rs.
Proof.
  revert s. induction fuel as [|fuel IH]; intros s Hs Hr Hf.
  { rewrite BlockSize_val in *. dlia. }
  unfold small, max_alloc in *. cbn [request_loop]. unfold NextRequest.
  destruct (Z.leb_spec (length_ s) (requested s)).
  { replace (length_ s - requested s) with 0 by lia. repeat split; [lia|constructor]. }
  rewrite (i64_small (requested s + BlockSize)) by (unfold in_i64; rewrite BlockSize_val; lia).
  rewrite (i64_small (length_ s - requested s)) by (unfold in_i64; lia).
  set (bl := if length_ s <? requested s + BlockSize then length_ s - requested s else BlockSize).
  assert (0 < bl <= BlockSize /\ requested s + bl <= length_ s /\
          (bl = BlockSize \/ requested s + bl = length_ s)) as (Hbl & Hle & Hcase).
  { unfold bl. rewrite BlockSize_val. destruct (Z.ltb_spec (length_ s) (requested s + 16384)); lia. }
  clearbody bl. rewrite i64_small by (unfold in_i64; lia). specialize (IH {| data := data s; index := index s; length_ := length_ s;
    downloaded := downloaded s; requested := requested s + bl; hash := hash s |}).
  cbn [length_ requested] in IH. rewrite !BlockSize_val in *.
  destruct (request_loop fuel _) as [[rs s2] fin].
  destruct IH as (-> & Hq & Hl & Ht & Hf2); [lia|lia|dlia|].
  split; [done|]. split; [done|]. split; [done|]. split.
  - cbn [flat_map]. rewrite Ht. unfold offsets. cbn [fst snd].
    replace (length_ s - requested s) with (bl + (length_ s - (requested s + bl))) by lia.
    by rewrite seqZ_app by lia.
  - constructor; [cbn [fst snd]; lia|]. eapply Forall_impl; [exact Hf2|]. intros r. simpl. lia.
Qed.

(** ** Storing blocks *)

(** [d] agrees with [full] at offset [i]. *)
Definition agrees (d full : bytes) (i : Z) : Prop := d !! Z.to_nat i = full !! Z.to_nat i.

Definition fits_in (n : Z) (r : Z * Z) : Prop := 0 <= r.1 /\ 0 < r.2 /\ r.1 + r.2 <= n.

Lemma block_of_length full r :
  fits_in (blen full) r -> blen (block_of full r) = r.2.
Proof.
  intros (H1 & H2 & H3). unfold block_of, blen in *. rewrite length_take, length_drop. lia.
Qed.

Lemma Store_block s full r :
  length (data s) = length full -> length_ s = blen full -> small (blen full) ->
  fits_in (blen full) r -> 0 <= downloaded s <= blen full * 2 ^ 8 ->
  exists s', Store s r.1 (block_of full r) = Ok s' /\
    length (data s') = length full /\ length_ s' = blen full /\
    downloaded s' = i64 (downloaded s + r.2) /\
    (forall i, 0 <= i -> i ∈ offsets r \/ agrees (data s) full i -> agrees (data s') full i).
Proof.
  intros Hd Hl Hs Hr Hdl. pose proof (block_of_length full r Hr) as Hb.
  destruct Hr as (H1 & H2 & H3). unfold Store, small, max_alloc in *.
  rewrite Hb, Hl. rewrite (i64_small (r.1 + r.2)) by (unfold in_i64; lia).
  destruct (Z.ltb_spec (blen full) (r.1 + r.2)); [lia|].
  replace ((r.1 <? 0) || (blen (data s) <? r.1)) with false by (unfold blen in *; lia).
  eexists. split; [reflexivity|]. cbn [data length_ downloaded].
  assert (length (block_of full r) = Z.to_nat r.2) as Hb' by (unfold blen in Hb; lia).
  assert (Nat.min (length (data s) - Z.to_nat r.1) (length (block_of full r)) = Z.to_nat r.2) as ->
    by (unfold blen in *; lia).
  rewrite (take_ge (block_of full r)) by lia.
  split; [rewrite !length_app, length_take, length_drop; unfold blen in *; lia|].
  split; [done|]. split; [done|]. intros i Hi Hcase. unfold agrees in *.
  destruct (decide (i < r.1)) as [Hlt|Hge].
  { rewrite lookup_app_l by (rewrite length_take; unfold blen in *; lia).
    rewrite lookup_take_lt by lia. destruct Hcase as [Ho|?]; [|done].
    unfold offsets in Ho. apply elem_of_seqZ in Ho. lia. }
  rewrite lookup_app_r by (rewrite length_take; unfold blen in *; lia).
  rewrite length_take. replace (Nat.min (Z.to_nat r.1) (length (data s))) with (Z.to_nat r.1) by (unfold blen in *; lia).
  destruct (decide (i < r.1 + r.2)) as [Hlt|Hge2].
  - rewrite lookup_app_l by lia. unfold block_of. rewrite lookup_take_lt, lookup_drop by lia. f_equal. lia.
  - rewrite lookup_app_r by lia. rewrite lookup_drop, Hb'.
    replace (Z.to_nat r.1 + Z.to_nat r.2 + (Z.to_nat i - Z.to_nat r.1 - Z.to_nat r.2))%nat with (Z.to_nat i) by lia.
    destruct Hcase as [Ho|?]; [|done]. unfold offsets in Ho. apply elem_of_seqZ in Ho. lia.
Qed.

Definition total (rs : list (Z * Z)) : Z := foldr Z.add 0 (map snd rs).

Lemma total_perm rs rs' : rs ≡ₚ rs' -> total rs = total rs'.
Proof. unfold total. induction 1; simpl in *; lia. Qed.

Lemma total_offsets rs :
  Forall (fun r : Z * Z => 0 < r.2) rs -> total rs = Z.of_nat (length (flat_map offsets rs)).
Proof.
  induction 1 as [|r rs Hr _ IH]; [done|]. cbn [flat_map]. rewrite length_app.
  unfold total in *. simpl. rewrite IH. unfold offsets. rewrite length_seqZ. lia.
Qed.

Lemma store_all_spec full rs : forall s,
  length (data s) = length full -> length_ s = blen full -> small (blen full) ->
  Forall (fits_in (blen full)) rs -> 0 <= downloaded s -> downloaded s + total rs <= blen full ->
  exists s', store_all s full rs = Ok s' /\ length (data s') = length full /\ length_ s' = blen full /\
    downloaded s' = downloaded s + total rs /\
    (forall i, 0 <= i -> i ∈ flat_map offsets rs \/ agrees (data s) full i -> agrees (data s') full i).
Proof.
  induction rs as [|r rs IH]; intros s Hd Hl Hs Hf H0 Ht.
  { exists s. unfold total in *. simpl in *. repeat split; try done; [lia|].
    intros i _ [?%elem_of_nil|?]; done. }
  apply Forall_cons in Hf as [Hr Hf].
  assert (0 <= total rs) as Hpos.
  { clear -Hf. unfold total. induction Hf as [|x l (?&?&?) _ IH]; simpl in *; lia. }
  assert (total (r :: rs) = r.2 + total rs) as Et by done. rewrite Et in *.
  destruct Hr as (Hr1 & Hr2 & Hr3).
  destruct (Store_block s full r) as (s1 & E & Hd1 & Hl1 & Hdl1 & Ha1); [done..|lia|].
  cbn [store_all]. rewrite E. cbn [res_bind]. unfold small, max_alloc in *.
  rewrite i64_small in Hdl1 by (unfold in_i64; lia).
  destruct (IH s1) as (s2 & E2 & Hd2 & Hl2 & Hdl2 & Ha2); [done..|lia|lia|].
  exists s2. repeat split; [done|done|done|lia|]. intros i Hi Hc. apply Ha2; [done|].
  cbn [flat_map] in Hc. rewrite elem_of_app in Hc. destruct Hc as [[Ho|Ho]|Hag]; [right|by left|right];
    apply Ha1; auto.
Qed.

Lemma Store_at_zero s blk :
  small (length_ s) -> length_ s = blen (data s) -> blen blk <= length_ s ->
  exists s', Store s 0 blk = Ok s' /\ data s' = blk ++ drop (length blk) (data s) /\
    length_ s' = length_ s /\ downloaded s' = i64 (downloaded s + blen blk).
Proof.
  unfold small, max_alloc. intros Hs Hl Hb. unfold Store.
  assert (0 <= blen blk) by (unfold blen; lia).
  rewrite (i64_small (0 + blen blk)) by (unfold in_i64; lia).
  replace (length_ s <? 0 + blen blk) with false by lia.
  replace ((0 <? 0) || (blen (data s) <? 0)) with false by lia.
  replace (Nat.min _ _) with (length blk) by (unfold blen in *; lia).
  eexists. split; [reflexivity|]. cbn [data length_ downloaded].
  by rewrite (take_ge blk).
Qed.

Lemma length_replicate_blen (full : bytes) (c : byte) :
  length (replicate (Z.to_nat (blen full)) c) = length full.
Proof. rewrite length_replicate. unfold blen. lia. Qed.

(* ------------------------------------------------------------------ *)
(** ** Properties *)

(** C9. Requesting tiles the piece: from a fresh state of any length, calling
    [NextRequest] until it reports no more terminates, and the blocks it returned
    cover the offsets [0 .. length-1] exactly once and in order, each of at most
    [BlockSize] bytes and none empty. *)
Theorem NextRequest_tiles idx h n s (Hn : New idx h n = Ok s) :
  let '(rs, _, finished) := request_loop (Z.to_nat (n / BlockSize) + 2) s in
  finished = true /\ flat_map offsets rs = seqZ 0 n /\
  Forall (fun r => 0 < r.2 <= BlockSize) rs.
Proof.
  unfold New, makeslice_ok in Hn. destruct (_ && _) eqn:E; simplify_eq.
  set (s0 := Build_State _ _ _ _ _ _).
  assert (small n) as Hs by (unfold small; lia).
  pose proof (request_loop_tiles (Z.to_nat (n / BlockSize) + 2) s0) as H.
  destruct (request_loop _ s0) as [[rs s'] fin]. simpl in H. rewrite BlockSize_val in *.
  unfold small, max_alloc in *.
  destruct H as (-> & _ & _ & Ht & Hf); [done|lia|dlia|].
  rewrite Z.sub_0_r in Ht. split; [done|]. split; [done|].
  eapply Forall_impl; [exact Hf|]. simpl. lia.
Qed.

Lemma NextRequest_tiles_witness :
  let '(rs, _, finished) := request_loop 4
    {| data := replicate 40000 Byte.x00; index := 0; length_ := 40000; downloaded := 0; requested := 0; hash := [] |} in
  finished = true /\ flat_map offsets rs = seqZ 0 40000 /\ Forall (fun r => 0 < r.2 <= BlockSize) rs.
Proof. apply (NextRequest_tiles 0 [] 40000). reflexivity. Defined.

(** Download completes in any order: if the blocks a fresh piece asked for
    are stored once each, in whatever order peers deliver them, every [Store]
    succeeds, the piece is [Complete] and its buffer is the original data. *)
Theorem Store_any_order idx h full rs s arrived
  (Hn : New idx h (blen full) = Ok s)
  (Hrs : rs = (request_loop (Z.to_nat (blen full / BlockSize) + 2) s).1.1)
  (Hp : arrived ≡ₚ rs) :
  exists s', store_all s full arrived = Ok s' /\ data s' = full /\ Complete s' = true.
Proof.
  unfold New, makeslice_ok in Hn. destruct (_ && _) eqn:E; simplify_eq.
  set (s0 := Build_State _ _ _ _ _ _) in *.
  assert (small (blen full)) as Hs by (unfold small; lia).
  pose proof (request_loop_tiles (Z.to_nat (blen full / BlockSize) + 2) s0) as H.
  destruct (request_loop _ s0) as [[rs s'] fin]. cbn [fst snd] in *. cbn [length_ requested s0] in H.
  destruct H as (_ & _ & _ & Ht & Hf); [done|lia|rewrite BlockSize_val in *; unfold small, max_alloc in *; dlia|].
  rewrite Z.sub_0_r in Ht.
  assert (Forall (fits_in (blen full)) arrived) as Hfit.
  { rewrite Hp. eapply Forall_impl; [exact Hf|]. unfold fits_in. simpl. lia. }
  assert (total arrived = blen full) as Htot.
  { rewrite (total_perm _ _ Hp), total_offsets, Ht, length_seqZ; [lia|].
    eapply Forall_impl; [exact Hf|]. simpl. lia. }
  destruct (store_all_spec full arrived s0) as (s1 & E1 & Hd & Hl & Hdl & Ha);
    [apply length_replicate_blen|done..|simpl; lia|].
  exists s1. split; [done|]. split.
  - apply list_eq_same_length with (length full); [done|done|]. intros i x y Hi Hx Hy.
    specialize (Ha (Z.of_nat i) ltac:(lia)). unfold agrees in Ha. rewrite Nat2Z.id in Ha.
    rewrite Ha in Hx; [congruence|]. left.
    assert (flat_map offsets arrived ≡ₚ seqZ 0 (blen full)) as ->
      by (rewrite <- Ht; by rewrite Hp).
    apply elem_of_seqZ. unfold blen. lia.
  - unfold Complete. rewrite Hl, Hdl, Htot. simpl. lia.
Qed.

Definition sample_piece : bytes := str "0123456789".
Definition sample_state : State :=
  {| data := replicate 10 Byte.x00; index := 3; length_ := 10; downloaded := 0; requested := 0; hash := [] |}.

Lemma Store_any_order_witness :
  exists s', store_all sample_state sample_piece [(0, 10)] = Ok s' /\ data s' = sample_piece /\ Complete s' = true.
Proof. apply (Store_any_order 3 [] sample_piece [(0, 10)]); vm_compute; reflexivity. Defined.

(** [Complete] counts bytes, not coverage: delivering the first half of a
    piece twice makes it [Complete] although the second half was never stored. *)
Theorem Complete_counts_duplicates idx h half s
  (Hn : New idx h (2 * blen half) = Ok s) :
  exists s', store_all s half [(0, blen half); (0, blen half)] = Ok s' /\
    Complete s' = true /\ data s' = half ++ replicate (length half) Byte.x00.
Proof.
  unfold New, makeslice_ok in Hn. destruct (_ && _) eqn:E; simplify_eq. unfold max_alloc in *.
  assert (block_of half (0, blen half) = half) as Hb.
  { unfold block_of, blen. cbn [fst snd]. rewrite drop_0, Nat2Z.id. by rewrite take_ge. }
  set (s0 := Build_State _ _ _ _ _ _). assert (0 <= blen half) by (unfold blen; lia).
  assert (blen (data s0) = 2 * blen half) as Hd.
  { cbn [data s0]. unfold blen at 1. rewrite length_replicate. lia. }
  cbn [store_all fst]. rewrite Hb. unfold small, max_alloc in *.
  destruct (Store_at_zero s0 half) as (s1 & -> & Hd1 & Hl1 & Hdl1);
    [unfold small, max_alloc; cbn [length_ s0]; lia|cbn [length_ s0]; lia|cbn [length_ s0]; lia|].
  cbn [res_bind].
  destruct (Store_at_zero s1 half) as (s2 & -> & Hd2 & Hl2 & Hdl2).
  { unfold small, max_alloc. rewrite Hl1. cbn [length_ s0]. lia. }
  { rewrite Hd1, Hl1. unfold blen in *. rewrite length_app, length_drop. cbn [length_ s0]. lia. }
  { rewrite Hl1. cbn [length_ s0]. lia. }
  exists s2. split; [done|]. cbn [downloaded s0] in Hdl1.
  rewrite i64_small in Hdl1 by (unfold in_i64; lia).
  rewrite Hdl1, i64_small in Hdl2 by (unfold in_i64; lia). split.
  - unfold Complete. rewrite Hl2, Hl1, Hdl2. cbn [length_ s0]. lia.
  - rewrite Hd2, Hd1, drop_app_length. cbn [data s0].
    replace (Z.to_nat (2 * blen half)) with (length half + length half)%nat by (unfold blen; lia).
    by rewrite drop_replicate, Nat.add_sub.
Qed.

Lemma Complete_counts_duplicates_witness :
  exists s', store_all {| data := replicate 10 Byte.x00; index := 0; length_ := 10; downloaded := 0;
                          requested := 0; hash := [] |} (str "01234") [(0, 5); (0, 5)] = Ok s' /\
    Complete s' = true /\ data s' = str "01234" ++ replicate 5 Byte.x00.
Proof. apply (Complete_counts_duplicates 0 [] (str "01234")). reflexivity. Defined.
