(* ===== verification/TorrentLink.v ===== *)
(** * torrent: a piece over the wire

    torrent/piece asks for blocks and stores them, torrent/peer carries them; the packages
    leave the loop between the two to their user.  Here is that loop, with the other side
    written from BEP 3, and the download of a piece from the request to [Verify]. *)

From S2P Require Import Prelude GoStrings Metainfo Peer Piece.

Definition request_msg (idx : Z) (r : Z * Z) : Message :=
  {| ID := MessageID_byte MsgRequest; Payload := FormatRequest idx r.1 r.2 |}.
Definition piece_msg (idx : Z) (full : bytes) (r : Z * Z) : Message :=
  {| ID := MessageID_byte MsgPiece; Payload := be_put 4 idx ++ be_put 4 r.1 ++ block_of full r |}.

(** A peer that has the pieces [have]: it answers a request for a block it has. *)
Definition answer (have : Z -> option bytes) (m : Message) : option Message :=
  if beqb (ID m) (MessageID_byte MsgRequest) && (blen (Payload m) =? 12) then
    let idx := be_get (take 4 (Payload m)) in
    let r := (be_get (take 4 (drop 4 (Payload m))), be_get (drop 8 (Payload m))) in
    match have idx with
    | Some full => if r.1 + r.2 <=? blen full then Some (piece_msg idx full r) else None
    | None => None
    end
  else None.

(** The answers to a stream of requests. *)
Fixpoint seed (fuel : nat) (have : Z -> option bytes) (r : bytes) : list Message :=
  match fuel with
  | O => []
  | S fuel =>
      match ReadMessage r with
      | Ok (Some m, r) => option_list (answer have m) ++ seed fuel have r
      | Ok (None, r) => seed fuel have r
      | _ => []
      end
  end.

Inductive link_err := LPeer (e : perr) | LPiece (e : piece_err).

(** The loop of a downloader: blocks of its piece are stored, everything else is passed
    over, until the piece is complete. *)
Fixpoint leech (fuel : nat) (s : State) (r : bytes) : option (res link_err (State * bytes)) :=
  if Complete s then Some (Ok (s, r))
  else match fuel with
       | O => None
       | S fuel =>
           match ReadMessage r with
           | Err e => Some (Err (LPeer e))
           | Panic => Some Panic
           | Ok (None, r) => leech fuel s r
           | Ok (Some m, r) =>
               if beqb (ID m) (MessageID_byte MsgPiece) then
                 match ParsePiece (Payload m) with
                 | Err e => Some (Err (LPeer e))
                 | Panic => Some Panic
                 | Ok (i, begin, blk) =>
                     if i =? index s then
                       match Store s begin blk with
                       | Ok s => leech fuel s r
                       | Err e => Some (Err (LPiece e))
                       | Panic => Some Panic
                       end
                     else leech fuel s r
                 end
               else leech fuel s r
           end
       end.

(* ------------------------------------------------------------------ *)
(** ** Requests and their answers *)

Definition fits32 (r : Z * Z) : Prop := in_u 32 r.1 /\ in_u 32 r.2.

Lemma u32_field z rest : in_u 32 z -> be_get (take 4 (be_put 4 z ++ rest)) = z /\ drop 4 (be_put 4 z ++ rest) = rest.
Proof.
  intros H. pose proof (be_put_length 4 z) as E. rewrite <- E at 1 3. rewrite take_app_length, drop_app_length. split; [|done]. by apply be_get_put_u.
Qed.

Lemma request_parts idx r : in_u 32 idx -> fits32 r ->
  let p := FormatRequest idx r.1 r.2 in
  blen p = 12 /\ be_get (take 4 p) = idx /\ be_get (take 4 (drop 4 p)) = r.1 /\ be_get (drop 8 p) = r.2.
Proof.
  intros Hi [H1 H2]. cbv zeta. unfold FormatRequest. split; [unfold blen; by rewrite !length_app, !be_put_length|].
  destruct (u32_field idx (be_put 4 r.1 ++ be_put 4 r.2) Hi) as [E1 E2]. rewrite E1, E2.
  destruct (u32_field r.1 (be_put 4 r.2) H1) as [E3 E4]. rewrite E3. split; [done|]. split; [done|].
  change 8%nat with (4 + 4)%nat. rewrite <- drop_drop, E2, E4. by apply be_get_put_u.
Qed.

Lemma answer_request have idx full r :
  in_u 32 idx -> fits32 r -> have idx = Some full -> r.1 + r.2 <= blen full ->
  answer have (request_msg idx r) = Some (piece_msg idx full r).
Proof.
  intros Hi Hr Hh Hb. destruct (request_parts idx r Hi Hr) as (E1 & E2 & E3 & E4). unfold answer, request_msg. cbn [ID Payload].
  rewrite E1, E2, E3, E4, Hh. cbn. rewrite (proj2 (Z.leb_le _ _)) by done. by destruct r.
Qed.

Lemma request_fits idx r : fits (Some (request_msg idx r)) = true.
Proof. unfold fits, request_msg, FormatRequest. cbn [Payload]. unfold blen. by rewrite !length_app, !be_put_length. Qed.

(** The requests for the blocks of a piece, through the wire, are answered block by block. *)
Lemma seed_requests have idx full rs : forall fuel,
  in_u 32 idx -> Forall fits32 rs -> have idx = Some full -> Forall (fun r => r.1 + r.2 <= blen full) rs -> (length rs <= fuel)%nat ->
  seed fuel have (flat_map (fun r => WriteMessage (request_msg idx r)) rs) = map (piece_msg idx full) rs.
Proof.
  induction rs as [|r rs IH]; intros fuel Hi H1 Hh H2 Hf; cbn [flat_map map].
  - by destruct fuel.
  - destruct fuel as [|fuel]; [cbn in Hf; lia|]. cbn [seed]. apply Forall_cons in H1 as [Hr H1]. apply Forall_cons in H2 as [Hb H2].
    change (WriteMessage (request_msg idx r)) with (wire (Some (request_msg idx r))).
    rewrite ReadMessage_wire by apply request_fits. rewrite (answer_request have idx full) by done. cbn. f_equal. apply IH; try done. cbn in Hf. lia.
Qed.

(* ------------------------------------------------------------------ *)
(** ** Blocks and other messages *)

(** A message that is no block of piece [idx]. *)
Definition passed_over (idx : Z) (m : option Message) : bool :=
  match m with
  | None => true
  | Some m =>
      negb (beqb (ID m) (MessageID_byte MsgPiece)) ||
      match ParsePiece (Payload m) with Ok (i, _, _) => negb (i =? idx) | _ => false end
  end.

(** The messages [ms] are the blocks [rs] in this order, with others in between. *)
Inductive carries (idx : Z) (full : bytes) : list (option Message) -> list (Z * Z) -> Prop :=
| carries_nil : carries idx full [] []
| carries_other m ms rs : passed_over idx m = true -> fits m = true -> carries idx full ms rs -> carries idx full (m :: ms) rs
| carries_block r ms rs : carries idx full ms rs -> carries idx full (Some (piece_msg idx full r) :: ms) (r :: rs).

Lemma parse_piece idx full r : in_u 32 idx -> in_u 32 r.1 ->
  ParsePiece (Payload (piece_msg idx full r)) = Ok (idx, r.1, block_of full r).
Proof.
  intros Hi Hr. unfold ParsePiece, piece_msg. cbn [Payload].
  assert (blen (be_put 4 idx ++ be_put 4 r.1 ++ block_of full r) <? 8 = false) as ->.
  { apply Z.ltb_ge. unfold blen. rewrite !length_app, !be_put_length. lia. }
  destruct (u32_field idx (be_put 4 r.1 ++ block_of full r) Hi) as [E1 E2]. destruct (u32_field r.1 (block_of full r) Hr) as [E3 E4].
  rewrite E1, E2, E3. change 8%nat with (4 + 4)%nat. by rewrite <- drop_drop, E2, E4.
Qed.

Lemma Store_keeps s begin blk s' : Store s begin blk = Ok s' ->
  length_ s' = length_ s /\ index s' = index s /\ hash s' = hash s /\ downloaded s' = i64 (downloaded s + blen blk).
Proof. unfold Store. destruct (_ <? _); [done|]. destruct (_ || _); [done|]. by intros [= <-]. Qed.

Lemma store_all_keeps full rs : forall s s', store_all s full rs = Ok s' -> index s' = index s /\ hash s' = hash s.
Proof.
  induction rs as [|r rs IH]; cbn; intros s s' H; [by simplify_eq|]. destruct (Store s r.1 (block_of full r)) as [s1| |] eqn:E; try done.
  destruct (Store_keeps _ _ _ _ E) as (_ & <- & <- & _). by apply IH.
Qed.

Lemma total_nonneg n rs : Forall (fun r => in_u 32 r.1 /\ fits_in n r) rs -> 0 <= total rs.
Proof. induction 1 as [|r rs [_ (_ & ? & _)] _ IH]; unfold total in *; cbn in *; lia. Qed.

(** The loop stores the blocks in the order of the stream, and does not stop before the
    last of them. *)
Lemma leech_stores full ms rs : forall s s' rest fuel,
  carries (index s) full ms rs -> in_u 32 (index s) -> Forall (fun r => in_u 32 r.1 /\ fits_in (blen full) r) rs ->
  Forall (fun m => fits m = true) ms -> small (length_ s) -> 0 <= downloaded s -> downloaded s + total rs = length_ s ->
  store_all s full rs = Ok s' -> (length ms <= fuel)%nat ->
  exists skipped, leech fuel s (flat_map wire ms ++ rest) = Some (Ok (s', flat_map wire skipped ++ rest)).
Proof.
  intros s s' rest fuel Hc. revert rs s s' fuel Hc. induction ms as [|m ms IH]; intros rs s s' fuel Hc Hi Hr Hf Hl Hd Ht Hs Hn.
  - inversion Hc. subst rs. cbn in *. exists []. simplify_eq. destruct fuel; cbn; unfold Complete; by rewrite (proj2 (Z.leb_le _ _)) by lia.
  - destruct fuel as [|fuel]; [cbn in Hn; lia|]. cbn [leech flat_map]. destruct (Complete s) eqn:Ec.
    { assert (rs = []) as ->.
      { destruct rs as [|r rs]; [done|]. exfalso. unfold Complete in Ec. apply Z.leb_le in Ec. apply Forall_cons in Hr as [[_ (_ & ? & _)] Hr].
        pose proof (total_nonneg _ _ Hr).
        cbn in Ht. unfold total in *. lia. }
      cbn in Hs. simplify_eq. by exists (m :: ms). }
    apply Forall_cons in Hf as [Hm Hf]. rewrite <- app_assoc, ReadMessage_wire by done.
    inversion Hc as [|? ? ? Hp _ Hc'|r ? rs' Hc']; subst.
    + destruct m as [m|]; [|apply (IH rs); try done; cbn in Hn; lia]. cbn in Hp.
      destruct (beqb (ID m) (MessageID_byte MsgPiece)); [|apply (IH rs); try done; cbn in Hn; lia]. cbn in Hp.
      destruct (ParsePiece (Payload m)) as [[[i b] blk]| |]; try done. destruct (i =? index s); [done|]. apply (IH rs); try done. cbn in Hn. lia.
    + apply Forall_cons in Hr as [[Hr1 Hfit] Hr]. cbn [ID piece_msg]. rewrite beqb_refl.
      rewrite parse_piece, Z.eqb_refl by done. cbn in Hs. destruct (Store s r.1 (block_of full r)) as [s1| |] eqn:E; try done.
      destruct (Store_keeps _ _ _ _ E) as (E1 & E2 & E3 & E4). cbn in Hs, Ht. fold (total rs') in Ht.
      pose proof (total_nonneg _ _ Hr).
      rewrite block_of_length in E4 by done. destruct Hfit as (? & ? & ?). unfold small in *. unfold max_alloc in *.
      assert (in_i64 (downloaded s + r.2)) as Hin by (unfold in_i64; lia).
      rewrite i64_small in E4 by done. apply (IH rs'); rewrite ?E1, ?E2, ?E4; try done; try lia. cbn in Hn. lia.
Qed.

Definition blocks (s : State) : list (Z * Z) := (request_loop (Z.to_nat (length_ s / BlockSize) + 2) s).1.1.

Lemma blocks_fit idx h (full : bytes) s : New idx h (blen full) = Ok s ->
  index s = idx /\ hash s = h /\ length_ s = blen full /\ downloaded s = 0 /\ small (blen full) /\ total (blocks s) = blen full /\
  Forall (fun r => fits_in (blen full) r /\ r.2 <= BlockSize) (blocks s).
Proof.
  unfold New, makeslice_ok. destruct (_ && _) eqn:E; [|done]. intros [= <-]. unfold blocks. cbn [length_ index hash downloaded].
  set (s0 := Build_State _ _ _ _ _ _). assert (small (blen full)) as Hs by (unfold small; lia).
  pose proof (request_loop_tiles (Z.to_nat (blen full / BlockSize) + 2) s0) as H.
  destruct (request_loop _ s0) as [[rs s'] fin]. cbn [fst snd length_ requested s0] in *.
  destruct H as (_ & _ & _ & Ht & Hf); [done|lia|rewrite BlockSize_val in *; unfold small, max_alloc in *; dlia|].
  repeat (split; [done|]). split; [|eapply Forall_impl; [exact Hf|]; unfold fits_in; simpl; lia].
  rewrite total_offsets, Ht, length_seqZ; [lia|]. eapply Forall_impl; [exact Hf|]. simpl. lia.
Qed.

Lemma carries_fit idx full ms rs n : carries idx full ms rs -> Forall (fun r => fits_in n r /\ r.2 <= BlockSize) rs -> n = blen full ->
  Forall (fun m => fits m = true) ms.
Proof.
  intros Hc. induction Hc as [|m ms rs _ Hm _ IH|r ms rs _ IH]; intros Hr Hn; [constructor|constructor; auto|].
  apply Forall_cons in Hr as [[Hf Hb] Hr]. constructor; [|auto]. subst n. rewrite BlockSize_val in Hb. cbn [fits piece_msg Payload].
  apply Z.ltb_lt. assert (blen (be_put 4 idx ++ be_put 4 r.1 ++ block_of full r) = 8 + r.2) as ->; [|lia].
  rewrite <- (block_of_length full r Hf). unfold blen. rewrite !length_app, !be_put_length. lia.
Qed.

Lemma stream_length (ms : list (option Message)) rest : (length ms <= length (flat_map wire ms ++ rest))%nat.
Proof.
  rewrite length_app. induction ms as [|m ms IH]; cbn [flat_map]; [cbn; lia|]. rewrite length_app. cbn [length].
  assert (1 <= length (wire m))%nat; [|lia].
  destruct m; cbn [wire]; unfold WriteMessage; rewrite ?length_app, be_put_length; lia.
Qed.


(** A piece of ten bytes, with a keepalive and an unchoke before it. *)
Definition demo_full : bytes := str "0123456789".
Definition demo_sha1 : Sha1.
Proof. refine {| sha1 s := take 20 (s ++ replicate 20 Byte.x00) |}. intros s. rewrite length_take, length_app, length_replicate. lia. Defined.
Definition demo_piece : State :=
  {| data := replicate 10 Byte.x00; index := 3; length_ := 10; downloaded := 0; requested := 0; hash := @sha1 demo_sha1 demo_full |}.
Definition demo_stream : list (option Message) :=
  [None; Some {| ID := MessageID_byte MsgUnchoke; Payload := [] |}; Some (piece_msg 3 demo_full (0, 10))].

