(* ===== verification/IrcMessage.v ===== *)
(** * irc/irc/message.go: IRC messages and their wire form

    [Parse] and [Format], with IRCv3 tags.  Go iterates a map in an order of its
    choosing: the class [MapOrder] supplies one for each of the two loops of
    [Format], any permutation of the entries. *)

From S2P Require Import Prelude GoStrings.

(** [Tags] is a map that may be nil. *)
Abbreviation tagmap := (gmap bytes bytes).
Abbreviation Tags := (option tagmap).

Definition Tags_Get (t : Tags) (key : bytes) : option bytes :=
  match t with None => None | Some m => m !! key end.

Record Prefix := { Nick : bytes; User : bytes; Host : bytes }.

Record Message := {
  MTags : Tags;
  MPrefix : option Prefix;
  Command : bytes;
  Params : list bytes
}.

Class MapOrder := {
  order : nat -> tagmap -> list (bytes * bytes);
  order_perm : forall i m, order i m ≡ₚ map_to_list m
}.

(** The order in which stdpp enumerates a map, for evaluation. *)
Definition canonical_order : MapOrder := {|
  order _ m := map_to_list m; order_perm i m := Permutation_refl _ |}.

Definition IsServer (p : Prefix) : bool := seqb (User p) [] && seqb (Host p) [].

Definition Prefix_String (p : option Prefix) : bytes :=
  match p with
  | None => []
  | Some p =>
      if IsServer p then Nick p
      else if negb (seqb (Host p) []) then Nick p ++ str "!" ++ User p ++ str "@" ++ Host p
      else Nick p
  end.

Definition Trailing (m : Message) : bytes := default [] (last (Params m)).

Definition Param (m : Message) (i : Z) : bytes :=
  if (i <? 0) || (i >=? blen (Params m)) then [] else nth (Z.to_nat i) (Params m) [].

Definition CRLF : bytes := [Byte.x0d; Byte.x0a].

Definition InputTooLong (raw : bytes) : bool :=
  let raw := TrimRight CRLF raw in
  if HasPrefix raw (str "@") then
    match IndexByte raw " "%byte with
    | None => 4094 <? blen raw - 1
    | Some space =>
        if 4094 <? Z.of_nat space - 1 then true
        else 510 <? blen (drop (S space) raw)
    end
  else 510 <? blen raw.

(* ------------------------------------------------------------------ *)
(** ** Tag values *)

(** The byte replacer [tagEscaper]. *)
Definition escape_byte (c : byte) : bytes :=
  if beqb c ";"%byte then str "\:"
  else if beqb c " "%byte then str "\s"
  else if beqb c Byte.x5c then str "\\"
  else if beqb c Byte.x0d then str "\r"
  else if beqb c Byte.x0a then str "\n"
  else [c].
Definition escapeTagValue (s : bytes) : bytes := flat_map escape_byte s.

Definition unescape_char (c : byte) : byte :=
  if beqb c ":"%byte then ";"%byte
  else if beqb c "s"%byte then " "%byte
  else if beqb c "r"%byte then Byte.x0d
  else if beqb c "n"%byte then Byte.x0a
  else c.
Fixpoint unescapeTagValue (s : bytes) : bytes :=
  match s with
  | [] => []
  | c :: s' =>
      if negb (beqb c Byte.x5c) then c :: unescapeTagValue s'
      else match s' with
           | [] => []
           | d :: s'' => unescape_char d :: unescapeTagValue s''
           end
  end.

Definition parse_tag (tags : tagmap) (part : bytes) : tagmap :=
  if seqb part [] then tags
  else match IndexByte part "="%byte with
       | Some eq => <[take eq part := unescapeTagValue (drop (S eq) part)]> tags
       | None => <[part := []]> tags
       end.
Definition parseTags (s : bytes) : tagmap := fold_left parse_tag (Split s ";"%byte) ∅.

Definition parsePrefix (s : bytes) : Prefix :=
  let '(host, s) := match IndexByte s "@"%byte with
                    | Some at_ => (drop (S at_) s, take at_ s)
                    | None => ([], s)
                    end in
  let '(user, s) := match IndexByte s "!"%byte with
                    | Some bang => (drop (S bang) s, take bang s)
                    | None => ([], s)
                    end in
  {| Nick := s; User := user; Host := host |}.

(* ------------------------------------------------------------------ *)
(** ** Parse *)

Inductive parse_err :=
| EEmptyMessage | ENoSpaceAfterTags | ENoSpaceAfterPrefix | EEmptyCommand | EMissingCommand.

(** The parameter loop; each pass consumes a byte, so the length is fuel enough. *)
Fixpoint parse_params (fuel : nat) (params : list bytes) (raw : bytes) : list bytes :=
  match fuel, raw with
  | S fuel', c :: rest =>
      if beqb c ":"%byte then params ++ [rest]
      else match IndexByte raw " "%byte with
           | None => params ++ [raw]
           | Some idx => parse_params fuel' (params ++ [take idx raw])
                           (TrimLeft (str " ") (drop (S idx) raw))
           end
  | _, _ => params
  end.

Definition parse_tags_part (raw : bytes) : res parse_err (Tags * bytes) :=
  if HasPrefix raw (str "@") then
    match IndexByte raw " "%byte with
    | None => Err ENoSpaceAfterTags
    | Some idx => Ok (Some (parseTags (drop 1 (take idx raw))), TrimLeft (str " ") (drop (S idx) raw))
    end
  else Ok (None, raw).

Definition parse_prefix_part (raw : bytes) : res parse_err (option Prefix * bytes) :=
  if HasPrefix raw (str ":") then
    match IndexByte raw " "%byte with
    | None => Err ENoSpaceAfterPrefix
    | Some idx => Ok (Some (parsePrefix (drop 1 (take idx raw))), TrimLeft (str " ") (drop (S idx) raw))
    end
  else Ok (None, raw).

Section Wire.
Context `{GoUnicode}.

Definition Parse (raw : bytes) : res parse_err Message :=
  let raw := TrimRight CRLF raw in
  if seqb raw [] then Err EEmptyMessage
  else
    let! (tags, raw) := parse_tags_part raw in
    let! (prefix, raw) := parse_prefix_part raw in
    if seqb raw [] then Err EEmptyCommand
    else match parse_params (length raw) [] raw with
         | [] => Err EMissingCommand
         | cmd :: params =>
             Ok {| MTags := tags; MPrefix := prefix; Command := ToUpper cmd; Params := params |}
         end.

(** [MustParse] panics where [Parse] fails. *)
Definition MustParse (raw : bytes) : res parse_err Message :=
  match Parse raw with Err _ => Panic | r => r end.
End Wire.

(* ------------------------------------------------------------------ *)
(** ** Format *)

Definition write_tag (st : bool * bytes) (kv : bytes * bytes) : bool * bytes :=
  let '(first, buf) := st in
  let buf := if first then buf else buf ++ str ";" in
  let buf := buf ++ kv.1 in
  (false, if seqb kv.2 [] then buf else buf ++ str "=" ++ escapeTagValue kv.2).

(** One of the two passes: server tags ([clientOnly = false]), client-only tags. *)
Definition write_tags (clientOnly : bool) (entries : list (bytes * bytes)) (st : bool * bytes) : bool * bytes :=
  fold_left (fun st kv => if Bool.eqb (HasPrefix kv.1 (str "+")) clientOnly then write_tag st kv else st)
    entries st.

Fixpoint write_params (ps : list bytes) (buf : bytes) : bytes :=
  match ps with
  | [] => buf
  | p :: ps' =>
      let buf := buf ++ str " " in
      let is_last := match ps' with [] => true | _ => false end in
      let buf := if is_last && (ContainsAny p (str " :") || seqb p []) then buf ++ str ":" else buf in
      write_params ps' (buf ++ p)
  end.

Definition Format `{MapOrder} (m : Message) : bytes :=
  let buf :=
    match MTags m with
    | Some tags =>
        if bool_decide (tags = ∅) then []
        else
          let st := write_tags false (order 0 tags) (true, str "@") in
          (write_tags true (order 1 tags) st).2 ++ str " "
    | None => []
    end in
  let buf := match MPrefix m with
             | Some p => buf ++ str ":" ++ Prefix_String (Some p) ++ str " "
             | None => buf
             end in
  write_params (Params m) (buf ++ Command m).

(* ------------------------------------------------------------------ *)
(** ** Escaping *)

Lemma unescape_escape_byte c s : unescapeTagValue (escape_byte c ++ s) = c :: unescapeTagValue s.
Proof.
  unfold escape_byte. bool_cases; subst; try reflexivity.
  simpl. rewrite beqb_ne by done. reflexivity.
Qed.

Lemma unescape_escape s : unescapeTagValue (escapeTagValue s) = s.
Proof.
  induction s as [|c s IH]; [done|]. unfold escapeTagValue in *. cbn [flat_map].
  by rewrite unescape_escape_byte, IH.
Qed.

Lemma escape_chars c s : c ∈ escapeTagValue s -> c <> " "%byte /\ c <> ";"%byte /\ c ∉ CRLF.
Proof.
  unfold escapeTagValue. intros Hc. apply list_elem_of_In, in_flat_map in Hc as (x & _ & Hc).
  apply list_elem_of_In in Hc. unfold escape_byte, CRLF in *.
  destruct (beqb_spec x ";"%byte), (beqb_spec x " "%byte), (beqb_spec x Byte.x5c),
    (beqb_spec x Byte.x0d), (beqb_spec x Byte.x0a); subst; set_solver.
Qed.

(* ------------------------------------------------------------------ *)
(** ** What Format writes, as concatenations *)

Definition tag_text (kv : bytes * bytes) : bytes :=
  kv.1 ++ if seqb kv.2 [] then [] else str "=" ++ escapeTagValue kv.2.

Lemma write_tag_false buf kv : write_tag (false, buf) kv = (false, buf ++ str ";" ++ tag_text kv).
Proof.
  unfold write_tag, tag_text. f_equal. rewrite <- !app_assoc. case_match; [by rewrite app_nil_r|done].
Qed.

Lemma write_tags_fold b entries st :
  write_tags b entries st =
  fold_left write_tag (filterb (fun kv => Bool.eqb (HasPrefix kv.1 (str "+")) b) entries) st.
Proof.
  unfold write_tags. revert st. induction entries as [|kv es IH]; intros st; simpl; [done|].
  destruct (Bool.eqb _ b); apply IH.
Qed.

Lemma write_tag_rest es buf :
  (fold_left write_tag es (false, buf)).2 = buf ++ flat_map (fun kv => str ";" ++ tag_text kv) es.
Proof.
  revert buf. induction es as [|kv es IH]; intros buf; [by rewrite app_nil_r|].
  cbn [fold_left flat_map]. rewrite write_tag_false, IH. by rewrite <- !app_assoc.
Qed.

Lemma Join_flat_map x xs (f : bytes * bytes -> bytes) :
  Join (map f (x :: xs)) (str ";") = f x ++ flat_map (fun kv => str ";" ++ f kv) xs.
Proof.
  revert x. induction xs as [|y ys IH]; intros x; [by rewrite app_nil_r|].
  cbn [flat_map]. change (Join (map f (x :: y :: ys)) (str ";"))
    with (f x ++ str ";" ++ Join (map f (y :: ys)) (str ";")).
  by rewrite IH, <- !app_assoc.
Qed.

Lemma write_tags_join es :
  es <> [] -> (fold_left write_tag es (true, str "@")).2 = str "@" ++ Join (map tag_text es) (str ";").
Proof.
  destruct es as [|kv es]; [done|]. intros _. rewrite Join_flat_map. cbn [fold_left].
  assert (write_tag (true, str "@") kv = (false, str "@" ++ tag_text kv)) as ->.
  { unfold write_tag, tag_text. f_equal. rewrite <- !app_assoc. case_match; [by rewrite app_nil_r|done]. }
  rewrite write_tag_rest. by rewrite <- !app_assoc.
Qed.

(** The tags in the order [Format] emits them: server tags, then client-only. *)
Definition emitted `{MapOrder} (tags : tagmap) : list (bytes * bytes) :=
  filterb (fun kv => Bool.eqb (HasPrefix kv.1 (str "+")) false) (order 0 tags) ++
  filterb (fun kv => Bool.eqb (HasPrefix kv.1 (str "+")) true) (order 1 tags).

Lemma filterb_partition {A} (p : A -> bool) l :
  filterb (fun x => Bool.eqb (p x) false) l ++ filterb (fun x => Bool.eqb (p x) true) l ≡ₚ l.
Proof.
  induction l as [|x l IH]; simpl; [done|]. destruct (p x); simpl.
  - by rewrite <- Permutation_middle, IH.
  - by rewrite IH.
Qed.

Lemma emitted_perm `{MapOrder} tags : emitted tags ≡ₚ map_to_list tags.
Proof.
  unfold emitted. rewrite (Permutation_filterb _ _ _ (order_perm 0 tags)).
  rewrite (Permutation_filterb _ _ _ (order_perm 1 tags)).
  apply (filterb_partition (fun kv => HasPrefix kv.1 (str "+"))).
Qed.

Fixpoint params_text (ps : list bytes) : bytes :=
  match ps with
  | [] => []
  | [p] => str " " ++ (if ContainsAny p (str " :") || seqb p [] then str ":" else []) ++ p
  | p :: ps' => str " " ++ p ++ params_text ps'
  end.

Lemma write_params_text ps buf : write_params ps buf = buf ++ params_text ps.
Proof.
  revert buf. induction ps as [|p ps IH]; intros buf; [by rewrite app_nil_r|].
  cbn [write_params]. rewrite IH. destruct ps as [|q ps].
  - cbn [params_text]. rewrite app_nil_r, andb_true_l. case_match; by rewrite <- ?app_assoc.
  - rewrite andb_false_l. change (params_text (p :: q :: ps)) with (str " " ++ p ++ params_text (q :: ps)).
    by rewrite <- !app_assoc.
Qed.

Definition tags_text `{MapOrder} (t : Tags) : bytes :=
  match t with
  | Some tags => if bool_decide (tags = ∅) then []
                 else str "@" ++ Join (map tag_text (emitted tags)) (str ";") ++ str " "
  | None => []
  end.
Definition prefix_text (p : option Prefix) : bytes :=
  match p with Some _ => str ":" ++ Prefix_String p ++ str " " | None => [] end.

Lemma Format_text `{MapOrder} m :
  Format m = tags_text (MTags m) ++ prefix_text (MPrefix m) ++ Command m ++ params_text (Params m).
Proof.
  unfold Format. rewrite write_params_text. unfold tags_text, prefix_text.
  assert (forall a b c : bytes, match MPrefix m with
    | Some p => a ++ str ":" ++ Prefix_String (Some p) ++ str " " | None => a end ++ b =
    a ++ (match MPrefix m with Some _ => str ":" ++ Prefix_String (MPrefix m) ++ str " " | None => [] end) ++ b) as Hp.
  { intros a b c. destruct (MPrefix m); by rewrite <- ?app_assoc. }
  rewrite <- app_assoc, Hp by exact []. f_equal. destruct (MTags m) as [tags|]; [|done].
  case_bool_decide as Hne; [done|].
  rewrite !write_tags_fold, <- fold_left_app. fold (emitted tags). rewrite write_tags_join.
  - by rewrite <- app_assoc.
  - intros E. apply Hne. pose proof (emitted_perm tags) as Hp'. rewrite E in Hp'.
    apply Permutation_nil_l in Hp'. by apply map_to_list_empty_iff.
Qed.

(* ------------------------------------------------------------------ *)
(** ** Parsing tags back *)

Definition wf_key (k : bytes) : bool :=
  negb (seqb k []) && negb (ContainsAny k (str ";= ")).

Lemma wf_key_spec k : wf_key k = true -> k <> [] /\ ";"%byte ∉ k /\ "="%byte ∉ k /\ " "%byte ∉ k.
Proof.
  unfold wf_key. destruct (seqb_spec k []); [done|]. simpl. rewrite negb_true_iff.
  intros Hc. repeat split; try done; revert Hc; by apply ContainsAny_notin.
Qed.

Lemma parse_tag_text m kv :
  wf_key kv.1 = true -> parse_tag m (tag_text kv) = <[kv.1 := kv.2]> m.
Proof.
  destruct kv as [k v]. cbn [fst snd]. intros (Hne & _ & Heq & _)%wf_key_spec. unfold parse_tag, tag_text. cbn [fst snd].
  destruct (seqb_spec v []) as [->|Hv].
  - rewrite app_nil_r, seqb_ne by done. by rewrite (proj2 (IndexByte_None k _) Heq).
  - rewrite seqb_ne by by destruct k. change (str "=" ++ escapeTagValue v) with ("="%byte :: escapeTagValue v).
    rewrite IndexByte_app by done. rewrite take_app_length.
    by rewrite drop_app_S, unescape_escape.
Qed.

Lemma tag_text_no_sep kv c :
  wf_key kv.1 = true -> c = ";"%byte \/ c = " "%byte -> c ∉ tag_text kv.
Proof.
  destruct kv as [k v]. intros (_ & H1 & _ & H2)%wf_key_spec Hc. unfold tag_text. cbn [fst snd] in *.
  rewrite not_elem_of_app. split; [destruct Hc; by subst|].
  destruct (seqb v []); [apply not_elem_of_nil|]. intros [->|He]%elem_of_cons; [by destruct Hc|].
  apply escape_chars in He as (? & ? & _). by destruct Hc.
Qed.

Lemma fold_insert_perm (es : list (bytes * bytes)) m :
  NoDup es.*1 -> es ≡ₚ map_to_list m -> fold_left (fun t kv => <[kv.1 := kv.2]> t) es ∅ = m.
Proof.
  intros Hn Hp. rewrite <- fold_left_rev_right.
  assert (forall l, fold_right (fun (kv : bytes * bytes) t => <[kv.1 := kv.2]> t) (∅ : tagmap) l = list_to_map l) as E.
  { induction l as [|[k v] l IH]; [done|]. simpl. by rewrite IH. }
  rewrite E. rewrite <- (list_to_map_to_list m). apply list_to_map_proper.
  - by rewrite <- Permutation_rev.
  - by rewrite <- Permutation_rev.
Qed.

Lemma fold_parse_tag es t :
  Forall (fun kv => wf_key kv.1 = true) es ->
  fold_left parse_tag (map tag_text es) t = fold_left (fun (t : tagmap) kv => <[kv.1 := kv.2]> t) es t.
Proof.
  intros Hf. revert t. induction Hf as [|kv es Hk _ IH]; intros t; [done|].
  cbn [map fold_left]. rewrite parse_tag_text by done. apply IH.
Qed.

Lemma parseTags_text `{MapOrder} tags :
  tags <> ∅ -> map_Forall (fun k _ => wf_key k = true) tags ->
  parseTags (Join (map tag_text (emitted tags)) (str ";")) = tags.
Proof.
  intros Hne Hwf. pose proof (emitted_perm tags) as Hp.
  assert (Forall (fun kv => wf_key kv.1 = true) (emitted tags)) as Hf.
  { rewrite Hp. apply Forall_forall. intros [k v] Hin%elem_of_map_to_list. by apply (Hwf k v). }
  unfold parseTags. change (str ";") with [";"%byte]. rewrite Split_Join.
  - transitivity (fold_left (fun (t : tagmap) kv => <[kv.1 := kv.2]> t) (emitted tags) ∅).
    + by apply fold_parse_tag.
    + apply fold_insert_perm; [|done]. rewrite Hp. apply NoDup_fst_map_to_list.
  - intros E. apply map_eq_nil in E. rewrite E in Hp. apply Permutation_nil_l in Hp.
    by apply eq_sym, map_to_list_empty_iff in Hp.
  - apply Forall_fmap. eapply Forall_impl; [exact Hf|]. intros kv Hk. apply tag_text_no_sep; auto.
Qed.

(* ------------------------------------------------------------------ *)
(** ** Parsing the prefix and the parameters back *)

(** A word of a line: not empty, without spaces, not the start of a trailing. *)
Definition wf_word (w : bytes) : bool :=
  negb (seqb w []) && negb (ContainsAny w (str " ")) && negb (HasPrefix w (str ":")).

Lemma wf_word_inv w :
  wf_word w = true -> exists c w', w = c :: w' /\ c <> ":"%byte /\ " "%byte ∉ w.
Proof.
  unfold wf_word. rewrite !andb_true_iff, !negb_true_iff. intros [[Hne Hs] Hp].
  destruct w as [|c w']; [done|]. exists c, w'. split; [done|]. split.
  - intros ->. by destruct w'.
  - revert Hs. by apply ContainsAny_notin.
Qed.

Definition wf_prefix (p : option Prefix) : bool :=
  match p with
  | None => true
  | Some p =>
      negb (ContainsAny (Nick p) (str " !@")) && negb (ContainsAny (User p) (str " @")) &&
      negb (ContainsAny (Host p) (str " ")) && (negb (seqb (Host p) []) || seqb (User p) [])
  end.

Lemma wf_prefix_inv n u h :
  wf_prefix (Some {| Nick := n; User := u; Host := h |}) = true ->
  (" "%byte ∉ n /\ "!"%byte ∉ n /\ "@"%byte ∉ n) /\ (" "%byte ∉ u /\ "@"%byte ∉ u) /\
  " "%byte ∉ h /\ (h <> [] \/ u = []).
Proof.
  unfold wf_prefix. cbn [Nick User Host]. rewrite !andb_true_iff, !negb_true_iff.
  intros [[[Hn Hu] Hh] Hor]. repeat split.
  all: try by (eapply ContainsAny_notin; [|eassumption]).
  bool_cases; auto.
Qed.

Lemma Prefix_String_text n u h :
  h <> [] \/ u = [] ->
  Prefix_String (Some {| Nick := n; User := u; Host := h |}) =
  if seqb h [] then n else n ++ "!"%byte :: u ++ "@"%byte :: h.
Proof.
  unfold Prefix_String, IsServer. cbn [Nick User Host].
  destruct (seqb_spec h []) as [->|], (seqb_spec u []) as [->|]; simpl; naive_solver.
Qed.

Lemma parsePrefix_String p : wf_prefix (Some p) = true -> parsePrefix (Prefix_String (Some p)) = p.
Proof.
  destruct p as [n u h]. intros ((_ & Hb & Ha) & (_ & Hua) & _ & Hor)%wf_prefix_inv.
  rewrite Prefix_String_text by done. unfold parsePrefix.
  destruct (seqb_spec h []) as [->|Hh].
  - rewrite (proj2 (IndexByte_None n _) Ha), (proj2 (IndexByte_None n _) Hb). naive_solver.
  - rewrite (app_comm_cons u), app_assoc, IndexByte_app.
    + rewrite drop_app_S, take_app_length, IndexByte_app by done.
      by rewrite drop_app_S, take_app_length.
    + rewrite not_elem_of_app, not_elem_of_cons. done.
Qed.

Lemma Prefix_String_no_space p : wf_prefix (Some p) = true -> " "%byte ∉ Prefix_String (Some p).
Proof.
  destruct p as [n u h]. intros ((Hn & _) & (Hu & _) & Hh & Hor)%wf_prefix_inv.
  rewrite Prefix_String_text by done. destruct (seqb h []); [done|].
  rewrite !not_elem_of_app, !not_elem_of_cons, not_elem_of_app, not_elem_of_cons. done.
Qed.

(** A section [mark text SPACE] in front of a line that does not start with a space. *)
Lemma cut_section c text rest :
  " "%byte ∉ text -> c <> " "%byte -> TrimLeft (str " ") rest = rest ->
  let raw := [c] ++ text ++ str " " ++ rest in
  IndexByte raw " "%byte = Some (S (length text)) /\
  drop 1 (take (S (length text)) raw) = text /\
  TrimLeft (str " ") (drop (S (S (length text))) raw) = rest.
Proof.
  intros Ht Hc Hr raw. subst raw. rewrite app_assoc.
  change (str " " ++ rest) with (" "%byte :: rest).
  change (S (length text)) with (length ([c] ++ text)). repeat split.
  - apply IndexByte_app. rewrite not_elem_of_app, list_elem_of_singleton. split; [congruence|done].
  - by rewrite take_app_length.
  - by rewrite drop_app_S.
Qed.

Lemma parse_prefix_text p rest :
  wf_prefix p = true -> TrimLeft (str " ") rest = rest -> (p = None -> HasPrefix rest (str ":") = false) ->
  parse_prefix_part (prefix_text p ++ rest) = Ok (p, rest).
Proof.
  intros Hwf Hr Hn. unfold parse_prefix_part, prefix_text. destruct p as [p|].
  - destruct (cut_section ":"%byte (Prefix_String (Some p)) rest) as (E1 & E2 & E3); try done.
    { by apply Prefix_String_no_space. }
    rewrite <- !app_assoc. change (str ":") with [":"%byte] at 2 3 4 5.
    rewrite HasPrefix_app, E1, E2, E3. by rewrite parsePrefix_String.
  - simpl app. by rewrite Hn.
Qed.

Lemma parse_tags_text `{MapOrder} t rest :
  match t with Some m => m <> ∅ /\ map_Forall (fun k _ => wf_key k = true) m | None => True end ->
  TrimLeft (str " ") rest = rest -> (t = None -> HasPrefix rest (str "@") = false) ->
  parse_tags_part (tags_text t ++ rest) = Ok (t, rest).
Proof.
  intros Hwf Hr Hn. unfold parse_tags_part, tags_text. destruct t as [tags|]; [|simpl app; by rewrite Hn].
  destruct Hwf as [Hne Hk]. rewrite bool_decide_eq_false_2 by done.
  destruct (cut_section "@"%byte (Join (map tag_text (emitted tags)) (str ";")) rest) as (E1 & E2 & E3); try done.
  { intros Hin. apply Join_elem in Hin as [Hin|(w & Hw & Hin)]; [by apply list_elem_of_singleton in Hin|].
    apply list_elem_of_fmap in Hw as (kv & -> & Hkv). revert Hin. apply tag_text_no_sep; [|auto].
    rewrite emitted_perm in Hkv. destruct kv as [k v]. apply elem_of_map_to_list in Hkv. by apply (Hk k v). }
  rewrite <- !app_assoc. change (str "@") with ["@"%byte] at 2 3 4 5.
  rewrite HasPrefix_app, E1, E2, E3. by rewrite parseTags_text.
Qed.

(** Every parameter but the last is a word; the last may be anything. *)
Definition wf_params (ps : list bytes) : bool := forallb wf_word (removelast ps).

Lemma params_text_head ps : match params_text ps with [] => True | c :: _ => c = " "%byte end.
Proof. destruct ps as [|p [|q ps]]; done. Qed.

Lemma wf_word_trim w s : wf_word w = true -> TrimLeft (str " ") (w ++ s) = w ++ s.
Proof.
  intros (c & w' & -> & _ & Hs)%wf_word_inv. apply TrimLeft_id. simpl.
  intros Hc%list_elem_of_singleton. subst. apply Hs. constructor.
Qed.

Lemma parse_params_last fuel acc w :
  wf_word w = true -> parse_params (S fuel) acc w = acc ++ [w].
Proof.
  intros (c & w' & -> & Hc & Hs)%wf_word_inv. cbn [parse_params]. rewrite beqb_ne by done.
  by rewrite (proj2 (IndexByte_None _ _) Hs).
Qed.

Lemma parse_params_word fuel acc w rest :
  wf_word w = true -> parse_params (S fuel) acc (w ++ " "%byte :: rest) =
  parse_params fuel (acc ++ [w]) (TrimLeft (str " ") rest).
Proof.
  intros (c & w' & -> & Hc & Hs)%wf_word_inv.
  replace ((c :: w') ++ " "%byte :: rest) with (c :: w' ++ " "%byte :: rest) by done.
  cbn [parse_params]. rewrite beqb_ne by done. rewrite (app_comm_cons w').
  rewrite IndexByte_app, take_app_length, drop_app_S by done. done.
Qed.

Lemma trailing_or_word p :
  wf_word p = true \/ (ContainsAny p (str " :") || seqb p [] = true).
Proof.
  destruct (ContainsAny p (str " :")) eqn:Hc; [by right|]. destruct (seqb_spec p []); [by right|]. left.
  unfold wf_word. rewrite seqb_ne by done. destruct p as [|c p]; [done|].
  assert (ContainsAny (c :: p) (str " ") = false) as ->.
  { apply ContainsAny_false. intros d ->%list_elem_of_singleton. by eapply ContainsAny_notin; [|exact Hc]. }
  assert (":"%byte ∉ c :: p) as Hn by (by eapply ContainsAny_notin; [|exact Hc]).
  apply not_elem_of_cons in Hn as [Hn _]. simpl. by rewrite beqb_ne by congruence.
Qed.

Lemma parse_params_text ps : forall w fuel acc,
  wf_word w = true -> wf_params ps = true -> (length (w ++ params_text ps) <= fuel)%nat ->
  parse_params fuel acc (w ++ params_text ps) = acc ++ w :: ps.
Proof.
  induction ps as [|p ps IH]; intros w fuel acc Hw Hps Hlen.
  - rewrite app_nil_r in *. destruct fuel as [|fuel]; [|by rewrite parse_params_last].
    apply wf_word_inv in Hw as (? & ? & -> & _). simpl in Hlen. lia.
  - assert (exists f, fuel = S (S f)) as [f ->].
    { apply wf_word_inv in Hw as (? & ? & -> & _). destruct fuel as [|[|f]]; [..|by exists f].
      all: destruct ps; simpl in Hlen; rewrite length_app in Hlen; simpl in Hlen; lia. }
    destruct ps as [|q ps].
    + cbn [params_text] in *. change (str " " ++ ?x) with (" "%byte :: x) in *.
      rewrite parse_params_word by done. destruct (_ || _) eqn:Ht.
      * rewrite TrimLeft_id by by (simpl; intros ?%list_elem_of_singleton). simpl. by rewrite <- app_assoc.
      * destruct (trailing_or_word p) as [Hp|?]; [|congruence]. simpl app.
        rewrite <- (app_nil_r p) at 1. rewrite wf_word_trim, app_nil_r by done.
        by rewrite parse_params_last, <- app_assoc.
    + unfold wf_params in Hps. cbn [removelast forallb] in Hps. apply andb_true_iff in Hps as [Hp Hps].
      change (params_text (p :: q :: ps)) with (" "%byte :: p ++ params_text (q :: ps)) in *.
      rewrite parse_params_word, wf_word_trim, IH by
        (try done; rewrite length_app in Hlen; cbn [length] in Hlen; lia). by rewrite <- app_assoc.
Qed.

(* ------------------------------------------------------------------ *)
(** ** Properties *)

(** The messages whose wire form is unambiguous. *)
Definition wf_message `{GoUnicode} (m : Message) : bool :=
  match MTags m with
  | Some tags => bool_decide (tags <> ∅) && bool_decide (map_Forall (fun k _ => wf_key k = true) tags)
  | None => true
  end &&
  wf_prefix (MPrefix m) &&
  wf_word (Command m) && seqb (ToUpper (Command m)) (Command m) &&
  match MTags m, MPrefix m with None, None => negb (HasPrefix (Command m) (str "@")) | _, _ => true end &&
  wf_params (Params m) &&
  negb (match last (Command m ++ params_text (Params m)) with Some c => in_set CRLF c | None => false end).

Lemma wf_message_inv `{GoUnicode} m :
  wf_message m = true ->
  match MTags m with Some t => t <> ∅ /\ map_Forall (fun k _ => wf_key k = true) t | None => True end /\
  wf_prefix (MPrefix m) = true /\ wf_word (Command m) = true /\ ToUpper (Command m) = Command m /\
  (MTags m = None -> MPrefix m = None -> HasPrefix (Command m) (str "@") = false) /\
  wf_params (Params m) = true /\
  (forall c, last (Command m ++ params_text (Params m)) = Some c -> c ∉ CRLF).
Proof.
  unfold wf_message. rewrite !andb_true_iff, !negb_true_iff. intros [[[[[[Ht Hp] Hw] Hu] Ha] Hps] Hl].
  repeat split; try done.
  - destruct (MTags m); [|done]. by rewrite andb_true_iff, !bool_decide_eq_true in Ht.
  - by destruct (seqb_spec (ToUpper (Command m)) (Command m)).
  - intros E1 E2. rewrite E1, E2 in Ha. by apply negb_true_iff.
  - intros c E Hc. rewrite E in Hl. apply in_set_spec in Hc. congruence.
Qed.

Lemma HasPrefix_word w s c : w <> [] -> HasPrefix (w ++ s) [c] = HasPrefix w [c].
Proof. destruct w; [done|]. simpl. by destruct w, s. Qed.



Lemma parse_params_nonempty fuel acc raw :
  acc <> [] \/ (raw <> [] /\ fuel <> 0%nat) -> parse_params fuel acc raw <> [].
Proof.
  revert acc raw. induction fuel as [|fuel IH]; intros acc raw H; [naive_solver|].
  destruct raw as [|c raw]; [naive_solver|]. cbn [parse_params].
  case_match; [by destruct acc|]. case_match; [|by destruct acc]. apply IH. left. by destruct acc.
Qed.

(** Which lines [Parse] refuses: the empty one, one whose tags or prefix are
    not followed by a space, and one with nothing after them; every other line
    is a message. *)
Theorem Parse_accepts `{GoUnicode} (raw : bytes) :
  match Parse raw with
  | Ok m => TrimRight CRLF raw <> []
  | Err EEmptyMessage => TrimRight CRLF raw = []
  | Err ENoSpaceAfterTags =>
      HasPrefix (TrimRight CRLF raw) (str "@") = true /\ " "%byte ∉ TrimRight CRLF raw
  | Err ENoSpaceAfterPrefix => exists tags r,
      parse_tags_part (TrimRight CRLF raw) = Ok (tags, r) /\ HasPrefix r (str ":") = true /\ " "%byte ∉ r
  | Err EEmptyCommand => exists tags prefix r,
      parse_tags_part (TrimRight CRLF raw) = Ok (tags, r) /\ parse_prefix_part r = Ok (prefix, [])
  | Err EMissingCommand | Panic => False
  end.
Proof.
  unfold Parse. destruct (seqb_spec (TrimRight CRLF raw) []) as [|Hne]; [done|].
  destruct (parse_tags_part (TrimRight CRLF raw)) as [[tags r]|e|] eqn:Et; cbn [res_bind].
  - destruct (parse_prefix_part r) as [[prefix r']|e|] eqn:Ep; cbn [res_bind].
    + destruct (seqb_spec r' []) as [->|Hr]; [by exists tags, prefix, r|].
      destruct (parse_params (length r') [] r') eqn:Epp; [|done].
      destruct (parse_params_nonempty (length r') [] r'); [right|done]. by destruct r'.
    + unfold parse_prefix_part in Ep. inv_code Ep. exists tags, r.
      repeat split; try done. by apply IndexByte_None.
    + unfold parse_prefix_part in Ep. inv_code Ep.
  - unfold parse_tags_part in Et. inv_code Et. split; [done|]. by apply IndexByte_None.
  - unfold parse_tags_part in Et. inv_code Et.
Qed.
