(* ===== verification/RingBuf.v ===== *)
(** * irc/internal/ringbuf/ringbuf.go: a fixed-capacity circular buffer

    The operations on the indices as the code computes them ([None] is a run-time
    panic), the interface [BoundedLog] that its clients are verified against, and
    the refinement: a ring buffer of capacity [n] is the list of the last [n]
    elements pushed. *)

From S2P Require Import Prelude.

Record RingBuf (T : Type) := mkRing { buf : list T; head : Z; size : Z; cap_ : Z }.
Arguments mkRing {_}. Arguments buf {_}. Arguments head {_}. Arguments size {_}. Arguments cap_ {_}.

(** [l[i]] *)
Definition at_index {T} (l : list T) (i : Z) : option T :=
  if i <? 0 then None else l !! Z.to_nat i.

(** [l[i] = v] *)
Definition set_index {T} (l : list T) (i : Z) (v : T) : option (list T) :=
  if (0 <=? i) && (i <? blen l) then Some (<[Z.to_nat i := v]> l) else None.

Section Ring.
Context {T : Type} (zero : T).
Implicit Types (r : RingBuf T) (l : list T) (v : T).

Definition New (capacity : Z) : RingBuf T :=
  let capacity := if capacity <=? 0 then 1 else capacity in
  {| buf := replicate (Z.to_nat capacity) zero; head := 0; size := 0; cap_ := capacity |}.

Definition Push r v : option (RingBuf T) :=
  if size r =? cap_ r then
    b ← set_index (buf r) (head r) v;
    Some {| buf := b; head := Z.rem (head r + 1) (cap_ r); size := size r; cap_ := cap_ r |}
  else
    let idx := Z.rem (head r + size r) (cap_ r) in
    b ← set_index (buf r) idx v;
    Some {| buf := b; head := head r; size := size r + 1; cap_ := cap_ r |}.

Definition Len r : Z := size r.

Definition Slice r : option (list T) :=
  mapM (fun i => at_index (buf r) (Z.rem (head r + i) (cap_ r))) (seqZ 0 (size r)).

(** [make] panics on a negative length. *)
Definition Last r (n : Z) : option (list T) :=
  let n := if n >? size r then size r else n in
  if n <? 0 then None
  else
    let start := size r - n in
    mapM (fun i => at_index (buf r) (Z.rem (head r + start + i) (cap_ r))) (seqZ 0 n).

(** The callback threads the caller's state and says whether to go on. *)
Definition ForEach {S : Type} r (fn : S -> T -> S * bool) (s : S) : option S :=
  let fix go idxs s :=
    match idxs with
    | [] => Some s
    | i :: idxs' =>
        v ← at_index (buf r) (Z.rem (head r + i) (cap_ r));
        let '(s', continue) := fn s v in
        if continue then go idxs' s' else Some s'
    end
  in go (seqZ 0 (size r)) s.

(** ** Representation *)

Definition wf r : Prop :=
  1 <= cap_ r /\ blen (buf r) = cap_ r /\ 0 <= head r < cap_ r /\ 0 <= size r <= cap_ r.

(** [r] holds [l], oldest first, in a buffer of capacity [n]. *)
Definition represents (n : nat) l r : Prop :=
  wf r /\ cap_ r = Z.of_nat n /\ size r = blen l /\
  forall i, (i < length l)%nat -> buf r !! Z.to_nat ((head r + Z.of_nat i) mod cap_ r) = l !! i.

Lemma at_index_mod r k :
  wf r -> 0 <= k -> at_index (buf r) (Z.rem (head r + k) (cap_ r)) = buf r !! Z.to_nat ((head r + k) mod cap_ r).
Proof.
  intros (Hc & _ & Hh & _) Hk. rewrite Z.rem_mod_nonneg by lia. unfold at_index.
  pose proof (Z.mod_pos_bound (head r + k) (cap_ r)). by destruct (Z.ltb_spec ((head r + k) mod cap_ r) 0); [lia|].
Qed.

(** A window of the represented list read through the indices. *)
Lemma represents_window n l r (a k : nat) :
  represents n l r -> (a + k <= length l)%nat ->
  mapM (fun i => at_index (buf r) (Z.rem (head r + Z.of_nat a + i) (cap_ r))) (seqZ 0 (Z.of_nat k)) =
  Some (take k (drop a l)).
Proof.
  intros (Hwf & _ & _ & Hl) Hk. apply mapM_Some, Forall2_same_length_lookup_2.
  - rewrite length_seqZ, length_take, length_drop. lia.
  - intros i x y Hx Hy. apply lookup_seqZ in Hx as [-> Hi].
    rewrite lookup_take_lt, lookup_drop in Hy by lia.
    replace (head r + Z.of_nat a + (0 + Z.of_nat i)) with (head r + Z.of_nat (a + i)) by lia.
    rewrite at_index_mod by (done || lia). rewrite <- Hy. apply Hl. lia.
Qed.

Lemma represents_New n : represents (Z.to_nat (Z.max 1 n)) [] (New n).
Proof.
  unfold represents, wf, New. cbn [cap_ buf head size]. unfold blen; rewrite length_replicate.
  destruct (Z.leb_spec n 0); repeat split; simpl; lia.
Qed.

Lemma set_index_ok (b : list T) i v :
  0 <= i < blen b -> set_index b i v = Some (<[Z.to_nat i := v]> b).
Proof. intros H. unfold set_index. by rewrite (proj2 (Z.leb_le _ _)), (proj2 (Z.ltb_lt _ _)) by lia. Qed.

Lemma mod_once a n : 0 <= a < 2 * n -> a < n /\ a mod n = a \/ n <= a /\ a mod n = a - n.
Proof.
  intros H. destruct (Z.ltb_spec a n); [left|right]; split; try done; [by apply Z.mod_small; lia|].
  symmetry. apply (Z.mod_unique_pos a n 1); lia.
Qed.

Lemma represents_Push_full n l r v :
  represents n l r -> size r = cap_ r ->
  exists r', Push r v = Some r' /\ represents n (drop 1 l ++ [v]) r'.
Proof.
  intros ((Hc & Hb & Hh & Hs) & Hn & Hsz & Hl) E. unfold Push. rewrite (proj2 (Z.eqb_eq _ _) E).
  rewrite set_index_ok by lia. eexists. split; [done|].
  unfold represents, wf. cbn [cap_ buf head size]. unfold blen in *.
  rewrite Z.rem_mod_nonneg, length_insert, length_app, length_drop by lia. simpl length.
  pose proof (Z.mod_pos_bound (head r + 1) (cap_ r)). repeat split; try lia.
  intros i Hi. rewrite Z.add_mod_idemp_l by lia.
  destruct (decide (S i = length l)) as [Hlast|].
  - replace (head r + 1 + Z.of_nat i) with (head r + 1 * cap_ r) by lia.
    rewrite Z.mod_add, Z.mod_small by lia. rewrite list_lookup_insert_eq by lia.
    rewrite lookup_app_r by (rewrite length_drop; lia). rewrite length_drop.
    by replace (i - (length l - 1))%nat with 0%nat by lia.
  - rewrite lookup_app_l by (rewrite length_drop; lia). rewrite lookup_drop, <- Hl by lia.
    replace (head r + 1 + Z.of_nat i) with (head r + Z.of_nat (1 + i)) by lia.
    rewrite list_lookup_insert_ne; [done|]. 
    destruct (mod_once (head r + Z.of_nat (1 + i)) (cap_ r)) as [[? ->]|[? ->]]; lia.
Qed.

Lemma represents_Push_room n l r v :
  represents n l r -> size r <> cap_ r ->
  exists r', Push r v = Some r' /\ represents n (l ++ [v]) r'.
Proof.
  intros ((Hc & Hb & Hh & Hs) & Hn & Hsz & Hl) E. unfold Push. rewrite (proj2 (Z.eqb_neq _ _) E).
  pose proof (Z.mod_pos_bound (head r + size r) (cap_ r)).
  rewrite Z.rem_mod_nonneg, set_index_ok by lia. eexists. split; [done|].
  unfold represents, wf. cbn [cap_ buf head size]. unfold blen in *.
  rewrite length_insert, length_app. simpl length. repeat split; try lia.
  intros i Hi. destruct (decide (i = length l)) as [->|].
  - rewrite <- Hsz, list_lookup_insert_eq by lia.
    by rewrite lookup_app_r, Nat.sub_diag by lia.
  - rewrite lookup_app_l, <- Hl by lia. rewrite list_lookup_insert_ne; [done|].
    destruct (mod_once (head r + size r) (cap_ r)) as [[? ->]|[? ->]]; try lia;
      destruct (mod_once (head r + Z.of_nat i) (cap_ r)) as [[? ->]|[? ->]]; lia.
Qed.
End Ring.

(* ------------------------------------------------------------------ *)
(** ** The interface *)

(** A log that keeps its last entries: what the clients of the buffer rely on. *)
Class BoundedLog (T L : Type) := {
  log_new : Z -> L;
  log_push : L -> T -> option L;
  log_slice : L -> option (list T);
  log_last : L -> Z -> option (list T);
  log_rep : nat -> list T -> L -> Prop;
  log_new_rep n : log_rep (Z.to_nat (Z.max 1 n)) [] (log_new n);
  log_push_rep n l r v : log_rep n l r -> exists r', log_push r v = Some r' /\ log_rep n (last_n n (l ++ [v])) r';
  log_slice_rep n l r : log_rep n l r -> log_slice r = Some l;
  log_last_rep n l r k : log_rep n l r -> 0 <= k -> log_last r k = Some (last_n (Z.to_nat k) l);
  log_rep_bound n l r : log_rep n l r -> (length l <= n)%nat
}.

Section Refinement.
Context {T : Type} (zero : T).
Implicit Types (r : RingBuf T) (l : list T) (v : T).

Lemma represents_Push n l r v :
  represents n l r -> exists r', Push r v = Some r' /\ represents n (last_n n (l ++ [v])) r'.
Proof.
  intros H. destruct (H) as ((Hc & _ & _ & Hs) & Hn & Hsz & _). unfold blen in Hsz.
  destruct (decide (size r = cap_ r)) as [E|E].
  - rewrite last_n_snoc_full by lia. by apply represents_Push_full.
  - rewrite last_n_all by (rewrite length_app; simpl; lia). by apply represents_Push_room.
Qed.

Lemma represents_Last n l r k :
  represents n l r -> 0 <= k -> Last r k = Some (last_n (Z.to_nat k) l).
Proof.
  intros H Hk. destruct (H) as ((Hc & _ & _ & Hs) & Hn & Hsz & _). unfold Last, last_n.
  unfold blen in Hsz.
  set (k' := if k >? size r then size r else k).
  assert (0 <= k' <= size r /\ Z.of_nat (length l - Z.to_nat k) = size r - k') as [Hk' E].
  { subst k'. rewrite Z.gtb_ltb. destruct (Z.ltb_spec (size r) k); lia. }
  rewrite (proj2 (Z.ltb_ge _ _)) by lia. rewrite <- E.
  replace k' with (Z.of_nat (Z.to_nat k')) by lia. rewrite (represents_window n l) by (done || lia).
  rewrite take_ge; [done|]. rewrite length_drop. lia.
Qed.

Lemma represents_Slice n l r : represents n l r -> Slice r = Some l.
Proof.
  intros H. destruct (H) as (_ & _ & Hsz & _). unfold Slice. rewrite Hsz.
  pose proof (represents_window n l r 0 (length l) H (Nat.le_refl _)) as E.
  rewrite drop_0, take_ge in E by lia. rewrite Z.add_0_r in E. exact E.
Qed.

Lemma represents_bound n l r : represents n l r -> (length l <= n)%nat.
Proof. intros ((_ & _ & _ & Hs) & Hn & Hsz & _). unfold blen in Hsz. lia. Qed.

#[export] Instance RingBuf_BoundedLog : BoundedLog T (RingBuf T) := {|
  log_new := New zero; log_push := Push; log_slice := Slice; log_last := Last;
  log_rep := represents; log_new_rep := represents_New zero; log_push_rep := represents_Push;
  log_slice_rep := represents_Slice; log_last_rep := represents_Last;
  log_rep_bound := represents_bound |}.
End Refinement.

(* ------------------------------------------------------------------ *)
(** ** Properties *)

Definition push_all {T} (r : RingBuf T) (vs : list T) : option (RingBuf T) :=
  foldl (fun mr v => r ← mr; Push r v) (Some r) vs.

Lemma push_all_represents {T} n (l vs : list T) r :
  represents n l r -> exists r', push_all r vs = Some r' /\ represents n (last_n n (l ++ vs)) r'.
Proof.
  revert l r. induction vs as [|v vs IH]; intros l r H.
  - exists r. split; [done|]. rewrite app_nil_r, last_n_all; [done|].
    by eapply represents_bound.
  - destruct (represents_Push n l r v H) as (r1 & E1 & H1).
    destruct (IH _ _ H1) as (r' & E & H'). exists r'. split.
    + unfold push_all in *. cbn [foldl]. simpl. by rewrite E1.
    + by rewrite last_n_last_n_app, <- app_assoc in H'.
Qed.

(** The ring buffer keeps the newest elements: after any pushes on a new
    buffer, without a panic, [Slice] is the last [capacity] of them in order
    (one when the capacity asked for is not positive), [Len] their number and
    [Last k] the last [k] of those. *)
Theorem RingBuf_keeps_last {T} (zero : T) (capacity : Z) (vs : list T) (k : Z) :
  0 <= k ->
  let kept := last_n (Z.to_nat (Z.max 1 capacity)) vs in
  exists r, push_all (New zero capacity) vs = Some r /\ Slice r = Some kept /\
    Len r = blen kept /\ Last r k = Some (last_n (Z.to_nat k) kept).
Proof.
  intros Hk kept. destruct (push_all_represents _ [] vs _ (represents_New zero capacity)) as (r & E & H).
  exists r. split; [done|]. split; [by eapply represents_Slice|]. split; [|by eapply represents_Last].
  by destruct H as (_ & _ & ? & _).
Qed.

Lemma RingBuf_keeps_last_witness :
  exists r, push_all (New 0%nat 3) [1; 2; 3; 4; 5]%nat = Some r /\ Slice r = Some [3; 4; 5]%nat /\
    Len r = 3 /\ Last r 2 = Some [4; 5]%nat.
Proof. apply (RingBuf_keeps_last 0%nat 3 [1; 2; 3; 4; 5]%nat 2). lia. Defined.
