(* ===== verification/GoTime.v ===== *)
(** * The part of Go's time package the program uses

    An instant ([time.Time]) is a number of nanoseconds since the Unix epoch;
    [Before], [After] and [Equal] compare the numbers.  [parse_server_time] is
    [time.Parse] at the layout of the program,
    ["2006-01-02T15:04:05.000Z"], with what Go tolerates: an hour of one digit, a
    comma for the period, a sign in the fraction. *)

From S2P Require Import Prelude GoStrings.

Abbreviation Time := Z.

Definition time_before (t u : Time) : bool := t <? u.
Definition time_after (t u : Time) : bool := u <? t.
Definition time_equal (t u : Time) : bool := t =? u.

Definition digit_val (c : byte) : Z := bz c - 48.

(** [getnum]: one or two digits, two when [fixed]. *)
Definition getnum (s : bytes) (fixed : bool) : option (Z * bytes) :=
  match s with
  | a :: s' =>
      if negb (is_digit a) then None
      else match s' with
           | b :: s'' => if is_digit b then Some (digit_val a * 10 + digit_val b, s'')
                         else if fixed then None else Some (digit_val a, s')
           | [] => if fixed then None else Some (digit_val a, s')
           end
  | [] => None
  end.

(** [getnum] followed by a range check. *)
Definition getnum_in (lo hi : Z) (s : bytes) (fixed : bool) : option (Z * bytes) :=
  '(x, s) ← getnum s fixed;
  if (lo <=? x) && (x <? hi) then Some (x, s) else None.

Definition skip (c : byte) (s : bytes) : option bytes :=
  match s with d :: s' => if beqb c d then Some s' else None | [] => None end.

(** The package's own [atoi]: an optional sign, then digits. *)
Definition time_atoi (s : bytes) : option Z :=
  let '(neg, s) := match s with
                   | c :: s' => if beqb c "-"%byte then (true, s')
                                else if beqb c "+"%byte then (false, s') else (false, s)
                   | [] => (false, s)
                   end in
  if forallb is_digit s then
    let x := fold_left (fun a c => a * 10 + digit_val c) s 0 in
    Some (if neg then - x else x)
  else None.

Definition isLeap (year : Z) : bool :=
  (year mod 4 =? 0) && (negb (year mod 100 =? 0) || (year mod 400 =? 0)).

Definition daysIn (month year : Z) : Z :=
  if month =? 2 then (if isLeap year then 29 else 28)
  else if existsb (Z.eqb month) [4; 6; 9; 11] then 30 else 31.

(** Days from 1 January of the year 0 to 1 January of [year]. *)
Definition days_before_year (year : Z) : Z :=
  365 * year + (year + 3) / 4 - (year + 99) / 100 + (year + 399) / 400.

Definition days_before_month (month year : Z) : Z :=
  fold_left (fun a m => a + daysIn m year) (seqZ 1 (month - 1)) 0.

Definition unix_days (year month day : Z) : Z :=
  days_before_year year + days_before_month month year + (day - 1) - days_before_year 1970.

Definition Date (year month day hour min sec nsec : Z) : Time :=
  ((unix_days year month day * 24 + hour) * 60 + min) * 60 * 1000000000 + sec * 1000000000 + nsec.

(** The part ["2006-01-02T15:04:05"] of a layout: year, month, day, hour, minute, second
    and the rest of the text. *)
Definition parse_date_time (value : bytes) : option (Z * Z * Z * Z * Z * Z * bytes) :=
  if (blen value <? 4) || negb (match value with c :: _ => is_digit c | [] => false end) then None
  else
    year ← time_atoi (take 4 value);
    s ← skip "-"%byte (drop 4 value);
    '(month, s) ← getnum_in 1 13 s true;
    s ← skip "-"%byte s;
    '(day, s) ← getnum s true;
    s ← skip "T"%byte s;
    '(hour, s) ← getnum_in 0 24 s false;
    s ← skip ":"%byte s;
    '(min, s) ← getnum_in 0 60 s true;
    s ← skip ":"%byte s;
    '(sec, s) ← getnum_in 0 60 s true;
    Some (year, month, day, hour, min, sec, s).

Definition valid_day (year month day : Z) : bool := negb ((day <? 1) || (daysIn month year <? day)).

Definition parse_server_time (value : bytes) : option Time :=
  '(year, month, day, hour, min, sec, s) ← parse_date_time value;
  if blen s <? 4 then None
  else match s with
       | c :: s' =>
           if negb (beqb c "."%byte || beqb c ","%byte) then None
           else
             milli ← time_atoi (take 3 s');
             if milli <? 0 then None
             else
               s ← skip "Z"%byte (drop 3 s');
               if negb (seqb s []) then None
               else if negb (valid_day year month day) then None
               else Some (Date year month day hour min sec (milli * 1000000))
       | [] => None
       end.

(** [time.Parse] at [time.RFC3339], ["2006-01-02T15:04:05Z07:00"]: a fraction of a second
    of any length, of which nine digits count, and a zone. *)
Definition parse_fraction (s : bytes) : Z * bytes :=
  match s with
  | c :: s' =>
      let digits := take_while is_digit s' in
      if (beqb c "."%byte || beqb c ","%byte) && negb (seqb digits [])
      then let d := take 9 digits in
           (fold_left (fun a c => a * 10 + digit_val c) d 0 * 10 ^ (9 - blen d), drop (length digits) s')
      else (0, s)
  | [] => (0, s)
  end.

(** The zone as an offset in seconds east of UTC. *)
Definition parse_zone (s : bytes) : option (Z * bytes) :=
  match s with
  | sign :: s' =>
      if beqb sign "Z"%byte then Some (0, s')
      else
        if (blen s <? 6) || negb (bool_decide (s !! 3%nat = Some ":"%byte)) then None
        else
          '(hr, _) ← getnum (take 2 s') true;
          '(mm, _) ← getnum (take 2 (drop 3 s')) true;
          if (24 <? hr) || (60 <? mm) then None
          else
            let offset := (hr * 60 + mm) * 60 in
            if beqb sign "+"%byte then Some (offset, drop 6 s)
            else if beqb sign "-"%byte then Some (- offset, drop 6 s)
            else None
  | [] => None
  end.

Definition parse_rfc3339 (value : bytes) : option Time :=
  '(year, month, day, hour, min, sec, s) ← parse_date_time value;
  let '(nsec, s) := parse_fraction s in
  '(offset, s) ← parse_zone s;
  if negb (seqb s []) || negb (valid_day year month day) then None
  else Some (Date year month day hour min sec nsec - offset * 1000000000).

Lemma parse_rfc3339_example :
  parse_rfc3339 (str "2024-03-01T12:30:45.25Z") = Some 1709296245250000000 /\
  parse_rfc3339 (str "2024-03-01T14:30:45+02:00") = Some 1709296245000000000 /\
  parse_rfc3339 (str "2024-03-01 12:30:45Z") = None.
Proof. vm_compute. auto. Qed.

Lemma parse_server_time_example :
  parse_server_time (str "2024-03-01T12:30:45.250Z") = Some 1709296245250000000 /\
  parse_server_time (str "1970-01-01T0:00:00.000Z") = Some 0 /\
  parse_server_time (str "2023-02-29T12:30:45.250Z") = None.
Proof. by vm_compute. Qed.

(** ** Format *)

(** The date of a day counted from the Unix epoch, in the proleptic Gregorian
    calendar. *)
Definition civil (days : Z) : Z * Z * Z :=
  let z := days + 719468 in
  let era := z / 146097 in
  let doe := z mod 146097 in
  let yoe := (doe - doe / 1460 + doe / 36524 - doe / 146096) / 365 in
  let doy := doe - (365 * yoe + yoe / 4 - yoe / 100) in
  let mp := (5 * doy + 2) / 153 in
  let day := doy - (153 * mp + 2) / 5 + 1 in
  let month := if mp <? 10 then mp + 3 else mp - 9 in
  (yoe + era * 400 + (if month <=? 2 then 1 else 0), month, day).

Definition pad_zero (w : nat) (n : Z) : bytes :=
  let s := Itoa n in replicate (w - length s) "0"%byte ++ s.

(** [t.UTC().Format("2006-01-02T15:04:05.000Z")] *)
Definition format_server_time (t : Time) : bytes :=
  let ms := t / 1000000 in
  let secs := ms / 1000 in
  let '(year, month, day) := civil (secs / 86400) in
  let s := secs mod 86400 in
  pad_zero 4 year ++ str "-" ++ pad_zero 2 month ++ str "-" ++ pad_zero 2 day ++ str "T" ++
  pad_zero 2 (s / 3600) ++ str ":" ++ pad_zero 2 (s / 60 mod 60) ++ str ":" ++ pad_zero 2 (s mod 60) ++
  str "." ++ pad_zero 3 (ms mod 1000) ++ str "Z".

Lemma format_server_time_example :
  format_server_time 1709296245250999999 = str "2024-03-01T12:30:45.250Z" /\
  parse_server_time (format_server_time 951782400000000000) = Some 951782400000000000.
Proof. by vm_compute. Qed.

(** The zero [time.Time], 1 January of the year 1. *)
Definition zero_time : Time := -62135596800000000000.

Definition Unix (t : Time) : Z := t / 1000000000.

Definition weekday_name (days : Z) : bytes :=
  nth (Z.to_nat ((days + 4) mod 7)) [str "Sun"; str "Mon"; str "Tue"; str "Wed"; str "Thu"; str "Fri"; str "Sat"] [].
Definition month_name (month : Z) : bytes :=
  nth (Z.to_nat (month - 1)) [str "Jan"; str "Feb"; str "Mar"; str "Apr"; str "May"; str "Jun"; str "Jul"; str "Aug"; str "Sep"; str "Oct"; str "Nov"; str "Dec"] [].

(** [Format] at ["Mon Jan 02 15:04:05 2006"] and at ["Mon Jan 02 2006 15:04:05 -0700"],
    in a location [zone] seconds east of UTC. *)
Definition clock_text (s : Z) : bytes :=
  pad_zero 2 (s / 3600) ++ str ":" ++ pad_zero 2 (s / 60 mod 60) ++ str ":" ++ pad_zero 2 (s mod 60).
Definition zone_text (zone : Z) : bytes :=
  let m := Z.abs (Z.quot zone 60) in
  (if Z.quot zone 60 <? 0 then str "-" else str "+") ++ pad_zero 2 (m / 60) ++ pad_zero 2 (m mod 60).
Definition format_whowas_time (zone : Z) (t : Time) : bytes :=
  let secs := Unix t + zone in
  let '(year, month, day) := civil (secs / 86400) in
  weekday_name (secs / 86400) ++ str " " ++ month_name month ++ str " " ++ pad_zero 2 day ++ str " " ++
  clock_text (secs mod 86400) ++ str " " ++ pad_zero 4 year.
Definition format_local_time (zone : Z) (t : Time) : bytes :=
  let secs := Unix t + zone in
  let '(year, month, day) := civil (secs / 86400) in
  weekday_name (secs / 86400) ++ str " " ++ month_name month ++ str " " ++ pad_zero 2 day ++ str " " ++
  pad_zero 4 year ++ str " " ++ clock_text (secs mod 86400) ++ str " " ++ zone_text zone.

Lemma format_local_time_example :
  format_local_time 7200 1709296245250000000 = str "Fri Mar 01 2024 14:30:45 +0200" /\
  format_whowas_time (-3600) 0 = str "Wed Dec 31 23:00:00 1969".
Proof. by vm_compute. Qed.
