(* ===== verification/GoEncoding.v ===== *)
(** * [fmt.Sscan] of an [int], [strings.Fields] and [encoding/base64]

    What the IRC server takes from these packages.  [Sscan] reads the first token of a
    string as an integer the way a Go literal is read (sign, [0b], [0o], [0x] and
    leading-zero octal prefixes, underscores between digits); [None] stands for any
    error, which leaves the variable as it was. *)

From S2P Require Import Prelude GoStrings.

(** ** strings.Fields *)

Fixpoint fields_from (fuel : nat) (cur s : bytes) : list bytes :=
  let flush := if seqb cur [] then [] else [cur] in
  match fuel, s with
  | S fuel', _ :: _ =>
      let '(r, w) := decode_rune s in
      if is_space r then flush ++ fields_from fuel' [] (drop w s)
      else fields_from fuel' (cur ++ take w s) (drop w s)
  | _, _ => flush
  end.
Definition Fields (s : bytes) : list bytes := fields_from (length s) [] s.

Lemma Fields_example : Fields (str " a  bc d") = [str "a"; str "bc"; str "d"] /\ Fields (str "  ") = [].
Proof. by vm_compute. Qed.

(** A character of a word: ASCII and not a space. *)
Definition word_char (c : byte) : bool := (bz c <? 128) && negb (is_space (bz c)).
Definition is_word (w : bytes) : bool := negb (seqb w []) && forallb word_char w.

Lemma fields_from_word fuel cur w s :
  forallb word_char w = true -> (length w <= fuel)%nat ->
  fields_from fuel cur (w ++ s) = fields_from (fuel - length w) (cur ++ w) s.
Proof.
  revert fuel cur. induction w as [|c w IH]; intros fuel cur Hw Hf; [by rewrite app_nil_r, Nat.sub_0_r|].
  destruct fuel as [|fuel]; [cbn in Hf; lia|]. cbn in Hw. apply andb_true_iff in Hw as [Hc Hw].
  apply andb_true_iff in Hc as [Ha Hs]. cbn [app fields_from length Nat.sub].
  rewrite decode_rune_ascii by lia. apply negb_true_iff in Hs. rewrite Hs. cbn [take drop].
  rewrite IH by (done || (cbn in Hf; lia)). by rewrite <- app_assoc.
Qed.

Lemma is_word_inv w : is_word w = true -> w <> [] /\ forallb word_char w = true.
Proof. unfold is_word. rewrite andb_true_iff, negb_true_iff. intros [H ?]. split; [|done]. intros ->. discriminate H. Qed.

Lemma fields_words ws fuel :
  Forall (fun w => is_word w = true) ws -> (length (Join ws (str " ")) <= fuel)%nat ->
  fields_from fuel [] (Join ws (str " ")) = ws.
Proof.
  intros Hw. revert fuel. induction Hw as [|w ws Hw Hws IH]; intros fuel Hf; [by destruct fuel|].
  apply is_word_inv in Hw as [Hne Hc]. destruct ws as [|w' ws].
  - cbn [Join] in *. rewrite <- (app_nil_r w) at 1. rewrite fields_from_word by done.
    destruct (fuel - length w)%nat; cbn; by rewrite seqb_ne.
  - change (Join (w :: w' :: ws) (str " ")) with (w ++ " "%byte :: Join (w' :: ws) (str " ")) in *.
    rewrite length_app in Hf. cbn [length] in Hf. rewrite fields_from_word by (done || lia).
    destruct (fuel - length w)%nat as [|fuel'] eqn:E; [lia|]. cbn [app fields_from].
    rewrite decode_rune_ascii by (vm_compute; reflexivity). change (is_space (bz " "%byte)) with true. cbv iota.
    rewrite seqb_ne by done. cbn [take drop app]. f_equal. apply IH. lia.
Qed.

(** Words joined by spaces are found again. *)
Lemma Fields_Join ws : Forall (fun w => is_word w = true) ws -> Fields (Join ws (str " ")) = ws.
Proof. intros Hw. by apply fields_words. Qed.

(** ** fmt.Sscan *)

Definition digit_in (base : Z) (c : byte) : option Z :=
  let v := if is_digit c then bz c - 48
           else if is_lower c then bz c - 87 else if is_upper c then bz c - 55 else 99 in
  if v <? base then Some v else None.


(** The digits of a token; an underscore must stand between two digits. *)
Fixpoint token_value (base acc : Z) (after_digit : bool) (tok : bytes) : option Z :=
  match tok with
  | [] => if after_digit then Some acc else None
  | c :: tok' =>
      match digit_in base c with
      | Some v => token_value base (acc * base + v) true tok'
      | None => if beqb c "_"%byte && after_digit && negb (seqb tok' []) then
                  match tok' with
                  | d :: _ => if beqb d "_"%byte then None else token_value base acc false tok'
                  | [] => None
                  end
                else None
      end
  end.

Definition scan_token (s : bytes) : option Z :=
  let digits base := take_while (fun c => bool_decide (is_Some (digit_in base c)) || beqb c "_"%byte) in
  match s with
  | c :: s' =>
      if beqb c "0"%byte then
        let octal := token_value 8 0 true (digits 8 s') in
        match s' with
        | p :: s'' =>
            if in_set (str "bB") p then
              match digits 2 s'' with [] => None | tok => token_value 2 0 true tok end
            else if in_set (str "oO") p then
              match digits 8 s'' with [] => None | tok => token_value 8 0 true tok end
            else if in_set (str "xX") p then
              match digits 16 s'' with [] => None | tok => token_value 16 0 true tok end
            else octal
        | [] => octal
        end
      else token_value 10 0 false (digits 10 s)
  | [] => None
  end.

Definition Sscan_int (s : bytes) : option Z :=
  let s := trim_space_left (length s) s in
  let '(neg, s) := match s with
                   | c :: s' => if beqb c "-"%byte then (true, s')
                                else if beqb c "+"%byte then (false, s') else (false, s)
                   | [] => (false, s)
                   end in
  n ← scan_token s;
  let n := if neg : bool then - n else n in
  if bool_decide (in_i64 n) then Some n else None.

Lemma Sscan_int_example :
  map Sscan_int [str " 25 users"; str "-3"; str "0x1F"; str "017"; str "1_000"; str "1__0"; str "x"; str "9223372036854775808"; str "0"] =
  [Some 25; Some (-3); Some 31; Some 15; Some 1000; None; None; None; Some 0].
Proof. by vm_compute. Qed.

(** ** base64.StdEncoding, and its variant [Strict] *)

Definition b64_alphabet : bytes := str "ABCDEFGHIJKLMNOPQRSTUVWXYZabcdefghijklmnopqrstuvwxyz0123456789+/".
Definition b64_val (c : byte) : option Z := Z.of_nat <$> IndexByte b64_alphabet c.

(** Groups of four characters; only the last may be padded, and the strict decoder
    wants the bits a padded group leaves over to be zero. *)
Fixpoint b64_groups (strict : bool) (s : bytes) : option bytes :=
  match s with
  | [] => Some []
  | a :: b :: c :: d :: rest =>
      x ← b64_val a; y ← b64_val b;
      let b1 := zb (x * 4 + y / 16) in
      if beqb c "="%byte then
        if beqb d "="%byte && seqb rest [] && (negb strict || (y mod 16 =? 0)) then Some [b1] else None
      else
        z ← b64_val c;
        let b2 := zb (y mod 16 * 16 + z / 4) in
        if beqb d "="%byte then
          if seqb rest [] && (negb strict || (z mod 4 =? 0)) then Some [b1; b2] else None
        else
          w ← b64_val d;
          let b3 := zb (z mod 4 * 64 + w) in
          out ← b64_groups strict rest; Some (b1 :: b2 :: b3 :: out)
  | _ => None
  end.

(** Line ends are skipped wherever they stand. *)
Definition b64_decode_with (strict : bool) (s : bytes) : option bytes :=
  b64_groups strict (filterb (fun c => negb (in_set [Byte.x0d; Byte.x0a] c)) s).

(** [StdEncoding.Strict().DecodeString] and [StdEncoding.DecodeString]. *)
Abbreviation b64_decode := (b64_decode_with true).
Abbreviation b64_decode_std := (b64_decode_with false).

Definition b64_char (z : Z) : byte := nth (Z.to_nat z) b64_alphabet "A"%byte.

Fixpoint b64_encode (s : bytes) : bytes :=
  match s with
  | [] => []
  | [a] => [b64_char (bz a / 4); b64_char (bz a mod 4 * 16); "="%byte; "="%byte]
  | [a; b] => [b64_char (bz a / 4); b64_char (bz a mod 4 * 16 + bz b / 16); b64_char (bz b mod 16 * 4); "="%byte]
  | a :: b :: c :: rest =>
      b64_char (bz a / 4) :: b64_char (bz a mod 4 * 16 + bz b / 16) ::
      b64_char (bz b mod 16 * 4 + bz c / 64) :: b64_char (bz c mod 64) :: b64_encode rest
  end.

Lemma b64_val_char z : 0 <= z < 64 -> b64_val (b64_char z) = Some z.
Proof.
  intros Hz. assert (forallb (fun z => bool_decide (b64_val (b64_char z) = Some z)) (seqZ 0 64) = true) as H
    by by vm_compute.
  rewrite forallb_forall in H. apply (bool_decide_eq_true_1 _), H, list_elem_of_In, elem_of_seqZ. lia.
Qed.

Lemma list_ind3 {A} (P : list A -> Prop) :
  P [] -> (forall a, P [a]) -> (forall a b, P [a; b]) -> (forall a b c l, P l -> P (a :: b :: c :: l)) -> forall l, P l.
Proof.
  intros H0 H1 H2 H3 l. enough (P l /\ (forall a, P (a :: l)) /\ (forall a b, P (a :: b :: l))) by tauto.
  induction l as [|x l (IH1 & IH2 & IH3)]; auto.
Qed.

Lemma b64_char_not z c : 0 <= z < 64 -> IndexByte b64_alphabet c = None -> b64_char z <> c.
Proof. intros Hz Hc E. pose proof (b64_val_char z Hz) as H. unfold b64_val in H. by rewrite E, Hc in H. Qed.

Lemma b64_char_eq z : 0 <= z < 64 -> beqb (b64_char z) "="%byte = false.
Proof. intros Hz. apply beqb_ne. by apply b64_char_not. Qed.

(** The characters written: letters of the alphabet, or padding. *)
Lemma b64_encode_chars s : Forall (fun c => (exists z, 0 <= z < 64 /\ c = b64_char z) \/ c = "="%byte) (b64_encode s).
Proof.
  induction s as [|a|a b|a b c s IH] using list_ind3; cbn [b64_encode];
    repeat match goal with |- Forall _ (_ :: _) => apply Forall_cons; split end;
    first [by apply Forall_nil | exact IH | by right | left; eexists; (split; [|reflexivity]);
           pose proof (bz_range a); try pose proof (bz_range b); try pose proof (bz_range c); dlia].
Qed.

Lemma b64_encode_clean s c : IndexByte b64_alphabet c = None -> c <> "="%byte -> c ∉ b64_encode s.
Proof.
  intros Hc He Hin. pose proof (b64_encode_chars s) as H. rewrite Forall_forall in H.
  destruct (H _ Hin) as [(z & Hz & ->)| ->]; [|done]. by apply (b64_char_not z _ Hz Hc).
Qed.

Lemma b64_encode_length s : (length (b64_encode s) mod 4 = 0)%nat.
Proof.
  induction s as [|a|a b|a b c s IH] using list_ind3; try done. cbn [b64_encode length].
  replace (S (S (S (S (length (b64_encode s))))))%nat with (1 * 4 + length (b64_encode s))%nat by lia.
  rewrite Nat.add_comm, Nat.Div0.mod_add. exact IH.
Qed.

Lemma b64_byte1 a b : zb (bz a / 4 * 4 + (bz a mod 4 * 16 + bz b / 16) / 16) = a.
Proof.
  pose proof (bz_range a). pose proof (bz_range b). transitivity (zb (bz a)); [f_equal; dlia|apply zb_bz].
Qed.
Lemma b64_byte2 a b c : zb ((bz a mod 4 * 16 + bz b / 16) mod 16 * 16 + (bz b mod 16 * 4 + bz c / 64) / 4) = b.
Proof.
  pose proof (bz_range a). pose proof (bz_range b). pose proof (bz_range c).
  transitivity (zb (bz b)); [f_equal; dlia|apply zb_bz].
Qed.
Lemma b64_byte3 b c : zb ((bz b mod 16 * 4 + bz c / 64) mod 4 * 64 + bz c mod 64) = c.
Proof.
  pose proof (bz_range b). pose proof (bz_range c). transitivity (zb (bz c)); [f_equal; dlia|apply zb_bz].
Qed.

Lemma b64_groups_encode strict s : b64_groups strict (b64_encode s) = Some s.
Proof.
  induction s as [|a|a b|a b c s IH] using list_ind3; [done|..]; cbn [b64_encode b64_groups];
    pose proof (bz_range a); try pose proof (bz_range b); try pose proof (bz_range c);
    rewrite !b64_val_char by dlia; cbn [mbind option_bind].
  - rewrite beqb_refl. simpl. rewrite (proj2 (Z.eqb_eq _ 0)), orb_true_r by dlia.
    pose proof (b64_byte1 a Byte.x00) as E. change (bz Byte.x00) with 0 in E. by rewrite Z.add_0_r in E; rewrite E.
  - rewrite b64_char_eq by dlia. rewrite beqb_refl. simpl. rewrite (proj2 (Z.eqb_eq _ 0)), orb_true_r by dlia.
    pose proof (b64_byte2 a b Byte.x00) as E. change (bz Byte.x00) with 0 in E. rewrite Z.add_0_r in E.
    by rewrite b64_byte1, E.
  - rewrite !b64_char_eq by dlia. rewrite IH. cbn [mbind option_bind]. by rewrite b64_byte1, b64_byte2, b64_byte3.
Qed.

Lemma b64_decode_encode strict s : b64_decode_with strict (b64_encode s) = Some s.
Proof.
  unfold b64_decode_with. rewrite (filterb_all _ (b64_encode s)); [apply b64_groups_encode|].
  intros c Hc. apply negb_true_iff, not_true_iff_false. rewrite in_set_spec. intros Hin. revert Hc.
  repeat (apply elem_of_cons in Hin as [->|Hin]; [by apply b64_encode_clean|]). by apply elem_of_nil in Hin.
Qed.
