(* ===== verification/ChatHistory.v ===== *)
(** * irc/irc/chathistory.go: selecting messages of a history

    The IRCv3 CHATHISTORY subcommands over entries in ascending order. *)

From S2P Require Import Prelude GoStrings GoTime IrcMessage.

Record ChatHistoryEntry := { ETime : Time; EMsg : Message }.

Record messageReference := { rtime : Time; rmsgid : bytes; rindex : nat; rfound : bool }.
(** The zero [messageReference]: not found. *)
Definition noReference : messageReference := {| rtime := 0; rmsgid := []; rindex := 0; rfound := false |}.

Inductive hist_err :=
| EInvalidLimit | EInvalidSelectors | EInvalidSelector | EInvalidTimestamp | EInvalidMsgid
| EUnsupportedReference | EUnknownSubcommand.

(** The text of [err.Error()]. *)
Definition hist_err_text (e : hist_err) : bytes :=
  match e with
  | EInvalidLimit => str "invalid limit"
  | EInvalidSelectors => str "invalid selectors"
  | EInvalidSelector => str "invalid selector"
  | EInvalidTimestamp => str "invalid timestamp"
  | EInvalidMsgid => str "invalid message ID"
  | EUnsupportedReference => str "unsupported message reference"
  | EUnknownSubcommand => str "unknown subcommand"
  end.

(** [Tags["msgid"]]; a nil map reads as empty. *)
Definition msgid (m : Message) : bytes := default [] (Tags_Get (MTags m) (str "msgid")).

Fixpoint find_msgid (id : bytes) (i : nat) (entries : list ChatHistoryEntry) : messageReference :=
  match entries with
  | [] => noReference
  | e :: es =>
      if seqb (msgid (EMsg e)) id
      then {| rtime := ETime e; rmsgid := id; rindex := i; rfound := true |}
      else find_msgid id (S i) es
  end.

Definition parseMessageReference (entries : list ChatHistoryEntry) (selector : bytes)
    : res hist_err messageReference :=
  if HasPrefix selector (str "timestamp=") then
    match parse_server_time (TrimPrefix selector (str "timestamp=")) with
    | None => Err EInvalidTimestamp
    | Some t => Ok {| rtime := t; rmsgid := []; rindex := 0; rfound := true |}
    end
  else if HasPrefix selector (str "msgid=") then
    let id := TrimPrefix selector (str "msgid=") in
    if seqb id [] then Err EInvalidMsgid else Ok (find_msgid id 0 entries)
  else Err EUnsupportedReference.

Definition beforeReference (entry : ChatHistoryEntry) (index : nat) (ref : messageReference) : bool :=
  if negb (seqb (rmsgid ref) []) then Nat.ltb index (rindex ref)
  else time_before (ETime entry) (rtime ref).

Definition afterReference (entry : ChatHistoryEntry) (index : nat) (ref : messageReference) : bool :=
  if negb (seqb (rmsgid ref) []) then Nat.ltb (rindex ref) index
  else time_after (ETime entry) (rtime ref).

Fixpoint filter_from (i : nat) (keep : ChatHistoryEntry -> nat -> bool) (entries : list ChatHistoryEntry)
    : list ChatHistoryEntry :=
  match entries with
  | [] => []
  | e :: es => if keep e i then e :: filter_from (S i) keep es else filter_from (S i) keep es
  end.
Definition filterHistory entries keep := filter_from 0 keep entries.

(** The selected entries and whether the selection is complete. *)
Abbreviation selection := (list ChatHistoryEntry * bool)%type.

Definition latest (entries : list ChatHistoryEntry) (limit : Z) : selection :=
  let complete := blen entries <=? limit in
  (if blen entries >? limit then drop (Z.to_nat (blen entries - limit)) entries else entries, complete).

Definition earliest (entries : list ChatHistoryEntry) (limit : Z) : selection :=
  let complete := blen entries <=? limit in
  (if blen entries >? limit then take (Z.to_nat limit) entries else entries, complete).

Definition around (before after : list ChatHistoryEntry) (limit : Z) : selection :=
  let left := Z.min (blen before) (Z.quot limit 2) in
  let right := Z.min (blen after) (limit - left) in
  let left := Z.min (blen before) (limit - right) in
  (drop (Z.to_nat (blen before - left)) before ++ take (Z.to_nat right) after,
   blen before + blen after <=? limit).

Definition SelectChatHistory `{GoUnicode} (entries : list ChatHistoryEntry) (subcommand : bytes)
    (selectors : list bytes) (limit : Z) : res hist_err selection :=
  if limit <=? 0 then Err EInvalidLimit
  else
    let subcommand := ToUpper subcommand in
    if negb (length selectors =? 1)%nat &&
       (negb (seqb subcommand (str "BETWEEN")) || negb (length selectors =? 2)%nat)
    then Err EInvalidSelectors
    else match selectors with
    | [] => Panic
    | s0 :: _ =>
        if seqb subcommand (str "LATEST") && seqb s0 (str "*") then Ok (latest entries limit)
        else if seqb s0 (str "*") then Err EInvalidSelector
        else
          let! first := parseMessageReference entries s0 in
          if negb (rfound first) then Ok ([], true)
          else if seqb subcommand (str "LATEST") || seqb subcommand (str "AFTER") then
            let matches := filterHistory entries (fun e i => afterReference e i first) in
            Ok (if seqb subcommand (str "LATEST") then latest matches limit else earliest matches limit)
          else if seqb subcommand (str "BEFORE") then
            Ok (latest (filterHistory entries (fun e i => beforeReference e i first)) limit)
          else if seqb subcommand (str "AROUND") then
            let before := filterHistory entries (fun e i => beforeReference e i first) in
            let after := filterHistory entries (fun e i => afterReference e i first) in
            Ok (around before after limit)
          else if seqb subcommand (str "BETWEEN") then
            match selectors !! 1%nat with
            | None => Panic
            | Some s1 =>
                let! second := parseMessageReference entries s1 in
                if negb (rfound second) then Ok ([], true)
                else
                  let forward := time_before (rtime first) (rtime second) ||
                    (time_equal (rtime first) (rtime second) && negb (seqb (rmsgid first) []) &&
                     negb (seqb (rmsgid second) []) && Nat.ltb (rindex first) (rindex second)) in
                  if forward then
                    Ok (earliest (filterHistory entries (fun e i =>
                          afterReference e i first && beforeReference e i second)) limit)
                  else
                    Ok (latest (filterHistory entries (fun e i =>
                          beforeReference e i first && afterReference e i second)) limit)
            end
          else Err EUnknownSubcommand
    end.

(* ------------------------------------------------------------------ *)
(** ** Filters and windows *)

Lemma latest_spec es limit : 0 < limit -> latest es limit = (last_n (Z.to_nat limit) es, blen es <=? limit).
Proof.
  intros H. unfold latest, last_n, blen. rewrite Z.gtb_ltb.
  destruct (Z.ltb_spec limit (Z.of_nat (length es))); f_equal.
  - f_equal. lia.
  - by replace (length es - Z.to_nat limit)%nat with 0%nat by lia.
Qed.

Lemma earliest_spec es limit : 0 < limit -> earliest es limit = (take (Z.to_nat limit) es, blen es <=? limit).
Proof.
  intros H. unfold earliest, blen. rewrite Z.gtb_ltb.
  destruct (Z.ltb_spec limit (Z.of_nat (length es))); f_equal. by rewrite take_ge by lia.
Qed.

Lemma filter_from_sublist i keep es : filter_from i keep es `sublist_of` es.
Proof.
  revert i. induction es as [|e es IH]; intros i; simpl; [done|].
  destruct (keep e i); [by apply sublist_skip|by apply sublist_cons].
Qed.

Lemma filter_from_ext i keep keep' es :
  (forall j e, es !! j = Some e -> keep e (i + j)%nat = keep' e (i + j)%nat) ->
  filter_from i keep es = filter_from i keep' es.
Proof.
  revert i. induction es as [|e es IH]; intros i H; simpl; [done|].
  pose proof (H 0%nat e eq_refl) as H0. rewrite Nat.add_0_r in H0. rewrite H0.
  assert (filter_from (S i) keep es = filter_from (S i) keep' es) as ->; [|done].
  apply IH. intros j e' Hj. pose proof (H (S j) e' Hj) as H1. by rewrite Nat.add_succ_r in H1.
Qed.

Lemma filter_from_all i es : filter_from i (fun _ _ => true) es = es.
Proof. revert i. induction es as [|e es IH]; intros i; simpl; [done|]. by rewrite IH. Qed.

Lemma filter_from_none i es : filter_from i (fun _ _ => false) es = [].
Proof. revert i. induction es as [|e es IH]; intros i; simpl; [done|]. by rewrite IH. Qed.

Lemma filter_from_app i keep es es' :
  filter_from i keep (es ++ es') = filter_from i keep es ++ filter_from (i + length es) keep es'.
Proof.
  revert i. induction es as [|e es IH]; intros i; simpl; [by rewrite Nat.add_0_r|].
  rewrite IH, Nat.add_succ_r. by destruct (keep e i).
Qed.

(** Filtering by position keeps a segment. *)
Lemma filter_positions pre e post keep (b1 b2 b3 : bool) :
  (forall x j, (j < length pre)%nat -> keep x j = b1) -> keep e (length pre) = b2 ->
  (forall x j, (length pre < j)%nat -> keep x j = b3) ->
  filterHistory (pre ++ e :: post) keep =
  (if b1 then pre else []) ++ (if b2 then [e] else []) ++ (if b3 then post else []).
Proof.
  intros H1 H2 H3. unfold filterHistory. rewrite filter_from_app. simpl. rewrite H2.
  rewrite (filter_from_ext 0 keep (fun _ _ => b1) pre), (filter_from_ext _ keep (fun _ _ => b3) post).
  - destruct b1, b2, b3; by rewrite ?filter_from_all, ?filter_from_none.
  - intros j x _. apply H3. lia.
  - intros j x Hj%lookup_lt_Some. by apply H1.
Qed.

(** Two filters, all of whose first selections precede the second's. *)
Lemma filter_two_sublist i p q es :
  (forall j k x y, (j <= k)%nat -> es !! j = Some x -> es !! k = Some y ->
     q x (i + j)%nat = true -> p y (i + k)%nat = false) ->
  filter_from i p es ++ filter_from i q es `sublist_of` es.
Proof.
  revert i. induction es as [|e es IH]; intros i H; simpl; [done|].
  assert (filter_from (S i) p es ++ filter_from (S i) q es `sublist_of` es) as Hs.
  { apply IH. intros j k x y Hjk Hx Hy. rewrite !Nat.add_succ_l, <- !Nat.add_succ_r.
    apply (H (S j) (S k)); [lia|done..]. }
  destruct (q e i) eqn:Hq.
  - assert (p e i = false) as ->.
    { pose proof (H 0 0 e e)%nat as H0. rewrite Nat.add_0_r in H0. by apply H0. }
    assert (filter_from (S i) p es = []) as ->; [|apply sublist_skip, filter_from_sublist].
    transitivity (filter_from (S i) (fun _ _ => false) es); [|apply filter_from_none].
    apply filter_from_ext. intros k y Hy. rewrite Nat.add_succ_l, <- Nat.add_succ_r.
    apply (H 0 (S k) e y)%nat; [lia|done|done|]. by rewrite Nat.add_0_r.
  - destruct (p e i); simpl; [by apply sublist_skip|by apply sublist_cons].
Qed.

Definition ascending (es : list ChatHistoryEntry) : Prop :=
  forall i j x y, (i <= j)%nat -> es !! i = Some x -> es !! j = Some y -> ETime x <= ETime y.

Lemma before_after_sublist es ref :
  ascending es ->
  filterHistory es (fun e i => beforeReference e i ref) ++ filterHistory es (fun e i => afterReference e i ref)
    `sublist_of` es.
Proof.
  intros Ha. apply filter_two_sublist. intros j k x y Hjk Hx Hy. simpl.
  unfold afterReference, beforeReference, time_after, time_before. destruct (seqb (rmsgid ref) []); simpl.
  - intros H%Z.ltb_lt. apply Z.ltb_ge. pose proof (Ha _ _ _ _ Hjk Hx Hy). lia.
  - intros H%Nat.ltb_lt. apply Nat.ltb_ge. lia.
Qed.

(** What a selection within [limit] of [es] is. *)
Definition good_selection (es : list ChatHistoryEntry) (limit : Z) (s : selection) : Prop :=
  s.1 `sublist_of` es /\ blen s.1 <= limit /\ (s.2 = false -> blen s.1 = limit).

Lemma good_latest es es' limit : 0 < limit -> es' `sublist_of` es -> good_selection es limit (latest es' limit).
Proof.
  intros Hl Hs. rewrite latest_spec by done. unfold good_selection, blen. cbn [fst snd].
  rewrite last_n_length. repeat split; [|lia|rewrite Z.leb_gt; lia].
  transitivity es'; [|done]. destruct (last_n_suffix (Z.to_nat limit) es') as [k E].
  rewrite E at 2. by apply sublist_inserts_l.
Qed.

Lemma good_earliest es es' limit : 0 < limit -> es' `sublist_of` es -> good_selection es limit (earliest es' limit).
Proof.
  intros Hl Hs. rewrite earliest_spec by done. unfold good_selection, blen. cbn [fst snd].
  rewrite length_take. repeat split; [|lia|rewrite Z.leb_gt; lia].
  transitivity es'; [|done]. apply sublist_take.
Qed.

Lemma good_around es before after limit :
  0 < limit -> before ++ after `sublist_of` es -> good_selection es limit (around before after limit).
Proof.
  intros Hl Hs. unfold around, good_selection, blen. cbn [fst snd].
  rewrite length_app, length_drop, length_take.
  assert (0 <= Z.quot limit 2 <= limit).
  { rewrite Z.quot_div_nonneg by lia. dlia. }
  repeat split; [|lia|rewrite Z.leb_gt; lia].
  transitivity (before ++ after); [|done]. apply sublist_app; [apply sublist_drop|apply sublist_take].
Qed.

(* ------------------------------------------------------------------ *)
(** ** Properties *)

Lemma good_nil es limit : 0 < limit -> good_selection es limit ([], true).
Proof. intros. repeat split; [apply sublist_nil_l| |done]. unfold blen. simpl. lia. Qed.

Lemma parseMessageReference_no_panic entries s : parseMessageReference entries s <> Panic.
Proof. intros E. unfold parseMessageReference in E. inv_code E. Qed.

Lemma SelectChatHistory_no_panic `{GoUnicode} entries subcommand selectors limit :
  (ToUpper subcommand = str "BETWEEN" -> length selectors = 2%nat) ->
  SelectChatHistory entries subcommand selectors limit <> Panic.
Proof.
  intros Hb. unfold SelectChatHistory. if_step; [done|]. destruct selectors as [|s0 rest]; [by destruct (seqb _ _)|].
  do 3 (if_step; [done|]). pose proof (parseMessageReference_no_panic entries s0).
  destruct (parseMessageReference entries s0); cbn [res_bind]; [|done|done].
  do 4 (if_step; [done|]). destruct (seqb_spec (ToUpper subcommand) (str "BETWEEN")) as [E|]; [|done].
  specialize (Hb E). destruct rest as [|s1 [|]]; try done. cbn [lookup list_lookup].
  pose proof (parseMessageReference_no_panic entries s1).
  destruct (parseMessageReference entries s1); cbn [res_bind]; [|done|done]. by repeat if_step.
Qed.

(** A history selection never exceeds the limit, keeps the order of the
    history without repeating an entry, and when it is reported incomplete it has
    exactly [limit] entries; and the selection cannot panic when BETWEEN is given its
    two selectors. *)
Theorem SelectChatHistory_bounded `{GoUnicode} entries subcommand selectors limit :
  ascending entries ->
  (ToUpper subcommand = str "BETWEEN" -> length selectors = 2%nat) ->
  match SelectChatHistory entries subcommand selectors limit with
  | Ok s => good_selection entries limit s
  | Err _ => True
  | Panic => False
  end.
Proof.
  intros Ha Hb. unfold SelectChatHistory. destruct (Z.leb_spec limit 0) as [|Hl]; [done|].
  destruct selectors as [|s0 rest]; [by destruct (seqb _ _)|].
  if_step; [done|]. if_step; [by apply good_latest|]. if_step; [done|].
  destruct (parseMessageReference entries s0) as [first| |] eqn:Ep; cbn [res_bind]; [|done|].
  2: { unfold parseMessageReference in Ep. inv_code Ep. }
  assert (forall keep, filterHistory entries keep `sublist_of` entries) as Hf
    by (intros; apply filter_from_sublist).
  if_step; [by apply good_nil|]. if_step; [if_step; auto using good_latest, good_earliest|].
  if_step; [auto using good_latest|]. if_step; [by apply good_around, before_after_sublist|].
  destruct (seqb_spec (ToUpper subcommand) (str "BETWEEN")) as [E|]; [|done].
  specialize (Hb E). destruct rest as [|s1 [|]]; try done. cbn [lookup list_lookup].
  destruct (parseMessageReference entries s1) as [second| |] eqn:Ep2; cbn [res_bind]; [|done|].
  2: { unfold parseMessageReference in Ep2. inv_code Ep2. }
  if_step; [by apply good_nil|]. if_step; auto using good_latest, good_earliest.
Qed.

Definition entry_of (t : Time) (id : bytes) : ChatHistoryEntry :=
  {| ETime := t; EMsg := {| MTags := Some {[ str "msgid" := id ]}; MPrefix := None;
                            Command := str "PRIVMSG"; Params := [str "#c"; id] |} |}.

Lemma SelectChatHistory_bounded_witness :
  let u := ascii_only in
  match SelectChatHistory [entry_of 1 (str "a"); entry_of 2 (str "b"); entry_of 3 (str "c")] (str "around") [str "msgid=b"] 2 with
  | Ok s => good_selection [entry_of 1 (str "a"); entry_of 2 (str "b"); entry_of 3 (str "c")] 2 s
  | Err _ => True
  | Panic => False
  end.
Proof.
  intros u. apply SelectChatHistory_bounded; [|done].
  intros i j x y Hij Hx Hy.
  destruct i as [|[|[|]]], j as [|[|[|]]]; simplify_eq/=; lia.
Defined.

Lemma find_msgid_app id i pre e post :
  Forall (fun x => msgid (EMsg x) <> id) pre -> msgid (EMsg e) = id ->
  find_msgid id i (pre ++ e :: post) =
  {| rtime := ETime e; rmsgid := id; rindex := i + length pre; rfound := true |}.
Proof.
  intros Hp He. revert i. induction Hp as [|x pre Hx _ IH]; intros i; simpl.
  - by rewrite He, seqb_refl, Nat.add_0_r.
  - rewrite seqb_ne by done. by rewrite IH, Nat.add_succ_r.
Qed.

(** A message id reference to an entry, and the entries on its two sides. *)
Lemma msgid_reference pre e post id :
  id <> [] -> msgid (EMsg e) = id -> Forall (fun x => msgid (EMsg x) <> id) pre ->
  let entries := pre ++ e :: post in
  exists ref, parseMessageReference entries (str "msgid=" ++ id) = Ok ref /\ rfound ref = true /\
    filterHistory entries (fun x i => afterReference x i ref) = post /\
    filterHistory entries (fun x i => beforeReference x i ref) = pre.
Proof.
  intros Hid He Hp entries.
  exists {| rtime := ETime e; rmsgid := id; rindex := length pre; rfound := true |}. repeat split.
  - unfold parseMessageReference. rewrite HasPrefix_app.
    replace (HasPrefix (str "msgid=" ++ id) (str "timestamp=")) with false by done.
    unfold TrimPrefix. rewrite HasPrefix_app, drop_app_length, seqb_ne by done.
    unfold entries. by rewrite find_msgid_app.
  - unfold entries. rewrite (filter_positions _ _ _ _ false false true); [done|..];
      unfold afterReference; cbn [rmsgid rindex]; rewrite seqb_ne by done; simpl; intros.
    all: first [apply Nat.ltb_ge; lia | apply Nat.ltb_lt; lia].
  - unfold entries. rewrite (filter_positions _ _ _ _ true false false); [by rewrite !app_nil_r|..];
      unfold beforeReference; cbn [rmsgid rindex]; rewrite seqb_ne by done; simpl; intros.
    all: first [apply Nat.ltb_ge; lia | apply Nat.ltb_lt; lia].
Qed.

Lemma around_spec pre post limit :
  0 < limit -> exists a b, around pre post limit = (last_n a pre ++ take b post, blen pre + blen post <=? limit) /\
    Z.of_nat a + Z.of_nat b = Z.min limit (blen pre + blen post) /\
    (a <= length pre)%nat /\ (b <= length post)%nat.
Proof.
  intros Hl. unfold around, blen, last_n.
  assert (0 <= Z.quot limit 2 <= limit) by (rewrite Z.quot_div_nonneg by lia; dlia).
  set (left := Z.min (Z.of_nat (length pre)) (Z.quot limit 2)).
  set (right := Z.min (Z.of_nat (length post)) (limit - left)).
  exists (Z.to_nat (Z.min (Z.of_nat (length pre)) (limit - right))), (Z.to_nat right).
  repeat split; try (subst left right; lia). do 3 f_equal. subst left right. lia.
Qed.

(** Paging by message id: relative to a message of the history, AFTER is the
    first [limit] entries that follow it, LATEST the last [limit] of those, BEFORE
    the last [limit] entries that precede it, and AROUND the nearest entries on its
    two sides, as many as the limit allows, each with its completeness flag. *)
Theorem SelectChatHistory_msgid `{GoUnicode} pre e post id limit :
  0 < limit -> id <> [] -> msgid (EMsg e) = id -> Forall (fun x => msgid (EMsg x) <> id) pre ->
  let sel cmd := SelectChatHistory (pre ++ e :: post) cmd [str "msgid=" ++ id] limit in
  sel (str "AFTER") = Ok (take (Z.to_nat limit) post, blen post <=? limit) /\
  sel (str "LATEST") = Ok (last_n (Z.to_nat limit) post, blen post <=? limit) /\
  sel (str "BEFORE") = Ok (last_n (Z.to_nat limit) pre, blen pre <=? limit) /\
  exists a b, sel (str "AROUND") = Ok (last_n a pre ++ take b post, blen pre + blen post <=? limit) /\
    Z.of_nat a + Z.of_nat b = Z.min limit (blen pre + blen post) /\
    (a <= length pre)%nat /\ (b <= length post)%nat.
Proof.
  intros Hl Hid He Hp sel. destruct (msgid_reference pre e post id Hid He Hp) as (ref & Hr & Hf & Ha & Hb).
  assert (sel (str "AFTER") = Ok (earliest post limit) /\ sel (str "LATEST") = Ok (latest post limit) /\
    sel (str "BEFORE") = Ok (latest pre limit) /\ sel (str "AROUND") = Ok (around pre post limit))
    as (-> & -> & -> & ->).
  { unfold sel, SelectChatHistory. rewrite (proj2 (Z.leb_gt _ _)) by lia.
    replace (seqb (str "msgid=" ++ id) (str "*")) with false by done. rewrite !andb_false_r.
    cbn [length Nat.eqb negb andb]. rewrite Hr. cbn [res_bind]. rewrite Hf, Ha, Hb. done. }
  rewrite earliest_spec, !latest_spec by done. repeat split.
  destruct (around_spec pre post limit Hl) as (a & b & -> & Hab). by exists a, b.
Qed.

Lemma SelectChatHistory_msgid_witness :
  let u := ascii_only in
  let sel cmd := SelectChatHistory ([entry_of 1 (str "a"); entry_of 2 (str "b")] ++ entry_of 2 (str "c") :: [entry_of 3 (str "d")])
                   cmd [str "msgid=" ++ str "c"] 1 in
  sel (str "AFTER") = Ok (take 1 [entry_of 3 (str "d")], true).
Proof.
  intros u sel.
  refine (proj1 (SelectChatHistory_msgid [entry_of 1 (str "a"); entry_of 2 (str "b")]
    (entry_of 2 (str "c")) [entry_of 3 (str "d")] (str "c") 1 _ _ _ _)).
  - lia.
  - done.
  - by vm_compute.
  - repeat constructor; by vm_compute.
Defined.
