(* ===== verification/HistoryStore.v ===== *)
(** * irc/bouncer/history/store.go: the bouncer's message history

    [MemoryStore], a map of bounded logs keyed by network and target, over the
    interface [BoundedLog] (the ring buffer is its instance).  The refinement: any
    interleaving of appends and queries behaves as a map from (network, target) to
    the full list of appended messages, of which the newest [limit] can be seen. *)

From S2P Require Import Prelude GoStrings GoTime IrcMessage RingBuf.

Record Entry := { Time_ : Time; Msg : Message }.

(** No operation reads [Around]. *)
Record Query_ := {
  Before : option Time;
  After : option Time;
  Around : option Time;
  AfterMsgID : bytes;
  Limit : Z
}.

Definition defaultLimit : Z := 500.

(** [Tags["msgid"]] of an entry. *)
Definition entry_msgid (e : Entry) : bytes := default [] (Tags_Get (MTags (Msg e)) (str "msgid")).

(** The selection of [Query] from the entries of a target. *)
Fixpoint index_of_msgid (id : bytes) (i : nat) (all : list Entry) : option nat :=
  match all with
  | [] => None
  | e :: es => if seqb (entry_msgid e) id then Some i else index_of_msgid id (S i) es
  end.

Definition query_start (q : Query_) (all : list Entry) : nat :=
  if negb (seqb (AfterMsgID q) []) then
    match index_of_msgid (AfterMsgID q) 0 all with Some i => S i | None => length all end
  else 0%nat.

Definition in_window (q : Query_) (e : Entry) : bool :=
  negb (match Before q with Some b => negb (time_before (Time_ e) b) | None => false end) &&
  negb (match After q with Some a => negb (time_after (Time_ e) a) | None => false end).

Definition query_entries (q : Query_) (all : list Entry) : list Entry :=
  let limit := if Limit q <=? 0 then defaultLimit else Limit q in
  let result := filterb (in_window q) (drop (query_start q all) all) in
  if blen result >? limit then drop (Z.to_nat (blen result - limit)) result else result.

Definition key (network target : bytes) : bytes := network ++ [Byte.x00] ++ target.

Record MemoryStore (L : Type) := mkStore { buffers : gmap bytes L; limit : Z }.
Arguments mkStore {_}. Arguments buffers {_}. Arguments limit {_}.

Section Store.
Context {L : Type} `{!BoundedLog Entry L}.
Implicit Types (m : MemoryStore L).

Definition NewMemoryStore (lim : Z) : MemoryStore L :=
  {| buffers := ∅; limit := if lim <=? 0 then defaultLimit else lim |}.

(** The buffer of a key, created when absent. *)
Definition buf_ m (k : bytes) : L * MemoryStore L :=
  match buffers m !! k with
  | Some b => (b, m)
  | None => let b := log_new (limit m) in (b, {| buffers := <[k := b]> (buffers m); limit := limit m |})
  end.

Definition Append m (network target : bytes) (t : Time) (msg : Message) : option (MemoryStore L) :=
  let k := key network target in
  let '(b, m) := buf_ m k in
  b' ← log_push b {| Time_ := t; Msg := msg |};
  Some {| buffers := <[k := b']> (buffers m); limit := limit m |}.

Definition Query m (network target : bytes) (q : Query_) : option (list Entry * MemoryStore L) :=
  let k := key network target in
  let '(b, m) := buf_ m k in
  all ← log_slice b;
  Some (query_entries q all, m).

(** ** Operations as a sequence *)

Inductive op :=
| OAppend (network target : bytes) (t : Time) (msg : Message)
| OQuery (network target : bytes) (q : Query_).

(** The answers of the queries, in order. *)
Fixpoint run m (ops : list op) : option (MemoryStore L * list (list Entry)) :=
  match ops with
  | [] => Some (m, [])
  | OAppend n t tm msg :: ops' => m' ← Append m n t tm msg; run m' ops'
  | OQuery n t q :: ops' =>
      '(r, m') ← Query m n t q;
      '(m'', rs) ← run m' ops';
      Some (m'', r :: rs)
  end.
End Store.

(* ------------------------------------------------------------------ *)
(** ** Specification *)

(** The abstract store: everything appended, by network and target. *)
Abbreviation archive := (gmap (bytes * bytes) (list Entry)).
Definition archived (a : archive) (n t : bytes) : list Entry := default [] (a !! (n, t)).

Fixpoint spec_run (cap : nat) (a : archive) (ops : list op) : archive * list (list Entry) :=
  match ops with
  | [] => (a, [])
  | OAppend n t tm msg :: ops' =>
      spec_run cap (<[(n, t) := archived a n t ++ [{| Time_ := tm; Msg := msg |}]]> a) ops'
  | OQuery n t q :: ops' =>
      let '(a', rs) := spec_run cap a ops' in
      (a', query_entries q (last_n cap (archived a n t)) :: rs)
  end.

Definition op_network (o : op) : bytes := match o with OAppend n _ _ _ | OQuery n _ _ => n end.
Definition no_nul (o : op) : Prop := Byte.x00 ∉ op_network o.

Lemma key_inj n t n' t' :
  Byte.x00 ∉ n -> Byte.x00 ∉ n' -> key n t = key n' t' -> n = n' /\ t = t'.
Proof.
  unfold key. intros H H' E. pose proof (IndexByte_app n Byte.x00 t H) as I.
  pose proof (IndexByte_app n' Byte.x00 t' H') as I'. simpl app in E. rewrite E, I' in I.
  injection I as I. apply app_inj_1 in E as [-> E]; [|done]. by injection E.
Qed.

Section Refinement.
Context {L : Type} `{!BoundedLog Entry L}.
Implicit Types (m : MemoryStore L) (a : archive).

(** Every buffer holds the newest messages of its target; a target without a
    buffer has none. *)
Definition refines (cap : nat) a m : Prop :=
  cap = Z.to_nat (Z.max 1 (limit m)) /\
  forall n t, Byte.x00 ∉ n ->
    match buffers m !! key n t with
    | Some b => log_rep cap (last_n cap (archived a n t)) b
    | None => archived a n t = []
    end.

Lemma refines_new lim : refines (Z.to_nat (if lim <=? 0 then defaultLimit else lim)) ∅ (NewMemoryStore lim).
Proof.
  split; simpl.
  - unfold defaultLimit. destruct (Z.leb_spec lim 0); lia.
  - intros n t _. rewrite lookup_empty. unfold archived. by rewrite lookup_empty.
Qed.

Lemma buf_refines cap a m n t :
  refines cap a m -> Byte.x00 ∉ n ->
  let '(b, m') := buf_ m (key n t) in
  refines cap a m' /\ log_rep cap (last_n cap (archived a n t)) b /\ limit m' = limit m.
Proof.
  intros [Hc H] Hn. unfold buf_. pose proof (H n t Hn) as Hb.
  destruct (buffers m !! key n t) as [b|] eqn:E; [done|].
  assert (log_rep cap (last_n cap (archived a n t)) (log_new (limit m))) as Hnew.
  { rewrite Hb, last_n_all by (simpl; lia). subst cap. apply log_new_rep. }
  split; [|done]. split; [done|]. intros n' t' Hn'. simpl. rewrite lookup_insert.
  case_decide as Hk; [|by apply H]. by apply key_inj in Hk as [<- <-].
Qed.

Lemma Append_refines cap a m n t tm msg :
  refines cap a m -> Byte.x00 ∉ n ->
  exists m', Append m n t tm msg = Some m' /\
    refines cap (<[(n, t) := archived a n t ++ [{| Time_ := tm; Msg := msg |}]]> a) m'.
Proof.
  intros Hr Hn. unfold Append. pose proof (buf_refines _ _ _ n t Hr Hn) as Hb.
  destruct (buf_ m (key n t)) as [b m1]. destruct Hb as ([Hc H] & Hb & Hlim).
  destruct (log_push_rep _ _ _ {| Time_ := tm; Msg := msg |} Hb) as (b' & -> & Hb').
  eexists. split; [done|]. split; [done|]. intros n' t' Hn'. simpl. unfold archived.
  rewrite !lookup_insert. case_decide as Hk.
  - apply key_inj in Hk as [<- <-]; [|done..]. rewrite decide_True by done. simpl.
    by rewrite last_n_last_n_app in Hb'.
  - rewrite decide_False by congruence. by apply H.
Qed.

Lemma Query_refines cap a m n t q :
  refines cap a m -> Byte.x00 ∉ n ->
  exists m', Query m n t q = Some (query_entries q (last_n cap (archived a n t)), m') /\ refines cap a m'.
Proof.
  intros Hr Hn. unfold Query. pose proof (buf_refines _ _ _ n t Hr Hn) as Hb.
  destruct (buf_ m (key n t)) as [b m1]. destruct Hb as (Hr1 & Hb & _).
  rewrite (log_slice_rep _ _ _ Hb). by exists m1.
Qed.

Lemma run_refines cap ops : forall a m,
  refines cap a m -> Forall no_nul ops ->
  exists m', run m ops = Some (m', (spec_run cap a ops).2) /\ refines cap (spec_run cap a ops).1 m'.
Proof.
  induction ops as [|[n t tm msg|n t q] ops IH]; intros a m Hr Hf; simpl; [by exists m|..];
    apply Forall_cons in Hf as [Hn Hf].
  - destruct (Append_refines _ _ _ n t tm msg Hr Hn) as (m1 & -> & Hr1). by apply IH.
  - destruct (Query_refines _ _ _ n t q Hr Hn) as (m1 & -> & Hr1). simpl.
    destruct (IH _ _ Hr1 Hf) as (m2 & -> & Hr2). exists m2. by destruct (spec_run cap a ops).
Qed.

(** C4. The memory store refines an archive of all the messages: whatever the
    interleaving of appends and queries on any networks and targets, no operation
    fails, and each query answers from the newest [limit] messages appended so
    far to its own target (500 when the limit given is not positive). *)
Theorem MemoryStore_refines_archive (lim : Z) (ops : list op) :
  Forall no_nul ops ->
  exists m, run (L := L) (NewMemoryStore lim) ops =
    Some (m, (spec_run (Z.to_nat (if lim <=? 0 then defaultLimit else lim)) ∅ ops).2).
Proof.
  intros Hf. destruct (run_refines _ ops _ _ (refines_new lim) Hf) as (m & E & _). by exists m.
Qed.
End Refinement.

Definition no_entry : Entry :=
  {| Time_ := 0; Msg := {| MTags := None; MPrefix := None; Command := []; Params := [] |} |}.
Definition sample_msg (text : bytes) : Message :=
  {| MTags := None; MPrefix := None; Command := str "PRIVMSG"; Params := [str "#c"; text] |}.
Definition sample_ops : list op :=
  let q := {| Before := None; After := Some 1; Around := None; AfterMsgID := []; Limit := 0 |} in
  [ OAppend (str "net") (str "#c") 1 (sample_msg (str "one"));
    OAppend (str "net") (str "#d") 2 (sample_msg (str "other"));
    OAppend (str "net") (str "#c") 2 (sample_msg (str "two"));
    OQuery (str "net") (str "#c") q;
    OAppend (str "net") (str "#c") 3 (sample_msg (str "three"));
    OAppend (str "net") (str "#c") 4 (sample_msg (str "four"));
    OQuery (str "net") (str "#c") q ].

Lemma MemoryStore_refines_archive_witness :
  let i := RingBuf_BoundedLog no_entry in
  exists m, run (NewMemoryStore 2) sample_ops =
    Some (m, [ [{| Time_ := 2; Msg := sample_msg (str "two") |}];
               [{| Time_ := 3; Msg := sample_msg (str "three") |};
                {| Time_ := 4; Msg := sample_msg (str "four") |}] ]).
Proof.
  intros i. refine (MemoryStore_refines_archive 2 sample_ops _).
  repeat constructor; by apply (bool_decide_unpack _); vm_compute.
Defined.

(** What a query selects: a subsequence of the stored entries, at most the
    query's limit, every one of them strictly inside the time window; and with no
    message id, an entry inside the window is left out only when [limit] newer ones
    are returned. *)
Theorem query_entries_sound (q : Query_) (all : list Entry) :
  let limit := if Limit q <=? 0 then defaultLimit else Limit q in
  let r := query_entries q all in
  r `sublist_of` all /\ blen r <= limit /\ Forall (fun e => in_window q e = true) r /\
  (AfterMsgID q = [] -> blen r < limit -> r = filterb (in_window q) all).
Proof.
  intros limit r.
  assert (0 < limit) as Hl by (subst limit; unfold defaultLimit; destruct (Z.leb_spec (Limit q) 0); lia).
  set (result := filterb (in_window q) (drop (query_start q all) all)).
  assert (r = last_n (Z.to_nat limit) result) as E.
  { subst r. unfold query_entries. fold limit. fold result. unfold last_n, blen.
    rewrite Z.gtb_ltb. destruct (Z.ltb_spec limit (Z.of_nat (length result))).
    - f_equal. lia.
    - by replace (length result - Z.to_nat limit)%nat with 0%nat by lia. }
  rewrite E. destruct (last_n_suffix (Z.to_nat limit) result) as [pre Hsuf].
  assert (last_n (Z.to_nat limit) result `sublist_of` result) as Hsub
    by (rewrite Hsuf at 2; by apply sublist_inserts_l).
  repeat split.
  - etrans; [exact Hsub|]. etrans; [apply filterb_sublist|]. apply sublist_drop.
  - unfold blen. rewrite last_n_length. lia.
  - apply Forall_forall. intros e He. assert (e ∈ result) as Hin by (rewrite Hsuf, elem_of_app; by right).
    by apply elem_of_filterb in Hin as [? _].
  - intros Hid Hlen. unfold blen in Hlen. rewrite last_n_length in Hlen. rewrite last_n_all by lia.
    subst result. unfold query_start. by rewrite Hid.
Qed.
