(* ===== verification/IrcMode.v ===== *)
(** * IRC modes: irc/irc/mode.go and irc/server/mode/set.go

    Mode strings and their arguments, and the mode state of a channel or user with
    the changes a validator lets through. *)

From S2P Require Import Prelude GoStrings.

(** ** Mode strings *)

Record ModeChange := { Add : bool; Mode : Z; Arg : bytes }.

(** Rune literals. *)
Definition rune (c : byte) : Z := bz c.
Definition rune_in (cs : bytes) (m : Z) : bool := existsb (fun c => m =? rune c) cs.

Definition modeNeedsArg (m : Z) (add : bool) : bool :=
  if rune_in (str "oOhvbeIqak") m then true
  else if m =? rune "l"%byte then add
  else false.

(** The loop of [ParseModeString] over the runes; [args] are those not yet used. *)
Fixpoint parse_modes (add : bool) (args : list bytes) (ms : list Z) : list ModeChange :=
  match ms with
  | [] => []
  | ch :: ms' =>
      if ch =? rune "+"%byte then parse_modes true args ms'
      else if ch =? rune "-"%byte then parse_modes false args ms'
      else match args with
           | a :: args' =>
               if modeNeedsArg ch add
               then {| Add := add; Mode := ch; Arg := a |} :: parse_modes add args' ms'
               else {| Add := add; Mode := ch; Arg := [] |} :: parse_modes add args ms'
           | [] => {| Add := add; Mode := ch; Arg := [] |} :: parse_modes add args ms'
           end
  end.

Definition ParseModeString (modes : bytes) (args : list bytes) : list ModeChange :=
  parse_modes true args (runes modes).

Definition sign (add : bool) : bytes := if add then str "+" else str "-".

Fixpoint format_modes (add : bool) (sb : bytes) (args : list bytes) (changes : list ModeChange)
    : bytes * list bytes :=
  match changes with
  | [] => (sb, args)
  | mc :: rest =>
      let sb := if Bool.eqb (Add mc) add then sb else sb ++ sign (Add mc) in
      let sb := sb ++ encode_rune (Mode mc) in
      let args := if seqb (Arg mc) [] then args else args ++ [Arg mc] in
      format_modes (Add mc) sb args rest
  end.

Definition FormatModeChanges (changes : list ModeChange) : bytes * list bytes :=
  match changes with
  | [] => ([], [])
  | mc :: _ => format_modes (Add mc) (sign (Add mc)) [] changes
  end.

(** The text of the changes, as runes. *)
Fixpoint mode_runes (add : bool) (changes : list ModeChange) : list Z :=
  match changes with
  | [] => []
  | mc :: rest =>
      (if Bool.eqb (Add mc) add then [] else [rune (if Add mc then "+" else "-")%byte]) ++
      Mode mc :: mode_runes (Add mc) rest
  end.
Definition mode_args (changes : list ModeChange) : list bytes :=
  filterb (fun a => negb (seqb a [])) (map Arg changes).

Lemma sign_rune b : sign b = encode_rune (rune (if b then "+" else "-")%byte).
Proof. by destruct b. Qed.

Lemma format_modes_spec add sb args changes :
  format_modes add sb args changes = (sb ++ flat_map encode_rune (mode_runes add changes), args ++ mode_args changes).
Proof.
  revert add sb args. induction changes as [|mc rest IH]; intros add sb args; simpl.
  - by rewrite !app_nil_r.
  - rewrite IH. f_equal.
    + rewrite flat_map_app. simpl. destruct (Bool.eqb (Add mc) add); simpl; [by rewrite <- app_assoc|].
      rewrite sign_rune, app_nil_r, <- !app_assoc. done.
    + unfold mode_args. simpl. destruct (seqb (Arg mc) []); simpl; [done|]. by rewrite <- app_assoc.
Qed.

(** A change as it survives the wire: a mode letter other than the signs, with an
    argument exactly when the mode takes one. *)
Definition wf_change (mc : ModeChange) : bool :=
  valid_rune (Mode mc) && negb (Mode mc =? rune "+"%byte) && negb (Mode mc =? rune "-"%byte) &&
  Bool.eqb (negb (seqb (Arg mc) [])) (modeNeedsArg (Mode mc) (Add mc)).

Lemma parse_mode_runes add changes :
  forallb wf_change changes = true -> parse_modes add (mode_args changes) (mode_runes add changes) = changes.
Proof.
  revert add. induction changes as [|mc rest IH]; intros add H; [done|].
  cbn [forallb] in H. apply andb_true_iff in H as [H Hrest]. unfold wf_change in H.
  rewrite !andb_true_iff, !negb_true_iff in H. destruct H as [[[_ Hp] Hm] Ha].
  assert (parse_modes (Add mc) (mode_args (mc :: rest)) (Mode mc :: mode_runes (Add mc) rest) = mc :: rest) as E.
  { cbn [parse_modes]. rewrite Hp, Hm. apply Bool.eqb_prop in Ha. unfold mode_args in *. cbn [map filterb].
    destruct mc as [b m a]. cbn [Add Mode Arg] in *. rewrite <- Ha.
    destruct (seqb_spec a []) as [->|]; simpl; [|by rewrite IH].
    rewrite <- (IH b) at 2 by done. by destruct (filterb _ _). }
  cbn [mode_runes]. destruct (Bool.eqb_spec (Add mc) add) as [<-|]; [exact E|].
  simpl app. destruct (Add mc) eqn:Eb; exact E.
Qed.

Lemma mode_runes_valid add changes :
  forallb wf_change changes = true -> Forall (fun r => valid_rune r = true) (mode_runes add changes).
Proof.
  revert add. induction changes as [|mc rest IH]; intros add H; simpl; [constructor|].
  cbn [forallb] in H. apply andb_true_iff in H as [H Hrest]. unfold wf_change in H.
  rewrite !andb_true_iff in H. destruct H as [[[Hv _] _] _].
  apply Forall_app. split; [|constructor; auto].
  destruct (Bool.eqb _ _); [constructor|]. constructor; [by destruct (Add mc)|constructor].
Qed.

(** Mode changes survive the wire: parsing the mode string and arguments that
    [FormatModeChanges] writes, with its merged signs, gives the changes back. *)
Theorem ParseModeString_FormatModeChanges (changes : list ModeChange) :
  forallb wf_change changes = true ->
  let '(modes, args) := FormatModeChanges changes in ParseModeString modes args = changes.
Proof.
  intros H. destruct changes as [|mc rest]; [done|]. unfold FormatModeChanges, ParseModeString.
  rewrite format_modes_spec. rewrite sign_rune. cbn [app].
  set (r := rune _). change (encode_rune r ++ flat_map encode_rune (mode_runes (Add mc) (mc :: rest)))
    with (flat_map encode_rune (r :: mode_runes (Add mc) (mc :: rest))).
  rewrite runes_encode by (constructor; [by subst r; destruct (Add mc)|by apply mode_runes_valid]).
  transitivity (parse_modes (Add mc) (mode_args (mc :: rest)) (mode_runes (Add mc) (mc :: rest))).
  - subst r. by destruct (Add mc).
  - by apply parse_mode_runes.
Qed.

Lemma ParseModeString_FormatModeChanges_witness :
  let changes := [ {| Add := true; Mode := rune "m"%byte; Arg := [] |};
                   {| Add := true; Mode := rune "o"%byte; Arg := str "alice" |};
                   {| Add := false; Mode := rune "l"%byte; Arg := [] |};
                   {| Add := false; Mode := rune "b"%byte; Arg := str "*!*@bad" |};
                   {| Add := true; Mode := rune "l"%byte; Arg := str "10" |} ] in
  let '(modes, args) := FormatModeChanges changes in ParseModeString modes args = changes.
Proof. apply (ParseModeString_FormatModeChanges [_; _; _; _; _]). by vm_compute. Defined.

(* ------------------------------------------------------------------ *)
(** ** Mode sets *)

Inductive ModeType :=
| TypeFlag | TypeArgAlways | TypeArgSet | TypeArgUnset | TypeList | TypeUnknown.

(** The interface [ModeValidator]; [None] is the error of [ValidateArg]. *)
Class ModeValidator := {
  Type_ : Z -> ModeType;
  ValidateArg : Z -> bool -> bytes -> option bytes
}.

(** What replaying applied changes relies on: a canonical argument is its own
    canonical form. *)
Class CanonicalValidator `(ModeValidator) : Prop := {
  ValidateArg_idem : forall m add a c, ValidateArg m add a = Some c -> ValidateArg m add c = Some c
}.

Definition ChannelValidator : ModeValidator := {|
  Type_ m :=
    if rune_in (str "imnsptrzcCSGNufjQKLPOART") m then TypeFlag
    else if rune_in (str "k") m then TypeArgSet
    else if rune_in (str "l") m then TypeArgSet
    else if rune_in (str "ohvaq") m then TypeArgAlways
    else if rune_in (str "beI") m then TypeList
    else TypeUnknown;
  ValidateArg _ _ arg := Some arg |}.

Definition UserValidator : ModeValidator := {|
  Type_ m := if rune_in (str "iowrxzWgB") m then TypeFlag else TypeUnknown;
  ValidateArg _ _ arg := Some arg |}.

#[export] Instance ChannelValidator_canonical : CanonicalValidator ChannelValidator.
Proof. constructor. intros m add a c H. simpl in *. congruence. Qed.
#[export] Instance UserValidator_canonical : CanonicalValidator UserValidator.
Proof. constructor. intros m add a c H. simpl in *. congruence. Qed.

Record ModeSet := {
  flags : gmap Z bool;
  margs : gmap Z bytes;
  lists : gmap Z (list bytes)
}.
Definition ModeSet_New : ModeSet := {| flags := ∅; margs := ∅; lists := ∅ |}.

Definition flag (s : ModeSet) (m : Z) : bool := default false (flags s !! m).
Definition list_of (s : ModeSet) (m : Z) : list bytes := default [] (lists s !! m).

Definition Has (s : ModeSet) (m : Z) : bool := flag s m.
Definition ArgOf (s : ModeSet) (m : Z) : option bytes := margs s !! m.
Definition List_ (s : ModeSet) (m : Z) : list bytes := list_of s m.

Definition with_flags (s : ModeSet) f := {| flags := f; margs := margs s; lists := lists s |}.
Definition with_margs (s : ModeSet) a := {| flags := flags s; margs := a; lists := lists s |}.
Definition with_lists (s : ModeSet) l := {| flags := flags s; margs := margs s; lists := l |}.

(** The list without the first occurrence of [x], when there is one. *)
Fixpoint remove_first (x : bytes) (l : list bytes) : option (list bytes) :=
  match l with
  | [] => None
  | e :: l' => if seqb e x then Some l' else cons e <$> remove_first x l'
  end.

(** One pass of the loop of [Apply]: the change applied, if any. *)
Definition apply_one (v : ModeValidator) (s : ModeSet) (mc : ModeChange) : ModeSet * option ModeChange :=
  let m := Mode mc in
  match Type_ m with
  | TypeFlag =>
      if Add mc then
        if negb (flag s m) then (with_flags s (<[m := true]> (flags s)), Some mc) else (s, None)
      else
        if flag s m then (with_flags s (delete m (flags s)), Some mc) else (s, None)
  | TypeArgAlways | TypeArgSet =>
      if Add mc then
        match ValidateArg m true (Arg mc) with
        | None => (s, None)
        | Some canonical =>
            (with_margs s (<[m := canonical]> (margs s)),
             Some {| Add := true; Mode := m; Arg := canonical |})
        end
      else
        match margs s !! m with
        | Some _ => (with_margs s (delete m (margs s)), Some mc)
        | None => (s, None)
        end
  | TypeList =>
      if Add mc then
        match ValidateArg m true (Arg mc) with
        | None => (s, None)
        | Some canonical =>
            if existsb (fun e => seqb e canonical) (list_of s m) then (s, None)
            else (with_lists s (<[m := list_of s m ++ [canonical]]> (lists s)),
                  Some {| Add := true; Mode := m; Arg := canonical |})
        end
      else
        match remove_first (Arg mc) (list_of s m) with
        | Some l => (with_lists s (<[m := l]> (lists s)), Some mc)
        | None => (s, None)
        end
  | TypeArgUnset | TypeUnknown => (s, None)
  end.

Fixpoint Apply (v : ModeValidator) (s : ModeSet) (changes : list ModeChange) : ModeSet * list ModeChange :=
  match changes with
  | [] => (s, [])
  | mc :: rest =>
      let '(s, a) := apply_one v s mc in
      let '(s, applied) := Apply v s rest in
      (s, match a with Some mc => mc :: applied | None => applied end)
  end.

(** ** Properties *)

(** The state's invariant: set flags only, no duplicates in the list modes. *)
Definition wf_set (s : ModeSet) : Prop :=
  map_Forall (fun _ b => b = true) (flags s) /\ map_Forall (fun _ l => NoDup l) (lists s).

Lemma list_of_NoDup s m : wf_set s -> NoDup (list_of s m).
Proof.
  intros [_ H]. unfold list_of. destruct (lists s !! m) eqn:E; simpl; [by eapply H|constructor].
Qed.

Lemma remove_first_sublist x l l' : remove_first x l = Some l' -> l' `sublist_of` l.
Proof.
  revert l'. induction l as [|e l IH]; intros l' H; simpl in H; [done|].
  destruct (seqb e x); simplify_eq; [by apply sublist_cons|].
  apply fmap_Some in H as (l0 & H & ->). by apply sublist_skip, IH.
Qed.

Lemma existsb_seqb x l : existsb (fun e => seqb e x) l = true <-> x ∈ l.
Proof.
  rewrite existsb_exists. setoid_rewrite <- list_elem_of_In. split.
  - intros (e & He & H). by destruct (seqb_spec e x) as [<-|].
  - intros H. exists x. by rewrite seqb_refl.
Qed.

Lemma apply_one_wf v s mc : wf_set s -> wf_set (apply_one v s mc).1.
Proof.
  intros Hwf. pose proof (list_of_NoDup s (Mode mc) Hwf) as Hl. destruct (Hwf) as [Hf Hls]. unfold apply_one.
  destruct (Type_ (Mode mc)); repeat (case_match; simpl); try done; split; simpl; try done.
  - by apply map_Forall_insert_2.
  - by apply map_Forall_delete.
  - apply map_Forall_insert_2; [|done]. apply NoDup_app. split; [done|]. split; [|apply NoDup_singleton].
    intros e He ->%list_elem_of_singleton. apply existsb_seqb in He. congruence.
  - apply map_Forall_insert_2; [|done]. eapply sublist_NoDup; [done|by eapply remove_first_sublist].
Qed.

(** The mode state stays well formed under any changes and any validator: only
    set flags are stored and no list mode has a duplicate entry. *)
Theorem Apply_wf (v : ModeValidator) (s : ModeSet) (changes : list ModeChange) :
  wf_set s -> wf_set (Apply v s changes).1.
Proof.
  revert s. induction changes as [|mc rest IH]; intros s H; simpl; [done|].
  pose proof (apply_one_wf v s mc H) as H1. destruct (apply_one v s mc) as [s1 a]. simpl in H1.
  specialize (IH _ H1). by destruct (Apply v s1 rest).
Qed.

Definition sample_changes : list ModeChange :=
  ParseModeString (str "+mbbk-m+l-b") [str "x!*@*"; str "x!*@*"; str "key"; str "5"; str "x!*@*"].

Lemma Apply_wf_witness : wf_set (Apply ChannelValidator ModeSet_New sample_changes).1.
Proof. apply Apply_wf. split; apply map_Forall_empty. Defined.

Lemma apply_one_none v s mc s1 : apply_one v s mc = (s1, None) -> s1 = s.
Proof. unfold apply_one. intros H. inv_code H; done. Qed.

Lemma apply_one_replay v s mc s1 mc' :
  CanonicalValidator v -> apply_one v s mc = (s1, Some mc') -> apply_one v s mc' = (s1, Some mc').
Proof.
  intros Hv H. unfold apply_one in *.
  destruct (Type_ (Mode mc)) eqn:Et; [..|done]; inv_code H; rewrite ?Et; simplify_option_eq; try done.
  all: repeat match goal with
       | E : ValidateArg _ _ _ = Some _ |- _ => apply ValidateArg_idem in E; rewrite E
       | E : ?x = _ |- context [?x] => rewrite E
       end; done.
Qed.

(** C38. The changes [Apply] reports are exactly what a replica needs: replaying them
    on the old state gives the new state, and all of them apply again; the changes
    it drops have no effect. *)
Theorem Apply_replay (v : ModeValidator) (s : ModeSet) (changes : list ModeChange) :
  CanonicalValidator v -> Apply v s (Apply v s changes).2 = Apply v s changes.
Proof.
  intros Hv. revert s. induction changes as [|mc rest IH]; intros s; [done|]. cbn [Apply].
  destruct (apply_one v s mc) as [s1 [mc'|]] eqn:E; specialize (IH s1);
    destruct (Apply v s1 rest) as [s2 applied] eqn:Er; simpl in *.
  - rewrite (apply_one_replay _ _ _ _ _ Hv E). by rewrite IH.
  - apply apply_one_none in E as ->. exact IH.
Qed.

Lemma Apply_replay_witness :
  let r := Apply ChannelValidator ModeSet_New sample_changes in
  Apply ChannelValidator ModeSet_New r.2 = r.
Proof. apply Apply_replay. apply ChannelValidator_canonical. Defined.
