(* ===== verification/IrcScram.v ===== *)
(** * irc/client/sasl/mechanism.go: SCRAM-SHA-256 and SCRAM-SHA-512
    The client's side of RFC 5802 as the state machine [Next] runs it, a reference
    server of the same RFC, and what the two make of each other.  The hash functions
    and PBKDF2 are parameters (class [Crypto], with the output length of the hashes);
    HMAC is defined from the hash. *)
From S2P Require Import Prelude GoStrings GoEncoding.

(** [sha256.New] and [sha512.New]. *)
Inductive hash_alg := SHA256 | SHA512.

Definition Size (a : hash_alg) : nat := match a with SHA256 => 32 | SHA512 => 64 end.
Definition BlockSize (a : hash_alg) : nat := match a with SHA256 => 64 | SHA512 => 128 end.

Class Crypto := {
  hash_sum : hash_alg -> bytes -> bytes;
  hash_sum_length : forall a s, length (hash_sum a s) = Size a;
  (** [pbkdf2.Key(password, salt, iter, keyLen, h)] *)
  pbkdf2_Key : bytes -> bytes -> Z -> Z -> hash_alg -> bytes
}.

Definition bxor (a b : byte) : byte := zb (Z.lxor (bz a) (bz b)).

(** crypto/hmac (FIPS 198). *)
Definition hmac_sum `{Crypto} (a : hash_alg) (key msg : bytes) : bytes :=
  let key := if Nat.ltb (BlockSize a) (length key) then hash_sum a key else key in
  let pad c := map (bxor c) (key ++ replicate (BlockSize a - length key) Byte.x00) in
  hash_sum a (pad Byte.x5c ++ hash_sum a (pad Byte.x36 ++ msg)).

(* ------------------------------------------------------------------ *)
(** ** The mechanism *)
Inductive scramState := scramStateInit | scramStateServerFirst | scramStateDone.

Record SCRAM := {
  username : bytes;
  password : bytes;
  hashNew : hash_alg;
  hashName : bytes;
  keyLen : Z;
  state : scramState;
  clientNonce : bytes;
  clientFirst : bytes;
  serverSig : bytes
}.

Definition NewScramSHA256 (username password : bytes) : SCRAM :=
  {| username := username; password := password; hashNew := SHA256; hashName := str "SCRAM-SHA-256"; keyLen := 32;
     state := scramStateInit; clientNonce := []; clientFirst := []; serverSig := [] |}.

Definition NewScramSHA512 (username password : bytes) : SCRAM :=
  {| username := username; password := password; hashNew := SHA512; hashName := str "SCRAM-SHA-512"; keyLen := 64;
     state := scramStateInit; clientNonce := []; clientFirst := []; serverSig := [] |}.

Definition with_progress (s : SCRAM) (st : scramState) (nonce first sig : bytes) : SCRAM :=
  {| username := username s; password := password s; hashNew := hashNew s; hashName := hashName s; keyLen := keyLen s;
     state := st; clientNonce := nonce; clientFirst := first; serverSig := sig |}.

Definition Reset (s : SCRAM) : SCRAM := with_progress s scramStateInit [] [] [].

(** Indexing [b] panics where it is the shorter one. *)
Fixpoint xorBytes (a b : bytes) : option bytes :=
  match a, b with
  | [], _ => Some []
  | x :: a', y :: b' => cons (bxor x y) <$> xorBytes a' b'
  | _ :: _, [] => None
  end.

Definition parseCSV (s : bytes) : list bytes := Split s ","%byte.

(** [strings.NewReplacer("=", "=3D", ",", "=2C")]. *)
Definition escape_name (s : bytes) : bytes :=
  flat_map (fun c => if beqb c "="%byte then str "=3D" else if beqb c ","%byte then str "=2C" else [c]) s.

(** The attributes of a server-first-message; the last of a name counts. *)
Definition server_first_attr (acc : bytes * bytes * bytes) (p : bytes) : bytes * bytes * bytes :=
  let '(serverNonce, saltB64, iterStr) := acc in
  if HasPrefix p (str "r=") then (drop 2 p, saltB64, iterStr)
  else if HasPrefix p (str "s=") then (serverNonce, drop 2 p, iterStr)
  else if HasPrefix p (str "i=") then (serverNonce, saltB64, drop 2 p)
  else acc.

Inductive scram_err :=
| ERandom | EMalformedServerFirst | ENonceMismatch | EInvalidSalt | EInvalidIterations
| EUnexpectedServerFinal | EInvalidSignature | ESignatureMismatch.

Section Mechanism.
Context `{Crypto}.

(** What both sides sign. *)
Definition auth_message (first sfm final : bytes) : bytes := first ++ str "," ++ sfm ++ str "," ++ final.

Definition final_without_proof (serverNonce : bytes) : bytes :=
  str "c=" ++ b64_encode (str "n,,") ++ str ",r=" ++ serverNonce.

(** [Next] in [scramStateInit]; [rnd] is what [rand.Read] fills the 18 bytes with. *)
Definition next_init (rnd : option bytes) (s : SCRAM) : SCRAM * res scram_err (bytes * bool) :=
  match rnd with
  | None => (s, Err ERandom)
  | Some nonceBuf =>
      let nonce := b64_encode nonceBuf in
      let first := str "n=" ++ escape_name (username s) ++ str ",r=" ++ nonce in
      (with_progress s scramStateServerFirst nonce first (serverSig s), Ok (str "n,," ++ first, false))
  end.

(** [Next] in [scramStateServerFirst]. *)
Definition next_server_first (challenge : bytes) (s : SCRAM) : SCRAM * res scram_err (bytes * bool) :=
  let sfm := challenge in
  let '(serverNonce, saltB64, iterStr) := fold_left server_first_attr (parseCSV sfm) ([], [], []) in
  if seqb serverNonce [] || seqb saltB64 [] || seqb iterStr [] then (s, Err EMalformedServerFirst)
  else if negb (HasPrefix serverNonce (clientNonce s)) then (s, Err ENonceMismatch)
  else match b64_decode_std saltB64 with
  | None => (s, Err EInvalidSalt)
  | Some salt =>
      let '(iterations, err) := Atoi iterStr in
      if bool_decide (err <> None) || (iterations <=? 0) then (s, Err EInvalidIterations)
      else
        let saltedPassword := pbkdf2_Key (password s) salt iterations (keyLen s) (hashNew s) in
        let clientKey := hmac_sum (hashNew s) saltedPassword (str "Client Key") in
        let storedKey := hash_sum (hashNew s) clientKey in
        let cfmwoProof := final_without_proof serverNonce in
        let authMsg := auth_message (clientFirst s) sfm cfmwoProof in
        let clientSignature := hmac_sum (hashNew s) storedKey authMsg in
        match xorBytes clientKey clientSignature with
        | None => (s, Panic)
        | Some clientProof =>
            let serverKey := hmac_sum (hashNew s) saltedPassword (str "Server Key") in
            let sig := hmac_sum (hashNew s) serverKey authMsg in
            (with_progress s scramStateDone (clientNonce s) (clientFirst s) sig,
             Ok (cfmwoProof ++ str ",p=" ++ b64_encode clientProof, false))
        end
  end.

(** [Next] in [scramStateDone]. *)
Definition next_done (challenge : bytes) (s : SCRAM) : res scram_err (bytes * bool) :=
  let sv := challenge in
  if negb (HasPrefix sv (str "v=")) then Err EUnexpectedServerFinal
  else match b64_decode_std (drop 2 sv) with
  | None => Err EInvalidSignature
  | Some sig => if negb (seqb sig (serverSig s)) then Err ESignatureMismatch else Ok ([], true)
  end.

Definition Next (rnd : option bytes) (challenge : bytes) (s : SCRAM) : SCRAM * res scram_err (bytes * bool) :=
  match state s with
  | scramStateInit => next_init rnd s
  | scramStateServerFirst => next_server_first challenge s
  | scramStateDone => (s, next_done challenge s)
  end.
End Mechanism.

(* ------------------------------------------------------------------ *)
(** ** A reference server (RFC 5802, sections 3, 5 and 7) *)
Record credentials := { c_salt : bytes; c_iterations : Z; c_stored_key : bytes; c_server_key : bytes }.

(** [saslname]: [=2C] and [=3D] stand for a comma and an equals sign. *)
Fixpoint unescape_name (s : bytes) : option bytes :=
  match s with
  | [] => Some []
  | c :: s1 =>
      if beqb c "="%byte then
        match s1 with
        | x :: y :: s3 =>
            if seqb [x; y] (str "3D") then cons "="%byte <$> unescape_name s3
            else if seqb [x; y] (str "2C") then cons ","%byte <$> unescape_name s3 else None
        | _ => None
        end
      else cons c <$> unescape_name s1
  end.

Definition server_first_text (nonce salt : bytes) (iterations : Z) : bytes :=
  (str "r=" ++ nonce) ++ str "," ++ (str "s=" ++ b64_encode salt) ++ str "," ++ str "i=" ++ Itoa iterations.

Section Reference.
Context `{Crypto}.

(** What the server stores of a password. *)
Definition register (a : hash_alg) (pw salt : bytes) (iterations : Z) : credentials :=
  let salted := pbkdf2_Key pw salt iterations (Z.of_nat (Size a)) a in
  {| c_salt := salt; c_iterations := iterations;
     c_stored_key := hash_sum a (hmac_sum a salted (str "Client Key"));
     c_server_key := hmac_sum a salted (str "Server Key") |}.

(** Answering the client-first-message: the account, the bare message, the whole nonce and
    the server-first-message. *)
Definition server_first (accounts : bytes -> option credentials) (snonce msg : bytes) :
  option (credentials * bytes * bytes * bytes) :=
  match Split msg ","%byte with
  | [gs2; authzid; n; r] =>
      if seqb gs2 (str "n") && seqb authzid [] && HasPrefix n (str "n=") && HasPrefix r (str "r=") then
        name ← unescape_name (drop 2 n);
        c ← accounts name;
        let nonce := drop 2 r ++ snonce in
        Some (c, n ++ str "," ++ r, nonce, server_first_text nonce (c_salt c) (c_iterations c))
      else None
  | _ => None
  end.

(** Answering the client-final-message: the proof, unmasked, must be a preimage of the
    stored key. *)
Definition server_final (a : hash_alg) (c : credentials) (bare nonce first final : bytes) : option bytes :=
  match Split final ","%byte with
  | [cb; r; p] =>
      if seqb cb (str "c=biws") && seqb r (str "r=" ++ nonce) && HasPrefix p (str "p=") then
        proof ← b64_decode (drop 2 p);
        let auth := auth_message bare first (cb ++ str "," ++ r) in
        key ← xorBytes proof (hmac_sum a (c_stored_key c) auth);
        if seqb (hash_sum a key) (c_stored_key c)
        then Some (str "v=" ++ b64_encode (hmac_sum a (c_server_key c) auth)) else None
      else None
  | _ => None
  end.

(** The exchange: the client's three calls of [Next] and the server between them.  The
    result is the client's [done], or [None] when either side refused. *)
Definition exchange (accounts : bytes -> option credentials) (snonce : bytes) (rnd : option bytes) (s : SCRAM) :
  option bool :=
  match Next rnd [] s with
  | (s, Ok (m1, false)) =>
      '(c, bare, nonce, first) ← server_first accounts snonce m1;
      match Next rnd first s with
      | (s, Ok (m2, false)) =>
          v ← server_final (hashNew s) c bare nonce first m2;
          match Next rnd v s with (_, Ok (_, done)) => Some done | _ => None end
      | _ => None
      end
  | _ => None
  end.
End Reference.

(* ------------------------------------------------------------------ *)
(** ** Lemmas *)
Lemma bxor_invol x y : bxor (bxor x y) y = x.
Proof.
  apply bz_inj. unfold bxor. rewrite !bz_zb. change 256 with (2 ^ 8). rewrite <- !Z.land_ones by lia.
  rewrite <- (Z.mod_small (bz x) (2 ^ 8)) at 2 by (pose proof (bz_range x); lia). rewrite <- Z.land_ones by lia.
  apply Z.bits_inj'. intros n Hn. rewrite !Z.land_spec, !Z.lxor_spec, Z.land_spec, Z.lxor_spec.
  destruct (Z.testbit (Z.ones 8) n), (Z.testbit (bz x) n), (Z.testbit (bz y) n); done.
Qed.

Lemma xorBytes_total a b : (length a <= length b)%nat -> exists c, xorBytes a b = Some c /\ length c = length a.
Proof.
  revert b. induction a as [|x a IH]; intros [|y b] Hl; simpl in *; [eauto..|lia|].
  destruct (IH b) as (c & -> & Hc); [lia|]. eexists. split; [done|]. simpl. lia.
Qed.

Lemma xorBytes_invol a b c : xorBytes a b = Some c -> xorBytes c b = Some a.
Proof.
  revert b c. induction a as [|x a IH]; intros [|y b] c Hc; simplify_eq/=; [done..|].
  apply fmap_Some in Hc as (c' & Hc & ->). simpl. by rewrite (IH _ _ Hc), bxor_invol.
Qed.

Lemma hmac_sum_length `{Crypto} a k m : length (hmac_sum a k m) = Size a.
Proof. apply hash_sum_length. Qed.

Lemma escape_name_no_comma s : ","%byte ∉ escape_name s.
Proof.
  induction s as [|c s IH]; simpl; [set_solver|]. bool_cases; simplify_eq; set_solver.
Qed.

Lemma unescape_escape_name s : unescape_name (escape_name s) = Some s.
Proof.
  induction s as [|c s IH]; [done|]. cbn [escape_name flat_map]. fold (escape_name s).
  destruct (beqb_spec c "="%byte) as [->|Hc]; [cbn; by rewrite IH|].
  destruct (beqb_spec c ","%byte) as [->|Hd]; [cbn; by rewrite IH|].
  cbn [app unescape_name]. by rewrite (beqb_ne _ _ Hc), IH.
Qed.

Lemma b64_no_comma s : ","%byte ∉ b64_encode s.
Proof. by apply b64_encode_clean. Qed.

Lemma b64_encode_nonempty s : s <> [] -> b64_encode s <> [].
Proof. by destruct s as [|? [|? [|]]]. Qed.

Lemma Itoa_no_comma z : ","%byte ∉ Itoa z.
Proof. by apply Itoa_not_in. Qed.

Lemma Itoa_nonempty z : Itoa z <> [].
Proof.
  unfold Itoa. case_match; [done|]. destruct (fmt_uint_head z) as (c & s & -> & _); [by apply Z.ltb_ge|done].
Qed.

#[export] Hint Resolve escape_name_no_comma b64_no_comma Itoa_no_comma : go.

(** Texts made of fields between commas are cut at the commas. *)
Lemma cut_first_message e nonce :
  ","%byte ∉ e -> ","%byte ∉ nonce ->
  Split (str "n,," ++ str "n=" ++ e ++ str ",r=" ++ nonce) ","%byte = [str "n"; []; str "n=" ++ e; str "r=" ++ nonce].
Proof.
  intros He Hn.
  replace (str "n,," ++ str "n=" ++ e ++ str ",r=" ++ nonce)
    with (Join [str "n"; []; str "n=" ++ e; str "r=" ++ nonce] [","%byte]).
  - apply Split_Join; [done|]. repeat constructor; rewrite ?elem_of_app; cbn; set_solver.
  - cbn [Join]. rewrite <- !app_assoc. done.
Qed.

Lemma cut_three (a b c : bytes) :
  ","%byte ∉ a -> ","%byte ∉ b -> ","%byte ∉ c ->
  Split (a ++ str "," ++ b ++ str "," ++ c) ","%byte = [a; b; c].
Proof.
  intros Ha Hb Hc.
  change (a ++ str "," ++ b ++ str "," ++ c) with (Join [a; b; c] [","%byte]).
  apply Split_Join; [done|]. by repeat constructor.
Qed.

Lemma server_first_attrs n s i :
  fold_left server_first_attr [str "r=" ++ n; str "s=" ++ s; str "i=" ++ i] ([], [], []) = (n, s, i).
Proof. cbn [fold_left]. unfold server_first_attr. by rewrite !HasPrefix_app. Qed.

Lemma final_text nonce proof :
  final_without_proof nonce ++ str ",p=" ++ proof = str "c=biws" ++ str "," ++ (str "r=" ++ nonce) ++ str "," ++ str "p=" ++ proof.
Proof. unfold final_without_proof. by rewrite <- !app_assoc. Qed.

Section Exchange.
Context `{Crypto}.

(** The client's second message, for a well-formed server-first-message. *)
Lemma next_server_first_ok s snonce salt iterations :
  ","%byte ∉ clientNonce s ++ snonce -> clientNonce s <> [] -> salt <> [] -> 0 < iterations < 2 ^ 63 ->
  let nonce := clientNonce s ++ snonce in
  let sfm := server_first_text nonce salt iterations in
  let salted := pbkdf2_Key (password s) salt iterations (keyLen s) (hashNew s) in
  let ckey := hmac_sum (hashNew s) salted (str "Client Key") in
  let auth := auth_message (clientFirst s) sfm (final_without_proof nonce) in
  exists proof,
    xorBytes ckey (hmac_sum (hashNew s) (hash_sum (hashNew s) ckey) auth) = Some proof /\
    next_server_first sfm s =
    (with_progress s scramStateDone (clientNonce s) (clientFirst s)
       (hmac_sum (hashNew s) (hmac_sum (hashNew s) salted (str "Server Key")) auth),
     Ok (final_without_proof nonce ++ str ",p=" ++ b64_encode proof, false)).
Proof.
  intros Hn Hc Hs Hi nonce sfm salted ckey auth.
  destruct (xorBytes_total ckey (hmac_sum (hashNew s) (hash_sum (hashNew s) ckey) auth)) as (proof & Hp & _).
  { unfold ckey. by rewrite !hmac_sum_length. }
  exists proof. split; [done|]. unfold next_server_first, parseCSV, sfm at 1, server_first_text.
  rewrite cut_three by (apply not_elem_of_app; split; auto with go; cbn; set_solver).
  rewrite server_first_attrs, !seqb_ne
    by (apply b64_encode_nonempty || apply Itoa_nonempty || (subst nonce; destruct (clientNonce s)); done).
  subst nonce. rewrite HasPrefix_app, b64_decode_encode. unfold Atoi. rewrite ParseInt_Itoa by (unfold in_i64; lia).
  rewrite bool_decide_eq_false_2 by (intros []; done). cbn [orb negb]. rewrite (proj2 (Z.leb_gt _ _)) by lia.
  fold salted ckey sfm auth. by rewrite Hp.
Qed.

(** The server's answer to it. *)
Lemma server_final_ok a c bare nonce first ckey proof :
  let auth := auth_message bare first (final_without_proof nonce) in
  ","%byte ∉ nonce -> c_stored_key c = hash_sum a ckey ->
  xorBytes ckey (hmac_sum a (c_stored_key c) auth) = Some proof ->
  server_final a c bare nonce first (final_without_proof nonce ++ str ",p=" ++ b64_encode proof) =
  Some (str "v=" ++ b64_encode (hmac_sum a (c_server_key c) auth)).
Proof.
  intros auth Hn Hk Hp. unfold server_final. rewrite final_text.
  rewrite cut_three by (try apply not_elem_of_app; try split; auto with go; cbn; set_solver).
  rewrite !seqb_refl, HasPrefix_app. cbn [andb]. change (drop 2 (str "p=" ++ b64_encode proof)) with (b64_encode proof).
  rewrite b64_decode_encode. cbn [mbind option_bind].
  change (str "c=biws" ++ str "," ++ str "r=" ++ nonce) with (final_without_proof nonce). fold auth.
  rewrite (xorBytes_invol _ _ _ Hp). cbn [mbind option_bind]. by rewrite <- Hk, seqb_refl.
Qed.

Lemma next_done_ok s sig : serverSig s = sig -> next_done (str "v=" ++ b64_encode sig) s = Ok ([], true).
Proof.
  intros E. unfold next_done. rewrite HasPrefix_app. change (drop 2 (str "v=" ++ b64_encode sig)) with (b64_encode sig).
  cbn [negb]. by rewrite b64_decode_encode, E, seqb_refl.
Qed.

End Exchange.

(* ------------------------------------------------------------------ *)
(** ** What the client believes *)
Section Trust.
Context `{Crypto}.

Definition after (st : scramState) : scramState :=
  match st with scramStateInit => scramStateServerFirst | _ => scramStateDone end.

(** A call of [Next] never panics; one that fails leaves the mechanism as it was; one
    that succeeds moves it one state on, and is the last exactly in [scramStateDone]. *)
Lemma Next_step rnd challenge s :
  match Next rnd challenge s with
  | (s', Ok (_, done)) =>
      state s' = after (state s) /\ (done = true <-> state s = scramStateDone) /\
      username s' = username s /\ password s' = password s /\ hashNew s' = hashNew s /\ keyLen s' = keyLen s
  | (s', Err _) => s' = s
  | (_, Panic) => False
  end.
Proof.
  unfold Next. destruct (state s) eqn:E.
  - destruct rnd; simpl; [|done]. naive_solver.
  - unfold next_server_first. destruct (fold_left _ _ _) as [[n b] i].
    destruct (_ || _ || _); [done|]. destruct (negb _); [done|]. destruct (b64_decode_std b); [|done].
    destruct (Atoi i) as [iter err]. destruct (_ || _); [done|].
    edestruct xorBytes_total as (proof & -> & _); [by rewrite !hmac_sum_length|]. simpl. naive_solver.
  - unfold next_done. destruct (negb _); [done|]. destruct (b64_decode_std _); [|done].
    destruct (negb _); [done|]. rewrite E. naive_solver.
Qed.

(** Calls one after the other, as long as none fails; the result is the last one's. *)
Fixpoint drive (s : SCRAM) (cs : list (option bytes * bytes)) : option (SCRAM * bool) :=
  match cs with
  | [] => Some (s, false)
  | (rnd, challenge) :: cs' =>
      match Next rnd challenge s with
      | (s', Ok (_, done)) => match cs' with [] => Some (s', done) | _ => drive s' cs' end
      | _ => None
      end
  end.

(** The ServerSignature of RFC 5802 for the client's password and what was exchanged. *)
Definition ServerSignature (a : hash_alg) (pw salt : bytes) (iterations keyLen : Z) (auth : bytes) : bytes :=
  hmac_sum a (hmac_sum a (pbkdf2_Key pw salt iterations keyLen a) (str "Server Key")) auth.

(** What a mechanism that has sent its proof remembers. *)
Definition awaits_signature (s : SCRAM) (nonceBuf sfm : bytes) : Prop :=
  exists serverNonce saltB64 iterStr salt iterations,
    fold_left server_first_attr (parseCSV sfm) ([], [], []) = (serverNonce, saltB64, iterStr) /\
    HasPrefix serverNonce (b64_encode nonceBuf) = true /\ b64_decode_std saltB64 = Some salt /\
    Atoi iterStr = (iterations, None) /\ 0 < iterations /\
    serverSig s = ServerSignature (hashNew s) (password s) salt iterations (keyLen s)
      (auth_message (str "n=" ++ escape_name (username s) ++ str ",r=" ++ b64_encode nonceBuf) sfm
         (final_without_proof serverNonce)).

Lemma drive_done s cs s' :
  state s = scramStateDone -> drive s cs = Some (s', true) ->
  s' = s /\ exists rnd v sig, last cs = Some (rnd, str "v=" ++ v) /\ b64_decode_std v = Some sig /\ sig = serverSig s.
Proof.
  intros E. induction cs as [|[rnd c] cs IH]; [done|]. cbn [drive]. unfold Next. rewrite E.
  destruct (next_done c s) as [[m d]| |] eqn:Hd; try done. destruct cs as [|c' cs].
  - intros [= <- ->]. split; [done|]. unfold next_done in Hd. destruct (HasPrefix c (str "v=")) eqn:Hp; [|done].
    apply HasPrefix_spec in Hp as [v ->]. cbn [negb] in Hd. change (drop 2 (str "v=" ++ v)) with v in Hd.
    destruct (b64_decode_std v) as [sig|] eqn:Hv; [|done]. exists rnd, v, sig. split_and!; [done..|].
    destruct (seqb_spec sig (serverSig s)); [done|]. done.
  - intros Hc. by apply IH.
Qed.

Lemma next_server_first_awaits s c s' m nonceBuf :
  clientNonce s = b64_encode nonceBuf ->
  clientFirst s = str "n=" ++ escape_name (username s) ++ str ",r=" ++ b64_encode nonceBuf ->
  next_server_first c s = (s', Ok m) -> awaits_signature s' nonceBuf c.
Proof.
  intros En Ef. unfold next_server_first. destruct (fold_left _ _ _) as [[n b] i] eqn:Hf.
  destruct (_ || _ || _); [done|]. destruct (HasPrefix n (clientNonce s)) eqn:Hp; [|done]. cbn [negb].
  destruct (b64_decode_std b) as [salt|] eqn:Hb; [|done]. destruct (Atoi i) as [iter err] eqn:Hi.
  destruct (bool_decide_reflect (err <> None)) as [|Herr]; [done|]. cbn [orb].
  destruct (Z.leb_spec iter 0); [done|]. destruct (xorBytes _ _) as [proof|] eqn:Hx; [|done]. intros [= <- <-].
  exists n, b, i, salt, iter. rewrite <- En. split_and!; try done; cbn [serverSig with_progress hashNew username password keyLen].
  - destruct err; [by destruct Herr|done].
  - unfold ServerSignature. by rewrite Ef, <- En.
Qed.

(** The client does not take a server for the right one without its signature: when a
    call of a fresh mechanism reports [done], the nonce it answered extends the client's
    own, and the last challenge carries the ServerSignature that the client's own password
    gives for the salt, the iteration count and the messages of this very exchange. *)
Theorem scram_done_is_signed (s : SCRAM) (cs : list (option bytes * bytes)) (s' : SCRAM) :
  state s = scramStateInit -> drive s cs = Some (s', true) ->
  exists nonceBuf sfm rnd v,
    awaits_signature s' nonceBuf sfm /\ hashNew s' = hashNew s /\ password s' = password s /\ username s' = username s /\
    cs.*2 !! 1%nat = Some sfm /\ last cs = Some (rnd, str "v=" ++ v) /\ b64_decode_std v = Some (serverSig s').
Proof.
  intros E. destruct cs as [|[r1 c1] cs]; [done|]. cbn [drive]. pose proof (Next_step r1 c1 s) as S1.
  destruct (Next r1 c1 s) as [s1 [[m1 d1]| |]] eqn:H1; try done. destruct S1 as (E1 & D1 & U1).
  destruct cs as [|[r2 c2] cs]; [intros [= -> ->]; destruct D1 as [D1 _]; rewrite E in D1; by discriminate D1|].
  cbn [drive]. pose proof (Next_step r2 c2 s1) as S2. rewrite E in E1. simpl in E1.
  destruct (Next r2 c2 s1) as [s2 [[m2 d2]| |]] eqn:H2; try done. destruct S2 as (E2 & D2 & U2).
  destruct cs as [|c3 cs]; [intros [= -> ->]; destruct D2 as [D2 _]; rewrite E1 in D2; by discriminate D2|].
  intros Hd. rewrite E1 in E2. apply drive_done in Hd as (-> & rnd & v & sig & Hl & Hv & ->); [|done].
  unfold Next in H1, H2. rewrite E in H1. rewrite E1 in H2. destruct r1 as [nonceBuf|]; [|done].
  injection H1 as <- <- <-. exists nonceBuf, c2, rnd, v. destruct U1 as (U1 & P1 & A1 & K1), U2 as (U2 & P2 & A2 & K2).
  split; [|rewrite U2, P2, A2; split_and!; try done].
  by eapply next_server_first_awaits; [..|exact H2].
Qed.
End Trust.

(* ------------------------------------------------------------------ *)
(** ** Runs *)
(** A toy hash, for evaluation. *)
Definition toy_hash (a : hash_alg) (s : bytes) : bytes :=
  map (fun i => zb (fold_left (fun acc c => acc * 31 + bz c + Z.of_nat i) s 7)) (seq 0 (Size a)).

Lemma toy_hash_length a s : length (toy_hash a s) = Size a.
Proof. unfold toy_hash. by rewrite length_map, length_seq. Qed.

Definition toy_crypto : Crypto :=
  {| hash_sum := toy_hash; hash_sum_length := toy_hash_length;
     pbkdf2_Key pw salt iter len a := take (Z.to_nat len) (toy_hash a (pw ++ salt ++ Itoa iter)) |}.

Definition toy_accounts : bytes -> option credentials := fun name =>
  if seqb name (str "a,b=c") then Some (@register toy_crypto SHA256 (str "pencil") (str "salt!") 4096) else None.


Definition toy_client : SCRAM := NewScramSHA256 (str "user") (str "pencil").
Definition toy_nonce : bytes := str "0123456789abcdefgh".
Definition toy_first : bytes := server_first_text (b64_encode toy_nonce ++ str "more") (str "salt!") 4096.
Definition toy_signed : SCRAM :=
  (@Next toy_crypto None toy_first (@Next toy_crypto (Some toy_nonce) [] toy_client).1).1.

Lemma scram_done_is_signed_witness :
  exists nonceBuf sfm rnd v,
    @awaits_signature toy_crypto toy_signed nonceBuf sfm /\ hashNew toy_signed = SHA256 /\
    password toy_signed = str "pencil" /\ username toy_signed = str "user" /\
    [[]; toy_first; str "v=" ++ b64_encode (serverSig toy_signed)] !! 1%nat = Some sfm /\
    last [(Some toy_nonce, []); (None, toy_first); (None, str "v=" ++ b64_encode (serverSig toy_signed))] =
      Some (rnd, str "v=" ++ v) /\
    b64_decode_std v = Some (serverSig toy_signed).
Proof.
  apply (@scram_done_is_signed toy_crypto toy_client
           [(Some toy_nonce, []); (None, toy_first); (None, str "v=" ++ b64_encode (serverSig toy_signed))] toy_signed);
    vm_compute; reflexivity.
Defined.
