(* ===== verification/SftpWire.v ===== *)
(** * sftp/sftp: packets, attributes and status of the SFTP wire format

    packet.go, attr.go, init.go and sftp.go.  Offsets are Go [int]s; an offset below
    zero would be a slice panic.  A [time.Time] is its Unix seconds, the zero time
    being the first second of the year 1. *)

From S2P Require Import Prelude GoStrings.

(** ** sftp.go *)

Definition TypeInit := 1.
Definition TypeVersion := 2.
Definition TypeOpen := 3.
Definition TypeClose := 4.
Definition TypeRead := 5.
Definition TypeWrite := 6.
Definition TypeLstat := 7.
Definition TypeFstat := 8.
Definition TypeSetstat := 9.
Definition TypeFsetstat := 10.
Definition TypeOpendir := 11.
Definition TypeReaddir := 12.
Definition TypeRemove := 13.
Definition TypeMkdir := 14.
Definition TypeRmdir := 15.
Definition TypeRename := 16.
Definition TypeStat := 17.
Definition TypeStatus := 101.
Definition TypeHandle := 102.
Definition TypeData := 103.
Definition TypeName := 104.
Definition TypeAttrs := 105.

Inductive StatusCode :=
| StatusOK | StatusEOF | StatusNoSuchFile | StatusPermissionDenied | StatusFailure
| StatusBadMessage | StatusNoConnection | StatusConnectionLost | StatusOpUnsupported.
Definition code_num (c : StatusCode) : Z :=
  match c with
  | StatusOK => 0 | StatusEOF => 1 | StatusNoSuchFile => 2 | StatusPermissionDenied => 3
  | StatusFailure => 4 | StatusBadMessage => 5 | StatusNoConnection => 6
  | StatusConnectionLost => 7 | StatusOpUnsupported => 8
  end.

(** ** packet.go *)

Record Packet := { PType : Z; Payload : bytes }.

Inductive wire_err :=
| EIO (e : io_err)
| EPacketLength (n : Z)
| EShortString | EShortU32 | EShortU64 | EShortStatus | EShortVersion.

Definition ReadPacket (r : bytes) : res wire_err (Packet * bytes) :=
  let! (lenBuf, r1) := res_wrap EIO (ReadFull r 4) in
  let n := be_get lenBuf in
  if (n =? 0) || (n >? 2 ^ 24) then Err (EPacketLength n)
  else
    let! (buf, r2) := res_wrap EIO (ReadFull r1 (Z.to_nat n)) in
    match buf with
    | [] => Panic
    | t :: payload => Ok ({| PType := bz t; Payload := payload |}, r2)
    end.

Definition WritePacket (t : Z) (payload : bytes) : bytes :=
  let full := zb t :: payload in
  be_put 4 (u32 (blen full)) ++ full.

(** [buf[lo:hi]] *)
Definition sub_bytes (buf : bytes) (lo hi : Z) : bytes := take (Z.to_nat (hi - lo)) (drop (Z.to_nat lo) buf).

Definition ReadUint32 (buf : bytes) (off : Z) : res wire_err (Z * Z) :=
  if off + 4 >? blen buf then Err EShortU32
  else if off <? 0 then Panic
  else Ok (be_get (sub_bytes buf off (off + 4)), off + 4).

Definition ReadUint64 (buf : bytes) (off : Z) : res wire_err (Z * Z) :=
  if off + 8 >? blen buf then Err EShortU64
  else if off <? 0 then Panic
  else Ok (be_get (sub_bytes buf off (off + 8)), off + 8).

Definition ReadString_ (buf : bytes) (off : Z) : res wire_err (bytes * Z) :=
  if off + 4 >? blen buf then Err EShortString
  else if off <? 0 then Panic
  else
    let n := be_get (sub_bytes buf off (off + 4)) in
    let off := off + 4 in
    if off + n >? blen buf then Err EShortString
    else Ok (sub_bytes buf off (off + n), off + n).

Definition AppendString (buf s : bytes) : bytes := buf ++ be_put 4 (u32 (blen s)) ++ s.
Definition AppendUint32 (buf : bytes) (v : Z) : bytes := buf ++ be_put 4 v.
Definition AppendUint64 (buf : bytes) (v : Z) : bytes := buf ++ be_put 8 v.

(** ** attr.go *)

(** [time.Time{}.Unix()] *)
Definition zero_time : Z := -62135596800.
Definition IsZero (t : Z) : bool := t =? zero_time.

Record FileAttr := { Size : Z; UID : Z; GID : Z; AMode : Z; Mtime : Z; Atime : Z }.
Definition no_attr : FileAttr :=
  {| Size := 0; UID := 0; GID := 0; AMode := 0; Mtime := zero_time; Atime := zero_time |}.

Definition attrSize := 1.
Definition attrUIDGID := 2.
Definition attrMode := 4.
Definition attrMtime := 8.
Definition attrAtime := 16.

Definition flag_if (c : bool) (bit flags : Z) : Z := if c then Z.lor flags bit else flags.
Definition attr_flags (a : FileAttr) : Z :=
  flag_if (negb (IsZero (Atime a))) attrAtime
    (flag_if (negb (IsZero (Mtime a))) attrMtime
      (flag_if (negb (AMode a =? 0)) attrMode
        (flag_if (negb (UID a =? 0) || negb (GID a =? 0)) attrUIDGID
          (flag_if (negb (Size a =? 0)) attrSize 0)))).
Definition has (flags bit : Z) : bool := negb (Z.land flags bit =? 0).

Definition Encode (a : FileAttr) : bytes :=
  let flags := attr_flags a in
  let buf := AppendUint32 [] flags in
  let buf := if has flags attrSize then AppendUint64 buf (Size a) else buf in
  let buf := if has flags attrUIDGID then AppendUint32 (AppendUint32 buf (UID a)) (GID a) else buf in
  let buf := if has flags attrMode then AppendUint32 buf (AMode a) else buf in
  let buf := if has flags attrMtime then AppendUint32 buf (u32 (Mtime a)) else buf in
  if has flags attrAtime then AppendUint32 buf (u32 (Atime a)) else buf.

(** One optional field of [DecodeAttrs]. *)
Definition opt_field {A} (present : bool) (dflt : A) (read : Z -> res wire_err (A * Z)) (next : Z)
    : res wire_err (A * Z) :=
  if present then read next else Ok (dflt, next).

Definition DecodeAttrs (buf : bytes) (off : Z) : res wire_err (FileAttr * Z) :=
  let! (flags, next) := ReadUint32 buf off in
  let! (size, next) := opt_field (has flags attrSize) 0 (ReadUint64 buf) next in
  let! (uid, next) := opt_field (has flags attrUIDGID) 0 (ReadUint32 buf) next in
  let! (gid, next) := opt_field (has flags attrUIDGID) 0 (ReadUint32 buf) next in
  let! (mode, next) := opt_field (has flags attrMode) 0 (ReadUint32 buf) next in
  let! (mtime, next) := opt_field (has flags attrMtime) zero_time (ReadUint32 buf) next in
  let! (atime, next) := opt_field (has flags attrAtime) zero_time (ReadUint32 buf) next in
  Ok ({| Size := size; UID := uid; GID := gid; AMode := mode; Mtime := mtime; Atime := atime |}, next).

Definition EncodeStatus (id : Z) (code : Z) (msg lang : bytes) : bytes :=
  AppendString (AppendString (AppendUint32 (AppendUint32 [] id) code) msg) lang.

Definition DecodeStatus (buf : bytes) : res wire_err (Z * Z * bytes) :=
  if blen buf <? 8 then Err EShortStatus
  else
    let id := be_get (sub_bytes buf 0 4) in
    let code := be_get (sub_bytes buf 4 8) in
    let! (msg, _) := ReadString_ buf 8 in
    Ok (id, code, msg).

(** ** init.go *)

Definition Version := 3.

Definition ReadInit (p : Packet) : res wire_err Z :=
  if blen (Payload p) <? 4 then Err EShortVersion else Ok (be_get (take 4 (Payload p))).

(** One call of the function [NewRequestIDSource] returns, on its counter. *)
Definition next_request_id (c : Z) : Z := let c := u32 (c + 1) in if c =? 0 then 1 else c.

(* ------------------------------------------------------------------ *)
(** ** Fields at an offset *)

Lemma sub_bytes_app (pre s post : bytes) :
  sub_bytes (pre ++ s ++ post) (blen pre) (blen pre + blen s) = s.
Proof.
  unfold sub_bytes, blen. replace (Z.to_nat (Z.of_nat (length pre))) with (length pre) by lia.
  rewrite drop_app_length. replace (Z.to_nat _) with (length s) by lia. apply take_app_length.
Qed.

Lemma field_fits (pre s post : bytes) : (blen pre + blen s >? blen (pre ++ s ++ post)) = false.
Proof. rewrite Z.gtb_ltb. apply Z.ltb_ge. unfold blen. rewrite !length_app. lia. Qed.

Lemma blen_be_put n z : blen (be_put n z) = Z.of_nat n.
Proof. unfold blen. by rewrite be_put_length. Qed.

Lemma blen_app {A} (s t : list A) : blen (s ++ t) = blen s + blen t.
Proof. unfold blen. rewrite length_app. lia. Qed.

Lemma ReadUint32_put pre v post :
  in_u 32 v -> ReadUint32 (pre ++ be_put 4 v ++ post) (blen pre) = Ok (v, blen pre + 4).
Proof.
  intros Hv. unfold ReadUint32. pose proof (field_fits pre (be_put 4 v) post) as Hf.
  pose proof (sub_bytes_app pre (be_put 4 v) post) as Hs. rewrite blen_be_put in Hf, Hs.
  change (Z.of_nat 4) with 4 in *. rewrite Hf, Hs.
  rewrite (proj2 (Z.ltb_ge _ _)) by (unfold blen; lia). by rewrite be_get_put_u.
Qed.

Lemma ReadUint64_put pre v post :
  in_u 64 v -> ReadUint64 (pre ++ be_put 8 v ++ post) (blen pre) = Ok (v, blen pre + 8).
Proof.
  intros Hv. unfold ReadUint64. pose proof (field_fits pre (be_put 8 v) post) as Hf.
  pose proof (sub_bytes_app pre (be_put 8 v) post) as Hs. rewrite blen_be_put in Hf, Hs.
  change (Z.of_nat 8) with 8 in *. rewrite Hf, Hs.
  rewrite (proj2 (Z.ltb_ge _ _)) by (unfold blen; lia). by rewrite be_get_put_u.
Qed.

Lemma u32_at pre v post :
  in_u 32 v -> be_get (sub_bytes (pre ++ be_put 4 v ++ post) (blen pre) (blen pre + 4)) = v.
Proof.
  intros Hv. pose proof (sub_bytes_app pre (be_put 4 v) post) as Hs. rewrite blen_be_put in Hs.
  change (Z.of_nat 4) with 4 in Hs. rewrite Hs. by apply be_get_put_u.
Qed.

Lemma ReadString_put pre s post :
  blen s < 2 ^ 32 ->
  ReadString_ (pre ++ be_put 4 (u32 (blen s)) ++ s ++ post) (blen pre) = Ok (s, blen pre + 4 + blen s).
Proof.
  intros Hlen. assert (in_u 32 (blen s)) as Hu by (split; [unfold blen; lia|done]).
  assert (u32 (blen s) = blen s) as E by (apply wrap_u_small; exact Hu). rewrite E. unfold ReadString_.
  pose proof (field_fits pre (be_put 4 (blen s)) (s ++ post)) as Hf.
  pose proof (sub_bytes_app pre (be_put 4 (blen s)) (s ++ post)) as Hs.
  rewrite blen_be_put in Hf, Hs. change (Z.of_nat 4) with 4 in *. rewrite Hf, Hs.
  rewrite (proj2 (Z.ltb_ge _ _)) by (unfold blen; lia). rewrite be_get_put_u by done.
  pose proof (field_fits (pre ++ be_put 4 (blen s)) s post) as Hf2.
  pose proof (sub_bytes_app (pre ++ be_put 4 (blen s)) s post) as Hs2.
  rewrite <- !app_assoc, blen_app, blen_be_put in Hf2, Hs2. change (Z.of_nat 4) with 4 in *.
  by rewrite Hf2, Hs2.
Qed.

(* ------------------------------------------------------------------ *)
(** ** Attributes *)

Definition opt_bytes (c : bool) (s : bytes) : bytes := if c then s else [].

Lemma opt_u32 c dflt buf pre v post :
  in_u 32 v -> buf = pre ++ opt_bytes c (be_put 4 v) ++ post ->
  opt_field c dflt (ReadUint32 buf) (blen pre) =
  Ok (if c then v else dflt, blen (pre ++ opt_bytes c (be_put 4 v))).
Proof.
  intros Hv ->. unfold opt_field, opt_bytes. destruct c; [|by rewrite app_nil_r].
  by rewrite ReadUint32_put, blen_app, blen_be_put.
Qed.

Lemma opt_u64 c dflt buf pre v post :
  in_u 64 v -> buf = pre ++ opt_bytes c (be_put 8 v) ++ post ->
  opt_field c dflt (ReadUint64 buf) (blen pre) =
  Ok (if c then v else dflt, blen (pre ++ opt_bytes c (be_put 8 v))).
Proof.
  intros Hv ->. unfold opt_field, opt_bytes. destruct c; [|by rewrite app_nil_r].
  by rewrite ReadUint64_put, blen_app, blen_be_put.
Qed.

Lemma attr_flags_bits a :
  let f := attr_flags a in
  in_u 32 f /\ has f attrSize = negb (Size a =? 0) /\
  has f attrUIDGID = negb (UID a =? 0) || negb (GID a =? 0) /\ has f attrMode = negb (AMode a =? 0) /\
  has f attrMtime = negb (IsZero (Mtime a)) /\ has f attrAtime = negb (IsZero (Atime a)).
Proof.
  unfold attr_flags.
  generalize (negb (Size a =? 0)) (negb (UID a =? 0) || negb (GID a =? 0)) (negb (AMode a =? 0))
    (negb (IsZero (Mtime a))) (negb (IsZero (Atime a))).
  intros [] [] [] [] []; by vm_compute.
Qed.

Lemma Encode_fields a :
  let f := attr_flags a in
  Encode a = be_put 4 f ++ opt_bytes (has f attrSize) (be_put 8 (Size a)) ++
    opt_bytes (has f attrUIDGID) (be_put 4 (UID a)) ++ opt_bytes (has f attrUIDGID) (be_put 4 (GID a)) ++
    opt_bytes (has f attrMode) (be_put 4 (AMode a)) ++ opt_bytes (has f attrMtime) (be_put 4 (u32 (Mtime a))) ++
    opt_bytes (has f attrAtime) (be_put 4 (u32 (Atime a))).
Proof.
  intros f. unfold Encode. fold f. unfold AppendUint32, AppendUint64, opt_bytes.
  repeat if_step; rewrite ?app_nil_r, <- ?app_assoc; reflexivity.
Qed.

(** Attributes in the ranges of their Go types, whose times fit the wire's 32 bits. *)
Definition wf_attr (a : FileAttr) : Prop :=
  in_u 64 (Size a) /\ in_u 32 (UID a) /\ in_u 32 (GID a) /\ in_u 32 (AMode a) /\
  (Mtime a = zero_time \/ in_u 32 (Mtime a)) /\ (Atime a = zero_time \/ in_u 32 (Atime a)).

Lemma time_field t : t = zero_time \/ in_u 32 t -> (if negb (IsZero t) then u32 t else zero_time) = t.
Proof.
  unfold IsZero. destruct (Z.eqb_spec t zero_time) as [->|]; [done|]. intros [?|H]; [done|].
  by apply wrap_u_small.
Qed.

Lemma int_field z : (if negb (z =? 0) then z else 0) = z.
Proof. by destruct (Z.eqb_spec z 0) as [->|]. Qed.

(** Reads the next optional field, known to hold [v]. *)
Ltac read_field l v :=
  erewrite (l _ _ _ _ v) by (done || match goal with E : ?b = _ |- ?b = _ => rewrite E, <- !app_assoc; reflexivity end);
  cbn [res_bind].

Lemma DecodeAttrs_at (pre post : bytes) (a : FileAttr) :
  wf_attr a -> DecodeAttrs (pre ++ Encode a ++ post) (blen pre) = Ok (a, blen pre + blen (Encode a)).
Proof.
  intros (Hs & Hu & Hg & Hm & Hmt & Hat). destruct (attr_flags_bits a) as (Hf & B1 & B2 & B3 & B4 & B5).
  rewrite <- blen_app. unfold DecodeAttrs. rewrite Encode_fields.
  set (f := attr_flags a) in *.
  assert (forall t, in_u 32 (u32 t)) as Hw by (intros; by apply wrap_u_range).
  match goal with |- context [ReadUint32 ?b (blen pre)] => remember b as buf eqn:Hbuf end.
  rewrite <- !app_assoc in Hbuf. rewrite Hbuf at 1. rewrite ReadUint32_put by done. cbn [res_bind].
  replace (blen pre + 4) with (blen (pre ++ be_put 4 f)) by (by rewrite blen_app, blen_be_put).
  pose proof (Hw (Mtime a)). pose proof (Hw (Atime a)).
  read_field opt_u64 (Size a). read_field opt_u32 (UID a). read_field opt_u32 (GID a). read_field opt_u32 (AMode a).
  read_field opt_u32 (u32 (Mtime a)). read_field opt_u32 (u32 (Atime a)).
  rewrite B1, B2, B3, B4, B5, !time_field, !int_field by done. do 2 f_equal.
  - destruct a as [sz u g m mt at_]; cbn [UID GID] in *. f_equal;
      destruct (Z.eqb_spec u 0), (Z.eqb_spec g 0); simpl; congruence.
  - by rewrite <- !app_assoc.
Qed.

Lemma blen_opt c n z : blen (opt_bytes c (be_put n z)) <= Z.of_nat n.
Proof. destruct c; cbn [opt_bytes]; [by rewrite blen_be_put|]. unfold blen. simpl. lia. Qed.
Lemma blen_Encode a : 4 <= blen (Encode a) <= 32.
Proof.
  rewrite Encode_fields. rewrite !blen_app, blen_be_put.
  repeat match goal with |- context [blen (opt_bytes ?c (be_put ?n ?z))] =>
    let x := fresh in set (x := blen (opt_bytes c (be_put n z)));
    assert (0 <= x <= Z.of_nat n) by (split; [unfold x, blen; lia|apply blen_opt]); clearbody x end.
  lia.
Qed.

(** File attributes survive the wire at any position of a packet: decoding what
    [Encode] wrote gives the attributes back, absent ones as their zero values, and
    the position after them. *)
Theorem DecodeAttrs_Encode (pre post : bytes) (a : FileAttr) :
  wf_attr a -> DecodeAttrs (pre ++ Encode a ++ post) (blen pre) = Ok (a, blen pre + blen (Encode a)).
Proof. apply DecodeAttrs_at. Qed.

Definition sample_attr : FileAttr :=
  {| Size := 1000; UID := 0; GID := 7; AMode := 0; Mtime := 1709296245; Atime := zero_time |}.

Lemma DecodeAttrs_Encode_witness :
  DecodeAttrs (str "abc" ++ Encode sample_attr ++ str "rest") 3 = Ok (sample_attr, 3 + blen (Encode sample_attr)).
Proof.
  apply (DecodeAttrs_Encode (str "abc") (str "rest") sample_attr).
  unfold wf_attr, in_u. cbn [sample_attr Size UID GID AMode Mtime Atime]. repeat split; lia.
Defined.

(* ------------------------------------------------------------------ *)
(** ** Packets and status *)

Lemma ReadPacket_WritePacket t payload rest :
  in_u 8 t -> blen payload < 2 ^ 24 ->
  ReadPacket (WritePacket t payload ++ rest) = Ok ({| PType := t; Payload := payload |}, rest).
Proof.
  intros Ht Hp. unfold ReadPacket, WritePacket.
  assert (in_u 32 (blen (zb t :: payload))) as Hu by (unfold in_u, blen in *; simpl length; lia).
  rewrite (wrap_u_small _ _ Hu), <- app_assoc, ReadFull_app_n by apply be_put_length. cbn [res_wrap res_bind].
  rewrite be_get_put_u by done.
  assert (blen (zb t :: payload) = 1 + blen payload) as E by (unfold blen; simpl length; lia).
  rewrite E in *. rewrite (proj2 (Z.eqb_neq _ _)), Z.gtb_ltb, (proj2 (Z.ltb_ge _ _)) by (unfold blen in *; lia).
  simpl orb. rewrite ReadFull_app_n by (unfold blen; simpl length; lia). cbn [res_wrap res_bind].
  rewrite bz_zb, Z.mod_small by (unfold in_u in Ht; lia). done.
Qed.

(** Reading packets up to the end of the stream; the fuel is its length. *)
Fixpoint read_packets (fuel : nat) (r : bytes) : res wire_err (list Packet) :=
  match fuel, r with
  | _, [] => Ok []
  | O, _ => Ok []
  | S fuel', _ =>
      let! (p, r') := ReadPacket r in
      let! ps := read_packets fuel' r' in
      Ok (p :: ps)
  end.

Definition wf_packet (p : Packet) : bool := (0 <=? PType p) && (PType p <? 256) && (blen (Payload p) <? 2 ^ 24).

(** A stream of packets read back is the packets that were written, none lost,
    split or merged, for payloads below the 16 MiB that [ReadPacket] accepts. *)
Theorem packets_roundtrip (ps : list Packet) (fuel : nat) :
  forallb wf_packet ps = true -> (length ps <= fuel)%nat ->
  read_packets fuel (flat_map (fun p => WritePacket (PType p) (Payload p)) ps) = Ok ps.
Proof.
  revert fuel. induction ps as [|p ps IH]; intros fuel H Hf; [by destruct fuel|].
  cbn [forallb] in H. apply andb_true_iff in H as [Hp Hps]. unfold wf_packet in Hp.
  rewrite !andb_true_iff, Z.leb_le, !Z.ltb_lt in Hp. destruct fuel as [|fuel]; [simpl in Hf; lia|].
  cbn [flat_map]. set (rest := flat_map _ ps).
  assert (WritePacket (PType p) (Payload p) ++ rest <> []) as Hne.
  { unfold WritePacket. intros E. apply (f_equal length) in E. rewrite !length_app, be_put_length in E. simpl in E. lia. }
  unfold read_packets. fold read_packets. destruct (_ ++ rest) as [|c s] eqn:E; [done|]. rewrite <- E.
  rewrite ReadPacket_WritePacket by (unfold in_u; lia). cbn [res_bind]. subst rest.
  rewrite IH by (done || simpl in Hf; lia). by destruct p.
Qed.

Lemma packets_roundtrip_witness :
  let ps := [ {| PType := TypeInit; Payload := be_put 4 3 |}; {| PType := TypeStat; Payload := str "xyz" |} ] in
  read_packets 2 (flat_map (fun p => WritePacket (PType p) (Payload p)) ps) = Ok ps.
Proof. apply (packets_roundtrip [_; _]); [by vm_compute|simpl; lia]. Defined.

(** A status reply decodes to the request id, code and message that were encoded. *)
Theorem DecodeStatus_EncodeStatus (id code : Z) (msg lang : bytes) :
  in_u 32 id -> in_u 32 code -> blen msg < 2 ^ 32 ->
  DecodeStatus (EncodeStatus id code msg lang) = Ok (id, code, msg).
Proof.
  intros Hi Hc Hm. unfold DecodeStatus.
  set (tail := be_put 4 (u32 (blen lang)) ++ lang).
  assert (EncodeStatus id code msg lang =
    be_put 4 id ++ be_put 4 code ++ be_put 4 (u32 (blen msg)) ++ msg ++ tail) as ->
    by (unfold EncodeStatus, AppendString, AppendUint32; by rewrite <- !app_assoc).
  rewrite (proj2 (Z.ltb_ge _ _)) by (rewrite !blen_app, !blen_be_put; unfold blen; lia).
  pose proof (u32_at [] id (be_put 4 code ++ be_put 4 (u32 (blen msg)) ++ msg ++ tail) Hi) as E1.
  pose proof (u32_at (be_put 4 id) code (be_put 4 (u32 (blen msg)) ++ msg ++ tail) Hc) as E2.
  pose proof (ReadString_put (be_put 4 id ++ be_put 4 code) msg tail Hm) as E3.
  rewrite <- app_assoc, blen_app, !blen_be_put in E3. rewrite blen_be_put in E2.
  change (blen [] + 4) with 4 in E1. change (blen []) with 0 in E1. rewrite app_nil_l in E1.
  change (Z.of_nat 4 + 4) with 8 in E2. change (Z.of_nat 4) with 4 in *.
  rewrite E1, E2. change (4 + 4) with 8 in E3. by rewrite E3.
Qed.

Lemma DecodeStatus_EncodeStatus_witness :
  DecodeStatus (EncodeStatus 7 4 (str "invalid handle") []) = Ok (7, 4, str "invalid handle").
Proof. apply DecodeStatus_EncodeStatus; by vm_compute. Defined.
