(* ===== verification/SftpServer.v ===== *)
(** * sftp/server/server.go: the SFTP server

    The interface [Backend] on a file system state [B], the handlers of the request
    switch of [Serve] one by one on the session (handle table, drained directories,
    backend, replies sent), and [Serve] itself over the bytes of the channel.
    Replies are the packets written; a write is taken to succeed, a broken channel
    being seen by the next read. *)

From S2P Require Import Prelude GoStrings SftpWire.

Record FileStat := {
  Name : bytes; FSize : Z; FMode : Z; IsDir : bool; FMtime : Z; FUID : Z; FGID : Z
}.

(** A Go [error] as far as the server looks at it: [io.EOF], the two [os] errors
    [errors.Is] is asked about, and its text. *)
Inductive err_kind := KEOF | KNotExist | KPermission | KOther.
Record berr := { kind : err_kind; text : bytes }.

(** [Read] also gives the bytes it put at the front of the buffer. *)
Class Backend (B : Type) := {
  b_stat : bytes -> B -> (berr + FileStat) * B;
  b_lstat : bytes -> B -> (berr + FileStat) * B;
  b_open : bytes -> Z -> B -> (berr + bytes) * B;
  b_read : bytes -> Z -> Z -> B -> (bytes * option berr) * B;
  b_write : bytes -> Z -> bytes -> B -> option berr * B;
  b_close : bytes -> B -> option berr * B;
  b_readdir : bytes -> B -> (berr + list FileStat) * B;
  b_mkdir : bytes -> B -> option berr * B;
  b_rmdir : bytes -> B -> option berr * B;
  b_remove : bytes -> B -> option berr * B;
  b_rename : bytes -> bytes -> B -> option berr * B
}.

(** The contract of [io.Reader] that the slice [buf[:n]] relies on. *)
Class BackendReads (B : Type) `{Backend B} : Prop := {
  b_read_bound : forall h off size b, 0 <= size -> blen (b_read h off size b).1.1 <= size
}.

Definition mapErr (e : berr) : StatusCode :=
  match kind e with
  | KNotExist => StatusNoSuchFile
  | KPermission => StatusPermissionDenied
  | _ => StatusFailure
  end.

(** [Error()] of the decoding errors. *)
Definition wire_text (e : wire_err) : bytes :=
  match e with
  | EShortString => str "sftp: read string: short buffer"
  | EShortU32 => str "sftp: read u32: short buffer"
  | EShortU64 => str "sftp: read u64: short buffer"
  | _ => []
  end.

Record Session (B : Type) := mkSession {
  handles : gmap bytes bytes;
  drained : gset bytes;
  nextID : Z;
  backend : B;
  sent : list Packet
}.
Arguments mkSession {_}. Arguments handles {_}. Arguments drained {_}. Arguments nextID {_}.
Arguments backend {_}. Arguments sent {_}.

(** What a pass of the request loop does: go on, return, or panic. *)
Inductive outcome (B : Type) :=
| Continue (s : Session B)
| Return (s : Session B)
| Crash.
Arguments Continue {_}. Arguments Return {_}. Arguments Crash {_}.

Section Server.
Context {B : Type} `{!Backend B}.
Implicit Types (s : Session B).

Definition send s (t : Z) (payload : bytes) : Session B :=
  {| handles := handles s; drained := drained s; nextID := nextID s; backend := backend s;
     sent := sent s ++ [{| PType := t; Payload := payload |}] |}.
Definition with_backend s (b : B) : Session B :=
  {| handles := handles s; drained := drained s; nextID := nextID s; backend := b; sent := sent s |}.

Definition sendStatus s (id : Z) (code : StatusCode) (msg : bytes) : Session B :=
  send s TypeStatus (EncodeStatus id (code_num code) msg []).

Definition stat_attr (st : FileStat) : FileAttr :=
  {| Size := FSize st; UID := FUID st; GID := FGID st; AMode := FMode st;
     Mtime := if negb (FMtime st =? 0) then FMtime st else zero_time; Atime := zero_time |}.
Definition sendAttrs s (id : Z) (st : FileStat) : Session B :=
  send s TypeAttrs (AppendUint32 [] id ++ Encode (stat_attr st)).

Definition newHandle s (real : bytes) : bytes * Session B :=
  let n := u32 (nextID s + 1) in
  let h := str "h" ++ fmt_uint n in
  (h, {| handles := <[h := real]> (handles s); drained := drained s; nextID := n;
         backend := backend s; sent := sent s |}).
Definition resolve s (h : bytes) : option bytes := handles s !! h.
Definition markDrained s (h : bytes) : Session B :=
  {| handles := handles s; drained := {[h]} ∪ drained s; nextID := nextID s; backend := backend s; sent := sent s |}.
Definition isDrained s (h : bytes) : bool := bool_decide (h ∈ drained s).
Definition drop_handle s (h : bytes) : Session B :=
  {| handles := delete h (handles s); drained := drained s ∖ {[h]}; nextID := nextID s;
     backend := backend s; sent := sent s |}.

(** A field of the request; a malformed one ends the session with BAD_MESSAGE. *)
Definition field {A} s (id : Z) (m : res wire_err A) (k : A -> outcome B) : outcome B :=
  match m with
  | Ok x => k x
  | Err e => Return (sendStatus s id StatusBadMessage (wire_text e))
  | Panic => Crash
  end.
(** The open handle of a request. *)
Definition with_real s (id : Z) (h : bytes) (k : bytes -> outcome B) : outcome B :=
  match resolve s h with
  | None => Continue (sendStatus s id StatusFailure (str "invalid handle"))
  | Some real => k real
  end.
(** The reply to a backend operation that gives no value. *)
Definition reply_unit s (id : Z) (r : option berr * B) : outcome B :=
  let s := with_backend s r.2 in
  match r.1 with
  | Some e => Continue (sendStatus s id (mapErr e) (text e))
  | None => Continue (sendStatus s id StatusOK [])
  end.
Definition reply_handle s (id : Z) (real : bytes) : outcome B :=
  let '(h, s) := newHandle s real in
  Continue (send s TypeHandle (AppendString (AppendUint32 [] id) h)).

Definition handle_open s (id : Z) (rest : bytes) : outcome B :=
  field s id (ReadString_ rest 0) (fun '(path, off) =>
  field s id (ReadUint32 rest off) (fun '(pFlags, _) =>
    let '(r, b) := b_open path pFlags (backend s) in
    let s := with_backend s b in
    match r with
    | inl e => Continue (sendStatus s id (mapErr e) (text e))
    | inr real => reply_handle s id real
    end)).

Definition handle_close s (id : Z) (rest : bytes) : outcome B :=
  field s id (ReadString_ rest 0) (fun '(h, _) =>
  with_real s id h (fun real =>
    let '(_, b) := b_close real (backend s) in
    Continue (sendStatus (drop_handle (with_backend s b) h) id StatusOK []))).

Definition handle_read s (id : Z) (rest : bytes) : outcome B :=
  field s id (ReadString_ rest 0) (fun '(h, off) =>
  field s id (ReadUint64 rest off) (fun '(offset, off) =>
  field s id (ReadUint32 rest off) (fun '(size, _) =>
  with_real s id h (fun real =>
    let '((data, err), b) := b_read real offset size (backend s) in
    let s := with_backend s b in
    match err with
    | Some {| kind := KEOF |} => Continue (sendStatus s id StatusEOF [])
    | Some e => Continue (sendStatus s id (mapErr e) (text e))
    | None =>
        if blen data >? size then Crash
        else Continue (send s TypeData (AppendUint32 (AppendUint32 [] id) (u32 (blen data)) ++ data))
    end)))).

Definition handle_write s (id : Z) (rest : bytes) : outcome B :=
  field s id (ReadString_ rest 0) (fun '(h, off) =>
  field s id (ReadUint64 rest off) (fun '(offset, off) =>
  field s id (ReadString_ rest off) (fun '(data, _) =>
  with_real s id h (fun real => reply_unit s id (b_write real offset data (backend s)))))).

Definition handle_stat s (id : Z) (rest : bytes) (stat : bytes -> B -> (berr + FileStat) * B) : outcome B :=
  field s id (ReadString_ rest 0) (fun '(path, _) =>
    let '(r, b) := stat path (backend s) in
    let s := with_backend s b in
    match r with
    | inl e => Continue (sendStatus s id (mapErr e) (text e))
    | inr st => Continue (sendAttrs s id st)
    end).

Definition handle_opendir s (id : Z) (rest : bytes) : outcome B :=
  field s id (ReadString_ rest 0) (fun '(path, _) =>
    let '(r, b) := b_readdir path (backend s) in
    let s := with_backend s b in
    match r with
    | inl e => Continue (sendStatus s id (mapErr e) (text e))
    | inr _ => reply_handle s id (str "dir:" ++ path)
    end).

Definition name_entry (payload : bytes) (e : FileStat) : bytes :=
  AppendString (AppendString payload (Name e)) [] ++ Encode (stat_attr e).

Definition handle_readdir s (id : Z) (rest : bytes) : outcome B :=
  field s id (ReadString_ rest 0) (fun '(h, _) =>
    if isDrained s h then Continue (sendStatus s id StatusEOF [])
    else with_real s id h (fun real =>
      if blen real <? 4 then Crash
      else
        let path := drop 4 real in
        let '(r, b) := b_readdir path (backend s) in
        let s := with_backend s b in
        match r with
        | inl e => Continue (sendStatus s id (mapErr e) (text e))
        | inr entries =>
            let payload := fold_left name_entry entries (AppendUint32 [] id) in
            Continue (markDrained (send s TypeName payload) h)
        end)).

(** MKDIR, RMDIR and REMOVE. *)
Definition handle_path s (id : Z) (rest : bytes) (f : bytes -> B -> option berr * B) : outcome B :=
  field s id (ReadString_ rest 0) (fun '(path, _) => reply_unit s id (f path (backend s))).

Definition handle_rename s (id : Z) (rest : bytes) : outcome B :=
  field s id (ReadString_ rest 0) (fun '(from, off) =>
  field s id (ReadString_ rest off) (fun '(to, _) => reply_unit s id (b_rename from to (backend s)))).

(** The request switch of [Serve]. *)
Definition dispatch s (pkt : Packet) : outcome B :=
  if blen (Payload pkt) <? 4 then Continue s
  else
    let id := be_get (take 4 (Payload pkt)) in
    let rest := drop 4 (Payload pkt) in
    let t := PType pkt in
    if t =? TypeOpen then handle_open s id rest
    else if t =? TypeClose then handle_close s id rest
    else if t =? TypeRead then handle_read s id rest
    else if t =? TypeWrite then handle_write s id rest
    else if t =? TypeStat then handle_stat s id rest b_stat
    else if t =? TypeLstat then handle_stat s id rest b_lstat
    else if t =? TypeOpendir then handle_opendir s id rest
    else if t =? TypeReaddir then handle_readdir s id rest
    else if t =? TypeMkdir then handle_path s id rest b_mkdir
    else if t =? TypeRmdir then handle_path s id rest b_rmdir
    else if t =? TypeRemove then handle_path s id rest b_remove
    else if t =? TypeRename then handle_rename s id rest
    else Continue (sendStatus s id StatusOpUnsupported (str "unsupported")).

Inductive serve_err := EWire (e : wire_err) | EExpectedInit (t : Z) | EUnsupportedVersion (v : Z).
Inductive serve_end := Returned (s : Session B) (e : option serve_err) | Panicked.

(** The request loop; [None] is out of fuel. *)
Fixpoint serve_loop (fuel : nat) s (input : bytes) : option serve_end :=
  match fuel with
  | O => None
  | S fuel' =>
      match ReadPacket input with
      | Err (EIO EOF) => Some (Returned s None)
      | Err e => Some (Returned s (Some (EWire e)))
      | Panic => Some Panicked
      | Ok (pkt, input') =>
          match dispatch s pkt with
          | Continue s' => serve_loop fuel' s' input'
          | Return s' => Some (Returned s' None)
          | Crash => Some Panicked
          end
      end
  end.

Definition new_session (b : B) : Session B :=
  {| handles := ∅; drained := ∅; nextID := 0; backend := b; sent := [] |}.

Definition Serve (b : B) (input : bytes) : option serve_end :=
  let s := new_session b in
  match ReadPacket input with
  | Err e => Some (Returned s (Some (EWire e)))
  | Panic => Some Panicked
  | Ok (init, input) =>
      if negb (PType init =? TypeInit) then Some (Returned s (Some (EExpectedInit (PType init))))
      else match ReadInit init with
           | Err e => Some (Returned s (Some (EWire e)))
           | Panic => Some Panicked
           | Ok v =>
               if negb (v =? Version) then Some (Returned s (Some (EUnsupportedVersion v)))
               else serve_loop (S (length input)) (send s TypeVersion (AppendUint32 [] Version)) input
           end
  end.
End Server.
Arguments Returned {_}. Arguments Panicked {_}.

(* ------------------------------------------------------------------ *)
(** ** Replies *)

Section Replies.
Context {B : Type} `{!Backend B}.
Implicit Types (s : Session B).

(** [s'] has sent one packet more than [s], a reply that echoes the request id. *)
Definition one_reply (id : Z) s s' : Prop :=
  exists t body, sent s' = sent s ++ [{| PType := t; Payload := be_put 4 id ++ body |}] /\
    TypeStatus <= t <= TypeAttrs.

Definition ends_with (P : Session B -> Prop) (o : outcome B) : Prop :=
  match o with Continue s' | Return s' => P s' | Crash => True end.

Lemma send_reply id s0 s t body :
  sent s = sent s0 -> TypeStatus <= t <= TypeAttrs -> one_reply id s0 (send s t (be_put 4 id ++ body)).
Proof. intros E Ht. exists t, body. simpl. by rewrite E. Qed.

Lemma status_reply id s0 s c m : sent s = sent s0 -> one_reply id s0 (sendStatus s id c m).
Proof.
  intros E. unfold sendStatus, EncodeStatus, AppendString, AppendUint32. rewrite <- !app_assoc.
  by apply send_reply.
Qed.

Lemma field_reply {A} id s (m : res wire_err A) k :
  (forall x, ends_with (one_reply id s) (k x)) -> ends_with (one_reply id s) (field s id m k).
Proof. intros H. destruct m; simpl; [done| |done]. by apply status_reply. Qed.

Lemma real_reply id s h k :
  (forall real, ends_with (one_reply id s) (k real)) -> ends_with (one_reply id s) (with_real s id h k).
Proof. intros H. unfold with_real. destruct (resolve s h); [done|]. by apply status_reply. Qed.

Lemma unit_reply id s r : ends_with (one_reply id s) (reply_unit s id r).
Proof. unfold reply_unit. destruct (r.1); by apply status_reply. Qed.

Lemma handle_reply id s0 s real : sent s = sent s0 -> ends_with (one_reply id s0) (reply_handle s id real).
Proof.
  intros E. unfold reply_handle. simpl. unfold AppendString, AppendUint32. rewrite <- !app_assoc.
  by apply send_reply.
Qed.

Lemma name_entries_payload entries payload :
  exists body, fold_left name_entry entries payload = payload ++ body.
Proof.
  revert payload. induction entries as [|e es IH]; intros payload; [exists []; by rewrite app_nil_r|].
  cbn [fold_left]. destruct (IH (name_entry payload e)) as [body ->].
  unfold name_entry, AppendString. rewrite <- !app_assoc. by eexists.
Qed.

Lemma readdir_reply id s rest : ends_with (one_reply id s) (handle_readdir s id rest).
Proof.
  apply field_reply. intros [h off]. case_match; [by apply status_reply|].
  apply real_reply. intros real. case_match; [done|]. cbv zeta.
  destruct (b_readdir _ _) as [[e|entries] b]; [by apply status_reply|].
  destruct (name_entries_payload entries (AppendUint32 [] id)) as [body ->].
  by apply (send_reply id s (with_backend s b) TypeName).
Qed.

Lemma read_reply id s rest : ends_with (one_reply id s) (handle_read s id rest).
Proof.
  apply field_reply. intros [h off]. apply field_reply. intros [offset off'].
  apply field_reply. intros [size next]. apply real_reply. intros real.
  destruct (b_read _ _ _ _) as [[data [[[] msg]|]] b]; try by apply status_reply.
  case_match; [done|]. unfold AppendUint32. rewrite <- !app_assoc. by apply send_reply.
Qed.

Lemma open_reply id s rest : ends_with (one_reply id s) (handle_open s id rest).
Proof.
  apply field_reply. intros [path off]. apply field_reply. intros [flags off'].
  destruct (b_open _ _ _) as [[e|real] b]; [by apply status_reply|by apply handle_reply].
Qed.

Lemma close_reply id s rest : ends_with (one_reply id s) (handle_close s id rest).
Proof.
  apply field_reply. intros [h off]. apply real_reply. intros real.
  destruct (b_close _ _) as [e b]. by apply status_reply.
Qed.

Lemma stat_reply id s rest stat : ends_with (one_reply id s) (handle_stat s id rest stat).
Proof.
  apply field_reply. intros [path off]. destruct (stat path (backend s)) as [[e|st] b]; [by apply status_reply|].
  by apply (send_reply id s (with_backend s b) TypeAttrs).
Qed.

Lemma opendir_reply id s rest : ends_with (one_reply id s) (handle_opendir s id rest).
Proof.
  apply field_reply. intros [path off].
  destruct (b_readdir _ _) as [[e|st] b]; [by apply status_reply|by apply handle_reply].
Qed.

Lemma write_reply id s rest : ends_with (one_reply id s) (handle_write s id rest).
Proof.
  apply field_reply. intros [h off]. apply field_reply. intros [offset off'].
  apply field_reply. intros [data next]. apply real_reply. intros real. apply unit_reply.
Qed.

Lemma path_reply id s rest f : ends_with (one_reply id s) (handle_path s id rest f).
Proof. apply field_reply. intros [path off]. apply unit_reply. Qed.

Lemma rename_reply id s rest : ends_with (one_reply id s) (handle_rename s id rest).
Proof.
  apply field_reply. intros [from off]. apply field_reply. intros [to off']. apply unit_reply.
Qed.

End Replies.

(* ------------------------------------------------------------------ *)
(** ** A backend in memory, for evaluation *)

(** Files by path; handles named as the package osfs names them. *)
Record Ram := { files : gmap bytes bytes; opened : gmap bytes bytes; counter : Z }.

Definition not_found : berr := {| kind := KNotExist; text := str "file does not exist" |}.
Definition ram_stat (path : bytes) (r : Ram) : (berr + FileStat) * Ram :=
  (match files r !! path with
   | None => inl not_found
   | Some c => inr {| Name := path; FSize := blen c; FMode := 420; IsDir := false;
                      FMtime := 1709296245; FUID := 0; FGID := 0 |}
   end, r).
Definition ram_open (path : bytes) (flags : Z) (r : Ram) : (berr + bytes) * Ram :=
  let h := str "h" ++ Itoa (counter r + 1) in
  let r' f := {| files := f; opened := <[h := path]> (opened r); counter := counter r + 1 |} in
  match files r !! path with
  | Some _ => (inr h, r' (files r))
  | None => if has flags 8 then (inr h, r' (<[path := []]> (files r))) else (inl not_found, r)
  end.
Definition ram_read (h : bytes) (off size : Z) (r : Ram) : (bytes * option berr) * Ram :=
  match opened r !! h with
  | None => (([], Some {| kind := KOther; text := str "invalid handle" |}), r)
  | Some p =>
      let data := take (Z.to_nat size) (drop (Z.to_nat off) (default [] (files r !! p))) in
      ((data, if seqb data [] then Some {| kind := KEOF; text := str "EOF" |} else None), r)
  end.
Definition ram_write (h : bytes) (off : Z) (data : bytes) (r : Ram) : option berr * Ram :=
  match opened r !! h with
  | None => (Some {| kind := KOther; text := str "invalid handle" |}, r)
  | Some p =>
      let c := default [] (files r !! p) in
      let o := Z.to_nat off in
      let c' := take o c ++ replicate (o - length c) Byte.x00 ++ data ++ drop (o + length data) c in
      (None, {| files := <[p := c']> (files r); opened := opened r; counter := counter r |})
  end.
Definition ram_files (f : gmap bytes bytes -> gmap bytes bytes) (r : Ram) : option berr * Ram :=
  (None, {| files := f (files r); opened := opened r; counter := counter r |}).

Definition ram_backend : Backend Ram := {|
  b_stat := ram_stat; b_lstat := ram_stat; b_open := ram_open; b_read := ram_read; b_write := ram_write;
  b_close h r := (None, {| files := files r; opened := delete h (opened r); counter := counter r |});
  b_readdir _ r := (inr (omap (fun p => match (ram_stat p r).1 with inr st => Some st | inl _ => None end)
                              (map_to_list (files r)).*1), r);
  b_mkdir _ r := (None, r); b_rmdir _ r := (None, r);
  b_remove p := ram_files (delete p);
  b_rename a b := ram_files (fun m => match m !! a with Some c => <[b := c]> (delete a m) | None => m end) |}.
#[export] Existing Instance ram_backend.

#[export] Instance ram_reads : BackendReads Ram.
Proof.
  constructor. intros h off size b Hs. simpl. unfold ram_read. destruct (opened b !! h); simpl; [|done].
  unfold blen. rewrite length_take. lia.
Qed.

Definition ram : Ram := {| files := {[ str "/a" := str "hello" ]}; opened := ∅; counter := 0 |}.

(** Requests. *)
Definition req (t id : Z) (body : bytes) : Packet := {| PType := t; Payload := be_put 4 id ++ body |}.
Definition req_open (id : Z) (path : bytes) (flags : Z) := req TypeOpen id (AppendUint32 (AppendString [] path) flags).
Definition req_handle (t id : Z) (h : bytes) := req t id (AppendString [] h).


(* ------------------------------------------------------------------ *)
(** ** Handles *)

Section Handles.
Context {B : Type} `{!Backend B}.
Implicit Types (s : Session B).

Definition handle_name (n : Z) : bytes := str "h" ++ fmt_uint n.

(** The handles of a session are those numbered so far; only they can be drained. *)
Definition handles_inv s : Prop :=
  0 <= nextID s /\
  (forall h real, handles s !! h = Some real -> exists n, 1 <= n <= nextID s /\ h = handle_name n) /\
  (forall h, h ∈ drained s -> is_Some (handles s !! h)).

Lemma handle_name_inj m n : 0 <= m <= max_u64 -> 0 <= n <= max_u64 -> handle_name m = handle_name n -> m = n.
Proof.
  intros Hm Hn E. apply (inj (app (str "h"))) in E. pose proof (ParseUint_fmt m Hm) as E1.
  rewrite E, ParseUint_fmt in E1 by done. congruence.
Qed.

(** What a step does to the handle table. *)
Definition table_step s s' : Prop :=
  handles s' = handles s \/
  (exists h real, handles s !! h = None /\ handles s' = <[h := real]> (handles s)) \/
  (exists h, is_Some (handles s !! h) /\ handles s' = delete h (handles s) /\ h ∉ drained s').

Definition table_ok s s' : Prop := handles_inv s' /\ table_step s s' /\ nextID s <= nextID s' <= nextID s + 1.

Lemma table_same s s' :
  handles_inv s -> handles s' = handles s -> drained s' = drained s -> nextID s' = nextID s -> table_ok s s'.
Proof.
  intros Hi E1 E2 E3. unfold table_ok, table_step, handles_inv in *. rewrite E1, E2, E3.
  split; [done|]. split; [by left|lia].
Qed.

Lemma table_new s s' real :
  handles_inv s -> nextID s < 2 ^ 32 - 1 -> handles s' = handles s -> drained s' = drained s ->
  nextID s' = nextID s -> forall id, ends_with (table_ok s) (reply_handle s' id real).
Proof.
  intros (H0 & Hh & Hd) Hlt E1 E2 E3.
  assert (u32 (nextID s + 1) = nextID s + 1) as Eu by (apply wrap_u_small; unfold in_u; lia).
  assert (handles s !! handle_name (nextID s + 1) = None) as Hfresh.
  { apply eq_None_not_Some. intros [r Hr]. apply Hh in Hr as (n & Hn & E).
    apply handle_name_inj in E; unfold max_u64; lia. }
  intros id. unfold reply_handle, newHandle. cbn [ends_with]. rewrite E3, Eu. fold (handle_name (nextID s + 1)).
  unfold table_ok, table_step, handles_inv. simpl. rewrite E1, E2. split; [split; [lia|]; split|].
  - intros h r. rewrite lookup_insert. case_decide as Hk; [intros _; exists (nextID s + 1); split; [lia|done]|].
    intros Hr. destruct (Hh h r Hr) as (n & ? & ?). exists n. split; [lia|done].
  - intros h Hin. rewrite lookup_insert. case_decide; [done|]. by apply Hd.
  - split; [|lia]. right. left. by exists (handle_name (nextID s + 1)), real.
Qed.

Lemma table_drop s s' h :
  handles_inv s -> is_Some (handles s !! h) -> handles s' = delete h (handles s) ->
  drained s' = drained s ∖ {[h]} -> nextID s' = nextID s -> table_ok s s'.
Proof.
  intros (H0 & Hh & Hd) Hs E1 E2 E3. unfold table_ok, table_step, handles_inv. rewrite E1, E2, E3.
  split; [split; [done|]; split|].
  - intros k real Hk. apply lookup_delete_Some in Hk as [_ Hk]. by eapply Hh.
  - intros k Hk. rewrite lookup_delete_ne by set_solver. apply Hd. set_solver.
  - split; [|lia]. right. right. exists h. split; [done|]. split; [done|set_solver].
Qed.

Lemma table_drained s s' h :
  handles_inv s -> is_Some (handles s !! h) -> handles s' = handles s ->
  drained s' = {[h]} ∪ drained s -> nextID s' = nextID s -> table_ok s s'.
Proof.
  intros (H0 & Hh & Hd) Hs E1 E2 E3. unfold table_ok, table_step, handles_inv. rewrite E1, E2, E3.
  split; [split; [done|]; split; [done|]|split; [by left|lia]]. set_unfold. naive_solver.
Qed.

Lemma field_table {A} id s (m : res wire_err A) k :
  handles_inv s -> (forall x, ends_with (table_ok s) (k x)) -> ends_with (table_ok s) (field s id m k).
Proof. intros Hi H. destruct m; simpl; [done| |done]. by apply table_same. Qed.

Lemma real_table id s h k :
  handles_inv s -> (forall real, handles s !! h = Some real -> ends_with (table_ok s) (k real)) ->
  ends_with (table_ok s) (with_real s id h k).
Proof.
  intros Hi H. unfold with_real, resolve. destruct (handles s !! h) eqn:E; [by apply H|]. by apply table_same.
Qed.

Lemma unit_table id s r : handles_inv s -> ends_with (table_ok s) (reply_unit s id r).
Proof. intros Hi. unfold reply_unit. destruct (r.1); by apply table_same. Qed.

Ltac table_fields :=
  repeat first [apply field_table; [done|]; intros [? ?] | apply real_table; [done|]; intros ? ?].

Lemma open_table id s rest :
  handles_inv s -> nextID s < 2 ^ 32 - 1 -> ends_with (table_ok s) (handle_open s id rest).
Proof.
  intros Hi Hn. unfold handle_open. table_fields.
  destruct (b_open _ _ _) as [[e|real] b]; [by apply table_same|by apply table_new].
Qed.

Lemma opendir_table id s rest :
  handles_inv s -> nextID s < 2 ^ 32 - 1 -> ends_with (table_ok s) (handle_opendir s id rest).
Proof.
  intros Hi Hn. unfold handle_opendir. table_fields.
  destruct (b_readdir _ _) as [[e|st] b]; [by apply table_same|by apply table_new].
Qed.

Lemma close_table id s rest : handles_inv s -> ends_with (table_ok s) (handle_close s id rest).
Proof.
  intros Hi. unfold handle_close. table_fields. destruct (b_close _ _) as [e b]. by eapply table_drop.
Qed.

Lemma read_table id s rest : handles_inv s -> ends_with (table_ok s) (handle_read s id rest).
Proof.
  intros Hi. unfold handle_read. table_fields.
  destruct (b_read _ _ _ _) as [[data [[[] msg]|]] b]; try by apply table_same.
  case_match; [done|by apply table_same].
Qed.

Lemma readdir_table id s rest : handles_inv s -> ends_with (table_ok s) (handle_readdir s id rest).
Proof.
  intros Hi. unfold handle_readdir. table_fields. case_match; [by apply table_same|].
  table_fields. case_match; [done|]. cbv zeta.
  destruct (b_readdir _ _) as [[e|entries] b]; [by apply table_same|by eapply table_drained].
Qed.

Lemma stat_table id s rest stat : handles_inv s -> ends_with (table_ok s) (handle_stat s id rest stat).
Proof.
  intros Hi. unfold handle_stat. table_fields. by destruct (stat _ (backend s)) as [[e|st] b]; apply table_same.
Qed.

Lemma other_table id s rest :
  handles_inv s -> ends_with (table_ok s) (handle_write s id rest) /\
  ends_with (table_ok s) (handle_rename s id rest) /\
  forall f, ends_with (table_ok s) (handle_path s id rest f).
Proof.
  intros Hi. unfold handle_write, handle_rename, handle_path.
  repeat split; intros; table_fields; by apply unit_table.
Qed.

End Handles.


(* ------------------------------------------------------------------ *)
(** ** Sessions *)

Section Sessions.
Context {B : Type} `{!Backend B}.
Implicit Types (s : Session B).

Lemma ReadPacket_shorter r p r' : ReadPacket r = Ok (p, r') -> (length r' < length r)%nat.
Proof.
  unfold ReadPacket. destruct (ReadFull r 4) as [[l r1]| |] eqn:E1; try done. cbn [res_wrap res_bind].
  apply ReadFull_inv in E1 as [-> Hl]. if_step; [done|].
  destruct (ReadFull r1 _) as [[b r2]| |] eqn:E2; try done. cbn [res_wrap res_bind].
  apply ReadFull_inv in E2 as [-> _]. destruct b as [|t b]; [done|]. intros [= <- <-].
  rewrite !length_app. simpl. lia.
Qed.

Lemma serve_loop_total fuel s input : (length input < fuel)%nat -> serve_loop fuel s input <> None.
Proof.
  revert s input. induction fuel as [|fuel IH]; intros s input Hf; [lia|]. cbn [serve_loop].
  destruct (ReadPacket input) as [[pkt input']|e|] eqn:E; [|by destruct e as [[]| | | | | |]|done].
  apply ReadPacket_shorter in E. destruct (dispatch s pkt); try done. apply IH. lia.
Qed.

(** The server always comes to an end on a finite stream of bytes: by returning
    or by a panic, for any backend. *)
Theorem Serve_total (b : B) (input : bytes) : exists e, Serve b input = Some e.
Proof.
  unfold Serve. destruct (ReadPacket input) as [[init input']|e|]; [|by eexists..].
  if_step; [by eexists|]. destruct (ReadInit init) as [v|e|]; [|by eexists..].
  if_step; [by eexists|]. destruct (serve_loop _ _ _) eqn:E; [by eexists|].
  exfalso. revert E. apply serve_loop_total. lia.
Qed.

(** The handles under which a directory can be listed: at least the four bytes of
    the prefix [dir:]. *)
Definition long_handles s : Prop := forall h real, handles s !! h = Some real -> 4 <= blen real.

Definition backend_handles_long : Prop :=
  forall path flags (b : B) real, (b_open path flags b).1 = inr real -> 4 <= blen real.

(** A decoder that does not panic and moves forward. *)
Definition forward {A} (m : res wire_err (A * Z)) : Prop :=
  match m with Ok (_, next) => 0 <= next | Err _ => True | Panic => False end.

Lemma forward_reads buf off :
  0 <= off -> forward (ReadString_ buf off) /\ forward (ReadUint32 buf off) /\ forward (ReadUint64 buf off).
Proof.
  intros H. unfold ReadString_, ReadUint32, ReadUint64. pose proof (be_get_range (sub_bytes buf off (off + 4))).
  repeat split; repeat if_step; simpl; try done; lia.
Qed.

Definition safe (o : outcome B) : Prop :=
  match o with Continue s | Return s => long_handles s | Crash => False end.

Lemma field_safe {A} id s (m : res wire_err (A * Z)) k :
  long_handles s -> forward m -> (forall x next, 0 <= next -> safe (k (x, next))) -> safe (field s id m k).
Proof. intros Hl Hf H. destruct m as [[x next]|e|]; simpl in *; [by apply H|done|done]. Qed.

Lemma real_safe id s h k :
  long_handles s -> (forall real, 4 <= blen real -> safe (k real)) -> safe (with_real s id h k).
Proof.
  intros Hl H. unfold with_real, resolve. destruct (handles s !! h) eqn:E; [|done]. apply H. by eapply Hl.
Qed.

Lemma unit_safe id s r : long_handles s -> safe (reply_unit s id r).
Proof. intros H. unfold reply_unit. by destruct (r.1). Qed.

Lemma handle_safe id s real : long_handles s -> 4 <= blen real -> safe (reply_handle s id real).
Proof.
  intros Hl Hr h r. simpl. rewrite lookup_insert. case_decide; [congruence|]. apply Hl.
Qed.

Context `{!BackendReads B}.

Lemma field_safe_u32 id s buf off k :
  long_handles s -> 0 <= off ->
  (forall x next, 0 <= x -> 0 <= next -> safe (k (x, next))) -> safe (field s id (ReadUint32 buf off) k).
Proof.
  intros Hl Ho H. pose proof (be_get_range (sub_bytes buf off (off + 4))) as R.
  unfold ReadUint32. repeat if_step; simpl; [done|lia|]. apply H; lia.
Qed.

Ltac safe_fields :=
  repeat first
    [ apply field_safe_u32; [assumption|lia|]; intros ? ? ? ?
    | apply field_safe; [assumption|apply forward_reads; lia|]; intros ? ? ?
    | apply real_safe; [assumption|]; intros ? ? ].

Lemma read_safe id s rest : long_handles s -> safe (handle_read s id rest).
Proof.
  intros Hl. unfold handle_read. safe_fields.
  match goal with |- context [b_read ?h ?o ?n ?b] => pose proof (b_read_bound h o n b ltac:(lia)) as Hb;
    destruct (b_read h o n b) as [[data [[[] msg]|]] b'] end; try done.
  simpl in Hb. rewrite Z.gtb_ltb, (proj2 (Z.ltb_ge _ _)) by lia. done.
Qed.

Lemma readdir_safe id s rest : long_handles s -> safe (handle_readdir s id rest).
Proof.
  intros Hl. unfold handle_readdir. safe_fields. case_match; [done|]. safe_fields.
  rewrite (proj2 (Z.ltb_ge _ _)) by lia. cbv zeta. by destruct (b_readdir _ _) as [[e|es] b].
Qed.

Lemma open_safe id s rest : long_handles s -> backend_handles_long -> safe (handle_open s id rest).
Proof.
  intros Hl Hb. unfold handle_open. safe_fields. destruct (b_open _ _ _) as [[e|real] b] eqn:E; [done|].
  apply handle_safe; [done|]. eapply Hb. by rewrite E.
Qed.

Lemma opendir_safe id s rest : long_handles s -> safe (handle_opendir s id rest).
Proof.
  intros Hl. unfold handle_opendir. safe_fields. destruct (b_readdir _ _) as [[e|st] b]; [done|].
  apply handle_safe; [done|]. unfold blen. rewrite length_app. simpl length. lia.
Qed.

Lemma close_safe id s rest : long_handles s -> safe (handle_close s id rest).
Proof.
  intros Hl. unfold handle_close. safe_fields. destruct (b_close _ _) as [e b].
  intros h' r. simpl. intros [_ H']%lookup_delete_Some. by eapply Hl.
Qed.

Lemma stat_safe id s rest stat : long_handles s -> safe (handle_stat s id rest stat).
Proof. intros Hl. unfold handle_stat. safe_fields. by destruct (stat _ (backend s)) as [[e|st] b]. Qed.

Lemma other_safe id s rest :
  long_handles s -> safe (handle_write s id rest) /\ safe (handle_rename s id rest) /\
  forall f, safe (handle_path s id rest f).
Proof.
  intros Hi. unfold handle_write, handle_rename, handle_path.
  repeat split; intros; safe_fields; by apply unit_safe.
Qed.

Lemma dispatch_safe s pkt : long_handles s -> backend_handles_long -> safe (dispatch s pkt).
Proof.
  intros Hi Hb. unfold dispatch. if_step; [done|].
  set (id := be_get _). set (rest := drop 4 _). destruct (other_safe id s rest Hi) as (Hw & Hr & Hp).
  repeat if_step; auto using open_safe, close_safe, read_safe, stat_safe, opendir_safe, readdir_safe.
Qed.

Lemma ReadPacket_no_panic r : ReadPacket r <> Panic.
Proof.
  unfold ReadPacket. destruct (ReadFull r 4) as [[l r1]| |] eqn:E1; cbn [res_wrap res_bind]; try done.
  2: { revert E1. unfold ReadFull. if_step; [done|]. by destruct r. }
  destruct (_ || _) eqn:En; [done|]. apply orb_false_iff in En as [En _].
  pose proof (be_get_range l) as Rl. apply Z.eqb_neq in En.
  destruct (ReadFull r1 _) as [[b r2]| |] eqn:E2; cbn [res_wrap res_bind]; try done.
  2: { revert E2. unfold ReadFull. if_step; [done|]. by destruct r1. }
  apply ReadFull_inv in E2 as [_ Hb]. destruct b; [|done]. simpl in Hb. lia.
Qed.

Lemma serve_loop_no_panic fuel s input :
  long_handles s -> backend_handles_long -> serve_loop fuel s input <> Some Panicked.
Proof.
  intros Hs Hb. revert s input Hs. induction fuel as [|fuel IH]; intros s input Hs; [done|]. cbn [serve_loop].
  destruct (ReadPacket input) as [[pkt input']|e|] eqn:E; [|by destruct e as [[]| | | | | |]|].
  - pose proof (dispatch_safe s pkt Hs Hb) as H. destruct (dispatch s pkt); [by apply IH|done|done].
  - by apply ReadPacket_no_panic in E.
Qed.

End Sessions.

(** A backend whose file handles carry a prefix. *)
Definition prefixed_ram : Backend Ram := {|
  b_stat := ram_stat; b_lstat := ram_stat;
  b_open p f r := match ram_open p f r with (inr h, r') => (inr (str "file" ++ h), r') | x => x end;
  b_read h := ram_read (drop 4 h); b_write h := ram_write (drop 4 h);
  b_close h := b_close (drop 4 h); b_readdir := b_readdir; b_mkdir := b_mkdir; b_rmdir := b_rmdir;
  b_remove := b_remove; b_rename := b_rename |}.


(** A client panics the server with two requests: the names osfs gives its file
    handles are shorter than the prefix that READDIR cuts off the handle it is given,
    so opening a file and then listing its handle as a directory is a slice out of
    range. *)
Theorem Readdir_of_file_panics :
  Serve ram (flat_map (fun p => WritePacket (PType p) (Payload p))
    [ {| PType := TypeInit; Payload := be_put 4 3 |}; req_open 1 (str "/a") 1;
      req_handle TypeReaddir 2 (str "h1") ]) = Some Panicked.
Proof. by vm_compute. Qed.
