(* ===== verification/SftpMux.v ===== *)
(** * sftp/client/client.go: the connection shared by concurrent requests

    [do], [readLoop] and [Close] of the SFTP client as a machine whose steps are the
    points at which goroutines interleave.  A call is numbered; its reply channel (of
    capacity one) carries the same number.  [pending] is [None] for a nil map.  The
    request id and the registration are one step: nothing reads the counter but the
    next id.  A packet is written in two steps, as [WritePacket] makes two calls of
    [Write]. *)

From S2P Require Import Prelude GoStrings SftpWire.

(** What [do] returns. *)
Inductive conn_err :=
| EWireErr (e : wire_err)
| EWriteErr
| EContext
| EClosedPipe.

Inductive pc :=
| PLength
| PBody
| PWait
| PReturned (r : option conn_err + Packet).

Record call := mkCall { c_id : Z; c_type : Z; c_full : bytes; c_pc : pc }.
Record chan := mkChan { ch_buf : option Packet; ch_closed : bool }.

Record Client := mkClient {
  counter : Z;
  pending : option (gmap Z nat);
  readErr : option wire_err;
  readDone : bool;
  reading : bool;
  calls : gmap nat call;
  chans : gmap nat chan;
  written : list bytes
}.

(** The client after [New], with the read loop started. *)
Definition new_client : Client :=
  {| counter := 0; pending := Some ∅; readErr := None; readDone := false; reading := true;
     calls := ∅; chans := ∅; written := [] |}.

Inductive action :=
| ACall (k : nat) (t : Z) (payload : bytes)
| AWrite (k : nat)
| AWriteFails (k : nat)
| AReceive (k : nat)
| ACancel (k : nat)
| AClosed (k : nat)
| ADeliver (p : Packet)
| AReadFails (e : wire_err)
| AClose.

(** A step: the next state, a panic, or not enabled. *)
Inductive effect := Next (c : Client) | Crash | Blocked.

Definition set_call (c : Client) (k : nat) (l : call) : Client :=
  {| counter := counter c; pending := pending c; readErr := readErr c; readDone := readDone c;
     reading := reading c; calls := <[k := l]> (calls c); chans := chans c; written := written c |}.
Definition at_pc (l : call) (p : pc) : call := mkCall (c_id l) (c_type l) (c_full l) p.
Definition set_chan (c : Client) (k : nat) (ch : chan) : Client :=
  {| counter := counter c; pending := pending c; readErr := readErr c; readDone := readDone c;
     reading := reading c; calls := calls c; chans := <[k := ch]> (chans c); written := written c |}.
Definition set_pending (c : Client) (m : option (gmap Z nat)) : Client :=
  {| counter := counter c; pending := m; readErr := readErr c; readDone := readDone c;
     reading := reading c; calls := calls c; chans := chans c; written := written c |}.
Definition write (c : Client) (s : bytes) : Client :=
  {| counter := counter c; pending := pending c; readErr := readErr c; readDone := readDone c;
     reading := reading c; calls := calls c; chans := chans c; written := written c ++ [s] |}.

(** [do] up to the write: a new id, a new channel, and the registration, which panics
    on a nil map. *)
Definition do_begin (c : Client) (k : nat) (t : Z) (payload : bytes) : effect :=
  match calls c !! k with
  | Some _ => Blocked
  | None =>
      let id := next_request_id (counter c) in
      match pending c with
      | None => Crash
      | Some m =>
          Next {| counter := id; pending := Some (<[id := k]> m); readErr := readErr c;
                  readDone := readDone c; reading := reading c;
                  calls := <[k := mkCall id t (AppendUint32 [] id ++ payload) PLength]> (calls c);
                  chans := <[k := mkChan None false]> (chans c); written := written c |}
      end
  end.

(** The two writes of [WritePacket]. *)
Definition packet_length (l : call) : bytes := be_put 4 (u32 (blen (zb (c_type l) :: c_full l))).
Definition packet_body (l : call) : bytes := zb (c_type l) :: c_full l.
Definition do_write (c : Client) (k : nat) : effect :=
  match calls c !! k with
  | Some l =>
      match c_pc l with
      | PLength => Next (set_call (write c (packet_length l)) k (at_pc l PBody))
      | PBody => Next (set_call (write c (packet_body l)) k (at_pc l PWait))
      | _ => Blocked
      end
  | None => Blocked
  end.

(** A write that fails: the call is taken out of the table ([delete] on a nil map does
    nothing). *)
Definition do_write_fails (c : Client) (k : nat) : effect :=
  match calls c !! k with
  | Some l =>
      match c_pc l with
      | PLength | PBody =>
          Next (set_call (set_pending c (delete (c_id l) <$> pending c)) k
                  (at_pc l (PReturned (inl (Some EWriteErr)))))
      | _ => Blocked
      end
  | None => Blocked
  end.

(** The three cases of the [select]. *)
Definition do_return (c : Client) (k : nat) (r : option conn_err + Packet) : effect :=
  match calls c !! k with
  | Some l => match c_pc l with PWait => Next (set_call c k (at_pc l (PReturned r))) | _ => Blocked end
  | None => Blocked
  end.
Definition do_receive (c : Client) (k : nat) : effect :=
  match chans c !! k with
  | Some {| ch_buf := Some p; ch_closed := cl |} => do_return (set_chan c k (mkChan None cl)) k (inr p)
  | Some {| ch_buf := None; ch_closed := true |} => do_return c k (inl (EWireErr <$> readErr c))
  | _ => Blocked
  end.

(** [ch <- pkt; close(ch)]. *)
Definition deliver_to (c : Client) (k : nat) (p : Packet) : effect :=
  match chans c !! k with
  | Some ch =>
      if ch_closed ch then Crash
      else match ch_buf ch with
           | Some _ => Blocked
           | None => Next (set_chan c k (mkChan (Some p) true))
           end
  | None => Blocked
  end.
Definition packet_id (p : Packet) : Z := be_get (take 4 (Payload p)).

(** [readLoop], one packet. *)
Definition readLoop_packet (c : Client) (p : Packet) : effect :=
  if negb (reading c) then Blocked
  else if blen (Payload p) <? 4 then Next c
  else
    let id := packet_id p in
    match pending c ≫= (.!! id) with
    | None => Next c
    | Some k => deliver_to (set_pending c (delete id <$> pending c)) k p
    end.

(** [close] of every pending channel. *)
Definition close_chan (r : effect) (k : nat) : effect :=
  match r with
  | Next c =>
      match chans c !! k with
      | Some ch => if ch_closed ch then Crash else Next (set_chan c k (mkChan (ch_buf ch) true))
      | None => Crash
      end
  | _ => r
  end.

(** [readLoop] at a read error. *)
Definition readLoop_fails (c : Client) (e : wire_err) : effect :=
  if negb (reading c) then Blocked
  else
    let c := {| counter := counter c; pending := pending c; readErr := Some e; readDone := readDone c;
                reading := false; calls := calls c; chans := chans c; written := written c |} in
    let waiting := match pending c with Some m => (map_to_list m).*2 | None => [] end in
    match fold_left close_chan waiting (Next c) with
    | Next c => Next (set_pending c None)
    | r => r
    end.

(** [Close]: the channel [readDone] is closed once. *)
Definition Close (c : Client) : Client :=
  {| counter := counter c; pending := pending c; readErr := readErr c; readDone := true;
     reading := reading c; calls := calls c; chans := chans c; written := written c |}.

Definition run_action (c : Client) (a : action) : effect :=
  match a with
  | ACall k t payload => do_begin c k t payload
  | AWrite k => do_write c k
  | AWriteFails k => do_write_fails c k
  | AReceive k => do_receive c k
  | ACancel k => do_return c k (inl (Some EContext))
  | AClosed k => if readDone c then do_return c k (inl (Some EClosedPipe)) else Blocked
  | ADeliver p => readLoop_packet c p
  | AReadFails e => readLoop_fails c e
  | AClose => Next (Close c)
  end.

(** Any interleaving of any number of calls with the read loop. *)
Inductive reachable : nat -> Client -> Prop :=
| reach_new : reachable 0 new_client
| reach_call n c k t payload c' :
    reachable n c -> do_begin c k t payload = Next c' -> reachable (S n) c'
| reach_step n c a c' :
    reachable n c -> (forall k t payload, a <> ACall k t payload) -> run_action c a = Next c' ->
    reachable n c'.

(** A schedule, executed. *)
Fixpoint run_actions (c : Client) (l : list action) : effect :=
  match l with
  | [] => Next c
  | a :: l' => match run_action c a with Next c' => run_actions c' l' | r => r end
  end.

(* ------------------------------------------------------------------ *)
(** ** The invariant *)

Definition returned (l : call) : bool := match c_pc l with PReturned _ => true | _ => false end.
Definition idle : chan := mkChan None false.

(** A reply to a call: it is long enough to have an id, and has that of the request. *)
Definition answers (p : Packet) (l : call) : Prop := packet_id p = c_id l /\ 4 <= blen (Payload p).

(** A call and its channel: what is in the channel, or has been returned, answers the
    call; a channel that is closed and empty was emptied by its call or closed by the
    end of the read loop; a call that has not returned is in the table, or its channel is
    closed. *)
Definition call_ok (c : Client) (k : nat) (l : call) : Prop :=
  exists ch, chans c !! k = Some ch /\
    (forall p, ch_buf ch = Some p -> ch_closed ch = true /\ answers p l) /\
    (forall p, c_pc l = PReturned (inr p) -> answers p l) /\
    c_pc l <> PReturned (inl None) /\
    (ch = mkChan None true -> returned l = true \/ readErr c <> None) /\
    1 <= c_id l <= counter c /\
    (returned l = false -> ch_closed ch = true \/ exists m, pending c = Some m /\ m !! c_id l = Some k).

Record mux_inv (n : nat) (c : Client) : Prop := {
  inv_counter : counter c = Z.of_nat n;
  inv_reading : pending c = None <-> reading c = false;
  inv_error : readErr c <> None <-> reading c = false;
  inv_pending : forall m id k, pending c = Some m -> m !! id = Some k ->
    chans c !! k = Some idle /\ exists l, calls c !! k = Some l /\ c_id l = id;
  inv_calls : forall k l, calls c !! k = Some l -> call_ok c k l;
  inv_distinct : forall k k' l l', calls c !! k = Some l -> calls c !! k' = Some l' ->
    c_id l = c_id l' -> k = k'
}.

Lemma call_ok_mono (c c' : Client) (k : nat) (l : call) :
  call_ok c k l -> chans c' !! k = chans c !! k -> readErr c' = readErr c -> counter c <= counter c' ->
  (forall m, pending c = Some m -> m !! c_id l = Some k ->
     exists m', pending c' = Some m' /\ m' !! c_id l = Some k) ->
  call_ok c' k l.
Proof.
  intros (ch & Hch & H1 & H2 & H3 & H4 & H5 & H6) Ech Ee Ec Hp. exists ch.
  rewrite Ech, Ee. split_and!; try done; try lia.
  intros Hr. destruct (H6 Hr) as [?|(m & Em & Hm)]; [by left|right]. eauto.
Qed.

(** A step that leaves the table, the channels and the errors alone and moves one call
    that has not returned. *)
Lemma mux_move n c k l l' :
  mux_inv n c -> calls c !! k = Some l -> c_id l' = c_id l ->
  (forall p, c_pc l' = PReturned (inr p) -> answers p l') -> c_pc l' <> PReturned (inl None) ->
  (returned l' = false -> returned l = false) -> (returned l = true -> returned l' = true) ->
  mux_inv n (set_call c k l').
Proof.
  intros [Hc Hr He Hp Hk Hd] Hl Hid Hret Hnil Hback Hfwd. split; simpl; try done.
  - intros m id k' Hm Hm'. destruct (Hp _ _ _ Hm Hm') as (? & l0 & Hl0 & ?). split; [done|].
    destruct (decide (k' = k)) as [->|]; [exists l'|exists l0].
    + rewrite lookup_insert_eq. split; [done|]. congruence.
    + by rewrite lookup_insert_ne.
  - intros k' l0 Hl0. destruct (decide (k' = k)) as [->|].
    + rewrite lookup_insert_eq in Hl0. simplify_eq.
      destruct (Hk _ _ Hl) as (ch & Hch & H1 & H2 & H3 & H4 & H5 & H6).
      exists ch. simpl. rewrite Hid. split_and!; try done; try lia.
      * intros q Hq. destruct (H1 q Hq) as [? [? ?]]. split; [done|]. split; congruence.
      * intros Hx. destruct (H4 Hx); auto.
      * intros Hx. apply H6, Hback, Hx.
    + rewrite lookup_insert_ne in Hl0 by done. exact (Hk _ _ Hl0).
  - intros k1 k2 l1 l2. rewrite !lookup_insert. repeat case_decide; intros; simplify_eq/=; try done.
    + symmetry. eapply Hd; eauto; congruence.
    + eapply Hd; eauto; congruence.
    + eapply Hd; eauto.
Qed.

Lemma mux_begin n c k t payload c' :
  mux_inv n c -> Z.of_nat n + 1 < 2 ^ 32 -> do_begin c k t payload = Next c' -> mux_inv (S n) c'.
Proof.
  intros [Hc Hr He Hp Hk Hd] Hn H. unfold do_begin in H.
  assert (Hid : next_request_id (counter c) = Z.of_nat (S n)).
  { unfold next_request_id. rewrite wrap_u_small by (unfold in_u; lia). case Z.eqb_spec; lia. }
  rewrite Hid in H. destruct (calls c !! k) eqn:Hfree; [done|]. destruct (pending c) as [m|] eqn:Hm; [|done].
  injection H as <-.
  assert (Hne : forall id k', m !! id = Some k' -> k' <> k /\ id <> Z.of_nat (S n)).
  { intros id k' Hm'. destruct (Hp _ _ _ eq_refl Hm') as (_ & l & Hl & <-).
    destruct (Hk _ _ Hl) as (_ & _ & _ & _ & _ & _ & ? & _). split; [congruence|lia]. }
  split; simpl; try done.
  - split; [done|]. intros Hx. apply Hr in Hx. done.
  - intros m' id k' [= <-]. rewrite lookup_insert. case_decide as Eid.
    + intros [= <-]. rewrite !lookup_insert_eq. eauto.
    + intros Hm'. destruct (Hne _ _ Hm') as [? _]. rewrite !lookup_insert_ne by done. eauto.
  - intros k' l. rewrite lookup_insert. case_decide as Ek.
    + intros [= <-]. subst k'. exists idle. simpl. rewrite lookup_insert_eq. split_and!; try done; try lia.
      intros _. right. eexists. split; [done|]. apply lookup_insert_eq.
    + intros Hl. apply (call_ok_mono c); simpl; [by apply Hk|by rewrite lookup_insert_ne|done|lia|].
      intros m0 Hm0 Hm'. rewrite Hm in Hm0. simplify_eq. eexists. split; [done|].
      destruct (Hne _ _ Hm'). by rewrite lookup_insert_ne.
  - intros k1 k2 l1 l2. rewrite !lookup_insert.
    assert (Hle : forall k l, calls c !! k = Some l -> c_id l <= Z.of_nat n).
    { intros k0 l0 Hl0. destruct (Hk _ _ Hl0) as (_ & _ & _ & _ & _ & _ & ? & _). lia. }
    repeat case_decide; intros H1 H2 E; simplify_eq/=; try done.
    + apply Hle in H2. lia.
    + apply Hle in H1. lia.
    + eauto.
Qed.

Lemma mux_fail n c k l :
  mux_inv n c -> calls c !! k = Some l -> returned l = false ->
  mux_inv n (set_call (set_pending c (delete (c_id l) <$> pending c)) k
               (at_pc l (PReturned (inl (Some EWriteErr))))).
Proof.
  intros Hi Hl Hr. apply mux_move with (k := k) (l := l) (l' := at_pc l (PReturned (inl (Some EWriteErr)))) in Hi as H;
    try done.
  destruct H as [Hc Hrd He Hp Hk Hd]. simpl in *. split; simpl; try done.
  - by rewrite fmap_None.
  - intros m id k'. destruct (pending c) as [m0|] eqn:Hm0; [|done]. simpl. intros [= <-].
    rewrite lookup_delete_Some. intros [_ ?]. eauto.
  - intros k' l'. rewrite lookup_insert. case_decide as Ek.
    + intros [= <-]. subst k'. destruct (Hk k (at_pc l (PReturned (inl (Some EWriteErr)))))
        as (ch & ? & ? & ? & ? & ? & ? & _); [by rewrite lookup_insert_eq|].
      exists ch. split_and!; try done; eauto; simpl in *; lia.
    + intros Hl'. apply (call_ok_mono c); simpl; try done; [by apply Hi|].
      intros m Hm Hm'. rewrite Hm. eexists. split; [done|].
      rewrite lookup_delete_ne; [done|]. intros E. apply Ek. symmetry. eapply inv_distinct; eauto.
Qed.

Lemma mux_receive n c k c' : mux_inv n c -> do_receive c k = Next c' -> mux_inv n c'.
Proof.
  intros Hi H. unfold do_receive, do_return in H.
  destruct (chans c !! k) as [[[p|] cl]|] eqn:Hch; [| |done].
  - simpl in H. destruct (calls c !! k) as [l|] eqn:Hl; [|done].
    destruct (c_pc l) eqn:Hpc; try done. injection H as <-.
    destruct (inv_calls _ _ Hi _ _ Hl) as (ch & Hch' & H1 & _). rewrite Hch in Hch'. simplify_eq/=.
    destruct (H1 p eq_refl) as [-> Hid]. change (answers p (at_pc l (PReturned (inr p)))) in Hid.
    apply mux_move with (k := k) (l := l) (l' := at_pc l (PReturned (inr p))) in Hi as H; try done;
      [|by intros ? [= <-]]. destruct H as [Hc Hr He Hp Hk Hd]. split; try done; simpl in *.
    + intros m id k' Hm Hm'. destruct (Hp _ _ _ Hm Hm') as [Hx Hy]. split; [|done].
      rewrite lookup_insert_ne; [done|]. intros <-. rewrite Hch in Hx. done.
    + intros k' l'. rewrite lookup_insert. case_decide as Ek.
      * intros [= <-]. subst k'. destruct (Hk k (at_pc l (PReturned (inr p))))
          as (ch & Hx & ? & ? & ? & ? & ? & ?); [by rewrite lookup_insert_eq|].
        exists (mkChan None true). simpl in *. rewrite lookup_insert_eq. split_and!; try done; auto; lia.
      * intros Hl'. apply (call_ok_mono c); simpl; try done; eauto using inv_calls.
        by rewrite lookup_insert_ne.
  - destruct cl; [|done]. destruct (calls c !! k) as [l|] eqn:Hl; [|done].
    destruct (c_pc l) eqn:Hpc; try done. injection H as <-. eapply mux_move; try done.
    destruct (inv_calls _ _ Hi _ _ Hl) as (ch & Hch' & _ & _ & _ & H4 & _). rewrite Hch in Hch'. simplify_eq.
    destruct (H4 eq_refl) as [Hx|Hx]; [unfold returned in Hx; by rewrite Hpc in Hx|].
    destruct (readErr c); [done|]. done.
Qed.

Lemma mux_return n c k r c' :
  mux_inv n c -> do_return c k (inl (Some r)) = Next c' -> mux_inv n c'.
Proof.
  intros Hi H. unfold do_return in H. destruct (calls c !! k) as [l|] eqn:Hl; [|done].
  destruct (c_pc l) eqn:Hpc; try done. injection H as <-. by eapply mux_move.
Qed.

(** A packet is handed to the call that is registered under its id. *)
Lemma readLoop_cases n c p :
  mux_inv n c -> reading c = true ->
  readLoop_packet c p = Next c \/
  exists m k, pending c = Some m /\ m !! packet_id p = Some k /\ 4 <= blen (Payload p) /\
    readLoop_packet c p =
    Next (set_chan (set_pending c (Some (delete (packet_id p) m))) k (mkChan (Some p) true)).
Proof.
  intros Hi Hr. unfold readLoop_packet. rewrite Hr. simpl. case Z.ltb_spec; [by left|]. intros Hl.
  destruct (pending c) as [m|] eqn:Hm; [|by left]. simpl.
  destruct (m !! packet_id p) as [k|] eqn:Hk; [|by left]. right. exists m, k. split_and!; try done.
  destruct (inv_pending _ _ Hi _ _ _ Hm Hk) as [Hch _]. unfold deliver_to. simpl. by rewrite Hch.
Qed.

Lemma mux_deliver n c p c' : mux_inv n c -> readLoop_packet c p = Next c' -> mux_inv n c'.
Proof.
  intros Hi H. destruct (reading c) eqn:Hr; [|unfold readLoop_packet in H; by rewrite Hr in H].
  destruct (readLoop_cases _ _ p Hi Hr) as [E|(m & k & Hm & Hk & Hlen & E)]; rewrite E in H; injection H as <-; [done|].
  destruct (inv_pending _ _ Hi _ _ _ Hm Hk) as (Hch & l & Hl & Hid).
  destruct Hi as [Hc Hrd He Hp Hcalls Hd]. split; simpl; try done.
  - by rewrite <- Hrd, Hm.
  - intros m' id k' [= <-]. rewrite lookup_delete_Some. intros [Hne Hk'].
    destruct (Hp _ _ _ Hm Hk') as (Hch' & l' & Hl' & Hid'). split; [|eauto].
    rewrite lookup_insert_ne; [done|]. intros <-. congruence.
  - intros k' l' Hl'. destruct (decide (k' = k)) as [->|Hne].
    + simplify_eq. destruct (Hcalls _ _ Hl) as (ch & ? & ? & ? & ? & ? & ? & ?).
      exists (mkChan (Some p) true). simpl. rewrite lookup_insert_eq. split_and!; try done; try lia; auto.
      intros q [= <-]. by repeat split.
    + apply (call_ok_mono c); simpl; try done; [by apply Hcalls|by rewrite lookup_insert_ne|].
      intros m' Hm' Hk'. rewrite Hm in Hm'. simplify_eq. eexists. split; [done|].
      rewrite lookup_delete_ne; [done|]. intros E'. apply Hne. symmetry. eapply (Hd k k'); eauto; congruence.
Qed.

Definition same_but_chans (c c' : Client) : Prop :=
  counter c' = counter c /\ pending c' = pending c /\ readErr c' = readErr c /\
  readDone c' = readDone c /\ reading c' = reading c /\ calls c' = calls c.

Lemma close_all ks : forall c,
  NoDup ks -> Forall (fun k => chans c !! k = Some idle) ks ->
  exists c', fold_left close_chan ks (Next c) = Next c' /\ same_but_chans c c' /\
    forall k, chans c' !! k = if bool_decide (k ∈ ks) then Some (mkChan None true) else chans c !! k.
Proof.
  induction ks as [|k ks IH]; intros c Hnd Hall.
  { by exists c. }
  apply NoDup_cons in Hnd as [Hk Hnd]. apply Forall_cons in Hall as [Hc Hall]. simpl. rewrite Hc. simpl.
  destruct (IH (set_chan c k (mkChan None true)) Hnd) as (c' & E & (S1 & S2 & S3 & S4 & S5 & S6) & Hch).
  { apply Forall_forall. intros k' Hin. simpl. rewrite lookup_insert_ne by (intros ->; done).
    by apply (proj1 (Forall_forall _ _) Hall). }
  exists c'. split_and!; try done.
  intros k'. rewrite Hch. simpl. rewrite lookup_insert.
  repeat case_bool_decide; try case_decide; subst; try done; set_solver.
Qed.

Lemma readLoop_fails_closes n c e :
  mux_inv n c -> reading c = true ->
  exists c' m, readLoop_fails c e = Next c' /\ pending c = Some m /\ pending c' = None /\ readErr c' = Some e /\
    reading c' = false /\ counter c' = counter c /\ calls c' = calls c /\
    forall k, chans c' !! k =
      if bool_decide (k ∈ (map_to_list m).*2) then Some (mkChan None true) else chans c !! k.
Proof.
  intros Hi Hr. unfold readLoop_fails. rewrite Hr. simpl.
  destruct (pending c) as [m|] eqn:Hm; [|apply (inv_reading _ _ Hi) in Hm; congruence].
  set (c0 := {| counter := counter c |}).
  destruct (close_all (map_to_list m).*2 c0) as (c' & E & (S1 & S2 & S3 & S4 & S5 & S6) & Hch).
  - apply NoDup_fmap_2_strong; [|apply NoDup_map_to_list].
    intros [i k] [j k'] Hx Hy. simpl. intros <-. apply elem_of_map_to_list in Hx, Hy.
    destruct (inv_pending _ _ Hi _ _ _ Hm Hx) as (_ & l & Hl & <-).
    destruct (inv_pending _ _ Hi _ _ _ Hm Hy) as (_ & l' & Hl' & <-). congruence.
  - apply Forall_forall. intros k ([j k1] & -> & Hx)%list_elem_of_fmap. simpl.
    apply elem_of_map_to_list in Hx. by destruct (inv_pending _ _ Hi _ _ _ Hm Hx).
  - rewrite E. exists (set_pending c' None), m. split_and!; try done.
Qed.

Lemma mux_fails n c e c' : mux_inv n c -> readLoop_fails c e = Next c' -> mux_inv n c'.
Proof.
  intros Hi H. destruct (reading c) eqn:Hr; [|unfold readLoop_fails in H; by rewrite Hr in H].
  destruct (readLoop_fails_closes _ _ e Hi Hr) as (c0 & m & E & Hm & Hp' & He' & Hr' & Hc' & Hk' & Hch).
  rewrite H in E. injection E as <-. destruct Hi as [Hc Hrd He Hp Hcalls Hd].
  split; rewrite ?Hc', ?Hk', ?Hp', ?He', ?Hr'; try done.
  intros k l Hl. destruct (Hcalls _ _ Hl) as (ch & Hx & H1 & H2 & H3 & H4 & H5 & H6).
  destruct (decide (k ∈ (map_to_list m).*2)) as [Hin|Hout].
  - exists (mkChan None true). rewrite Hch, bool_decide_eq_true_2 by done. rewrite He', Hc'.
    simpl. split_and!; try done; try lia; auto.
  - exists ch. rewrite Hch, bool_decide_eq_false_2 by done. rewrite He', Hc'. split_and!; try done; try lia.
    + intros Hy. right. done.
    + intros Hret. destruct (H6 Hret) as [?|(m' & Hm' & Hk)]; [by left|]. rewrite Hm in Hm'. simplify_eq.
      exfalso. apply Hout. apply list_elem_of_fmap. exists (c_id l, k). split; [done|].
      by apply elem_of_map_to_list.
Qed.

Lemma reachable_inv n c : reachable n c -> Z.of_nat n < 2 ^ 32 -> mux_inv n c.
Proof.
  induction 1 as [|n c k t payload c' _ IH H|n c a c' _ IH Ha H]; intros Hn.
  - split; simpl; try done. intros m id k [= <-]. by rewrite lookup_empty.
  - eapply mux_begin; [apply IH; lia|lia|exact H].
  - specialize (IH Hn). destruct a as [k t payload|k|k|k|k|k|p|e|]; simpl in H.
    + by destruct (Ha k t payload).
    + unfold do_write in H. destruct (calls c !! k) as [l|] eqn:Hl; [|done].
      destruct (c_pc l) eqn:Hpc; try done; injection H as <-;
        (eapply (mux_move _ (write c _)); [by destruct IH; split|exact Hl|..]); try done;
        unfold returned; by rewrite Hpc.
    + unfold do_write_fails in H. destruct (calls c !! k) as [l|] eqn:Hl; [|done].
      destruct (c_pc l) eqn:Hpc; try done; injection H as <-; apply mux_fail; try done;
        unfold returned; by rewrite Hpc.
    + by eapply mux_receive.
    + by eapply mux_return.
    + destruct (readDone c); [|done]. by eapply mux_return.
    + by eapply mux_deliver.
    + by eapply mux_fails.
    + injection H as <-. by destruct IH; split.
Qed.

(* ------------------------------------------------------------------ *)
(** ** Replies, panics and progress *)

(** C25. Concurrent requests get their own replies: in every interleaving of fewer than
    2^32 calls, a call that returned a packet returned one that carries the id of its
    request, no two calls have the same id, and no call returns an empty packet without an
    error. *)
Theorem replies_matched (n : nat) (c : Client) :
  reachable n c -> Z.of_nat n < 2 ^ 32 ->
  (forall k l p, calls c !! k = Some l -> c_pc l = PReturned (inr p) -> answers p l) /\
  (forall k k' l l', calls c !! k = Some l -> calls c !! k' = Some l' -> c_id l = c_id l' -> k = k') /\
  (forall k l, calls c !! k = Some l -> c_pc l <> PReturned (inl None)).
Proof.
  intros Hr Hn. pose proof (reachable_inv _ _ Hr Hn) as [_ _ _ _ Hk Hd]. split_and!; [|exact Hd|].
  - intros k l p Hl Hp. destruct (Hk _ _ Hl) as (ch & _ & _ & H & _). auto.
  - intros k l Hl. by destruct (Hk _ _ Hl) as (ch & _ & _ & _ & H & _).
Qed.

(** The connection panics in one case only: a new call after the read loop ended,
    which assigns to the nil map that the read loop left.  Closing and filling the
    channels of waiting calls never panics. *)
Theorem mux_panics_iff (n : nat) (c : Client) (a : action) :
  reachable n c -> Z.of_nat n < 2 ^ 32 ->
  run_action c a = Crash <->
  reading c = false /\ exists k t payload, a = ACall k t payload /\ calls c !! k = None.
Proof.
  intros Hr Hn. pose proof (reachable_inv _ _ Hr Hn) as Hi. split.
  - intros H. destruct a as [k t payload|k|k|k|k|k|p|e|]; simpl in H.
    + unfold do_begin in H. inv_code H. split; [by apply (inv_reading _ _ Hi)|eauto].
    + unfold do_write in H. inv_code H.
    + unfold do_write_fails in H. inv_code H.
    + unfold do_receive, do_return in H. inv_code H.
    + unfold do_return in H. inv_code H.
    + unfold do_return in H. inv_code H.
    + destruct (reading c) eqn:E; [|unfold readLoop_packet in H; by rewrite E in H].
      destruct (readLoop_cases _ _ p Hi E) as [E'|(? & ? & _ & _ & _ & E')]; by rewrite E' in H.
    + destruct (reading c) eqn:E; [|unfold readLoop_fails in H; by rewrite E in H].
      destruct (readLoop_fails_closes _ _ e Hi E) as (? & ? & E' & _). by rewrite E' in H.
    + done.
  - intros (Hrd & k & t & payload & -> & Hk). simpl. unfold do_begin. rewrite Hk.
    apply (inv_reading _ _ Hi) in Hrd. by rewrite Hrd.
Qed.

Lemma receive_full c k l p cl :
  calls c !! k = Some l -> c_pc l = PWait -> chans c !! k = Some (mkChan (Some p) cl) ->
  exists c', do_receive c k = Next c' /\ calls c' !! k = Some (at_pc l (PReturned (inr p))).
Proof.
  intros Hl Hpc Hch. unfold do_receive, do_return. rewrite Hch. simpl. rewrite Hl, Hpc.
  eexists. split; [done|]. simpl. apply lookup_insert_eq.
Qed.

Lemma receive_closed c k l e :
  calls c !! k = Some l -> c_pc l = PWait -> chans c !! k = Some (mkChan None true) -> readErr c = Some e ->
  exists c', do_receive c k = Next c' /\ calls c' !! k = Some (at_pc l (PReturned (inl (Some (EWireErr e))))).
Proof.
  intros Hl Hpc Hch He. unfold do_receive, do_return. rewrite Hch, Hl, Hpc, He.
  eexists. split; [done|]. simpl. apply lookup_insert_eq.
Qed.

(** C26. No reply is lost and no caller is left waiting: a call that waits can return what
    is in its channel (its reply, or the error of the connection), or else the read loop
    is running and the next packet with its id makes the call return that packet, and
    the end of the connection makes it return its error.  After [Close] it can return in
    any case. *)
Theorem waiting_call_returns (n : nat) (c : Client) (k : nat) (l : call) :
  reachable n c -> Z.of_nat n < 2 ^ 32 -> calls c !! k = Some l -> c_pc l = PWait ->
  ((exists c', do_receive c k = Next c' /\ exists r, calls c' !! k = Some (at_pc l (PReturned r))) \/
   (forall p, packet_id p = c_id l -> 4 <= blen (Payload p) -> exists c1 c2,
      readLoop_packet c p = Next c1 /\ do_receive c1 k = Next c2 /\
      calls c2 !! k = Some (at_pc l (PReturned (inr p)))) /\
   (forall e, exists c1 c2, readLoop_fails c e = Next c1 /\ do_receive c1 k = Next c2 /\
      calls c2 !! k = Some (at_pc l (PReturned (inl (Some (EWireErr e)))))) ) /\
  exists c', run_action (Close c) (AClosed k) = Next c'.
Proof.
  intros Hr Hn Hl Hpc. pose proof (reachable_inv _ _ Hr Hn) as Hi.
  destruct (inv_calls _ _ Hi _ _ Hl) as (ch & Hch & Hbuf & _ & _ & Hemp & _ & Hwait).
  assert (Hret : returned l = false) by (unfold returned; by rewrite Hpc).
  split; [|simpl; unfold do_return; simpl; rewrite Hl, Hpc; eauto].
  destruct ch as [[q|] cl].
  { left. destruct (receive_full c k l q cl) as (c' & E & Ec); eauto. }
  destruct cl.
  { left. destruct (Hemp eq_refl) as [?|He]; [congruence|].
    destruct (readErr c) as [e|] eqn:Ee; [|done]. destruct (receive_closed c k l e) as (c' & E & Ec); eauto. }
  right. destruct (Hwait Hret) as [?|(m & Hm & Hk)]; [done|].
  assert (Hrd : reading c = true).
  { destruct (reading c) eqn:E; [done|]. apply (inv_reading _ _ Hi) in E. congruence. }
  split.
  - intros p Hid Hlen. destruct (readLoop_cases _ _ p Hi Hrd) as [E|(m' & k' & Hm' & Hk' & _ & E)].
    { exfalso. unfold readLoop_packet in E. rewrite Hrd in E. simpl in E.
      replace (blen (Payload p) <? 4) with false in E by (symmetry; apply Z.ltb_ge; lia).
      rewrite Hm in E. simpl in E. rewrite Hid, Hk in E. simpl in E. unfold deliver_to in E. simpl in E.
      rewrite Hch in E. simpl in E. injection E as E. apply (f_equal chans) in E. simpl in E.
      rewrite <- E, lookup_insert_eq in Hch. done. }
    rewrite Hm in Hm'. simplify_eq. rewrite Hid, Hk in Hk'. simplify_eq.
    destruct (receive_full (set_chan (set_pending c (Some (delete (packet_id p) m'))) k' (mkChan (Some p) true))
                k' l p true) as (c2 & E2 & Ec2); simpl; try done; [apply lookup_insert_eq|]. eauto.
  - intros e. destruct (readLoop_fails_closes _ _ e Hi Hrd) as (c1 & m' & E & Hm' & _ & He & _ & _ & Hcs & Hchs).
    rewrite Hm in Hm'. simplify_eq. destruct (receive_closed c1 k l e) as (c2 & E2 & Ec2); try done.
    + by rewrite Hcs.
    + rewrite Hchs, bool_decide_eq_true_2; [done|]. apply list_elem_of_fmap.
      exists (c_id l, k). split; [done|]. by apply elem_of_map_to_list.
    + eauto.
Qed.

Lemma packet_writes (l : call) : packet_length l ++ packet_body l = WritePacket (c_type l) (c_full l).
Proof. done. Qed.

(** Two calls whose writes interleave. *)
Definition two_stats : list action :=
  [ACall 0 TypeStat (AppendString [] (str "/a")); ACall 1 TypeStat (AppendString [] (str "/b"));
   AWrite 0; AWrite 1; AWrite 0; AWrite 1].
(** The first packet the server reads is one of those the calls sent. *)
Definition first_packet_sent (c : Client) : bool :=
  match ReadPacket (mjoin (written c)) with
  | Ok (p, _) => existsb (fun '(_, l) => (PType p =? c_type l) && seqb (Payload p) (c_full l)) (map_to_list (calls c))
  | _ => false
  end.

Lemma next_exists (r : effect) (P : Client -> bool) (b : bool) :
  (match r with Next c => bool_decide (P c = b) | _ => false end) = true ->
  exists c, r = Next c /\ P c = b.
Proof. destruct r as [c| |]; [|done..]. intros H. exists c. split; [done|]. by apply bool_decide_eq_true in H. Qed.

(** Two calls at once can spoil the stream: [WritePacket] writes the length and the body
    separately and nothing keeps the writes of a call together, so what the server reads
    first, after both requests were written, is a packet that nobody sent; written one
    call after the other, they arrive. *)
Theorem concurrent_writes_interleave :
  (exists c, run_actions new_client two_stats = Next c /\ first_packet_sent c = false) /\
  (exists c, run_actions new_client (take 2 two_stats ++ [AWrite 0; AWrite 0; AWrite 1; AWrite 1]) = Next c /\
             first_packet_sent c = true).
Proof. split; apply next_exists; vm_compute; reflexivity. Qed.

(** ** A schedule for the theorems *)

Definition is_call (a : action) : bool := match a with ACall _ _ _ => true | _ => false end.
Lemma reachable_run l : forall n c c',
  reachable n c -> run_actions c l = Next c' -> reachable (n + length (filterb is_call l)) c'.
Proof.
  induction l as [|a l IH]; simpl; intros n c c' Hr H; [by simplify_eq; rewrite Nat.add_0_r|].
  destruct (run_action c a) as [c1| |] eqn:E; [|done..]. destruct (is_call a) eqn:Ha; simpl.
  - destruct a; try done. rewrite Nat.add_succ_r. apply (IH (S n) c1); [|done]. by eapply reach_call.
  - apply (IH n c1); [|done]. eapply reach_step; [done| |done]. by intros ? ? ? ->.
Qed.

(** One call that waits, and another that has its reply. *)
Definition stat_reply : Packet := {| PType := TypeAttrs; Payload := be_put 4 2 ++ be_put 4 0 |}.
Definition sample_schedule : list action :=
  [ACall 0 TypeStat (AppendString [] (str "/a")); ACall 1 TypeStat (AppendString [] (str "/b"));
   AWrite 0; AWrite 0; AWrite 1; AWrite 1; ADeliver stat_reply; AReceive 1].
Definition sample : Client := match run_actions new_client sample_schedule with Next c => c | _ => new_client end.
Definition sample_call (k : nat) : call := default (mkCall 0 0 [] PLength) (calls sample !! k).
Lemma sample_reachable : reachable 2 sample.
Proof.
  apply (reachable_run sample_schedule 0 new_client); [constructor|]. vm_compute. reflexivity.
Qed.

Lemma replies_matched_witness :
  c_pc (sample_call 1) = PReturned (inr stat_reply) /\ answers stat_reply (sample_call 1).
Proof.
  split; [vm_compute; reflexivity|].
  refine (proj1 (replies_matched 2 sample sample_reachable _) 1%nat (sample_call 1) stat_reply _ _);
    vm_compute; reflexivity.
Defined.

Lemma mux_panics_iff_witness : run_action sample (AReadFails (EIO EOF)) <> Crash.
Proof.
  intros H. apply (mux_panics_iff 2 sample (AReadFails (EIO EOF)) sample_reachable) in H; [|reflexivity].
  destruct H as [_ (k & t & payload & H & _)]. discriminate H.
Defined.

Lemma waiting_call_returns_witness :
  c_pc (sample_call 0) = PWait /\ exists c', run_action (Close sample) (AClosed 0) = Next c'.
Proof.
  split; [vm_compute; reflexivity|].
  refine (proj2 (waiting_call_returns 2 sample 0%nat (sample_call 0) sample_reachable _ _ _)); vm_compute; reflexivity.
Defined.
