(* ===== verification/SftpClient.v ===== *)
(** * sftp/client/client.go: the operations of the SFTP client

    Each operation over an interface [Requests] for [do] (one request, its reply, the
    connection's new state), the negotiation of [New], and the file object.  [ReadDir]
    loops as long as the server sends names; [None] is out of fuel.  Then the client
    against the server of SftpServer.v: the two ends joined by the bytes of the
    channel behave as the backend itself. *)

From S2P Require Import Prelude GoStrings SftpWire SftpServer SftpMux.

(** The errors of the client's operations. *)
Inductive client_err :=
| EConn (e : conn_err)
| EStatus (code : Z) (msg : bytes)
| EUnexpected (op : bytes) (t : Z)
| EDecode (e : wire_err)
| EEOF.

(** One request and its reply on a connection of state [S]. *)
Class Requests (S : Type) := { request : Z -> bytes -> S -> (conn_err + Packet) * S }.

Definition OpenRead : Z := 1.
Definition OpenWrite : Z := 2.
Definition OpenAppend : Z := 4.
Definition OpenCreate : Z := 8.
Definition OpenTrunc : Z := 16.
Definition OpenExcl : Z := 32.

Record DirEntry := mkDirEntry { DName : bytes; DAttr : FileAttr }.
Record File := mkFile { f_handle : bytes; f_off : Z }.

Section Client.
Context {K : Type} `{!Requests K}.

(** A program over the connection. *)
Definition C (A : Type) : Type := K -> res client_err A * K.
Definition ret {A} (r : res client_err A) : C A := fun s => (r, s).
Definition bind {A B} (m : C A) (k : A -> C B) : C B :=
  fun s => match m s with
           | (Ok a, s) => k a s
           | (Err e, s) => (Err e, s)
           | (Panic, s) => (Panic, s)
           end.
Notation "'let*' x ':=' m 'in' k" := (bind m (fun x => k))
  (at level 10, x pattern, m at level 100, k at level 200).

(** [c.do(ctx, t, payload)] *)
Definition do_ (t : Z) (payload : bytes) : C Packet :=
  fun s => match request t payload s with
           | (inl e, s) => (Err (EConn e), s)
           | (inr p, s) => (Ok p, s)
           end.

(** [_, code, msg, _ := sftp.DecodeStatus(...)]: the error is ignored, and leaves the
    zero values. *)
Definition decode_status (p : Packet) : res client_err (Z * bytes) :=
  match DecodeStatus (Payload p) with
  | Ok (_, code, msg) => Ok (code, msg)
  | Err _ => Ok (0, [])
  | Panic => Panic
  end.
(** The [StatusError] of a reply. *)
Definition status_error {A} (p : Packet) : C A :=
  let* (code, msg) := ret (decode_status p) in ret (Err (EStatus code msg)).
(** The reply to an operation without a result. *)
Definition check_status (p : Packet) : C unit :=
  let* (code, msg) := ret (decode_status p) in
  if negb (code =? code_num StatusOK) then ret (Err (EStatus code msg)) else ret (Ok tt).

Definition read_handle (p : Packet) : C bytes :=
  let* (handle, _) := ret (res_wrap EDecode (ReadString_ (Payload p) 4)) in ret (Ok handle).

Definition open_ (path : bytes) (pFlags : Z) : C bytes :=
  let payload := AppendUint32 (AppendString [] path) pFlags in
  let* pkt := do_ TypeOpen payload in
  if PType pkt =? TypeStatus then status_error pkt
  else if negb (PType pkt =? TypeHandle) then ret (Err (EUnexpected (str "OPEN") (PType pkt)))
  else read_handle pkt.

Definition openFile (path : bytes) (pFlags : Z) : C File :=
  let* handle := open_ path pFlags in ret (Ok (mkFile handle 0)).
Definition Open (path : bytes) : C File := openFile path OpenRead.
Definition Create (path : bytes) : C File := openFile path (Z.lor (Z.lor OpenWrite OpenCreate) OpenTrunc).
Definition Append (path : bytes) : C File := openFile path (Z.lor OpenWrite OpenAppend).

Definition CloseHandle (handle : bytes) : C unit :=
  let* pkt := do_ TypeClose (AppendString [] handle) in check_status pkt.

(** [Read] into a buffer of [n] bytes: the bytes copied to its front. *)
Definition Read (handle : bytes) (offset : Z) (n : Z) : C bytes :=
  let payload := AppendUint32 (AppendUint64 (AppendString [] handle) offset) (u32 n) in
  let* pkt := do_ TypeRead payload in
  if PType pkt =? TypeStatus then
    let* (code, msg) := ret (decode_status pkt) in
    if code =? code_num StatusEOF then ret (Err EEOF) else ret (Err (EStatus code msg))
  else if negb (PType pkt =? TypeData) then ret (Err (EUnexpected (str "READ") (PType pkt)))
  else
    let* (data, _) := ret (res_wrap EDecode (ReadString_ (Payload pkt) 4)) in
    ret (Ok (take (Z.to_nat n) data)).

Definition Write (handle : bytes) (offset : Z) (data : bytes) : C Z :=
  let payload := AppendUint64 (AppendString [] handle) offset in
  let payload := payload ++ AppendUint32 [] (u32 (blen data)) ++ data in
  let* pkt := do_ TypeWrite payload in
  let* _ := check_status pkt in ret (Ok (blen data)).

Definition stat_ (path : bytes) (t : Z) : C FileAttr :=
  let* pkt := do_ t (AppendString [] path) in
  if PType pkt =? TypeStatus then status_error pkt
  else
    let* (a, _) := ret (res_wrap EDecode (DecodeAttrs (Payload pkt) 4)) in ret (Ok a).
Definition Stat (path : bytes) : C FileAttr := stat_ path TypeStat.
Definition Lstat (path : bytes) : C FileAttr := stat_ path TypeLstat.

(** The entries of one NAME reply, from [off] on; each takes twelve bytes at least, so
    the length of the payload is fuel enough ([Panic] stands for running out of it, which
    does not happen). *)
Fixpoint parse_names (fuel : nat) (payload : bytes) (off : Z) (entries : list DirEntry)
    : res client_err (list DirEntry) :=
  match fuel with
  | O => Panic
  | S fuel' =>
      if negb (off <? blen payload) then Ok entries
      else
        let! (name, off) := res_wrap EDecode (ReadString_ payload off) in
        let! (_, off) := res_wrap EDecode (ReadString_ payload off) in
        let! (a, off) := res_wrap EDecode (DecodeAttrs payload off) in
        if seqb name (str ".") || seqb name (str "..") then parse_names fuel' payload off entries
        else parse_names fuel' payload off (entries ++ [mkDirEntry name a])
  end.

Fixpoint readdir_loop (fuel : nat) (handle : bytes) (entries : list DirEntry) (s : K)
    : option (res client_err (list DirEntry) * K) :=
  match fuel with
  | O => None
  | S fuel' =>
      match do_ TypeReaddir (AppendString [] handle) s with
      | (Ok pkt, s) =>
          if PType pkt =? TypeStatus then
            match decode_status pkt with
            | Ok (code, _) =>
                if code =? code_num StatusEOF then Some (Ok entries, s) else Some (Err (EStatus code []), s)
            | Err e => Some (Err e, s)
            | Panic => Some (Panic, s)
            end
          else
            match parse_names (S (length (Payload pkt))) (Payload pkt) 4 entries with
            | Ok entries => readdir_loop fuel' handle entries s
            | Err e => Some (Err e, s)
            | Panic => Some (Panic, s)
            end
      | (Err e, s) => Some (Err e, s)
      | (Panic, s) => Some (Panic, s)
      end
  end.

(** The deferred [CloseHandle], whose result is dropped. *)
Definition ReadDir (fuel : nat) (dir : bytes) (s : K) : option (res client_err (list DirEntry) * K) :=
  match (let* pkt := do_ TypeOpendir (AppendString [] dir) in
         if PType pkt =? TypeStatus then status_error pkt
         else if negb (PType pkt =? TypeHandle) then ret (Err (EUnexpected (str "OPENDIR") (PType pkt)))
         else read_handle pkt) s with
  | (Ok handle, s) =>
      match readdir_loop fuel handle [] s with
      | Some (r, s) => Some (r, (CloseHandle handle s).2)
      | None => None
      end
  | (Err e, s) => Some (Err e, s)
  | (Panic, s) => Some (Panic, s)
  end.

Definition Mkdir (path : bytes) (attrs : FileAttr) : C unit :=
  let* pkt := do_ TypeMkdir (AppendString [] path ++ Encode attrs) in check_status pkt.
Definition simpleStatus (t : Z) (path : bytes) : C unit :=
  let* pkt := do_ t (AppendString [] path) in check_status pkt.
Definition Remove (path : bytes) : C unit := simpleStatus TypeRemove path.
Definition Rmdir (path : bytes) : C unit := simpleStatus TypeRmdir path.
Definition Rename (from to : bytes) : C unit :=
  let* pkt := do_ TypeRename (AppendString (AppendString [] from) to) in check_status pkt.

(** The methods of [File]; the count of a failed call is zero. *)
Definition File_Read (f : File) (n : Z) (s : K) : res client_err bytes * File * K :=
  let '(r, s) := Read (f_handle f) (f_off f) n s in
  let k := match r with Ok data => blen data | _ => 0 end in
  (r, mkFile (f_handle f) (u64 (f_off f + k)), s).
Definition File_Write (f : File) (p : bytes) (s : K) : res client_err Z * File * K :=
  let '(r, s) := Write (f_handle f) (f_off f) p s in
  let k := match r with Ok n => n | _ => 0 end in
  (r, mkFile (f_handle f) (u64 (f_off f + k)), s).
Definition File_Close (f : File) : C unit :=
  fun s => match CloseHandle (f_handle f) s with
           | (Err (EConn EClosedPipe), s) => (Ok tt, s)
           | r => r
           end.
End Client.

(** [New]: the version exchange; [input] is what the server sends. *)
Inductive new_err := ENewWire (e : wire_err) | EExpectedVersion (t : Z) | EServerVersion (v : Z).
Definition New (input : bytes) : bytes * (res new_err bytes) :=
  (WritePacket TypeInit (AppendUint32 [] Version),
   let! (pkt, rest) := res_wrap ENewWire (ReadPacket input) in
   guard! PType pkt =? TypeVersion else EExpectedVersion (PType pkt);
   let! v := res_wrap ENewWire (ReadInit pkt) in
   guard! v =? Version else EServerVersion v;
   Ok rest).

(* ------------------------------------------------------------------ *)
(** ** Operations as data *)

Inductive op :=
| OpOpen (path : bytes) (flags : Z)
| OpClose (h : bytes)
| OpRead (h : bytes) (off n : Z)
| OpWrite (h : bytes) (off : Z) (data : bytes)
| OpStat (path : bytes)
| OpLstat (path : bytes)
| OpReadDir (path : bytes)
| OpMkdir (path : bytes) (a : FileAttr)
| OpRemove (path : bytes)
| OpRmdir (path : bytes)
| OpRename (from to : bytes).

Inductive value :=
| VUnit
| VHandle (h : bytes)
| VData (d : bytes)
| VCount (n : Z)
| VAttr (a : FileAttr)
| VEntries (es : list DirEntry).

Definition res_map {E A B} (f : A -> B) (r : res E A) : res E B :=
  match r with Ok a => Ok (f a) | Err e => Err e | Panic => Panic end.

Definition run_client {K} `{!Requests K} (fuel : nat) (o : op) (s : K) : option (res client_err value * K) :=
  let one {A} (f : A -> value) (r : res client_err A * K) := Some (res_map f r.1, r.2) in
  match o with
  | OpOpen path flags => one VHandle (open_ path flags s)
  | OpClose h => one (fun _ => VUnit) (CloseHandle h s)
  | OpRead h off n => one VData (Read h off n s)
  | OpWrite h off data => one VCount (Write h off data s)
  | OpStat path => one VAttr (Stat path s)
  | OpLstat path => one VAttr (Lstat path s)
  | OpReadDir path => match ReadDir fuel path s with Some r => one VEntries r | None => None end
  | OpMkdir path a => one (fun _ => VUnit) (Mkdir path a s)
  | OpRemove path => one (fun _ => VUnit) (Remove path s)
  | OpRmdir path => one (fun _ => VUnit) (Rmdir path s)
  | OpRename from to => one (fun _ => VUnit) (Rename from to s)
  end.

(* ------------------------------------------------------------------ *)
(** ** No reply can panic the client *)

(** A decoder that does not panic and moves on by [n] bytes at least. *)
Definition moves {E A} (off n : Z) (m : res E (A * Z)) : Prop :=
  match m with Ok (_, next) => off + n <= next | Err _ => True | Panic => False end.

Lemma moves_ReadString buf off : 0 <= off -> moves off 4 (ReadString_ buf off).
Proof.
  intros H. unfold ReadString_. rewrite !Z.gtb_ltb. pose proof (be_get_range (sub_bytes buf off (off + 4))).
  bool_cases; simpl; try done; lia.
Qed.
Lemma moves_uint32 buf off : 0 <= off -> moves off 4 (ReadUint32 buf off).
Proof. intros H. unfold ReadUint32. rewrite Z.gtb_ltb. bool_cases; simpl; try done; lia. Qed.
Lemma moves_uint64 buf off : 0 <= off -> moves off 8 (ReadUint64 buf off).
Proof. intros H. unfold ReadUint64. rewrite Z.gtb_ltb. bool_cases; simpl; try done; lia. Qed.
Lemma moves_opt {A} (c : bool) (d : A) read off n :
  0 <= n -> (c = true -> moves off n (read off)) -> moves off 0 (opt_field c d read off).
Proof.
  intros Hn H. destruct c; simpl; [|lia]. specialize (H eq_refl). destruct (read off) as [[? next]| |]; simpl in *; lia || done.
Qed.
Lemma moves_bind {E A B} off n (m : res E (A * Z)) (k : A * Z -> res E (B * Z)) :
  moves off n m -> (forall a next, off + n <= next -> moves off n (k (a, next))) -> moves off n (res_bind m k).
Proof. destruct m as [[a next]| |]; simpl; auto. Qed.
Lemma moves_weaken {E A} off off' n n' (m : res E (A * Z)) : moves off n m -> off' + n' <= off + n -> moves off' n' m.
Proof. destruct m as [[a next]| |]; simpl; auto; lia. Qed.

Lemma moves_attrs buf off : 0 <= off -> moves off 4 (DecodeAttrs buf off).
Proof.
  intros H. unfold DecodeAttrs. apply moves_bind; [by apply moves_uint32|]. intros flags n0 H0.
  assert (Hopt : forall A (c : bool) (d : A) read next (k : A * Z -> res wire_err (FileAttr * Z)),
    off + 4 <= next -> moves next 0 (opt_field c d read next) ->
    (forall a n, off + 4 <= n -> moves off 4 (k (a, n))) -> moves off 4 (res_bind (opt_field c d read next) k)).
  { intros A c d read next k Hn Hm Hk. apply moves_bind; [|done]. eapply moves_weaken; [done|lia]. }
  repeat (apply Hopt; [lia| |intros ? ? ?]); try (cbn; lia);
    (eapply moves_opt; [|intros _; (apply moves_uint64 || apply moves_uint32); lia]; lia).
Qed.

Lemma moves_no_panic {E A} off n (m : res E (A * Z)) : moves off n m -> m <> Panic.
Proof. by destruct m. Qed.

Lemma decode_status_ok p : exists code msg, decode_status p = Ok (code, msg).
Proof.
  unfold decode_status, DecodeStatus. case Z.ltb_spec; [eauto|]. intros _.
  pose proof (moves_ReadString (Payload p) 8 ltac:(lia)) as H.
  destruct (ReadString_ (Payload p) 8) as [[m n]| |]; simpl in *; eauto. done.
Qed.

Lemma parse_names_no_panic fuel payload : forall off entries,
  0 <= off -> blen payload - off < Z.of_nat fuel -> (0 < fuel)%nat -> parse_names fuel payload off entries <> Panic.
Proof.
  induction fuel as [|fuel IH]; intros off entries Ho Hf Hp; simpl; [lia|].
  case Z.ltb_spec; [|done]. intros Hlt. simpl.
  pose proof (moves_ReadString payload off Ho) as H1.
  destruct (ReadString_ payload off) as [[name n1]| |]; simpl in *; [|done..].
  pose proof (moves_ReadString payload n1 ltac:(lia)) as H2.
  destruct (ReadString_ payload n1) as [[u n2]| |]; simpl in *; [|done..].
  pose proof (moves_attrs payload n2 ltac:(lia)) as H3.
  destruct (DecodeAttrs payload n2) as [[a n3]| |]; simpl in *; [|done..].
  destruct (_ || _); apply IH; lia.
Qed.

Section NoPanic.
Context {K : Type} `{!Requests K}.

Definition calm {A} (m : C A) : Prop := forall s : K, (m s).1 <> Panic.

Lemma calm_bind {A B} (m : C A) (k : A -> C B) : calm m -> (forall a, calm (k a)) -> calm (bind m k).
Proof.
  intros Hm Hk s. unfold bind. specialize (Hm s). destruct (m s) as [[a|e|] s']; simpl in *; [apply Hk|done..].
Qed.
Lemma calm_ret {A} (r : res client_err A) : r <> Panic -> calm (ret r).
Proof. by intros H s. Qed.
Lemma calm_do t payload : calm (do_ t payload).
Proof. intros s. unfold do_. by destruct (request t payload s) as [[]]. Qed.
Lemma calm_wire {A B} off n (m : res wire_err (A * Z)) (k : A * Z -> C B) :
  moves off n m -> (forall a, calm (k a)) -> calm (bind (ret (res_wrap EDecode m)) k).
Proof. intros Hm Hk. apply calm_bind; [|done]. apply calm_ret. by destruct m as [[]| |]. Qed.
Lemma calm_decode {A} p (k : Z * bytes -> C A) : (forall x, calm (k x)) -> calm (bind (ret (decode_status p)) k).
Proof.
  intros H. apply calm_bind; [|done]. apply calm_ret. by destruct (decode_status_ok p) as (? & ? & ->).
Qed.

Ltac calm_step :=
  lazymatch goal with
  | |- calm (if ?b then _ else _) => destruct b
  | |- calm (bind (do_ _ _) _) => apply calm_bind; [apply calm_do|intros ?]
  | |- calm (bind (ret (decode_status _)) _) => apply calm_decode; intros [? ?]
  | |- calm (bind (ret (res_wrap EDecode (ReadString_ _ 4))) _) =>
      eapply calm_wire; [apply (moves_ReadString _ 4); lia|intros [? ?]]
  | |- calm (bind (ret (res_wrap EDecode (DecodeAttrs _ 4))) _) =>
      eapply calm_wire; [apply (moves_attrs _ 4); lia|intros [? ?]]
  | |- calm (bind (check_status _) _) => apply calm_bind; [unfold check_status|intros ?]
  | |- calm (ret _) => apply calm_ret; done
  end.
Ltac calm_op := repeat calm_step.

Lemma calm_status_error {A} p : calm (@status_error K A p).
Proof. unfold status_error. calm_op. Qed.
Lemma calm_check p : calm (check_status p).
Proof. unfold check_status. calm_op. Qed.
Lemma calm_handle p : calm (read_handle p).
Proof. unfold read_handle. calm_op. Qed.
Lemma calm_simple t payload : calm (bind (do_ t payload) check_status).
Proof. apply calm_bind; [apply calm_do|intros; apply calm_check]. Qed.
Lemma calm_open path flags : calm (open_ path flags).
Proof. unfold open_. calm_op; [apply calm_status_error|apply calm_handle]. Qed.
Lemma calm_read h off n : calm (Read h off n).
Proof. unfold Read. calm_op. Qed.
Lemma calm_write h off data : calm (Write h off data).
Proof. unfold Write. calm_op. Qed.
Lemma calm_stat path t : calm (stat_ path t).
Proof. unfold stat_. calm_op. apply calm_status_error. Qed.

Lemma calm_readdir_loop fuel h : forall entries s r s',
  readdir_loop fuel h entries s = Some (r, s') -> r <> Panic.
Proof.
  induction fuel as [|fuel IH]; intros entries s r s' H; [done|]. cbn [readdir_loop] in H.
  pose proof (calm_do TypeReaddir (AppendString [] h) s) as Hd.
  destruct (do_ TypeReaddir (AppendString [] h) s) as [[pkt|e|] s1]; [|by simplify_eq..].
  destruct (PType pkt =? TypeStatus).
  - destruct (decode_status_ok pkt) as (code & msg & E). rewrite E in H. by case_match; simplify_eq.
  - pose proof (parse_names_no_panic (S (length (Payload pkt))) (Payload pkt) 4 entries) as Hn.
    destruct (parse_names _ _ _ _) as [entries'|e|]; [exact (IH _ _ _ _ H)|by simplify_eq|].
    exfalso. apply Hn; [lia|unfold blen; lia|lia|done].
Qed.

Lemma calm_readdir fuel path s r s' : ReadDir fuel path s = Some (r, s') -> r <> Panic.
Proof.
  unfold ReadDir. set (m := bind _ _). assert (Hm : calm m).
  { unfold m. calm_op; [apply calm_status_error|apply calm_handle]. }
  specialize (Hm s). destruct (m s) as [[h|e|] s1]; intros H; simplify_eq/=; [|done..].
  destruct (readdir_loop fuel h [] s1) as [[r0 s2]|] eqn:E; simplify_eq. by eapply calm_readdir_loop.
Qed.

(** Whatever a server replies, no operation of the client panics: every reply is
    decoded with its bounds checked, and the parsing of names ends. *)
Theorem client_no_panic (fuel : nat) (o : op) (s : K) (r : res client_err value) (s' : K) :
  run_client fuel o s = Some (r, s') -> r <> Panic.
Proof.
  assert (Hone : forall A (f : A -> value) (m : C A) s1, calm m -> Some (res_map f (m s1).1, (m s1).2) = Some (r, s') -> r <> Panic).
  { intros A f m s1 Hm [= <- _]. specialize (Hm s1). by destruct (m s1).1. }
  destruct o; simpl; try (apply Hone; first [apply calm_open|apply calm_read|apply calm_write|apply calm_stat|apply calm_simple]).
  destruct (ReadDir fuel path s) as [[r0 s1]|] eqn:E; [|done]. apply calm_readdir in E.
  intros [= <- _]. by destruct r0.
Qed.
End NoPanic.

(** ** Replies that are taken for success *)

(** The error of [DecodeStatus] is dropped and its zero code is OK: a reply that is too
    short for a status code, whatever its type, makes the operations without a result
    succeed. *)
Theorem short_reply_is_success {K} `{!Requests K} (p : Packet) (s : K) :
  blen (Payload p) < 8 -> check_status p s = (Ok tt, s).
Proof.
  intros H. unfold check_status, bind, ret, decode_status, DecodeStatus.
  by replace (blen (Payload p) <? 8) with true by (symmetry; apply Z.ltb_lt; lia).
Qed.

(** A server that answers everything with the same packet. *)
Definition constant_reply (p : Packet) : Requests unit := {| request := fun _ _ s => (inr p, s) |}.

Lemma short_reply_is_success_witness :
  let i := constant_reply {| PType := TypeData; Payload := be_put 4 1 |} in
  Write (str "h") 0 (str "lost") tt = (Ok 4, tt) /\
  check_status {| PType := TypeData; Payload := be_put 4 1 |} tt = (Ok tt, tt).
Proof.
  intros i. split; [vm_compute; reflexivity|]. apply (short_reply_is_success _ tt). vm_compute. reflexivity.
Defined.

Lemma client_no_panic_witness :
  let i := constant_reply {| PType := TypeStatus; Payload := be_put 4 1 |} in
  run_client 1 (OpRead (str "h") 0 10) tt = Some (Err (EStatus 0 []), tt) /\
  Err (EStatus 0 []) <> @Panic client_err value.
Proof.
  intros i. split; [vm_compute; reflexivity|].
  apply (client_no_panic 1 (OpRead (str "h") 0 10) tt (Err (EStatus 0 [])) tt). vm_compute. reflexivity.
Defined.
