(* ===== verification/SftpLink.v ===== *)
(** * The SFTP client against the SFTP server

    The client of SftpClient.v and the server of SftpServer.v joined by the bytes of
    the channel, one request at a time: what the client's operations give is what the
    backend gives, up to the limit of the packet size. *)

From S2P Require Import Prelude GoStrings SftpWire SftpServer SftpMux SftpClient.

Section Link.
Context {B : Type} `{!Backend B}.
Implicit Types (s : Session B).

(** The server's session, whose replies the client has read, the counter of request
    ids, and whether the server is still reading. *)
Record link := mkLink { l_srv : Session B; l_counter : Z; l_alive : bool }.

Definition read_replies s : Session B :=
  {| handles := handles s; drained := drained s; nextID := nextID s; backend := backend s; sent := [] |}.

(** The reply to request [id] on its way to the client; a caller whose reply never
    comes waits for the end of its context. *)
Definition link_reply (id : Z) (alive : bool) s : (conn_err + Packet) * link :=
  let l := mkLink (read_replies s) id alive in
  match sent s with
  | [reply] =>
      match ReadPacket (WritePacket (PType reply) (Payload reply)) with
      | Ok (p, _) => if packet_id p =? id then (inr p, l) else (inl EContext, l)
      | Err e => (inl (EWireErr e), l)
      | Panic => (inl EContext, l)
      end
  | _ => (inl EContext, l)
  end.

Definition link_request (t : Z) (payload : bytes) (l : link) : (conn_err + Packet) * link :=
  let id := next_request_id (l_counter l) in
  let lost := (inl (EWireErr (EIO EOF)), mkLink (l_srv l) id false) in
  if negb (l_alive l) then lost
  else match ReadPacket (WritePacket t (AppendUint32 [] id ++ payload)) with
       | Ok (pkt, _) =>
           match dispatch (l_srv l) pkt with
           | Continue s' => link_reply id true s'
           | Return s' => link_reply id false s'
           | SftpServer.Crash => lost
           end
       | _ => lost
       end.
#[global] Instance link_requests : Requests link := {| request := link_request |}.

Definition connect (b : B) : link := mkLink (new_session b) 0 true.

(* ------------------------------------------------------------------ *)
(** ** The backend itself *)

Definition failed {A} (e : berr) : res client_err A := Err (EStatus (code_num (mapErr e)) (text e)).
Definition invalid_handle {A} : res client_err A := Err (EStatus (code_num StatusFailure) (str "invalid handle")).

Definition direct_unit (r : option berr * B) (v : value) s : res client_err value * Session B :=
  (match r.1 with Some e => failed e | None => Ok v end, with_backend s r.2).
Definition direct_stat (r : (berr + FileStat) * B) s : res client_err value * Session B :=
  (match r.1 with inl e => failed e | inr st => Ok (VAttr (stat_attr st)) end, with_backend s r.2).

(** What is listed of a directory. *)
Definition listed (es : list FileStat) : list DirEntry :=
  map (fun e => mkDirEntry (Name e) (stat_attr e))
    (filterb (fun e => negb (seqb (Name e) (str ".") || seqb (Name e) (str ".."))) es).

(** The operations on the backend, with the server's table of handles. *)
Definition direct (o : op) s : res client_err value * Session B :=
  match o with
  | OpOpen path flags =>
      let '(r, b) := b_open path flags (backend s) in
      match r with
      | inl e => (failed e, with_backend s b)
      | inr real => let '(h, s') := newHandle (with_backend s b) real in (Ok (VHandle h), s')
      end
  | OpClose h =>
      match resolve s h with
      | None => (invalid_handle, s)
      | Some real => (Ok VUnit, drop_handle (with_backend s (b_close real (backend s)).2) h)
      end
  | OpRead h off n =>
      match resolve s h with
      | None => (invalid_handle, s)
      | Some real =>
          let '((data, err), b) := b_read real off n (backend s) in
          (match err with
           | Some {| kind := KEOF |} => Err EEOF
           | Some e => failed e
           | None => Ok (VData data)
           end, with_backend s b)
      end
  | OpWrite h off data =>
      match resolve s h with
      | None => (invalid_handle, s)
      | Some real => direct_unit (b_write real off data (backend s)) (VCount (blen data)) s
      end
  | OpStat path => direct_stat (b_stat path (backend s)) s
  | OpLstat path => direct_stat (b_lstat path (backend s)) s
  | OpReadDir path =>
      let '(r, b) := b_readdir path (backend s) in
      match r with
      | inl e => (failed e, with_backend s b)
      | inr _ =>
          let '(h, s1) := newHandle (with_backend s b) (str "dir:" ++ path) in
          let '(r, b) := b_readdir path (backend s1) in
          let '(v, s2) := match r with
                          | inl e => (Err (EStatus (code_num (mapErr e)) []), with_backend s1 b)
                          | inr es => (Ok (VEntries (listed es)), markDrained (with_backend s1 b) h)
                          end in
          (v, drop_handle (with_backend s2 (b_close (str "dir:" ++ path) (backend s2)).2) h)
      end
  | OpMkdir path _ => direct_unit (b_mkdir path (backend s)) VUnit s
  | OpRemove path => direct_unit (b_remove path (backend s)) VUnit s
  | OpRmdir path => direct_unit (b_rmdir path (backend s)) VUnit s
  | OpRename from to => direct_unit (b_rename from to (backend s)) VUnit s
  end.

(** ** Sizes *)

(** A request in the ranges of its Go types, within half the size of a packet. *)
Definition short (p : bytes) : Prop := blen p < 2 ^ 22.
Definition op_ok (o : op) : Prop :=
  match o with
  | OpOpen path flags => short path /\ in_u 32 flags
  | OpClose h => short h
  | OpRead h off n => short h /\ in_u 64 off /\ 0 <= n < 2 ^ 23
  | OpWrite h off data => short h /\ in_u 64 off /\ short data
  | OpStat path | OpLstat path | OpReadDir path | OpMkdir path _ | OpRemove path | OpRmdir path => short path
  | OpRename from to => short from /\ short to
  end.
(** The answers of the backend fit a packet: short error texts, attributes in the
    ranges of the wire, listings below the packet size. *)
Definition err_ok (e : berr) : Prop := short (text e).
Definition opt_ok (e : option berr) : Prop := match e with Some e => err_ok e | None => True end.
Definition stat_ok (r : berr + FileStat) : Prop :=
  match r with inl e => err_ok e | inr st => wf_attr (stat_attr st) end.
Definition list_ok (r : berr + list FileStat) : Prop :=
  match r with
  | inl e => err_ok e
  | inr es => Forall (fun e => wf_attr (stat_attr e)) es /\ blen (fold_left name_entry es (be_put 4 0)) < 2 ^ 24
  end.
Definition answers_ok (o : op) s : Prop :=
  let b := backend s in
  match o with
  | OpOpen path flags => match (b_open path flags b).1 with inl e => err_ok e | inr _ => True end
  | OpClose _ => True
  | OpRead h off n =>
      match resolve s h with
      | Some real => opt_ok (b_read real off n b).1.2 /\ blen (b_read real off n b).1.1 <= n
      | None => True
      end
  | OpWrite h off data => match resolve s h with Some real => opt_ok (b_write real off data b).1 | None => True end
  | OpStat path => stat_ok (b_stat path b).1
  | OpLstat path => stat_ok (b_lstat path b).1
  | OpReadDir path =>
      list_ok (b_readdir path b).1 /\ list_ok (b_readdir path (b_readdir path b).2).1
  | OpMkdir path _ => opt_ok (b_mkdir path b).1
  | OpRemove path => opt_ok (b_remove path b).1
  | OpRmdir path => opt_ok (b_rmdir path b).1
  | OpRename from to => opt_ok (b_rename from to b).1
  end.

(* ------------------------------------------------------------------ *)
(** ** One request and its reply *)

Lemma request_id_range c : in_u 32 (next_request_id c).
Proof.
  unfold next_request_id. pose proof (wrap_u_range 32 (c + 1) ltac:(lia)) as H.
  case Z.eqb_spec; [unfold in_u; lia|done].
Qed.

Lemma take_drop_id id body : in_u 32 id -> be_get (take 4 (be_put 4 id ++ body)) = id /\ drop 4 (be_put 4 id ++ body) = body.
Proof.
  intros Hid. rewrite take_app_length', drop_app_length' by (rewrite be_put_length; done).
  split; [by apply (be_get_put_u 4)|done].
Qed.

(** The server at the request [id] of type [t] with this payload. *)
Definition at_server s (t id : Z) (payload : bytes) : outcome B :=
  dispatch s {| PType := t; Payload := be_put 4 id ++ payload |}.

Lemma link_step s c t payload s' rt body :
  let id := next_request_id c in
  sent s = [] -> in_u 8 t -> blen payload < 2 ^ 24 - 4 ->
  at_server s t id payload = Continue (send s' rt (be_put 4 id ++ body)) -> sent s' = [] ->
  in_u 8 rt -> blen body < 2 ^ 24 - 4 ->
  link_request t payload (mkLink s c true) =
  (inr {| PType := rt; Payload := be_put 4 id ++ body |}, mkLink s' id true).
Proof.
  intros id Hs Ht Hp Hd Hs' Hrt Hb. unfold link_request. cbn [l_counter l_srv l_alive negb]. fold id.
  pose proof (request_id_range c) as Hid. fold id in Hid.
  rewrite <- (app_nil_r (WritePacket t _)), ReadPacket_WritePacket; [|done|].
  2: { unfold AppendUint32. rewrite app_nil_l, blen_app, blen_be_put. lia. }
  unfold AppendUint32. rewrite app_nil_l. unfold at_server in Hd. rewrite Hd. unfold link_reply. cbn [send sent]. rewrite Hs'. cbn [app PType Payload].
  rewrite <- (app_nil_r (WritePacket rt _)), ReadPacket_WritePacket; [|done|].
  2: { rewrite blen_app, blen_be_put. lia. }
  unfold packet_id. cbn [Payload]. rewrite (proj1 (take_drop_id id body Hid)), Z.eqb_refl.
  f_equal. f_equal. unfold read_replies. destruct s'. cbn in Hs'. by subst.
Qed.

(** ** The server's side of a request *)

(** Evaluates the request switch at a constant type. *)
Ltac eval_switch :=
  repeat match goal with
  | |- context [if ?a =? ?b then _ else _] =>
      let r := eval vm_compute in (a =? b) in
      lazymatch r with true => idtac | false => idtac end; change (a =? b) with r; cbv iota
  end.
Ltac at_request Hid :=
  unfold at_server, dispatch; cbn [PType Payload];
  rewrite !(proj1 (take_drop_id _ _ Hid)), !(proj2 (take_drop_id _ _ Hid));
  replace (blen (be_put 4 _ ++ _) <? 4) with false
    by (symmetry; apply Z.ltb_ge; rewrite blen_app, blen_be_put; unfold blen; lia);
  cbv iota; eval_switch.

Lemma string_field path post : short path ->
  ReadString_ (AppendString [] path ++ post) 0 = Ok (path, 4 + blen path).
Proof.
  intros H. unfold AppendString. rewrite app_nil_l, <- app_assoc.
  apply (ReadString_put [] path post). unfold short in H. lia.
Qed.
Lemma string_field_end path : short path -> ReadString_ (AppendString [] path) 0 = Ok (path, 4 + blen path).
Proof. intros H. rewrite <- (app_nil_r (AppendString [] path)). by apply string_field. Qed.
Lemma blen_string path : blen (AppendString [] path) = 4 + blen path.
Proof. unfold AppendString. rewrite app_nil_l, blen_app, blen_be_put. lia. Qed.

Section Requests.
Variables (s : Session B) (id : Z).
Hypothesis Hid : in_u 32 id.

Lemma srv_open path flags : short path -> in_u 32 flags ->
  at_server s TypeOpen id (AppendUint32 (AppendString [] path) flags) =
  let '(r, b) := b_open path flags (backend s) in
  match r with
  | inl e => Continue (sendStatus (with_backend s b) id (mapErr e) (text e))
  | inr real => reply_handle (with_backend s b) id real
  end.
Proof.
  intros Hp Hf. at_request Hid. unfold handle_open, AppendUint32. rewrite string_field by done. cbn [field].
  rewrite <- blen_string. rewrite <- (app_nil_r (be_put 4 flags)). by rewrite ReadUint32_put.
Qed.
Lemma srv_close h : short h ->
  at_server s TypeClose id (AppendString [] h) =
  with_real s id h (fun real =>
    let '(_, b) := b_close real (backend s) in
    Continue (sendStatus (drop_handle (with_backend s b) h) id StatusOK [])).
Proof. intros Hh. at_request Hid. unfold handle_close. by rewrite string_field_end. Qed.
Lemma srv_read h off n : short h -> in_u 64 off -> in_u 32 n ->
  at_server s TypeRead id (AppendUint32 (AppendUint64 (AppendString [] h) off) n) =
  with_real s id h (fun real =>
    let '((data, err), b) := b_read real off n (backend s) in
    let s := with_backend s b in
    match err with
    | Some {| kind := KEOF |} => Continue (sendStatus s id StatusEOF [])
    | Some e => Continue (sendStatus s id (mapErr e) (text e))
    | None =>
        if blen data >? n then SftpServer.Crash
        else Continue (send s TypeData (AppendUint32 (AppendUint32 [] id) (u32 (blen data)) ++ data))
    end).
Proof.
  intros Hh Ho Hn. at_request Hid. unfold handle_read, AppendUint32, AppendUint64.
  rewrite <- !app_assoc, string_field by done. cbn [field]. rewrite <- blen_string.
  rewrite ReadUint64_put by done. cbn [field].
  replace (blen (AppendString [] h) + 8) with (blen (AppendString [] h ++ be_put 8 off))
    by (rewrite blen_app, blen_be_put; lia).
  rewrite <- (app_nil_r (be_put 4 n)), app_assoc. by rewrite ReadUint32_put.
Qed.
Lemma srv_write h off data : short h -> in_u 64 off -> short data ->
  at_server s TypeWrite id (AppendUint64 (AppendString [] h) off ++ AppendUint32 [] (u32 (blen data)) ++ data) =
  with_real s id h (fun real => reply_unit s id (b_write real off data (backend s))).
Proof.
  intros Hh Ho Hd. at_request Hid. unfold handle_write, AppendUint32, AppendUint64.
  rewrite <- !app_assoc, string_field by done. cbn [field]. rewrite <- blen_string.
  rewrite ReadUint64_put by done. cbn [field].
  replace (blen (AppendString [] h) + 8) with (blen (AppendString [] h ++ be_put 8 off))
    by (rewrite blen_app, blen_be_put; lia).
  pose proof (ReadString_put (AppendString [] h ++ be_put 8 off) data []) as E.
  rewrite app_nil_r, <- app_assoc in E. rewrite app_nil_l, E; [done|]. unfold short in Hd. lia.
Qed.
Lemma srv_stat t f path : short path -> (t = TypeStat /\ f = b_stat) \/ (t = TypeLstat /\ f = b_lstat) ->
  at_server s t id (AppendString [] path) =
  let '(r, b) := f path (backend s) in
  match r with
  | inl e => Continue (sendStatus (with_backend s b) id (mapErr e) (text e))
  | inr st => Continue (sendAttrs (with_backend s b) id st)
  end.
Proof. intros Hp [[-> ->]|[-> ->]]; at_request Hid; unfold handle_stat; by rewrite string_field_end. Qed.
Lemma srv_opendir path : short path ->
  at_server s TypeOpendir id (AppendString [] path) =
  let '(r, b) := b_readdir path (backend s) in
  match r with
  | inl e => Continue (sendStatus (with_backend s b) id (mapErr e) (text e))
  | inr _ => reply_handle (with_backend s b) id (str "dir:" ++ path)
  end.
Proof. intros Hp. at_request Hid. unfold handle_opendir. by rewrite string_field_end. Qed.
Lemma srv_path t f path post :
  short path -> (t = TypeMkdir /\ f = b_mkdir) \/ (t = TypeRmdir /\ f = b_rmdir) \/ (t = TypeRemove /\ f = b_remove) ->
  at_server s t id (AppendString [] path ++ post) = reply_unit s id (f path (backend s)).
Proof. intros Hp [[-> ->]|[[-> ->]|[-> ->]]]; at_request Hid; unfold handle_path; by rewrite string_field. Qed.
Lemma srv_rename from to : short from -> short to ->
  at_server s TypeRename id (AppendString (AppendString [] from) to) =
  reply_unit s id (b_rename from to (backend s)).
Proof.
  intros Hf Ht. at_request Hid. unfold handle_rename.
  change (AppendString (AppendString [] from) to) with (AppendString [] from ++ be_put 4 (u32 (blen to)) ++ to).
  rewrite string_field by done.
  cbn [field]. rewrite <- blen_string. pose proof (ReadString_put (AppendString [] from) to []) as E.
  rewrite app_nil_r in E. rewrite E; [done|]. unfold short in Ht. lia.
Qed.
Lemma srv_readdir h : short h ->
  at_server s TypeReaddir id (AppendString [] h) =
  if isDrained s h then Continue (sendStatus s id StatusEOF [])
  else with_real s id h (fun real =>
    if blen real <? 4 then SftpServer.Crash
    else
      let '(r, b) := b_readdir (drop 4 real) (backend s) in
      let s := with_backend s b in
      match r with
      | inl e => Continue (sendStatus s id (mapErr e) (text e))
      | inr entries => Continue (markDrained (send s TypeName (fold_left name_entry entries (AppendUint32 [] id))) h)
      end).
Proof. intros Hh. at_request Hid. unfold handle_readdir. by rewrite string_field_end. Qed.
End Requests.

(* ------------------------------------------------------------------ *)
(** ** The client's side *)

Definition status_packet (id : Z) (code : StatusCode) (m : bytes) : Packet :=
  {| PType := TypeStatus; Payload := EncodeStatus id (code_num code) m [] |}.

Lemma code_range c : in_u 32 (code_num c).
Proof. destruct c; unfold in_u; simpl; lia. Qed.

Lemma decode_status_packet id code m : in_u 32 id -> short m ->
  decode_status (status_packet id code m) = Ok (code_num code, m).
Proof.
  intros Hid Hm. unfold decode_status, status_packet. cbn [Payload].
  rewrite DecodeStatus_EncodeStatus; [done|done|apply code_range|unfold short in Hm; lia].
Qed.

Definition status_body (code : StatusCode) (m : bytes) : bytes :=
  be_put 4 (code_num code) ++ be_put 4 (u32 (blen m)) ++ m ++ be_put 4 (u32 (blen (@nil byte))) ++ [].

Lemma do_status s c t payload s' code m :
  let id := next_request_id c in
  sent s = [] -> in_u 8 t -> blen payload < 2 ^ 24 - 4 ->
  at_server s t id payload = Continue (sendStatus s' id code m) -> sent s' = [] -> short m ->
  do_ t payload (mkLink s c true) = (Ok (status_packet id code m), mkLink s' id true).
Proof.
  intros id Hs Ht Hp Hd Hs' Hm. unfold do_. cbn [request link_requests].
  rewrite (link_step s c t payload s' TypeStatus (status_body code m)); try done.
  unfold status_body. rewrite !blen_app, !blen_be_put. unfold short in Hm. change (blen (@nil byte)) with 0. lia.
Qed.

Lemma do_reply s c t payload s' rt body :
  let id := next_request_id c in
  sent s = [] -> in_u 8 t -> blen payload < 2 ^ 24 - 4 ->
  at_server s t id payload = Continue (send s' rt (be_put 4 id ++ body)) -> sent s' = [] ->
  in_u 8 rt -> blen body < 2 ^ 24 - 4 ->
  do_ t payload (mkLink s c true) = (Ok {| PType := rt; Payload := be_put 4 id ++ body |}, mkLink s' id true).
Proof. intros id Hs Ht Hp Hd Hs' Hrt Hb. unfold do_. cbn [request link_requests]. by erewrite link_step. Qed.

Lemma mapErr_not_ok e : (code_num (mapErr e) =? code_num StatusOK) = false.
Proof. destruct e as [[] ?]; done. Qed.

Definition unit_result (e : option berr) : res client_err unit :=
  match e with Some e => failed e | None => Ok tt end.

Lemma unit_request s c t payload (r : option berr * B) :
  sent s = [] -> in_u 8 t -> blen payload < 2 ^ 24 - 4 ->
  at_server s t (next_request_id c) payload = reply_unit s (next_request_id c) r -> opt_ok r.1 ->
  bind (do_ t payload) check_status (mkLink s c true) =
  (unit_result r.1, mkLink (with_backend s r.2) (next_request_id c) true).
Proof.
  intros Hs Ht Hp Hd Hr. unfold bind, reply_unit in *.
  destruct r as [[e|] b]; cbn [fst snd] in *; erewrite do_status; try done;
    unfold check_status, bind, ret; rewrite decode_status_packet; try done; try apply request_id_range.
  by rewrite mapErr_not_ok.
Qed.

(** A request on a handle that the server does not know. *)
Lemma handle_request s c t payload h k :
  sent s = [] -> in_u 8 t -> blen payload < 2 ^ 24 - 4 ->
  at_server s t (next_request_id c) payload = with_real s (next_request_id c) h k ->
  resolve s h = None ->
  do_ t payload (mkLink s c true) =
  (Ok (status_packet (next_request_id c) StatusFailure (str "invalid handle")), mkLink s (next_request_id c) true).
Proof.
  intros Hs Ht Hp Hd Hr. apply do_status; try done. unfold with_real in Hd. by rewrite Hr in Hd.
Qed.

Lemma fmt_nat_length fuel n : (length (fmt_nat fuel n) <= fuel)%nat.
Proof.
  revert n. induction fuel as [|fuel IH]; intros n; simpl; [lia|].
  destruct (n <? 10); simpl; [lia|]. rewrite length_app. simpl. specialize (IH (n / 10)). lia.
Qed.
Lemma handle_name_short n : in_u 32 n -> blen (str "h" ++ fmt_uint n) < 64.
Proof.
  intros Hn. unfold blen, fmt_uint. rewrite length_app. pose proof (fmt_nat_length (S (Z.to_nat (Z.log2 n))) n).
  pose proof (Z.log2_nonneg n). assert (Z.log2 n <= 32).
  { change 32 with (Z.log2 (2 ^ 32)). apply Z.log2_le_mono. unfold in_u in Hn. lia. }
  change (length (str "h")) with 1%nat. lia.
Qed.

(** The handle of a reply, read back. *)
Lemma reply_handle_request s c t payload s1 real :
  let id := next_request_id c in
  sent s = [] -> in_u 8 t -> blen payload < 2 ^ 24 - 4 -> sent s1 = [] ->
  at_server s t id payload = reply_handle s1 id real ->
  exists pkt, do_ t payload (mkLink s c true) = (Ok pkt, mkLink (newHandle s1 real).2 id true) /\
    PType pkt = TypeHandle /\
    forall l : link, read_handle pkt l = (Ok (newHandle s1 real).1, l).
Proof.
  intros id Hs Ht Hp Hs1 Hd. unfold reply_handle in Hd.
  destruct (newHandle s1 real) as [h s2] eqn:En. cbn [fst snd].
  assert (Hh : blen h < 64 /\ sent s2 = []).
  { unfold newHandle in En. injection En as <- <-. split; [|done]. apply handle_name_short, wrap_u_range. lia. }
  exists {| PType := TypeHandle; Payload := be_put 4 id ++ be_put 4 (u32 (blen h)) ++ h |}. split; [|split].
  - apply (do_reply s c t payload s2 TypeHandle (be_put 4 (u32 (blen h)) ++ h)); try done; [apply Hh|].
    rewrite blen_app, blen_be_put. lia.
  - done.
  - intros l. unfold read_handle, bind, ret. cbn [Payload].
    pose proof (ReadString_put (be_put 4 id) h []) as E. rewrite app_nil_r, blen_be_put in E.
    change (Z.of_nat 4) with 4 in E. rewrite E by lia. done.
Qed.

(** The client's operation [m] on the link, as a value, gives what [d] says. *)
Definition agrees {A} (f : A -> value) (m : C A) s (c : Z) (d : res client_err value * Session B) : Prop :=
  exists r, m (mkLink s c true) = (r, mkLink d.2 (next_request_id c) true) /\ res_map f r = d.1.

Ltac evals := repeat match goal with
  | |- context [?a =? ?b] =>
      let r := eval vm_compute in (a =? b) in
      lazymatch r with true => idtac | false => idtac end; change (a =? b) with r
  end; cbn [negb]; cbv iota.
Lemma run_bind {A D} (m : @C link A) (k : A -> C D) l a l' : m l = (Ok a, l') -> bind m k l = k a l'.
Proof. unfold bind. by intros ->. Qed.
Lemma run_decode {D} p (k : Z * bytes -> @C link D) l code m :
  decode_status p = Ok (code, m) -> bind (ret (decode_status p)) k l = k (code, m) l.
Proof. unfold bind, ret. by intros ->. Qed.
Lemma run_wire {A D} (m : res wire_err A) (k : A -> @C link D) l a :
  m = Ok a -> bind (ret (res_wrap EDecode m)) k l = k a l.
Proof. unfold bind, ret. by intros ->. Qed.

Lemma status_error_run {A} id code m (l : link) : in_u 32 id -> short m ->
  @status_error link A (status_packet id code m) l = (Err (EStatus (code_num code) m), l).
Proof. intros Hid Hm. unfold status_error. by erewrite run_decode by (by apply decode_status_packet). Qed.
Lemma check_status_run id code m (l : link) : in_u 32 id -> short m ->
  check_status (status_packet id code m) l =
  (if code_num code =? 0 then Ok tt else Err (EStatus (code_num code) m), l).
Proof.
  intros Hid Hm. unfold check_status. erewrite run_decode by (by apply decode_status_packet).
  change (code_num StatusOK) with 0. by destruct (code_num code =? 0).
Qed.

Lemma open_agrees s c path flags :
  sent s = [] -> op_ok (OpOpen path flags) -> answers_ok (OpOpen path flags) s ->
  agrees VHandle (open_ path flags) s c (direct (OpOpen path flags) s).
Proof.
  intros Hs [Hp Hf] Ha. unfold agrees, open_, direct. simpl in Ha.
  pose proof (srv_open s (next_request_id c) (request_id_range c) path flags Hp Hf) as Hd.
  assert (Hlen : blen (AppendUint32 (AppendString [] path) flags) < 2 ^ 24 - 4).
  { unfold AppendUint32, short in *. rewrite blen_app, blen_be_put, blen_string. lia. }
  destruct (b_open path flags (backend s)) as [[e|real] b]; cbn [fst] in Ha.
  - exists (failed e). split; [|done]. erewrite run_bind by (by apply do_status).
    cbn [status_packet PType]. evals. apply status_error_run; [apply request_id_range|done].
  - destruct (reply_handle_request s c TypeOpen _ (with_backend s b) real Hs ltac:(done) Hlen Hs Hd)
      as (pkt & E & Ht & Hr).
    destruct (newHandle (with_backend s b) real) as [h s2]. exists (Ok h). split; [|done].
    erewrite run_bind by exact E. rewrite Ht. evals. apply Hr.
Qed.

Lemma close_agrees s c h :
  sent s = [] -> op_ok (OpClose h) -> agrees (fun _ => VUnit) (CloseHandle h) s c (direct (OpClose h) s).
Proof.
  intros Hs Hh. unfold agrees, CloseHandle, direct. simpl in Hh.
  pose proof (srv_close s (next_request_id c) (request_id_range c) h Hh) as Hd.
  assert (Hlen : blen (AppendString [] h) < 2 ^ 24 - 4) by (rewrite blen_string; unfold short in Hh; lia).
  unfold with_real in Hd. destruct (resolve s h) as [real|].
  - exists (Ok tt). split; [|done]. destruct (b_close real (backend s)) as [e b].
    erewrite run_bind by (by apply do_status). apply check_status_run; [apply request_id_range|done].
  - exists (Err (EStatus (code_num StatusFailure) (str "invalid handle"))). split; [|done].
    erewrite run_bind by (by apply do_status). apply check_status_run; [apply request_id_range|done].
Qed.

Lemma read_agrees s c h off n :
  sent s = [] -> op_ok (OpRead h off n) -> answers_ok (OpRead h off n) s ->
  agrees VData (Read h off n) s c (direct (OpRead h off n) s).
Proof.
  intros Hs (Hh & Ho & Hn) Ha. unfold agrees, Read, direct. simpl in Ha.
  assert (Hn' : in_u 32 n) by (unfold in_u; lia). rewrite (wrap_u_small 32 n Hn').
  pose proof (srv_read s (next_request_id c) (request_id_range c) h off n Hh Ho Hn') as Hd.
  assert (Hlen : blen (AppendUint32 (AppendUint64 (AppendString [] h) off) n) < 2 ^ 24 - 4).
  { unfold AppendUint32, AppendUint64, short in *. rewrite !blen_app, !blen_be_put, blen_string. lia. }
  unfold with_real in Hd. destruct (resolve s h) as [real|].
  2: { exists (Err (EStatus (code_num StatusFailure) (str "invalid handle"))). split; [|done].
       erewrite run_bind by (by apply do_status). cbn [status_packet PType]. evals.
       erewrite run_decode by (apply decode_status_packet; [apply request_id_range|done]). done. }
  destruct (b_read real off n (backend s)) as [[data err] b]. cbn [fst snd] in Ha. destruct Ha as [He Hb].
  destruct err as [e|].
  - assert (Hcase : kind e = KEOF \/ kind e <> KEOF) by (destruct (kind e); auto).
    destruct Hcase as [Hk|Hk].
    + exists (Err EEOF). destruct e as [k m]. cbn in Hk. subst k. split; [|done].
      erewrite run_bind by (by apply do_status). cbn [status_packet PType]. evals.
      by erewrite run_decode by (apply decode_status_packet; [apply request_id_range|done]).
    + exists (failed e). destruct e as [k m]. cbn in Hk. split; [|by destruct k].
      assert (Hd' : at_server s TypeRead (next_request_id c) (AppendUint32 (AppendUint64 (AppendString [] h) off) n) =
        Continue (sendStatus (with_backend s b) (next_request_id c) (mapErr {| kind := k; text := m |}) m)) by (by destruct k).
      erewrite run_bind by (by apply do_status). cbn [status_packet PType]. evals.
      erewrite run_decode by (apply decode_status_packet; [apply request_id_range|done]).
      by destruct k.
  - exists (Ok data). split; [|done]. rewrite Z.gtb_ltb in Hd.
    replace (n <? blen data) with false in Hd by (symmetry; apply Z.ltb_ge; lia).
    erewrite run_bind.
    2: { apply (do_reply s c TypeRead _ (with_backend s b) TypeData (be_put 4 (u32 (blen data)) ++ data)); try done.
         rewrite blen_app, blen_be_put. lia. }
    cbn [PType]. evals. cbn [Payload].
    pose proof (ReadString_put (be_put 4 (next_request_id c)) data []) as E. rewrite app_nil_r, blen_be_put in E.
    erewrite run_wire by (apply E; lia). unfold ret. rewrite take_ge; [done|]. unfold blen in Hb. lia.
Qed.

Lemma unit_agrees {A} (f : A -> value) (v : value) s c t payload (r : option berr * B) (m : @C link A) (k : unit -> A) :
  sent s = [] -> in_u 8 t -> blen payload < 2 ^ 24 - 4 ->
  at_server s t (next_request_id c) payload = reply_unit s (next_request_id c) r -> opt_ok r.1 ->
  (forall l, m l = bind (bind (do_ t payload) check_status) (fun u => ret (Ok (k u))) l) -> f (k tt) = v ->
  agrees f m s c (direct_unit r v s).
Proof.
  intros Hs Ht Hp Hd Hr Hm Hv. unfold agrees, direct_unit. rewrite Hm. unfold bind at 1.
  rewrite (unit_request s c t payload r); try done. destruct r as [[e|] b]; cbn [fst snd unit_result failed].
  - exists (failed e). done.
  - exists (Ok (k tt)). simpl. by rewrite Hv.
Qed.
Lemma plain_status (t : Z) (payload : bytes) (l : link) :
  bind (do_ t payload) check_status l =
  bind (bind (do_ t payload) check_status) (fun u => ret (Ok u)) l.
Proof.
  unfold bind at 2. by destruct (bind (do_ t payload) check_status l) as [[[]|e|] l'].
Qed.

Lemma write_agrees s c h off data :
  sent s = [] -> op_ok (OpWrite h off data) -> answers_ok (OpWrite h off data) s ->
  agrees VCount (Write h off data) s c (direct (OpWrite h off data) s).
Proof.
  intros Hs (Hh & Ho & Hdt) Ha. unfold direct. simpl in Ha.
  pose proof (srv_write s (next_request_id c) (request_id_range c) h off data Hh Ho Hdt) as Hd.
  assert (Hlen : blen (AppendUint64 (AppendString [] h) off ++ AppendUint32 [] (u32 (blen data)) ++ data) < 2 ^ 24 - 4).
  { unfold AppendUint32, AppendUint64, short in *. rewrite !blen_app, !blen_be_put, blen_string.
    change (blen (@nil byte)) with 0. lia. }
  unfold with_real in Hd. destruct (resolve s h) as [real|].
  - eapply (unit_agrees VCount _ s c TypeWrite _ _ _ (fun _ => blen data)); try done.
    intros l. unfold Write, bind. by destruct (do_ _ _ l) as [[p|e|] l1].
  - unfold agrees. exists (Err (EStatus (code_num StatusFailure) (str "invalid handle"))). split; [|done].
    unfold Write. erewrite run_bind by (by apply do_status). unfold bind.
    by rewrite check_status_run by (apply request_id_range || done).
Qed.

Lemma stat_agrees s c path t (f : bytes -> B -> (berr + FileStat) * B) :
  sent s = [] -> short path -> stat_ok (f path (backend s)).1 ->
  (t = TypeStat /\ f = b_stat) \/ (t = TypeLstat /\ f = b_lstat) ->
  agrees VAttr (stat_ path t) s c (direct_stat (f path (backend s)) s).
Proof.
  intros Hs Hp Ha Ht. unfold agrees, stat_, direct_stat.
  pose proof (srv_stat s (next_request_id c) (request_id_range c) t f path Hp Ht) as Hd.
  assert (Hlen : blen (AppendString [] path) < 2 ^ 24 - 4) by (rewrite blen_string; unfold short in Hp; lia).
  assert (Ht8 : in_u 8 t) by (destruct Ht as [[-> _]|[-> _]]; done).
  destruct (f path (backend s)) as [[e|st] b]; cbn [fst snd stat_ok] in *.
  - exists (failed e). split; [|done]. erewrite run_bind by (by apply do_status).
    cbn [status_packet PType]. evals. apply status_error_run; [apply request_id_range|done].
  - exists (Ok (stat_attr st)). split; [|done]. erewrite run_bind.
    2: { apply (do_reply s c t _ (with_backend s b) TypeAttrs (Encode (stat_attr st))); try done.
         pose proof (blen_Encode (stat_attr st)). lia. }
    cbn [PType]. evals. cbn [Payload].
    pose proof (DecodeAttrs_at (be_put 4 (next_request_id c)) [] (stat_attr st) Ha) as E.
    rewrite app_nil_r, blen_be_put in E. by erewrite run_wire by exact E.
Qed.

(** ** Directories *)

Definition entry_bytes (e : FileStat) : bytes := name_entry [] e.
Lemma name_entry_app payload e : name_entry payload e = payload ++ entry_bytes e.
Proof. unfold entry_bytes, name_entry, AppendString. rewrite app_nil_l. by rewrite <- !app_assoc. Qed.
Lemma fold_names es payload : fold_left name_entry es payload = payload ++ flat_map entry_bytes es.
Proof.
  revert payload. induction es as [|e es IH]; intros payload; simpl; [by rewrite app_nil_r|].
  by rewrite IH, name_entry_app, <- app_assoc.
Qed.
Lemma blen_entry e : 12 + blen (Name e) <= blen (entry_bytes e).
Proof.
  unfold entry_bytes, name_entry, AppendString. rewrite app_nil_l, !blen_app, !blen_be_put.
  pose proof (blen_Encode (stat_attr e)). change (blen (@nil byte)) with 0. lia.
Qed.

Lemma flat_map_length es : (length es <= length (flat_map entry_bytes es))%nat.
Proof.
  induction es as [|e es IH]; simpl; [done|]. rewrite length_app. pose proof (blen_entry e) as H.
  pose proof (blen_nonneg (Name e)). unfold blen in *. lia.
Qed.

Lemma parse_names_listed es : forall fuel pre acc,
  Forall (fun e => wf_attr (stat_attr e)) es -> blen (flat_map entry_bytes es) < 2 ^ 24 -> (length es < fuel)%nat ->
  parse_names fuel (pre ++ flat_map entry_bytes es) (blen pre) acc = Ok (acc ++ listed es).
Proof.
  induction es as [|e es IH]; intros fuel pre acc Hwf Hlen Hf; (destruct fuel as [|fuel]; [lia|]).
  { cbn [parse_names flat_map]. rewrite app_nil_r, Z.ltb_irrefl. simpl. by rewrite app_nil_r. }
  apply Forall_cons in Hwf as [Hw Hwf]. cbn [flat_map] in *. rewrite blen_app in Hlen.
  pose proof (blen_entry e) as Hb. pose proof (blen_nonneg (flat_map entry_bytes es)) as Hn.
  pose proof (blen_nonneg (Name e)).
  cbn [parse_names]. replace (blen pre <? blen _) with true
    by (symmetry; apply Z.ltb_lt; rewrite !blen_app; lia). cbn [negb].
  set (rest := flat_map entry_bytes es) in *.
  set (p1 := pre ++ be_put 4 (u32 (blen (Name e))) ++ Name e).
  set (p2 := p1 ++ be_put 4 (u32 (blen (@nil byte)))).
  assert (E1 : pre ++ entry_bytes e ++ rest = p2 ++ Encode (stat_attr e) ++ rest).
  { unfold p2, p1, entry_bytes, name_entry, AppendString. rewrite app_nil_l, <- !app_assoc. done. }
  assert (L1 : blen p1 = blen pre + 4 + blen (Name e)) by (unfold p1; rewrite !blen_app, blen_be_put; lia).
  assert (L2 : blen p2 = blen p1 + 4 + 0) by (unfold p2; rewrite blen_app, blen_be_put; lia).
  replace (ReadString_ (pre ++ entry_bytes e ++ rest) (blen pre)) with
    (ReadString_ (pre ++ be_put 4 (u32 (blen (Name e))) ++ Name e ++ (be_put 4 (u32 (blen (@nil byte))) ++ Encode (stat_attr e) ++ rest)) (blen pre)).
  2: { f_equal. rewrite E1. unfold p2, p1. by rewrite <- !app_assoc. }
  rewrite ReadString_put by lia. cbn [res_wrap res_bind]. rewrite <- L1.
  replace (ReadString_ (pre ++ entry_bytes e ++ rest) (blen p1)) with
    (ReadString_ (p1 ++ be_put 4 (u32 (blen (@nil byte))) ++ [] ++ (Encode (stat_attr e) ++ rest)) (blen p1)).
  2: { f_equal. rewrite E1. unfold p2. by rewrite <- !app_assoc. }
  rewrite (ReadString_put p1 []) by done. cbn [res_wrap res_bind].
  change (blen (@nil byte)) with 0. rewrite <- L2, E1, DecodeAttrs_at by done. cbn [res_wrap res_bind].
  rewrite <- blen_app, app_assoc.
  unfold listed. cbn [filterb]. destruct (seqb (Name e) (str ".") || seqb (Name e) (str "..")); cbn [negb].
  - apply IH; [done|lia|simpl in Hf; lia].
  - rewrite IH; [|done|lia|simpl in Hf; lia]. cbn [map]. by rewrite <- app_assoc.
Qed.

(** A session with a directory handle that has not been listed yet. *)
Definition dir_open s (h path : bytes) : Prop :=
  sent s = [] /\ short h /\ resolve s h = Some (str "dir:" ++ path) /\ isDrained s h = false.

Lemma newHandle_fresh s real path :
  handles_inv s -> nextID s < 2 ^ 32 - 1 -> sent s = [] -> real = str "dir:" ++ path ->
  dir_open (newHandle s real).2 (newHandle s real).1 path.
Proof.
  intros (H0 & Hh & Hd) Hlt Hs ->. unfold dir_open, newHandle, resolve, isDrained. cbn [fst snd sent handles drained].
  rewrite wrap_u_small by (unfold in_u; lia). split_and!; [done| |by rewrite lookup_insert_eq|].
  - pose proof (handle_name_short (nextID s + 1)) as H. unfold short. unfold in_u in H. lia.
  - apply bool_decide_eq_false_2. intros Hin. apply Hd in Hin as [r Hr]. apply Hh in Hr as (n & Hn & E).
    apply handle_name_inj in E; unfold max_u64; lia.
Qed.

Lemma readdir_status s c h s' code m fuel acc :
  sent s = [] -> short h -> short m -> sent s' = [] ->
  at_server s TypeReaddir (next_request_id c) (AppendString [] h) =
    Continue (sendStatus s' (next_request_id c) code m) ->
  readdir_loop (S fuel) h acc (mkLink s c true) =
  Some (if code_num code =? code_num StatusEOF then Ok acc else Err (EStatus (code_num code) []),
        mkLink s' (next_request_id c) true).
Proof.
  intros Hs Hh Hm Hs' Hd. cbn [readdir_loop].
  rewrite (do_status s c TypeReaddir (AppendString [] h) s' code m); try done.
  2: { rewrite blen_string. unfold short in Hh. lia. }
  cbn [status_packet PType]. evals. fold (status_packet (next_request_id c) code m).
  rewrite decode_status_packet by (apply request_id_range || done).
  by destruct (code_num code =? code_num StatusEOF).
Qed.

Lemma readdir_loop_agrees s c h path fuel :
  dir_open s h path -> list_ok (b_readdir path (backend s)).1 ->
  exists c', readdir_loop (S (S fuel)) h [] (mkLink s c true) =
    let '(r, b) := b_readdir path (backend s) in
    Some (match r with
          | inl e => (Err (EStatus (code_num (mapErr e)) []), mkLink (with_backend s b) c' true)
          | inr es => (Ok (listed es), mkLink (markDrained (with_backend s b) h) c' true)
          end).
Proof.
  intros (Hs & Hh & Hr & Hdr) Ha.
  pose proof (srv_readdir s (next_request_id c) (request_id_range c) h Hh) as Hd.
  rewrite Hdr in Hd. unfold with_real in Hd. rewrite Hr in Hd.
  replace (blen (str "dir:" ++ path) <? 4) with false in Hd
    by (symmetry; apply Z.ltb_ge; rewrite blen_app; pose proof (blen_nonneg path); change (blen (str "dir:")) with 4; lia).
  change (drop 4 (str "dir:" ++ path)) with path in Hd.
  destruct (b_readdir path (backend s)) as [[e|es] b]; cbn [fst list_ok] in Ha.
  - exists (next_request_id c). rewrite (readdir_status s c h (with_backend s b) (mapErr e) (text e)) by done.
    destruct e as [k m]. by destruct k.
  - destruct Ha as [Hwf Hlen]. exists (next_request_id (next_request_id c)).
    rewrite fold_names in Hlen, Hd. rewrite blen_app, blen_be_put in Hlen.
    remember (S fuel) as f1 eqn:Hf1. cbn [readdir_loop].
    rewrite (do_reply s c TypeReaddir (AppendString [] h) (markDrained (with_backend s b) h) TypeName
               (flat_map entry_bytes es)); try done.
    2: { rewrite blen_string. unfold short in Hh. lia. }
    2: { lia. }
    cbn [PType]. evals. cbn [Payload].
    pose proof (parse_names_listed es (S (length (be_put 4 (next_request_id c) ++ flat_map entry_bytes es)))
      (be_put 4 (next_request_id c)) [] Hwf ltac:(lia)) as Hp.
    rewrite blen_be_put in Hp. change (Z.of_nat 4) with 4 in Hp. rewrite Hp.
    2: { rewrite length_app, be_put_length. pose proof (flat_map_length es). lia. }
    rewrite app_nil_l.
    pose proof (srv_readdir (markDrained (with_backend s b) h) (next_request_id (next_request_id c))
      (request_id_range _) h Hh) as Hd2.
    replace (isDrained (markDrained (with_backend s b) h) h) with true in Hd2
      by (symmetry; apply bool_decide_eq_true_2; simpl; set_solver).
    subst f1. by rewrite (readdir_status _ _ h (markDrained (with_backend s b) h) StatusEOF []) by done.
Qed.

Lemma readdir_agrees s c path fuel :
  sent s = [] -> handles_inv s -> nextID s < 2 ^ 32 - 1 ->
  op_ok (OpReadDir path) -> answers_ok (OpReadDir path) s ->
  exists c' r, ReadDir (S (S fuel)) path (mkLink s c true) =
    Some (r, mkLink (direct (OpReadDir path) s).2 c' true) /\ res_map VEntries r = (direct (OpReadDir path) s).1.
Proof.
  intros Hs Hinv Hlt Hp [Ha1 Ha2]. unfold ReadDir, direct. simpl in Hp.
  pose proof (srv_opendir s (next_request_id c) (request_id_range c) path Hp) as Hd.
  assert (Hlen : blen (AppendString [] path) < 2 ^ 24 - 4) by (rewrite blen_string; unfold short in Hp; lia).
  destruct (b_readdir path (backend s)) as [[e|es0] b]; cbn [fst snd] in *.
  - exists (next_request_id c), (failed e). split; [|done]. erewrite run_bind by (by apply do_status).
    cbn [status_packet PType]. evals. rewrite status_error_run by (apply request_id_range || done). done.
  - set (real := str "dir:" ++ path) in *.
    destruct (reply_handle_request s c TypeOpendir _ (with_backend s b) real Hs ltac:(done) Hlen Hs Hd)
      as (pkt & E & Ht & Hr).
    pose proof (newHandle_fresh (with_backend s b) real path Hinv Hlt Hs eq_refl) as Hopen.
    destruct (newHandle (with_backend s b) real) as [h s1] eqn:En. cbn [fst snd] in *.
    assert (Hb : backend s1 = b) by (unfold newHandle in En; by injection En as _ <-).
    erewrite run_bind by exact E. rewrite Ht. evals. rewrite Hr.
    destruct (readdir_loop_agrees s1 (next_request_id c) h path fuel Hopen) as (c1 & El); [by rewrite Hb|].
    rewrite El. destruct Hopen as (Hs1 & Hh & Hres & _).
    destruct (b_readdir path (backend s1)) as [[e|es] b2];
      (match goal with |- context [CloseHandle h (mkLink ?s2 c1 true)] =>
         destruct (close_agrees s2 c1 h Hs1 Hh) as (r & Ec & _) end);
      rewrite Ec; unfold direct; unfold resolve in *; simpl; rewrite Hres; eauto.
Qed.

(** ** All operations *)

Lemma agrees_run {A} (f : A -> value) (m : @C link A) s c d :
  agrees f m s c d -> exists c', Some (res_map f (m (mkLink s c true)).1, (m (mkLink s c true)).2) =
    Some (d.1, mkLink d.2 c' true).
Proof. intros (r & -> & <-). by eexists. Qed.

Lemma operation_agrees (o : op) s (c : Z) (fuel : nat) :
  sent s = [] -> handles_inv s -> nextID s < 2 ^ 32 - 1 -> op_ok o -> answers_ok o s ->
  exists c', run_client (S (S fuel)) o (mkLink s c true) = Some ((direct o s).1, mkLink (direct o s).2 c' true).
Proof.
  intros Hs Hi Hn Ho Ha. destruct o; cbn [run_client].
  - by apply agrees_run, open_agrees.
  - by apply agrees_run, close_agrees.
  - by apply agrees_run, read_agrees.
  - by apply agrees_run, write_agrees.
  - apply agrees_run, stat_agrees; try done. by left.
  - apply agrees_run, stat_agrees; try done. by right.
  - destruct (readdir_agrees s c path fuel) as (c' & r & E & Er); try done. rewrite E. exists c'. simpl. by rewrite Er.
  - apply agrees_run. apply (unit_agrees (fun _ => VUnit) VUnit s c TypeMkdir
      (AppendString [] path ++ Encode a) (b_mkdir path (backend s)) _ (fun u => u)); try done.
    + pose proof (blen_Encode a). simpl in Ho. rewrite blen_app, blen_string. unfold short in Ho. lia.
    + apply srv_path; [apply request_id_range|done|by left].
    + intros l. apply plain_status.
  - apply agrees_run. apply (unit_agrees (fun _ => VUnit) VUnit s c TypeRemove
      (AppendString [] path) (b_remove path (backend s)) _ (fun u => u)); try done.
    + simpl in Ho. rewrite blen_string. unfold short in Ho. lia.
    + rewrite <- (app_nil_r (AppendString [] path)). apply srv_path; [apply request_id_range|done|by right; right].
    + intros l. apply plain_status.
  - apply agrees_run. apply (unit_agrees (fun _ => VUnit) VUnit s c TypeRmdir
      (AppendString [] path) (b_rmdir path (backend s)) _ (fun u => u)); try done.
    + simpl in Ho. rewrite blen_string. unfold short in Ho. lia.
    + rewrite <- (app_nil_r (AppendString [] path)). apply srv_path; [apply request_id_range|done|by right; left].
    + intros l. apply plain_status.
  - destruct Ho as [Hf Ht]. apply agrees_run. apply (unit_agrees (fun _ => VUnit) VUnit s c TypeRename
      (AppendString (AppendString [] from) to) (b_rename from to (backend s)) _ (fun u => u)); try done.
    + change (AppendString (AppendString [] from) to) with (AppendString [] from ++ be_put 4 (u32 (blen to)) ++ to).
      rewrite !blen_app, blen_be_put, blen_string. unfold short in *. lia.
    + by apply srv_rename; [apply request_id_range|..].
    + intros l. apply plain_status.
Qed.

(** ** Sequences of operations *)

Fixpoint run_all {K} `{!Requests K} (fuel : nat) (ops : list op) (l : K) : option (list (res client_err value) * K) :=
  match ops with
  | [] => Some ([], l)
  | o :: ops' =>
      match run_client fuel o l with
      | Some (r, l1) => match run_all fuel ops' l1 with Some (rs, l2) => Some (r :: rs, l2) | None => None end
      | None => None
      end
  end.
Fixpoint direct_all (ops : list op) s : list (res client_err value) * Session B :=
  match ops with
  | [] => ([], s)
  | o :: ops' => let '(r, s1) := direct o s in let '(rs, s2) := direct_all ops' s1 in (r :: rs, s2)
  end.
Fixpoint all_ok (ops : list op) s : Prop :=
  match ops with
  | [] => True
  | o :: ops' => op_ok o /\ answers_ok o s /\ all_ok ops' (direct o s).2
  end.

(** The state of the server between operations, and how far the handle numbers went. *)
Definition ready s (n : Z) : Prop := sent s = [] /\ handles_inv s /\ nextID s <= n.

Lemma ready_backend s b n : ready s n -> ready (with_backend s b) n.
Proof. done. Qed.
Lemma ready_weaken s n m : ready s n -> n <= m -> ready s m.
Proof. intros (? & ? & ?) ?. split_and!; try done. lia. Qed.
Lemma ready_new s real n : ready s n -> n < 2 ^ 32 - 1 -> ready (newHandle s real).2 (n + 1).
Proof.
  intros (Hs & Hi & Hn) Hlt. pose proof (table_new s s real Hi ltac:(lia) eq_refl eq_refl eq_refl 0) as H.
  unfold reply_handle, newHandle in *. cbn [ends_with] in H. destruct H as (H1 & _ & H2).
  split_and!; [done|done|]. cbn [snd nextID]. cbn [send nextID] in H2. lia.
Qed.
Lemma ready_drop s h n : ready s n -> is_Some (resolve s h) -> ready (drop_handle s h) n.
Proof.
  intros (Hs & Hi & Hn) Hr. pose proof (table_drop s (drop_handle s h) h Hi Hr eq_refl eq_refl eq_refl) as (H & _ & _).
  done.
Qed.
Lemma ready_drained s h n : ready s n -> is_Some (resolve s h) -> ready (markDrained s h) n.
Proof.
  intros (Hs & (H0 & Hh & Hd) & Hn) Hr. split_and!; try done. split_and!; try done.
  simpl. intros h' Hin. apply elem_of_union in Hin as [->%elem_of_singleton|]; [done|]. by apply Hd.
Qed.
Lemma ready_unit r v s n : ready s n -> ready (direct_unit r v s).2 n.
Proof. done. Qed.

Lemma direct_ready o s n : ready s n -> n < 2 ^ 32 - 1 -> ready (direct o s).2 (n + 1).
Proof.
  intros Hr Hn. pose proof (ready_weaken s n (n + 1) Hr ltac:(lia)) as Hw. destruct o; unfold direct; try done.
  - destruct (b_open path flags (backend s)) as [[e|real] b]; [done|].
    pose proof (ready_new (with_backend s b) real n Hr Hn) as H. by destruct (newHandle (with_backend s b) real).
  - destruct (resolve s h) eqn:E; [|done]. apply ready_drop; [done|]. unfold resolve in *. simpl. by rewrite E.
  - destruct (resolve s h); [|done]. by destruct (b_read l off n0 (backend s)) as [[data err] b].
  - by destruct (resolve s h).
  - destruct (b_readdir path (backend s)) as [[e|es0] b]; [done|].
    pose proof (ready_new (with_backend s b) (str "dir:" ++ path) n Hr Hn) as H.
    destruct (newHandle (with_backend s b) (str "dir:" ++ path)) as [h s1] eqn:En. cbn [snd] in H.
    assert (Hres : is_Some (resolve s1 h)).
    { unfold newHandle in En. injection En as <- <-. unfold resolve. cbn [handles]. by rewrite lookup_insert_eq. }
    destruct (b_readdir path (backend s1)) as [[e|es] b2]; cbn [snd]; apply ready_drop; try done.
    apply ready_backend. by apply ready_drained.
Qed.

Lemma all_agree ops : forall s c n,
  ready s n -> n + blen ops < 2 ^ 32 -> all_ok ops s ->
  exists c', run_all 2 ops (mkLink s c true) =
    Some ((direct_all ops s).1, mkLink (direct_all ops s).2 c' true).
Proof.
  induction ops as [|o ops IH]; intros s c n Hr Hn Hok; simpl; [by eexists|].
  destruct Hok as (Ho & Ha & Hok). replace (blen (o :: ops)) with (blen ops + 1) in Hn by (unfold blen; simpl; lia).
  pose proof (blen_nonneg ops) as Hb. destruct Hr as (Hs & Hi & Hle).
  destruct (operation_agrees o s c 0 Hs Hi ltac:(lia) Ho Ha) as (c1 & E). rewrite E.
  pose proof (direct_ready o s n ltac:(by split_and!) ltac:(lia)) as Hr1.
  destruct (direct o s) as [r s1]. cbn [fst snd] in *.
  destruct (IH s1 c1 (n + 1) Hr1 ltac:(lia) Hok) as (c2 & E2). rewrite E2.
  destruct (direct_all ops s1) as [rs s2]. by eexists.
Qed.

(** C12. The client is the remote form of the backend: a sequence of operations through
    client, wire and server gives, one by one, the results of the same operations on the
    backend itself, with the errors it reports as status errors and the handles of the
    server's table, and leaves the backend in the same state; as long as requests and
    answers fit a packet and the handle numbers do not wrap around. *)
Theorem remote_is_backend (b : B) (ops : list op) :
  blen ops < 2 ^ 32 -> all_ok ops (new_session b) ->
  exists l, run_all 2 ops (connect b) = Some ((direct_all ops (new_session b)).1, l) /\
    l_srv l = (direct_all ops (new_session b)).2 /\ l_alive l = true.
Proof.
  intros Hn Hok. destruct (all_agree ops (new_session b) 0 0) as (c' & E); [|lia|done|].
  - split_and!; [done| |done]. split_and!; [done|..]; simpl; [|set_solver]. intros h real. by rewrite lookup_empty.
  - unfold connect. rewrite E. by eexists.
Qed.
End Link.

(** ** The negotiation *)

(** The client accepts the version the server answers, and goes on where the answer
    ends. *)
Theorem New_accepts_server {B : Type} `{!Backend B} (b : B) (rest : bytes) :
  exists s, Serve b (New rest).1 = Some (Returned s None) /\
    (New (flat_map (fun p => WritePacket (PType p) (Payload p)) (sent s) ++ rest)).2 = Ok rest.
Proof.
  eexists. split; [reflexivity|]. unfold New. cbn [snd sent send new_session app flat_map PType Payload].
  rewrite app_nil_r. rewrite ReadPacket_WritePacket by done. done.
Qed.

(** ** Witnesses *)

Definition sample_ops : list op :=
  [OpStat (str "/a"); OpOpen (str "/a") OpenRead; OpRead (str "h1") 1 3; OpRead (str "h1") 9 3; OpClose (str "h1");
   OpRead (str "h1") 0 3; OpReadDir (str "/"); OpRename (str "/a") (str "/b"); OpStat (str "/a")].

#[local] Instance short_dec p : Decision (short p).
Proof. unfold short. apply _. Defined.
#[local] Instance op_ok_dec o : Decision (op_ok o).
Proof. destruct o; simpl; apply _. Defined.
#[local] Instance wf_attr_dec a : Decision (wf_attr a).
Proof. unfold wf_attr. apply _. Defined.
#[local] Instance opt_ok_dec e : Decision (opt_ok e).
Proof. unfold opt_ok, err_ok. destruct e; apply _. Defined.
#[local] Instance stat_ok_dec r : Decision (stat_ok r).
Proof. unfold stat_ok, err_ok. destruct r; apply _. Defined.
#[local] Instance list_ok_dec r : Decision (list_ok r).
Proof. unfold list_ok, err_ok. destruct r; apply _. Defined.
#[local] Instance answers_ok_dec {B} `{!Backend B} o (s : Session B) : Decision (answers_ok o s).
Proof.
  destruct o; unfold answers_ok, err_ok; try apply _;
    match goal with |- Decision (match ?x with _ => _ end) => destruct x; apply _ end.
Defined.
#[local] Instance all_ok_dec {B} `{!Backend B} ops : forall s : Session B, Decision (all_ok ops s).
Proof. induction ops as [|o ops IH]; intros s; cbn [all_ok]; apply _. Defined.

Lemma remote_is_backend_witness :
  exists l, run_all 2 sample_ops (connect ram) = Some ((direct_all sample_ops (new_session ram)).1, l) /\
    l_srv l = (direct_all sample_ops (new_session ram)).2 /\ l_alive l = true.
Proof.
  apply (remote_is_backend ram sample_ops); [done|]. apply (bool_decide_unpack _). vm_compute. exact I.
Defined.
