(* ===== verification/Paths.v ===== *)
(** * Paths: the sandboxes of the FTP and SFTP servers

    ftp/server/fs/fs.go ([pathClean], [Resolve], [full]) and
    sftp/server/backend/osfs/osfs.go ([join]), over [filepath.Clean] and
    [filepath.Join] as they are on Unix. *)

From S2P Require Import Prelude GoStrings.

Definition slash : byte := "/"%byte.
Definition is_dot (seg : bytes) : bool := seqb seg [] || seqb seg (str ".").
Definition is_dotdot (seg : bytes) : bool := seqb seg (str "..").

(** ** path/filepath *)

(** The segments of a cleaned path, last first; a rooted path has no parent above
    its root, a relative one keeps its leading [..]. *)
Definition clean_step (rooted : bool) (stack : list bytes) (seg : bytes) : list bytes :=
  if is_dot seg then stack
  else if is_dotdot seg then
    match stack with
    | top :: rest => if is_dotdot top then seg :: stack else rest
    | [] => if rooted then [] else [seg]
    end
  else seg :: stack.

Definition Clean (path : bytes) : bytes :=
  let rooted := HasPrefix path (str "/") in
  let segs := rev (fold_left (clean_step rooted) (Split path slash) []) in
  if rooted then str "/" ++ Join segs (str "/")
  else match segs with [] => str "." | _ => Join segs (str "/") end.

(** [filepath.Join]: from the first element that is not empty. *)
Fixpoint path_join (elems : list bytes) : bytes :=
  match elems with
  | [] => []
  | e :: es => if seqb e [] then path_join es else Clean (Join elems (str "/"))
  end.

(** ** sftp: osfs.go *)

Definition osfs_join (root path : bytes) : bytes := path_join [root; TrimPrefix path (str "/")].

(** ** ftp: fs.go *)

(** One segment of the loop of [pathClean] on the contents of its builder. *)
Definition pathClean_step (out seg : bytes) : bytes :=
  if is_dot seg then out
  else if is_dotdot seg then
    match LastIndexByte out slash with
    | Some i => take i out
    | None => out
    end
  else out ++ str "/" ++ seg.

Definition pathClean (p : bytes) : bytes :=
  let out := fold_left pathClean_step (Split p slash) [] in
  if seqb out [] then str "/" else out.

(** [Resolve]; [None] is the error "bad path". *)
Definition Resolve (cwd arg : bytes) : option bytes :=
  if seqb arg [] then Some cwd
  else
    let arg := if negb (HasPrefix arg (str "/")) then cwd ++ str "/" ++ arg else arg in
    let clean := pathClean arg in
    if negb (HasPrefix clean (str "/")) then None else Some clean.

Definition full (root home p : bytes) : bytes :=
  if negb (seqb home []) then path_join [root; home; TrimPrefix p (str "/")]
  else path_join [root; TrimPrefix p (str "/")].

(* ------------------------------------------------------------------ *)
(** ** Segments *)

(** A segment that names an entry of a directory. *)
Definition normal (seg : bytes) : bool :=
  negb (is_dot seg) && negb (is_dotdot seg) && negb (in_set seg slash).

Lemma normal_inv seg :
  normal seg = true -> is_dot seg = false /\ is_dotdot seg = false /\ slash ∉ seg /\ seg <> [].
Proof.
  unfold normal. rewrite !andb_true_iff, !negb_true_iff. intros [[Hd Hdd] Hs]. repeat split; try done.
  - intros H%in_set_spec. congruence.
  - intros ->. done.
Qed.

(** The absolute path with these segments. *)
Definition abs_path (segs : list bytes) : bytes := str "/" ++ Join segs (str "/").
Lemma abs_path_prefix segs : HasPrefix (abs_path segs) (str "/") = true.
Proof. apply HasPrefix_app. Qed.

Definition rooted_text (segs : list bytes) : bytes := flat_map (fun s => str "/" ++ s) segs.

Lemma rooted_text_join segs : segs <> [] -> rooted_text segs = abs_path segs.
Proof.
  unfold abs_path, rooted_text. induction segs as [|s segs IH]; [done|]. intros _. destruct segs as [|t segs].
  - simpl. by rewrite app_nil_r.
  - cbn [flat_map] in *. rewrite IH by done.
    change (Join (s :: t :: segs) (str "/")) with (s ++ str "/" ++ Join (t :: segs) (str "/")).
    by rewrite <- app_assoc.
Qed.

Lemma LastIndexByte_none c s : c ∉ s -> LastIndexByte s c = None.
Proof.
  induction s as [|x s IH]; [done|]. intros [? ?]%not_elem_of_cons. simpl. rewrite IH by done.
  by rewrite beqb_ne by congruence.
Qed.

Lemma LastIndexByte_app p c s : c ∉ s -> LastIndexByte (p ++ c :: s) c = Some (length p).
Proof.
  intros H. induction p as [|x p IH]; simpl; [by rewrite LastIndexByte_none, beqb_refl by done|]. by rewrite IH.
Qed.

Lemma Split_app_sep a b c : Split (a ++ c :: b) c = Split a c ++ Split b c.
Proof.
  induction a as [|x a IH]; simpl; [by rewrite beqb_refl|]. destruct (beqb x c); [by rewrite IH|].
  rewrite IH. pose proof (Split_nonempty a c). by destruct (Split a c).
Qed.

(** Where following [segs] from the directory [dirs] leads; the root has no parent. *)
Fixpoint walk (dirs segs : list bytes) : list bytes :=
  match segs with
  | [] => dirs
  | seg :: rest =>
      walk (if is_dot seg then dirs else if is_dotdot seg then removelast dirs else dirs ++ [seg]) rest
  end.

Lemma Forall_removelast {A} (P : A -> Prop) l : Forall P l -> Forall P (removelast l).
Proof.
  destruct l as [|x l] using rev_ind; [done|]. rewrite removelast_last. by intros [? _]%Forall_app.
Qed.

Lemma walk_normal dirs segs :
  Forall (fun s => normal s = true) dirs -> Forall (fun s => slash ∉ s) segs ->
  Forall (fun s => normal s = true) (walk dirs segs).
Proof.
  revert dirs. induction segs as [|seg rest IH]; intros dirs Hd Hs; [done|]. simpl.
  apply Forall_cons in Hs as [Hseg Hs]. apply IH; [|done].
  destruct (is_dot seg) eqn:E1; [done|]. destruct (is_dotdot seg) eqn:E2; [by apply Forall_removelast|].
  apply Forall_app. split; [done|]. constructor; [|done]. unfold normal. rewrite E1, E2.
  rewrite <- in_set_spec in Hseg. by destruct (in_set seg slash).
Qed.

Lemma walk_app dirs a b : walk dirs (a ++ b) = walk (walk dirs a) b.
Proof. revert dirs. induction a as [|seg a IH]; intros dirs; [done|]. simpl. apply IH. Qed.

(** Without [..] a walk only descends. *)
Lemma walk_down dirs segs :
  Forall (fun s => is_dotdot s = false) segs -> walk dirs segs = dirs ++ filterb (fun s => negb (is_dot s)) segs.
Proof.
  revert dirs. induction segs as [|seg rest IH]; intros dirs H; simpl; [by rewrite app_nil_r|].
  apply Forall_cons in H as [H Hr]. rewrite IH by done. destruct (is_dot seg); simpl; [done|].
  by rewrite H, <- app_assoc.
Qed.

Lemma filter_normal segs :
  Forall (fun s => normal s = true) segs -> filterb (fun s => negb (is_dot s)) segs = segs.
Proof.
  induction 1 as [|s segs Hs _ IH]; [done|]. simpl. apply normal_inv in Hs as (-> & _). simpl. by rewrite IH.
Qed.

(** The segments of a joined path of normal segments. *)
Lemma Split_join_normal segs :
  Forall (fun s => normal s = true) segs ->
  Forall (fun s => is_dotdot s = false) (Split (Join segs (str "/")) slash) /\
  filterb (fun s => negb (is_dot s)) (Split (Join segs (str "/")) slash) = segs.
Proof.
  intros H. destruct segs as [|s segs]; [by split; [repeat constructor|]|].
  change (str "/") with [slash]. rewrite Split_Join; [|done|].
  - split; [|by apply filter_normal]. eapply Forall_impl; [exact H|]. intros x Hx. apply normal_inv in Hx. tauto.
  - eapply Forall_impl; [exact H|]. intros x Hx. apply normal_inv in Hx. tauto.
Qed.

Lemma walk_joined dirs segs :
  Forall (fun s => normal s = true) segs -> walk dirs (Split (Join segs (str "/")) slash) = dirs ++ segs.
Proof. intros H. destruct (Split_join_normal segs H) as [H1 H2]. by rewrite walk_down, H2. Qed.

Lemma walk_abs segs : Forall (fun s => normal s = true) segs -> walk [] (Split (abs_path segs) slash) = segs.
Proof. intros H. unfold abs_path. simpl. by apply walk_joined. Qed.

(* ------------------------------------------------------------------ *)
(** ** The two cleaners compute the walk *)

Lemma clean_fold segs : forall dirs,
  Forall (fun s => normal s = true) dirs -> Forall (fun s => slash ∉ s) segs ->
  rev (fold_left (clean_step true) segs (rev dirs)) = walk dirs segs.
Proof.
  induction segs as [|seg rest IH]; intros dirs Hd Hs; [by apply rev_involutive|].
  apply Forall_cons in Hs as [Hseg Hs]. pose proof (walk_normal dirs [seg] Hd) as Hn. simpl in Hn |- *.
  assert (clean_step true (rev dirs) seg =
    rev (if is_dot seg then dirs else if is_dotdot seg then removelast dirs else dirs ++ [seg])) as ->.
  { unfold clean_step. destruct (is_dot seg); [done|]. destruct (is_dotdot seg).
    - destruct dirs as [|d dirs] using rev_ind; [done|]. rewrite rev_app_distr, removelast_last. simpl.
      apply Forall_app in Hd as [_ Hd]. apply Forall_cons in Hd as [Hd _]. by apply normal_inv in Hd as (_ & -> & _).
    - by rewrite rev_app_distr. }
  apply IH; [|done]. apply Hn. by repeat constructor.
Qed.

Lemma Clean_walk p : HasPrefix p (str "/") = true -> Clean p = abs_path (walk [] (Split p slash)).
Proof.
  intros H. unfold Clean. rewrite H. change (@nil bytes) with (rev (@nil bytes)) at 1.
  rewrite clean_fold by (constructor || apply Split_pieces). done.
Qed.

Lemma pathClean_fold segs : forall dirs,
  Forall (fun s => normal s = true) dirs -> Forall (fun s => slash ∉ s) segs ->
  fold_left pathClean_step segs (rooted_text dirs) = rooted_text (walk dirs segs).
Proof.
  induction segs as [|seg rest IH]; intros dirs Hd Hs; [done|].
  apply Forall_cons in Hs as [Hseg Hs]. pose proof (walk_normal dirs [seg] Hd) as Hn. simpl in Hn |- *.
  assert (pathClean_step (rooted_text dirs) seg =
    rooted_text (if is_dot seg then dirs else if is_dotdot seg then removelast dirs else dirs ++ [seg])) as ->.
  { unfold pathClean_step. destruct (is_dot seg); [done|]. destruct (is_dotdot seg).
    - destruct dirs as [|d dirs] using rev_ind; [done|]. rewrite removelast_last. unfold rooted_text.
      rewrite flat_map_app. simpl. rewrite app_nil_r.
      apply Forall_app in Hd as [_ Hd]. apply Forall_cons in Hd as [Hd _]. apply normal_inv in Hd as (_ & _ & Hd & _).
      change "/"%byte with slash. by rewrite LastIndexByte_app, take_app_length.
    - unfold rooted_text. rewrite flat_map_app. simpl. by rewrite app_nil_r. }
  apply IH; [|done]. apply Hn. by repeat constructor.
Qed.

Lemma pathClean_walk p : pathClean p = abs_path (walk [] (Split p slash)).
Proof.
  unfold pathClean. cbv zeta.
  pose proof (pathClean_fold (Split p slash) [] (Forall_nil_2 _) (Split_pieces p slash)) as E0.
  change (rooted_text []) with (@nil byte) in E0. rewrite E0.
  destruct (walk [] (Split p slash)) as [|d dirs] eqn:E; [done|].
  rewrite seqb_ne by done. by apply rooted_text_join.
Qed.

(* ------------------------------------------------------------------ *)
(** ** Properties *)

(** Paths without [.], [..] and empty segments. *)
Definition clean_path (p : bytes) : Prop :=
  exists segs, Forall (fun s => normal s = true) segs /\ p = abs_path segs.

Lemma Resolve_eq dirs arg :
  Forall (fun s => normal s = true) dirs ->
  Resolve (abs_path dirs) arg =
  Some (abs_path (walk (if HasPrefix arg (str "/") then [] else dirs) (Split arg slash))).
Proof.
  intros Hd. unfold Resolve. destruct (seqb_spec arg []) as [->|Hne]; [done|].
  rewrite pathClean_walk, abs_path_prefix. do 2 f_equal.
  destruct (HasPrefix arg (str "/")); [done|]. simpl negb. cbv iota.
  change (str "/") with [slash]. cbn [app]. rewrite Split_app_sep, walk_app. by rewrite walk_abs.
Qed.

Lemma Resolve_normal dirs arg :
  Forall (fun s => normal s = true) dirs ->
  Forall (fun s => normal s = true) (walk (if HasPrefix arg (str "/") then [] else dirs) (Split arg slash)).
Proof. intros Hd. apply walk_normal; [by destruct (HasPrefix arg _)|apply Split_pieces]. Qed.

Lemma Resolve_clean cwd arg : clean_path cwd -> exists p, Resolve cwd arg = Some p /\ clean_path p.
Proof.
  intros (dirs & Hd & ->). eexists. split; [by apply Resolve_eq|].
  eexists. split; [by apply Resolve_normal|done].
Qed.

(** [Resolve] is navigation: from any working directory it follows the argument
    segment by segment, [..] going to the parent and staying at the root, from the
    root when the argument is absolute; the result is a clean path and resolving never
    fails. *)
Theorem Resolve_walks (dirs : list bytes) (arg : bytes) :
  Forall (fun s => normal s = true) dirs ->
  let start := if HasPrefix arg (str "/") then [] else dirs in
  Resolve (abs_path dirs) arg = Some (abs_path (walk start (Split arg slash))) /\
  Forall (fun s => normal s = true) (walk start (Split arg slash)).
Proof. intros Hd start. split; [by apply Resolve_eq|by apply Resolve_normal]. Qed.

Lemma Resolve_walks_witness :
  Resolve (abs_path [str "pub"; str "docs"]) (str "../../../x/./y//..") = Some (str "/x").
Proof.
  refine (eq_trans (proj1 (Resolve_walks [str "pub"; str "docs"] (str "../../../x/./y//..") _)) _).
  - repeat constructor.
  - by vm_compute.
Defined.

Lemma path_join_root rs elems :
  path_join (abs_path rs :: elems) = abs_path (walk [] (Split (Join (abs_path rs :: elems) (str "/")) slash)).
Proof.
  unfold path_join. rewrite seqb_ne by done. apply Clean_walk. unfold abs_path.
  destruct elems; cbn [Join]; rewrite <- ?app_assoc; apply HasPrefix_app.
Qed.

Lemma TrimPrefix_abs segs : TrimPrefix (abs_path segs) (str "/") = Join segs (str "/").
Proof. unfold TrimPrefix, abs_path. by rewrite HasPrefix_app. Qed.

(** The normal segments of a home directory. *)
Definition home_segs (home : bytes) : list bytes := filterb (fun s => negb (is_dot s)) (Split home slash).

(** The FTP sandbox: the file that a clean path stands for is below the server's
    root and the user's home, by exactly the segments of the path (a home with no
    [..] in it, which is the administrator's). *)
Theorem full_in_sandbox (rs ps : list bytes) (home : bytes) :
  Forall (fun s => normal s = true) rs -> Forall (fun s => normal s = true) ps ->
  Forall (fun s => is_dotdot s = false) (Split home slash) ->
  full (abs_path rs) home (abs_path ps) = abs_path (rs ++ home_segs home ++ ps).
Proof.
  intros Hr Hp Hh. unfold full. rewrite TrimPrefix_abs. destruct (seqb_spec home []) as [->|Hne]; simpl negb; cbv iota;
    rewrite path_join_root; change (str "/") with [slash]; cbn [Join app].
  - rewrite Split_app_sep, walk_app, walk_abs by done. f_equal. by apply walk_joined.
  - rewrite Split_app_sep, walk_app, walk_abs, Split_app_sep, walk_app by done. f_equal.
    rewrite (walk_down rs) by done. rewrite app_assoc. by apply walk_joined.
Qed.

Lemma full_in_sandbox_witness :
  full (str "/srv/ftp") (str "alice/") (str "/pub/x") = str "/srv/ftp/alice/pub/x".
Proof.
  refine (eq_trans (full_in_sandbox [str "srv"; str "ftp"] [str "pub"; str "x"] (str "alice/") _ _ _) _);
    [repeat constructor..|by vm_compute].
Defined.

(** The SFTP backend is not confined to its root: a path that climbs with [..]
    is joined and cleaned to a file outside of it. *)
Theorem osfs_join_escapes :
  osfs_join (str "/srv/sftp") (str "/../../etc/passwd") = str "/etc/passwd".
Proof. by vm_compute. Qed.
