(* ===== verification/Osfs.v ===== *)
(** * sftp/server/backend/osfs/osfs.go: the backend on the operating system

    The package as an instance of [Backend] (SftpServer.v) over the calls it makes to the
    operating system, which are the class [OS].  A [*os.File] is a number, that of its
    opening; the errors of package os are those of SftpServer.v. *)

From S2P Require Import Prelude GoStrings Paths SftpWire SftpServer SftpMux SftpClient.

Record FileInfo := { fi_name : bytes; fi_size : Z; fi_perm : Z; fi_dir : bool; fi_mtime : Z }.

(** Package os as this package uses it.  [os_open] is told the number of the file;
    [os_read] gives the bytes it read. *)
Class OS (D : Type) := {
  os_stat : bytes -> D -> (berr + FileInfo) * D;
  os_lstat : bytes -> D -> (berr + FileInfo) * D;
  os_open : bytes -> Z -> Z -> nat -> D -> option berr * D;
  os_seek : nat -> Z -> D -> option berr * D;
  os_read : nat -> Z -> D -> (bytes * option berr) * D;
  os_write : nat -> bytes -> D -> option berr * D;
  os_close : nat -> D -> option berr * D;
  os_readdir : bytes -> D -> (berr + list (bytes * (berr + FileInfo))) * D;
  os_mkdir_all : bytes -> Z -> D -> option berr * D;
  os_remove_all : bytes -> D -> option berr * D;
  os_remove : bytes -> D -> option berr * D;
  os_rename : bytes -> bytes -> D -> option berr * D
}.
(** [Read] fills at most the buffer that it is given. *)
Class OSReads (D : Type) `{OS D} : Prop := { os_read_bound : forall f n d, 0 <= n -> blen (os_read f n d).1.1 <= n }.

(** The flags of [os.OpenFile] on Linux. *)
Definition O_RDONLY : Z := 0.
Definition O_WRONLY : Z := 1.
Definition O_RDWR : Z := 2.
Definition O_CREATE : Z := 0x40.
Definition O_EXCL : Z := 0x80.
Definition O_TRUNC : Z := 0x200.
Definition O_APPEND : Z := 0x400.

(** [made] counts the files opened so far. *)
Record FS (D : Type) := mkFS { root : bytes; fhandles : gmap bytes nat; next : Z; made : nat; disk : D }.
Arguments mkFS {_}. Arguments root {_}. Arguments fhandles {_}. Arguments next {_}. Arguments made {_}. Arguments disk {_}.

Definition invalid : berr := {| kind := KOther; text := str "invalid handle" |}.

Definition handle_name (n : Z) : bytes := str "h" ++ Itoa n.

(** [int64(offset)]. *)
Definition to_int64 (x : Z) : Z := if x <? 2 ^ 63 then x else x - 2 ^ 64.

Section Backend.
Context {D : Type} `{!OS D}.
Implicit Types f : FS D.

(** [abs] is the result of [filepath.Abs], if it has one. *)
Definition New (abs : option bytes) (root : bytes) (d : D) : FS D := mkFS (default root abs) ∅ 0 0 d.

Definition with_disk f (d : D) : FS D := mkFS (root f) (fhandles f) (next f) (made f) d.
Definition join f (path : bytes) : bytes := osfs_join (root f) path.

Definition newHandle f (file : nat) : bytes * FS D :=
  let n := next f + 1 in
  let h := handle_name n in
  (h, mkFS (root f) (<[h := file]> (fhandles f)) n (made f) (disk f)).
Definition getHandle f (h : bytes) : option nat := fhandles f !! h.
Definition drop f (h : bytes) : FS D := mkFS (root f) (delete h (fhandles f)) (next f) (made f) (disk f).

Definition statToFileStat (name : bytes) (fi : FileInfo) : FileStat :=
  {| Name := name; FSize := u64 (fi_size fi); FMode := u32 (fi_perm fi); IsDir := fi_dir fi; FMtime := fi_mtime fi; FUID := 0; FGID := 0 |}.

Definition stat_result (r : (berr + FileInfo) * D) f : (berr + FileStat) * FS D :=
  (match r.1 with inl e => inl e | inr fi => inr (statToFileStat (fi_name fi) fi) end, with_disk f r.2).
Definition Stat (path : bytes) f := stat_result (os_stat (join f path) (disk f)) f.
Definition Lstat (path : bytes) f := stat_result (os_lstat (join f path) (disk f)) f.

Definition isset (flags bit : Z) : bool := negb (Z.land flags bit =? 0).

(** The flags for [os.OpenFile], in the order in which [Open] sets them. *)
Definition open_flags (flags : Z) : Z :=
  let oflags := 0 in
  let oflags := if isset flags OpenRead then Z.lor oflags O_RDONLY else oflags in
  let oflags := if isset flags OpenWrite then Z.lor oflags O_WRONLY else oflags in
  let oflags := if isset flags OpenRead && isset flags OpenWrite then O_RDWR else oflags in
  let oflags := if isset flags OpenAppend then Z.lor oflags O_APPEND else oflags in
  let oflags := if isset flags OpenCreate then Z.lor oflags O_CREATE else oflags in
  let oflags := if isset flags OpenTrunc then Z.lor oflags O_TRUNC else oflags in
  if isset flags OpenExcl then Z.lor oflags O_EXCL else oflags.

Definition Open (path : bytes) (flags : Z) f : (berr + bytes) * FS D :=
  let '(r, d) := os_open (join f path) (open_flags flags) 420 (made f) (disk f) in
  match r with
  | Some e => (inl e, with_disk f d)
  | None =>
      let '(h, f) := newHandle (mkFS (root f) (fhandles f) (next f) (S (made f)) d) (made f) in
      (inr h, f)
  end.

Definition Read (h : bytes) (offset size : Z) f : (bytes * option berr) * FS D :=
  match getHandle f h with
  | None => (([], Some invalid), f)
  | Some file =>
      let '(r, d) := os_seek file (to_int64 offset) (disk f) in
      match r with
      | Some e => (([], Some e), with_disk f d)
      | None => let '(r, d) := os_read file size d in (r, with_disk f d)
      end
  end.

Definition Write (h : bytes) (offset : Z) (data : bytes) f : option berr * FS D :=
  match getHandle f h with
  | None => (Some invalid, f)
  | Some file =>
      let '(r, d) := os_seek file (to_int64 offset) (disk f) in
      match r with
      | Some e => (Some e, with_disk f d)
      | None => let '(r, d) := os_write file data d in (r, with_disk f d)
      end
  end.

Definition Close (h : bytes) f : option berr * FS D :=
  match getHandle f h with
  | None => (Some invalid, f)
  | Some file => let f := drop f h in let '(r, d) := os_close file (disk f) in (r, with_disk f d)
  end.

(** The loop over the entries; one whose information cannot be had ends it. *)
Fixpoint entry_stats (es : list (bytes * (berr + FileInfo))) : berr + list FileStat :=
  match es with
  | [] => inr []
  | (name, inl e) :: _ => inl e
  | (name, inr fi) :: es => match entry_stats es with inl e => inl e | inr l => inr (statToFileStat name fi :: l) end
  end.

Definition Readdir (path : bytes) f : (berr + list FileStat) * FS D :=
  let '(r, d) := os_readdir (join f path) (disk f) in
  (match r with inl e => inl e | inr es => entry_stats es end, with_disk f d).

Definition unit_result (r : option berr * D) f : option berr * FS D := (r.1, with_disk f r.2).
Definition Mkdir (path : bytes) f := unit_result (os_mkdir_all (join f path) 493 (disk f)) f.
Definition Rmdir (path : bytes) f := unit_result (os_remove_all (join f path) (disk f)) f.
Definition Remove (path : bytes) f := unit_result (os_remove (join f path) (disk f)) f.
Definition Rename (from to : bytes) f := unit_result (os_rename (join f from) (join f to) (disk f)) f.
End Backend.

#[export] Instance osfs_backend {D} `{!OS D} : Backend (FS D) := {|
  b_stat := Stat; b_lstat := Lstat; b_open := Open; b_read := Read; b_write := Write; b_close := Close; b_readdir := Readdir;
  b_mkdir := Mkdir; b_rmdir := Rmdir; b_remove := Remove; b_rename := Rename |}.

(** The contract that the server asks of a backend. *)
#[export] Instance osfs_reads {D} `{!OS D} `{!OSReads D} : BackendReads (FS D).
Proof.
  constructor. intros h off n f Hn. cbn. unfold Read. destruct (getHandle f h) as [file|]; [|cbn; unfold blen; cbn; lia].
  destruct (os_seek _ _ _) as [[e|] d]; [cbn; unfold blen; cbn; lia|]. pose proof (os_read_bound file n d Hn).
  by destruct (os_read file n d).
Qed.

(* ------------------------------------------------------------------ *)
(** ** The flags *)

(** What the flags of OPEN mean for the call: the access mode, and one bit each. *)
Definition flags_spec (flags o : Z) : bool :=
  (Z.land o 3 =? (if isset flags OpenWrite then (if isset flags OpenRead then O_RDWR else O_WRONLY) else O_RDONLY)) &&
  eqb (isset o O_APPEND) (isset flags OpenAppend) && eqb (isset o O_CREATE) (isset flags OpenCreate) &&
  eqb (isset o O_TRUNC) (isset flags OpenTrunc) && eqb (isset o O_EXCL) (isset flags OpenExcl).

Lemma open_flags_ok flags : flags_spec flags (open_flags flags) = true.
Proof.
  unfold flags_spec, open_flags.
  destruct (isset flags OpenRead), (isset flags OpenWrite), (isset flags OpenAppend), (isset flags OpenCreate), (isset flags OpenTrunc),
    (isset flags OpenExcl); reflexivity.
Qed.

(* ------------------------------------------------------------------ *)
(** ** The files of the operating system *)

(** The calls on open files, recorded. *)
Inductive call := COpen (file : nat) | CUse (file : nat) | CClose (file : nat).

(** Any operating system, with a record of those calls. *)
Definition logged {D} `{!OS D} : OS (D * list call) := {|
  os_stat p d := let '(r, d') := os_stat p d.1 in (r, (d', d.2));
  os_lstat p d := let '(r, d') := os_lstat p d.1 in (r, (d', d.2));
  os_open p o m n d := let '(r, d') := os_open p o m n d.1 in (r, (d', match r with None => d.2 ++ [COpen n] | Some _ => d.2 end));
  os_seek n off d := let '(r, d') := os_seek n off d.1 in (r, (d', d.2 ++ [CUse n]));
  os_read n size d := let '(r, d') := os_read n size d.1 in (r, (d', d.2 ++ [CUse n]));
  os_write n data d := let '(r, d') := os_write n data d.1 in (r, (d', d.2 ++ [CUse n]));
  os_close n d := let '(r, d') := os_close n d.1 in (r, (d', d.2 ++ [CClose n]));
  os_readdir p d := let '(r, d') := os_readdir p d.1 in (r, (d', d.2));
  os_mkdir_all p m d := let '(r, d') := os_mkdir_all p m d.1 in (r, (d', d.2));
  os_remove_all p d := let '(r, d') := os_remove_all p d.1 in (r, (d', d.2));
  os_remove p d := let '(r, d') := os_remove p d.1 in (r, (d', d.2));
  os_rename a b d := let '(r, d') := os_rename a b d.1 in (r, (d', d.2)) |}.

(** The files open after a record of calls; [None] when one of them is on a file that is
    not open, or opens one that is. *)
Definition open_after (open : option (gset nat)) (c : call) : option (gset nat) :=
  s ← open;
  match c with
  | COpen n => if bool_decide (n ∈ s) then None else Some ({[n]} ∪ s)
  | CUse n => if bool_decide (n ∈ s) then Some s else None
  | CClose n => if bool_decide (n ∈ s) then Some (s ∖ {[n]}) else None
  end.
Definition open_files (cs : list call) : option (gset nat) := foldl open_after (Some ∅) cs.

(** The operations of a backend. *)
Inductive fop :=
| FStat (p : bytes) | FLstat (p : bytes) | FOpen (p : bytes) (flags : Z) | FRead (h : bytes) (off n : Z) | FWrite (h : bytes) (off : Z) (data : bytes)
| FClose (h : bytes) | FReaddir (p : bytes) | FMkdir (p : bytes) | FRmdir (p : bytes) | FRemove (p : bytes) | FRename (a b : bytes).

Definition perform {B} `{!Backend B} (b : B) (o : fop) : B :=
  match o with
  | FStat p => (b_stat p b).2 | FLstat p => (b_lstat p b).2 | FOpen p fl => (b_open p fl b).2 | FRead h off n => (b_read h off n b).2
  | FWrite h off data => (b_write h off data b).2 | FClose h => (b_close h b).2 | FReaddir p => (b_readdir p b).2
  | FMkdir p => (b_mkdir p b).2 | FRmdir p => (b_rmdir p b).2 | FRemove p => (b_remove p b).2 | FRename a b' => (b_rename a b' b).2
  end.

Section Files.
Context {D : Type} `{!OS D}.
#[local] Existing Instance logged | 0.
Implicit Types f : FS (D * list call).

#[local] Arguments open_files : simpl never.
#[local] Arguments handle_name : simpl never.

(** The table holds the open files, each once, under names that are not in use again. *)
Record fs_ok f : Prop := {
  ok_open s : open_files (disk f).2 = Some s -> forall n, n ∈ s <-> exists h, fhandles f !! h = Some n;
  ok_log : open_files (disk f).2 <> None;
  ok_once h h' n : fhandles f !! h = Some n -> fhandles f !! h' = Some n -> h = h';
  ok_made h n : fhandles f !! h = Some n -> (n < made f)%nat;
  ok_names h n : fhandles f !! h = Some n -> exists i, h = handle_name i /\ 1 <= i <= next f;
  ok_next : 0 <= next f
}.

Lemma open_files_snoc cs c : open_files (cs ++ [c]) = open_after (open_files cs) c.
Proof. unfold open_files. by rewrite foldl_app. Qed.

(** The number that digits stand for. *)
Definition digits_value (s : bytes) : Z := fold_left (fun acc c => acc * 10 + (bz c - 48)) s 0.

Lemma digits_value_fmt fuel : forall n, (0 < fuel)%nat -> 0 <= n < 10 ^ Z.of_nat fuel -> digits_value (fmt_nat fuel n) = n.
Proof.
  induction fuel as [|fuel IH]; intros n Hf Hn; [lia|]. cbn [fmt_nat]. destruct (Z.ltb_spec n 10).
  - unfold digits_value. cbn. rewrite bz_digit by lia. lia.
  - rewrite Nat2Z.inj_succ, Z.pow_succ_r in Hn by lia. pose proof (Z.div_mod n 10 ltac:(lia)). pose proof (Z.mod_pos_bound n 10 ltac:(lia)).
    unfold digits_value in *. rewrite fold_left_app, IH; [|destruct fuel; [cbn in Hn; lia|lia]|].
    + cbn. rewrite bz_digit by lia. lia.
    + split; [apply Z.div_pos; lia|]. apply Z.div_lt_upper_bound; lia.
Qed.

Lemma osfs_name_inj i j : 0 <= i -> 0 <= j -> handle_name i = handle_name j -> i = j.
Proof.
  unfold handle_name. intros Hi Hj E%app_inv_head. unfold Itoa in E.
  destruct (Z.ltb_spec i 0), (Z.ltb_spec j 0); try lia.
  rewrite <- (digits_value_fmt (S (Z.to_nat (Z.log2 i))) i), <- (digits_value_fmt (S (Z.to_nat (Z.log2 j))) j);
    [by f_equal|lia|split; [lia|by apply fmt_fuel_enough]|lia|split; [lia|by apply fmt_fuel_enough]].
Qed.

(** An operation that leaves the table and the record alone. *)
Lemma ok_same f f' :
  fs_ok f -> fhandles f' = fhandles f -> next f' = next f -> made f' = made f -> (disk f').2 = (disk f).2 -> fs_ok f'.
Proof. intros [] E1 E2 E3 E4. by split; rewrite ?E1, ?E2, ?E3, ?E4. Qed.

(** One that uses the file of a handle. *)
Lemma ok_use f n h d : fs_ok f -> fhandles f !! h = Some n -> d.2 = (disk f).2 ++ [CUse n] -> fs_ok (with_disk f d).
Proof.
  intros [Ho Hl H1 Hm Hn Hx] Hh Ed. destruct (open_files (disk f).2) as [s|] eqn:Es; [|done].
  assert (n ∈ s) as Hin by (apply (Ho s eq_refl); by exists h).
  assert (open_files d.2 = Some s) as Es'.
  { rewrite Ed, open_files_snoc, Es. cbn. by rewrite bool_decide_true. }
  split; cbn; try done; rewrite Es'; [|done]. intros s' [= <-]. by apply Ho.
Qed.

Lemma ok_opened f path flags : fs_ok f -> fs_ok (Open path flags f).2.
Proof.
  intros Hf. pose proof Hf as [Ho Hl H1 Hm Hn Hx]. unfold Open. cbn. destruct (os_open _ _ _ _ _) as [[e|] d]; cbn; [by apply (ok_same f)|].
  destruct (open_files (disk f).2) as [s|] eqn:Es; [|done]. specialize (Ho s eq_refl).
  assert (made f ∉ s) as Hfresh by (intros [h Hh]%Ho; apply Hm in Hh; lia).
  assert (open_files ((disk f).2 ++ [COpen (made f)]) = Some ({[made f]} ∪ s)) as Es'.
  { rewrite open_files_snoc, Es. cbn. by rewrite bool_decide_false. }
  assert (fhandles f !! handle_name (next f + 1) = None) as Hnew.
  { destruct (fhandles f !! handle_name (next f + 1)) as [n|] eqn:E; [|done]. destruct (Hn _ _ E) as (i & Ei & Hi).
    apply osfs_name_inj in Ei; lia. }
  split; cbn; rewrite ?Es'; try done.
  - intros s' [= <-] n. rewrite elem_of_union, elem_of_singleton, Ho. split.
    + intros [->|[h Hh]]; [exists (handle_name (next f + 1)); by rewrite lookup_insert_eq|exists h]. rewrite lookup_insert_ne; [done|congruence].
    + intros [h [[_ <-]|[_ ?]]%lookup_insert_Some]; [by left|right; by exists h].
  - intros h h' n [[<- <-]|[Hne Hh]]%lookup_insert_Some [[<- E]|[Hne' Hh']]%lookup_insert_Some; [done| | |by eapply H1].
    + apply Hm in Hh'. lia.
    + subst n. apply Hm in Hh. lia.
  - intros h n [[_ <-]|[_ Hh]]%lookup_insert_Some; [lia|]. apply Hm in Hh. lia.
  - intros h n [[<- _]|[_ Hh]]%lookup_insert_Some; [exists (next f + 1); split; [done|lia]|].
    destruct (Hn _ _ Hh) as (i & -> & Hi). exists i. split; [done|lia].
  - lia.
Qed.

Lemma ok_closed f h : fs_ok f -> fs_ok (Close h f).2.
Proof.
  intros Hf. pose proof Hf as [Ho Hl H1 Hm Hn Hx]. unfold Close, getHandle. destruct (fhandles f !! h) as [n|] eqn:Eh; [|done].
  cbn. destruct (os_close _ _) as [r d]. cbn. destruct (open_files (disk f).2) as [s|] eqn:Es; [|done]. specialize (Ho s eq_refl).
  assert (n ∈ s) as Hin by (apply Ho; by exists h).
  assert (open_files ((disk f).2 ++ [CClose n]) = Some (s ∖ {[n]})) as Es'.
  { rewrite open_files_snoc, Es. cbn. by rewrite bool_decide_true. }
  split; cbn; rewrite ?Es'; try done.
  - intros s' [= <-] m. rewrite elem_of_difference, elem_of_singleton, Ho. split.
    + intros [[h' Hh] Hne]. exists h'. rewrite lookup_delete_ne; [done|congruence].
    + intros [h' [Hne Hh]%lookup_delete_Some]. split; [by exists h'|]. intros ->. by apply Hne, (H1 h h' n).
  - intros h1 h2 m [_ ?]%lookup_delete_Some [_ ?]%lookup_delete_Some. by eapply H1.
  - intros h' m [_ Hh]%lookup_delete_Some. by eapply Hm.
  - intros h' m [_ Hh]%lookup_delete_Some. by eapply Hn.
Qed.

Lemma ok_read f h off n : fs_ok f -> fs_ok (Read h off n f).2.
Proof.
  intros Hf. unfold Read, getHandle. destruct (fhandles f !! h) as [file|] eqn:Eh; [|done]. cbn.
  destruct (os_seek _ _ _) as [[e|] d]; cbn; [by apply (ok_use f file h)|]. destruct (os_read _ _ _) as [r d']. cbn.
  by apply (ok_use (with_disk f (d, (disk f).2 ++ [CUse file])) file h); [apply (ok_use f file h)| |].
Qed.

Lemma ok_write f h off data : fs_ok f -> fs_ok (Write h off data f).2.
Proof.
  intros Hf. unfold Write, getHandle. destruct (fhandles f !! h) as [file|] eqn:Eh; [|done]. cbn.
  destruct (os_seek _ _ _) as [[e|] d]; cbn; [by apply (ok_use f file h)|]. destruct (os_write _ _ _) as [r d']. cbn.
  by apply (ok_use (with_disk f (d, (disk f).2 ++ [CUse file])) file h); [apply (ok_use f file h)| |].
Qed.

Lemma ok_perform f o : fs_ok f -> fs_ok (perform f o).
Proof.
  intros Hf. destruct o; cbn; [| |by apply ok_opened|by apply ok_read|by apply ok_write|by apply ok_closed|..].
  all: unfold Stat, Lstat, Readdir, Mkdir, Rmdir, Remove, Rename, stat_result, unit_result; apply (ok_same f); try done; cbn;
    match goal with |- context [let '(_, _) := ?x in _] => by destruct x end.
Qed.

(** C24. The files of the backend.  Over any operating system, after any sequence of
    operations: no call was made on a file that was closed or never opened and none was
    closed twice; the table of handles has exactly the files that are open, each under one
    handle; and the handle that the next [Open] will give is not in it. *)
Theorem osfs_files abs root0 (d : D) (ops : list fop) :
  let f := fold_left perform ops (New abs root0 (d, @nil call)) in
  exists s, open_files (disk f).2 = Some s /\
    (forall n, n ∈ s <-> exists h, fhandles f !! h = Some n) /\
    (forall h h' n, fhandles f !! h = Some n -> fhandles f !! h' = Some n -> h = h') /\
    fhandles f !! handle_name (next f + 1) = None.
Proof.
  intros f. assert (fs_ok f) as [Ho Hl H1 Hm Hn Hx].
  { subst f. assert (fs_ok (New abs root0 (d, @nil call))) as H0.
    { split; cbn; try done. intros s [= <-] n. split; [set_solver|by intros [h ?]]. }
    revert H0. generalize (New abs root0 (d, @nil call)). induction ops as [|o ops IH]; intros f0 H0; [done|]. apply IH. by apply ok_perform. }
  destruct (open_files (disk f).2) as [s|]; [|done]. exists s. split; [done|]. split; [by apply Ho|]. split; [done|].
  destruct (fhandles f !! _) as [n|] eqn:E; [|done]. destruct (Hn _ _ E) as (i & Ei & Hi). apply osfs_name_inj in Ei; lia.
Qed.
End Files.

(* ------------------------------------------------------------------ *)
(** ** An operating system in memory, for evaluation *)

(** Files by path, and for an open file its path and position; directories are implied. *)
Record Mem := { mfiles : gmap bytes bytes; mopen : gmap nat (bytes * Z) }.

Definition enoent : berr := {| kind := KNotExist; text := str "no such file or directory" |}.
Definition einval : berr := {| kind := KOther; text := str "invalid argument" |}.
Definition below (dir p : bytes) : bool := seqb p dir || HasPrefix p (dir ++ str "/").

Definition mem_stat (p : bytes) (m : Mem) : (berr + FileInfo) * Mem :=
  (match mfiles m !! p with
   | Some c => inr {| fi_name := p; fi_size := blen c; fi_perm := 420; fi_dir := false; fi_mtime := 0 |}
   | None => inl enoent
   end, m).

#[export] Instance mem_os : OS Mem := {|
  os_stat := mem_stat; os_lstat := mem_stat;
  os_open p o _ n m :=
    match mfiles m !! p with
    | Some c => (None, {| mfiles := if isset o O_TRUNC then <[p := []]> (mfiles m) else mfiles m; mopen := <[n := (p, 0)]> (mopen m) |})
    | None => if isset o O_CREATE then (None, {| mfiles := <[p := []]> (mfiles m); mopen := <[n := (p, 0)]> (mopen m) |}) else (Some enoent, m)
    end;
  os_seek n off m :=
    if off <? 0 then (Some einval, m)
    else (None, {| mfiles := mfiles m; mopen := alter (fun e => (e.1, off)) n (mopen m) |});
  os_read n size m :=
    match mopen m !! n with
    | Some (p, off) =>
        let data := take (Z.to_nat size) (list.drop (Z.to_nat off) (default [] (mfiles m !! p))) in
        ((data, if seqb data [] then Some {| kind := KEOF; text := str "EOF" |} else None), m)
    | None => (([], Some einval), m)
    end;
  os_write n data m :=
    match mopen m !! n with
    | Some (p, off) =>
        let c := default [] (mfiles m !! p) in let o := Z.to_nat off in
        (None, {| mfiles := <[p := take o c ++ replicate (o - length c) Byte.x00 ++ data ++ list.drop (o + length data) c]> (mfiles m); mopen := mopen m |})
    | None => (Some einval, m)
    end;
  os_close n m := (None, {| mfiles := mfiles m; mopen := delete n (mopen m) |});
  os_readdir p m := (inr (omap (fun e => if below p e.1 then Some (e.1, (mem_stat e.1 m).1) else None) (map_to_list (mfiles m))), m);
  os_mkdir_all _ _ m := (None, m);
  os_remove_all p m := (None, {| mfiles := filter (fun e => below p e.1 = false) (mfiles m); mopen := mopen m |});
  os_remove p m := match mfiles m !! p with Some _ => (None, {| mfiles := delete p (mfiles m); mopen := mopen m |}) | None => (Some enoent, m) end;
  os_rename a b m := match mfiles m !! a with Some c => (None, {| mfiles := <[b := c]> (delete a (mfiles m)); mopen := mopen m |}) | None => (Some enoent, m) end |}.

#[export] Instance mem_reads : OSReads Mem.
Proof.
  constructor. intros f n d Hn. cbn. destruct (mopen d !! f) as [[p off]|]; cbn; [|unfold blen; cbn; lia].
  unfold blen. rewrite length_take. lia.
Qed.

Definition mem : Mem := {| mfiles := {[ str "/srv/d/x" := str "hello"; str "/srv/a" := str "abc" ]}; mopen := ∅ |}.
Definition fs0 : FS Mem := New (Some (str "/srv")) (str ".") mem.

(** A file through the server: opened, written, read back, closed, and then unknown. *)
Lemma session_roundtrip :
  let '(h, f) := Open (str "/new") (Z.lor OpenRead (Z.lor OpenWrite OpenCreate)) fs0 in
  h = inr (str "h1") /\
  let '(w, f) := Write (str "h1") 2 (str "ok") f in w = None /\
  (Read (str "h1") 0 10 f).1 = (Byte.x00 :: Byte.x00 :: str "ok", None) /\
  let '(c, f) := Close (str "h1") f in c = None /\ (Read (str "h1") 0 10 f).1 = ([], Some invalid).
Proof. by vm_compute. Qed.

(** RMDIR removes a directory with everything in it. *)
Lemma rmdir_is_recursive : (b_rmdir (str "/d") fs0).1 = None /\ mfiles (disk (b_rmdir (str "/d") fs0).2) !! str "/srv/d/x" = None.
Proof. by vm_compute. Qed.

(** An offset of 2^63 or more is a negative position. *)
Lemma huge_offset_is_negative h f file : getHandle f h = Some file -> (Read h (2 ^ 63) 1 f).1 = ([], Some einval).
Proof. intros E. unfold Read. by rewrite E. Qed.

(** The handle of a thousandth file is longer than the prefix of a directory handle:
    READDIR of it lists the directory of the rest of its name. *)
Definition replies {B} (o : outcome B) : option (list Packet) := match o with Continue s | Return s => Some (sent s) | SftpServer.Crash => None end.
Lemma file_handle_as_directory :
  let readdir real := replies (dispatch (mkSession {[ str "h1" := real ]} ∅ 1 fs0 []) (req_handle TypeReaddir 2 (str "h1"))) in
  readdir (handle_name 1000) = readdir (str "dir:0").
Proof. by vm_compute. Qed.

(** With this backend two requests panic the server. *)
Lemma osfs_readdir_panics :
  Serve fs0 (flat_map (fun p => WritePacket (PType p) (Payload p))
    [ {| PType := TypeInit; Payload := be_put 4 3 |}; req_open 1 (str "/a") 1; req_handle TypeReaddir 2 (str "h1") ]) = Some Panicked.
Proof. by vm_compute. Qed.
