(* ===== verification/Sftpd.v ===== *)
(** * sftp/cmd/sftpd/main.go: the SFTP daemon

    From the flags to the sessions: [main], a connection ([handle]), its channels and
    their requests ([handleSession]), each granted one an SFTP session of SftpServer.v on a
    backend of its own (Osfs.v).  The SSH package is not under src/: it is the class [SSH],
    and what it does with the password callback is [SSHAuth]. *)

From S2P Require Import Prelude GoStrings Paths SftpWire SftpServer Osfs.

(** The password callback, which is not given the user that it ignores. *)
Definition PasswordCallback (pass : bytes) : bool := seqb pass (str "demo").

(** A request of a channel: its type, and the name in its payload if [ssh.Unmarshal] can
    read it. *)
Record request := { rtype : bytes; rname : option bytes }.

(** A channel that a client opens: its type, whether [Accept] works, its requests, and what
    the client sends on it. *)
Record channel := { ChannelType : bytes; accepts : bool; requests : list request; sends : bytes }.

(** Package ssh as [main] and [handle] use it.  A connection has the passwords that its
    client offers; [NewServerConn] ends with the channels that it opens, or an error. *)
Class SSH := {
  Conn : Type;
  offered : Conn -> list bytes;
  ParsePrivateKey : bytes -> bool;
  NewServerConn : (bytes -> bool) -> Conn -> option (list channel)
}.

(** With a password callback and nothing else, a connection is made for a password that the
    callback accepts. *)
Class SSHAuth `{!SSH} : Prop := {
  authenticated : forall callback conn chans,
    NewServerConn callback conn = Some chans -> exists pass, pass ∈ offered conn /\ callback pass = true
}.

Section Daemon.
Context {D : Type} `{!OS D} `{!SSH}.

(** [handleSession]: the replies to the requests up to the granted one, and the SFTP
    session, which depends on the disk as it finds it.  Requests after it are not read.
    [abs] is that of [osfs.New]. *)
Fixpoint handleSession (abs : option bytes) (root : bytes) (input : bytes) (reqs : list request)
    : list bool * option (D -> option (serve_end (B := FS D))) :=
  match reqs with
  | [] => ([], None)
  | r :: rest =>
      let refused := let '(l, s) := handleSession abs root input rest in (false :: l, s) in
      if seqb (rtype r) (str "subsystem") then
        match rname r with
        | None => refused
        | Some name =>
            if negb (seqb name (str "sftp")) then refused
            else ([true], Some (fun d => Serve (New abs root d) input))
        end
      else refused
  end.

Inductive channel_end :=
| Rejected
| NotAccepted
| Handled (replies : list bool) (session : option (D -> option (serve_end (B := FS D)))).

Definition handle_channel (abs : option bytes) (root : bytes) (ch : channel) : channel_end :=
  if negb (seqb (ChannelType ch) (str "session")) then Rejected
  else if negb (accepts ch) then NotAccepted
  else let '(replies, session) := handleSession abs root (sends ch) (requests ch) in Handled replies session.

(** [None] is a failed handshake. *)
Definition handle (abs : option bytes) (root : bytes) (conn : Conn) : option (list channel_end) :=
  chans ← NewServerConn PasswordCallback conn; Some (map (handle_channel abs root) chans).

Inductive fatal := NoHostKey | ReadHostKey | ParseHostKey | ListenFailed.

(** [main]: [ReadFile] and [listens] are the file system and the network; a connection that
    [Accept] fails to give is [None]. *)
Definition main (abs : option bytes) (root hostKey : bytes) (ReadFile : bytes -> option bytes) (listens : bool)
    (conns : list (option Conn)) : fatal + list (option (list channel_end)) :=
  if seqb hostKey [] then inl NoHostKey
  else match ReadFile hostKey with
       | None => inl ReadHostKey
       | Some keyBytes =>
           if negb (ParsePrivateKey keyBytes) then inl ParseHostKey
           else if negb listens then inl ListenFailed
           else inr (omap (fun c => match c with Some c => Some (handle abs root c) | None => None end) conns)
       end.

(* ------------------------------------------------------------------ *)
(** ** Properties *)

Definition starts_sftp (r : request) : bool :=
  seqb (rtype r) (str "subsystem") && match rname r with Some name => seqb name (str "sftp") | None => false end.

(** The session starts at the first request for the subsystem sftp, the only one that is
    granted; every other request before it is refused. *)
Lemma handleSession_spec abs root input reqs :
  handleSession abs root input reqs =
  match list_find (fun r => starts_sftp r = true) reqs with
  | Some (i, _) => (replicate i false ++ [true], Some (fun d => Serve (New abs root d) input))
  | None => (replicate (length reqs) false, None)
  end.
Proof.
  induction reqs as [|r rest IH]; [done|].
  assert (handleSession abs root input (r :: rest) =
          if starts_sftp r then ([true], Some (fun d => Serve (New abs root d) input))
          else let '(l, s) := handleSession abs root input rest in (false :: l, s)) as ->.
  { cbn [handleSession]. unfold starts_sftp. destruct (seqb (rtype r) _); [|done]. destruct (rname r) as [n|]; [|done]. by destruct (seqb n _). }
  rewrite IH. cbn [list_find]. destruct (decide (starts_sftp r = true)) as [->|Hn]; [done|]. apply not_true_is_false in Hn as ->.
  by destruct (list_find _ rest) as [[i x]|].
Qed.

(** A channel with an SFTP session. *)
Lemma handle_channel_session abs root ch replies session :
  handle_channel abs root ch = Handled replies (Some session) ->
  ChannelType ch = str "session" /\ accepts ch = true /\ (exists r, r ∈ requests ch /\ starts_sftp r = true) /\
  session = (fun d => Serve (New abs root d) (sends ch)).
Proof.
  unfold handle_channel. destruct (seqb_spec (ChannelType ch) (str "session")) as [E|]; [|done]. destruct (accepts ch); [|done]. cbn.
  rewrite handleSession_spec. destruct (list_find _ _) as [[i r]|] eqn:Ef; [|done]. intros [= _ <-].
  apply list_find_Some in Ef as (Hl & Hr & _). repeat split; [done|]. exists r. split; [|done]. by eapply list_elem_of_lookup_2.
Qed.

(** Who gets a session.  Every SFTP session that the daemon runs is on a connection
    whose client offered the password, on a channel of type session that it accepted, after
    a request for the subsystem sftp; it serves what the client sends on that channel, and
    begins with no open handle. *)
Theorem sftpd_sessions `{!SSHAuth} abs root hostKey ReadFile listens conns ends :
  main abs root hostKey ReadFile listens conns = inr ends ->
  forall chans replies session, Some chans ∈ ends -> Handled replies (Some session) ∈ chans ->
  exists conn ch, Some conn ∈ conns /\ str "demo" ∈ offered conn /\
    ChannelType ch = str "session" /\ (exists r, r ∈ requests ch /\ starts_sftp r = true) /\
    forall d, session d = Serve (mkFS (default root abs) ∅ 0 0 d) (sends ch).
Proof.
  unfold main. if_step; [done|]. destruct (ReadFile hostKey) as [key|]; [|done]. if_step; [done|]. if_step; [done|]. intros [= <-] chans replies session Hin Hs.
  apply list_elem_of_omap in Hin as ([conn|] & Hc & Eh); [|done]. injection Eh as Eh. unfold handle in Eh.
  destruct (NewServerConn PasswordCallback conn) as [chs|] eqn:En; [|done]. injection Eh as <-.
  destruct (authenticated _ _ _ En) as (pass & Hp & Hcb). unfold PasswordCallback in Hcb. destruct (seqb_spec pass (str "demo")) as [->|]; [|done].
  apply list_elem_of_fmap in Hs as (ch & Hch & _). symmetry in Hch. apply handle_channel_session in Hch as (E1 & _ & E3 & ->).
  by exists conn, ch.
Qed.
End Daemon.

(* ------------------------------------------------------------------ *)
(** ** An SSH package for evaluation *)

#[local] Instance demo_ssh : SSH := {|
  Conn := list bytes * list channel; offered := fst; ParsePrivateKey k := negb (seqb k []);
  NewServerConn cb c := if existsb cb c.1 then Some c.2 else None |}.
#[local] Instance demo_auth : SSHAuth.
Proof.
  constructor. intros cb [ps chs] chans. cbn. destruct (existsb cb ps) eqn:E; [|done]. intros _.
  apply existsb_exists in E as (p & Hp & Hc). exists p. by rewrite list_elem_of_In.
Qed.

Definition subsystem (name : bytes) : request := {| rtype := str "subsystem"; rname := Some name |}.
Definition sftp_channel (input : bytes) : channel :=
  {| ChannelType := str "session"; accepts := true; requests := [{| rtype := str "env"; rname := None |}; subsystem (str "sftp")]; sends := input |}.
Definition packets (ps : list Packet) : bytes := flat_map (fun p => WritePacket (PType p) (Payload p)) ps.
Definition demo_conn (input : bytes) : Conn := ([str "guess"; str "demo"], [sftp_channel input]).
Definition demo_ends (input : bytes) : list (option (list (channel_end (D := Mem)))) :=
  [Some [Handled [false; true] (Some (fun d => Serve (New (Some (str "/srv")) (str ".") d) input))]].

Lemma sftpd_sessions_witness :
  exists conn ch, Some conn ∈ [None; Some (demo_conn [])] /\ str "demo" ∈ offered conn /\
    ChannelType ch = str "session" /\ (exists r, r ∈ requests ch /\ starts_sftp r = true) /\
    forall d, Serve (New (Some (str "/srv")) (str ".") d) [] = Serve (mkFS (default (str ".") (Some (str "/srv"))) ∅ 0 0 d) (sends ch).
Proof.
  apply (sftpd_sessions (D := Mem) (Some (str "/srv")) (str ".") (str "key") (fun _ => Some (str "k")) true [None; Some (demo_conn [])] (demo_ends []) eq_refl
    [Handled [false; true] (Some (fun d => Serve (New (Some (str "/srv")) (str ".") d) []))] [false; true]); [left|left].
Defined.

(** One client stops the daemon for all: a session that lists the handle of a file as a
    directory panics, and nothing in the daemon recovers. *)
Definition fatal_packets : bytes :=
  packets [ {| PType := TypeInit; Payload := be_put 4 3 |}; req_open 1 (str "/a") 1; req_handle TypeReaddir 2 (str "h1") ].

Lemma sftpd_client_panics :
  exists chans replies session,
    main (D := Mem) (Some (str "/srv")) (str ".") (str "key") (fun _ => Some (str "k")) true [Some (demo_conn fatal_packets)] = inr [Some chans] /\
    Handled replies (Some session) ∈ chans /\ session mem = Some Panicked.
Proof. do 3 eexists. split; [reflexivity|]. split; [by left|]. by vm_compute. Qed.
