(* ===== verification/Dcc.v ===== *)
(** * irc/client/dcc/dcc.go: offers, CTCP framing, sessions and the manager
    The text of DCC offers, the state of a transfer session and the manager's table.
    The transfers themselves are in DccTransfer.v.  A [*Session] is a number in a store,
    shared by the manager's map and the goroutine of the transfer. *)
From S2P Require Import Prelude GoStrings GoEncoding Paths.

(** ** strconv.ParseUint with a bit size *)
Fixpoint parse_uint_max (max acc : Z) (s : bytes) : Z * option num_err :=
  match s with
  | [] => (acc, None)
  | c :: s' =>
      if is_digit c then
        if max_u64 / 10 + 1 <=? acc then (max, Some ErrRange)
        else let n1 := acc * 10 + (bz c - 48) in
             if max <? n1 then (max, Some ErrRange) else parse_uint_max max n1 s'
      else (0, Some ErrSyntax)
  end.

Definition ParseUintBits (w : Z) (s : bytes) : Z * option num_err :=
  match s with [] => (0, Some ErrSyntax) | _ => parse_uint_max (2 ^ w - 1) 0 s end.

(** ** filepath.Base on Unix *)
Definition Base (path : bytes) : bytes :=
  if seqb path [] then str "."
  else
    let p := TrimRight (str "/") path in
    let p := match LastIndexByte p slash with Some i => drop (S i) p | None => p end in
    if seqb p [] then str "/" else p.

(* ------------------------------------------------------------------ *)
(** ** Addresses: a [net.IP] is its bytes, nil the empty slice *)
Class GoIP := { ParseIP : bytes -> bytes }.

Definition v4_prefix : bytes := replicate 10 Byte.x00 ++ [Byte.xff; Byte.xff].

Definition To4 (ip : bytes) : option bytes :=
  if blen ip =? 4 then Some ip
  else if (blen ip =? 16) && HasPrefix ip v4_prefix then Some (drop 12 ip)
  else None.

Definition uint32ToIP (n : Z) : bytes := be_put 4 n.

Definition ipToUint32 (ip : bytes) : Z := match To4 ip with None => 0 | Some ip4 => be_get ip4 end.

(* ------------------------------------------------------------------ *)
(** ** Offers *)
Record SendRequest := { Filename : bytes; IP : bytes; Port : Z; Size : Z; Token : Z; Passive : bool }.

Inductive dcc_err := EMalformedSend | EInvalidIP | EInvalidPort.

Definition ParseSendRequest `{GoIP} (args : bytes) : res dcc_err SendRequest :=
  match Fields args with
  | filename :: ipText :: portText :: rest =>
      let! ip :=
        match ParseUintBits 32 ipText with
        | (ipInt, None) => Ok (uint32ToIP ipInt)
        | _ => let ip := ParseIP ipText in if seqb ip [] then Err EInvalidIP else Ok ip
        end in
      match ParseUintBits 16 portText with
      | (port, None) =>
          let size := match rest with s :: _ => (ParseInt s).1 | [] => 0 end in
          let token := match rest with _ :: t :: _ => (ParseUintBits 32 t).1 | _ => 0 end in
          let has_token := match rest with _ :: _ :: _ => true | _ => false end in
          Ok {| Filename := filename; IP := ip; Port := port; Size := size; Token := token;
                Passive := (port =? 0) || has_token |}
      | _ => Err EInvalidPort
      end
  | _ => Err EMalformedSend
  end.

(** [fmt.Sprintf] with words and numbers between spaces. *)
Definition FormatSendOffer (filename ip : bytes) (port size token : Z) : bytes :=
  let ipInt := ipToUint32 ip in
  if negb (token =? 0)
  then str "SEND " ++ filename ++ str " " ++ Itoa ipInt ++ str " " ++ Itoa port ++ str " " ++ Itoa size ++ str " " ++ Itoa token
  else str "SEND " ++ filename ++ str " " ++ Itoa ipInt ++ str " " ++ Itoa port ++ str " " ++ Itoa size.

Definition FormatResumeRequest (filename : bytes) (port pos : Z) : bytes :=
  str "RESUME " ++ filename ++ str " " ++ Itoa port ++ str " " ++ Itoa pos.

Definition FormatResumeAccept (filename : bytes) (port pos : Z) : bytes :=
  str "ACCEPT " ++ filename ++ str " " ++ Itoa port ++ str " " ++ Itoa pos.

(* ------------------------------------------------------------------ *)
(** ** CTCP *)
Definition ctcpDelim : bytes := [Byte.x01].

Definition EncodeCTCP (cmd args : bytes) : bytes :=
  if seqb args [] then ctcpDelim ++ cmd ++ ctcpDelim else ctcpDelim ++ cmd ++ str " " ++ args ++ ctcpDelim.

Definition DecodeCTCP `{GoUnicode} (text : bytes) : option (bytes * bytes) :=
  if (blen text <? 2) || negb (bool_decide (head text = Some Byte.x01)) || negb (bool_decide (last text = Some Byte.x01))
  then None
  else
    let inner := removelast (tail text) in
    match IndexByte inner " "%byte with
    | Some sp => Some (ToUpper (take sp inner), drop (S sp) inner)
    | None => Some (ToUpper inner, [])
    end.

(* ------------------------------------------------------------------ *)
(** ** Sessions *)
Inductive TransferState := StatePending | StateActive | StateCompleted | StateFailed | StateCancelled.
#[export] Instance TransferState_eq_dec : EqDecision TransferState.
Proof. solve_decision. Defined.

Definition TransferState_String (s : TransferState) : bytes :=
  match s with
  | StatePending => str "pending" | StateActive => str "active" | StateCompleted => str "completed"
  | StateFailed => str "failed" | StateCancelled => str "cancelled"
  end.

(** The session's connection: none yet, open, closed. *)
Inductive Conn := NoConn | Open | Closed.

Record Session := {
  ID : Z;
  SFilename : bytes;
  SSize : Z;
  Transferred : Z;
  State : TransferState;
  SPassive : bool;
  SToken : Z;
  Resume : Z;
  Err_ : option bytes;
  conn : Conn;
  done : bool
}.

Definition newSession (id : Z) (filename : bytes) (size : Z) : Session :=
  {| ID := id; SFilename := Base filename; SSize := size; Transferred := 0; State := StatePending; SPassive := false;
     SToken := 0; Resume := 0; Err_ := None; conn := NoConn; done := false |}.

Definition set_progress (s : Session) (t : Z) (st : TransferState) (e : option bytes) (c : Conn) (d : bool) : Session :=
  {| ID := ID s; SFilename := SFilename s; SSize := SSize s; Transferred := t; State := st; SPassive := SPassive s;
     SToken := SToken s; Resume := Resume s; Err_ := e; conn := c; done := d |}.

Definition close_conn (c : Conn) : Conn := match c with NoConn => NoConn | _ => Closed end.

Definition Cancel (s : Session) : Session :=
  set_progress s (Transferred s) StateCancelled (Err_ s) (close_conn (conn s)) (done s).

Definition setConn (s : Session) : Session := set_progress s (Transferred s) (State s) (Err_ s) Open (done s).

Definition store_state (st : TransferState) (s : Session) : Session :=
  set_progress s (Transferred s) st (Err_ s) (conn s) (done s).

Definition store_transferred (t : Z) (s : Session) : Session :=
  set_progress s t (State s) (Err_ s) (conn s) (done s).

Definition finish (err : option bytes) (s : Session) : Session :=
  match err with
  | Some e =>
      if negb (bool_decide (State s = StateCancelled))
      then set_progress s (Transferred s) StateFailed (Some e) (close_conn (conn s)) true
      else set_progress s (Transferred s) (State s) (Err_ s) (close_conn (conn s)) true
  | None => set_progress s (Transferred s) StateCompleted (Err_ s) (close_conn (conn s)) true
  end.

(** [Wait] returns once the channel is closed, with the error. *)
Definition Wait (s : Session) : option (option bytes) := if done s then Some (Err_ s) else None.

Definition Progress (s : Session) : Z * Z := (Transferred s, SSize s).

(* ------------------------------------------------------------------ *)
(** ** The manager *)
Record Manager := { store : gmap nat Session; sessions : gmap Z nat; nextID : Z }.

Definition NewManager : Manager := {| store := ∅; sessions := ∅; nextID := 0 |}.

Definition Get (m : Manager) (id : Z) : option Session := n ← sessions m !! id; store m !! n.

(** All sessions, in the order the map is walked. *)
Definition Sessions (m : Manager) : list Session := omap (fun n => store m !! n) (map_to_list (sessions m)).*2.

(** A new session object, entered under a new id. *)
Definition new_entry (m : Manager) (filename : bytes) (size : Z) : Manager * nat :=
  let id := u32 (nextID m + 1) in
  let n := fresh (dom (store m)) in
  ({| store := <[n := newSession id filename size]> (store m); sessions := <[id := n]> (sessions m); nextID := id |}, n).

Definition drop_entry (m : Manager) (id : Z) : Manager :=
  {| store := store m; sessions := delete id (sessions m); nextID := nextID m |}.

Definition Receive (m : Manager) (req : SendRequest) : Manager * nat := new_entry m (Filename req) (Size req).

(** [Send] up to the start of its goroutine.  [stat] is the outcome of [os.Stat] (an
    error, or the size), [listen] that of [net.Listen] (an error, or the address); on its
    error the code closes a listener that is nil. *)
Definition Send (m : Manager) (filename : bytes) (stat : bytes + Z) (listen : bytes + bytes * Z) :
  Manager * res bytes (nat * bytes) :=
  match stat with
  | inl e => (m, Err e)
  | inr size =>
      let '(m, n) := new_entry m filename size in
      match listen with
      | inl e => (drop_entry m (nextID m), Panic)
      | inr (ip, port) =>
          let unspecified := seqb ip [] || seqb ip (replicate 4 Byte.x00) || seqb ip (replicate 16 Byte.x00)
                             || bool_decide (To4 ip = Some (replicate 4 Byte.x00)) in
          let localIP := if unspecified then be_put 4 2130706433 else ip in
          (m, Ok (n, FormatSendOffer (Base filename) localIP (u16 port) size 0))
      end
  end.

(** What the goroutine of a transfer does last. *)
Definition forget (m : Manager) (n : nat) : Manager :=
  match store m !! n with Some s => drop_entry m (ID s) | None => m end.

(** Where a file that is received is written. *)
Definition destPath (destDir filename : bytes) : bytes := path_join [destDir; Base filename].

(* ------------------------------------------------------------------ *)
(** ** Lemmas *)
Lemma is_digit_word c : is_digit c = true -> word_char c = true.
Proof.
  rewrite is_digit_spec. intros Hd. unfold word_char. rewrite andb_true_iff. split; [lia|].
  apply negb_true_iff. unfold is_space. cbn [existsb]. repeat (rewrite (proj2 (Z.eqb_neq _ _)) by lia). cbn [orb]. lia.
Qed.

(** A printed number is a word. *)
Lemma Itoa_word z : is_word (Itoa z) = true.
Proof.
  unfold is_word. rewrite seqb_ne.
  - apply forallb_forall. intros c Hc%list_elem_of_In. apply Itoa_chars in Hc as [Hd| ->]; [by apply is_digit_word|done].
  - unfold Itoa. case_match; [done|]. destruct (fmt_uint_head z) as (c & s & -> & _); [lia|done].
Qed.

Lemma parse_uint_max_ok max acc s v :
  0 <= acc -> max <= max_u64 -> parse_uint_loop acc s = (v, None) -> v <= max -> parse_uint_max max acc s = (v, None).
Proof.
  intros Ha Hm. revert acc Ha. induction s as [|c s IH]; intros acc Ha; cbn [parse_uint_loop parse_uint_max]; [done|].
  destruct (is_digit c) eqn:Hd; [|done]. apply is_digit_spec in Hd.
  destruct (Z.leb_spec (max_u64 / 10 + 1) acc); [done|].
  destruct (Z.ltb_spec max_u64 (acc * 10 + (bz c - 48))); [done|]. intros Hs Hv.
  destruct (Z.ltb_spec max (acc * 10 + (bz c - 48))) as [Hlt|]; [|apply IH; [lia|done..]].
  exfalso. assert (forall s acc v, 0 <= acc -> parse_uint_loop acc s = (v, None) -> acc <= v) as Hmono.
  { clear. induction s as [|d s IH]; intros acc v Ha; cbn [parse_uint_loop]; [intros [= ->]; lia|].
    destruct (is_digit d) eqn:Hd; [|done]. apply is_digit_spec in Hd. do 2 (case_match; [done|]).
    intros Hs%IH; lia. }
  apply Hmono in Hs; lia.
Qed.

Lemma ParseUintBits_Itoa w n : 0 <= w <= 64 -> 0 <= n < 2 ^ w -> ParseUintBits w (Itoa n) = (n, None).
Proof.
  intros Hw Hn. assert (2 ^ w <= 2 ^ 64) by (apply Z.pow_le_mono_r; lia).
  assert (n <= max_u64) by (unfold max_u64; lia).
  unfold Itoa. destruct (Z.ltb_spec n 0) as [|_]; [lia|]. pose proof (ParseUint_fmt n ltac:(lia)) as Hp.
  unfold ParseUintBits, ParseUint in *. destruct (fmt_uint n); [done|]. apply parse_uint_max_ok; [lia|unfold max_u64; lia|done|lia].
Qed.

Lemma ipToUint32_range ip : 0 <= ipToUint32 ip < 2 ^ 32.
Proof.
  unfold ipToUint32. destruct (To4 ip) as [ip4|] eqn:E; [|lia]. pose proof (be_get_range ip4) as H.
  assert (blen ip4 = 4) as Hl; [|by rewrite Hl in H]. revert E. unfold To4.
  destruct (Z.eqb_spec (blen ip) 4); [by intros [= <-]|]. destruct (Z.eqb_spec (blen ip) 16) as [H16|]; [|done].
  case_match; [|done]. intros [= <-]. unfold blen in *. rewrite length_drop. lia.
Qed.

Lemma uint32ToIP_of ip ip4 : To4 ip = Some ip4 -> uint32ToIP (ipToUint32 ip) = ip4.
Proof.
  intros E. unfold ipToUint32, uint32ToIP. rewrite E. assert (length ip4 = 4%nat) as <-; [|apply be_put_get].
  revert E. unfold To4. destruct (Z.eqb_spec (blen ip) 4) as [H4|]; [intros [= <-]; unfold blen in H4; lia|].
  destruct (Z.eqb_spec (blen ip) 16) as [H16|]; [|done]. case_match; [|done]. intros [= <-]. rewrite length_drop. unfold blen in H16. lia.
Qed.

(** The words of an offer after its first. *)
Definition offer_words (filename ip : bytes) (port size token : Z) : list bytes :=
  [filename; Itoa (ipToUint32 ip); Itoa port; Itoa size] ++ if token =? 0 then [] else [Itoa token].

Lemma FormatSendOffer_words filename ip port size token :
  FormatSendOffer filename ip port size token = str "SEND " ++ Join (offer_words filename ip port size token) (str " ").
Proof. unfold FormatSendOffer, offer_words. by destruct (token =? 0). Qed.

(* ------------------------------------------------------------------ *)
(** ** Properties *)

(** An offer is understood: what [FormatSendOffer] writes after the word SEND is parsed
    to the file name, address, port, size and token it was made of, and counts as passive
    exactly when it has no port or a token (a file name of one ASCII word, an IPv4
    address). *)
Theorem offer_roundtrip `{GoIP} (filename ip ip4 : bytes) (port size token : Z) :
  is_word filename = true -> To4 ip = Some ip4 -> in_u 16 port -> in_i64 size -> in_u 32 token ->
  ParseSendRequest (TrimPrefix (FormatSendOffer filename ip port size token) (str "SEND ")) =
  Ok {| Filename := filename; IP := ip4; Port := port; Size := size; Token := token;
        Passive := (port =? 0) || negb (token =? 0) |}.
Proof.
  intros Hf Hip Hp Hs Ht. rewrite FormatSendOffer_words. unfold TrimPrefix. rewrite HasPrefix_app, drop_app_length.
  unfold ParseSendRequest. rewrite Fields_Join.
  2: { unfold offer_words. repeat (apply Forall_cons; split; [done || apply Itoa_word|]). case_match; repeat constructor. apply Itoa_word. }
  unfold offer_words. cbn [app]. rewrite ParseUintBits_Itoa by (lia || apply ipToUint32_range). cbn [res_bind].
  rewrite ParseUintBits_Itoa by (lia || done). cbn [res_bind]. rewrite ParseInt_Itoa by done.
  rewrite (uint32ToIP_of _ _ Hip). destruct (Z.eqb_spec token 0) as [->|Hn]; [done|].
  rewrite ParseUintBits_Itoa by (lia || done). done.
Qed.

(** CTCP framing: decoding an encoded command gives the command in capitals and its
    arguments, whatever the arguments hold (a command without spaces). *)
Theorem ctcp_roundtrip `{GoUnicode} (cmd args : bytes) :
  " "%byte ∉ cmd -> DecodeCTCP (EncodeCTCP cmd args) = Some (ToUpper cmd, args).
Proof.
  intros Hc. unfold EncodeCTCP.
  assert (forall inner, DecodeCTCP (ctcpDelim ++ inner ++ ctcpDelim) =
    match IndexByte inner " "%byte with Some sp => Some (ToUpper (take sp inner), drop (S sp) inner) | None => Some (ToUpper inner, []) end) as E.
  { intros inner. unfold DecodeCTCP, ctcpDelim. cbn [app head tail].
    rewrite (proj2 (Z.ltb_ge _ 2)) by (unfold blen; cbn; rewrite length_app; cbn; lia).
    rewrite bool_decide_eq_true_2 by done.
    change (Byte.x01 :: inner ++ [Byte.x01]) with ((Byte.x01 :: inner) ++ [Byte.x01]). rewrite last_snoc.
    rewrite bool_decide_eq_true_2 by done. cbn [negb orb app tail]. by rewrite removelast_last. }
  destruct (seqb_spec args []) as [->|Hne].
  - rewrite E. by rewrite (proj2 (IndexByte_None cmd _) Hc).
  - replace (ctcpDelim ++ cmd ++ str " " ++ args ++ ctcpDelim) with (ctcpDelim ++ (cmd ++ " "%byte :: args) ++ ctcpDelim)
      by (rewrite <- !app_assoc; done).
    rewrite E, IndexByte_app by done. by rewrite take_app_length, drop_app_S.
Qed.

Lemma LastIndexByte_None s c : LastIndexByte s c = None -> c ∉ s.
Proof.
  induction s as [|y s IH]; [intros _; apply not_elem_of_nil|]. cbn [LastIndexByte].
  destruct (LastIndexByte s c); [done|]. destruct (beqb_spec y c); [done|]. intros _. apply not_elem_of_cons. split; [done|by apply IH].
Qed.

Lemma LastIndexByte_Some s c i : LastIndexByte s c = Some i -> c ∉ drop (S i) s.
Proof.
  revert i. induction s as [|x s IH]; intros i; cbn [LastIndexByte]; [done|].
  destruct (LastIndexByte s c) as [j|] eqn:E; [intros [= <-]; by apply IH|].
  destruct (beqb x c); [|done]. intros [= <-]. by apply LastIndexByte_None.
Qed.

(** The base of a path is one segment. *)
Lemma Base_segment path : Base path = str "/" \/ slash ∉ Base path.
Proof.
  unfold Base. destruct (seqb_spec path []); [right; vm_compute; set_solver|].
  set (p := TrimRight _ _). destruct (LastIndexByte p slash) as [i|] eqn:E.
  - case_match; [by left|right; by eapply LastIndexByte_Some].
  - case_match; [by left|right; by apply LastIndexByte_None].
Qed.

Lemma Base_nonempty path : Base path <> [].
Proof. unfold Base. repeat case_match; try done; by match goal with H : seqb ?x [] = false |- _ => intros E; rewrite E in H end. Qed.

(** A received file stays in its directory: whatever file name an offer carries, the
    path that is opened is directly in the destination directory, under the last segment
    of the name; the names that have no such segment lead to the directory itself or its
    parent, which cannot be opened as files. *)
Theorem destPath_confined (ds : list bytes) (filename : bytes) :
  Forall (fun s => normal s = true) ds ->
  let name := Base filename in
  (normal name = true /\ destPath (abs_path ds) filename = abs_path (ds ++ [name])) \/
  ((name = str "/" \/ name = str ".") /\ destPath (abs_path ds) filename = abs_path ds) \/
  (name = str ".." /\ destPath (abs_path ds) filename = abs_path (removelast ds)).
Proof.
  intros Hd name.
  assert (destPath (abs_path ds) filename = abs_path (walk ds (Split name slash))) as ->.
  { unfold destPath. fold name. rewrite path_join_root. cbn [Join]. change (str "/" ++ name) with (slash :: name).
    by rewrite Split_app_sep, walk_app, walk_abs. }
  pose proof (Base_segment filename) as Hb. fold name in Hb. destruct Hb as [E|Hs]; [rewrite E; by right; left; auto|].
  rewrite Split_none by done. cbn [walk]. destruct (is_dot name) eqn:E1.
  { right. left. split; [|done]. unfold is_dot in E1. apply orb_true_iff in E1 as [E1|E1]; apply bool_decide_eq_true in E1; [|by right].
    by destruct (Base_nonempty filename). }
  destruct (is_dotdot name) eqn:E2; [right; right; split; [by apply bool_decide_eq_true in E2|done]|left].
  split; [|done]. unfold normal. rewrite E1, E2. cbn [negb andb]. apply negb_true_iff, not_true_iff_false.
  by rewrite in_set_spec.
Qed.

(* ------------------------------------------------------------------ *)
(** ** Sessions and the manager *)
(** Every entry of the table is the session with that id. *)
Definition wf_manager (m : Manager) : Prop :=
  map_Forall (fun id n => exists s, store m !! n = Some s /\ ID s = id) (sessions m).

Lemma new_entry_wf m filename size : wf_manager m -> wf_manager (new_entry m filename size).1.
Proof.
  intros Hw id n. cbn. rewrite lookup_insert_Some. intros [[<- <-]|[Hne Hn]].
  - eexists. by rewrite lookup_insert_eq.
  - destruct (Hw id n Hn) as (s & Hs & Hid). exists s. split; [|done]. rewrite lookup_insert_ne; [done|].
    intros E. pose proof (is_fresh (dom (store m))) as Hf. rewrite E in Hf. apply Hf. by apply elem_of_dom_2 in Hs.
Qed.

Lemma drop_entry_wf m id : wf_manager m -> wf_manager (drop_entry m id).
Proof. intros Hw k n. cbn. rewrite lookup_delete_Some. intros [_ Hn]. by apply Hw. Qed.

(** The manager's table: every operation keeps each id tied to the session that has
    it, and a session just made can be found under the id it was given until its
    transfer ends. *)
Theorem manager_table m (filename : bytes) (size : Z) (stat : bytes + Z) (listen : bytes + bytes * Z) (n : nat) :
  wf_manager m ->
  wf_manager (Send m filename stat listen).1 /\ wf_manager (forget m n) /\
  let '(m', n') := new_entry m filename size in
  wf_manager m' /\ store m !! n' = None /\
  exists s, store m' !! n' = Some s /\ State s = StatePending /\ done s = false /\ ID s = u32 (nextID m + 1) /\
    Get m' (ID s) = Some s /\ Get (forget m' n') (ID s) = None.
Proof.
  intros Hw. split_and!.
  - unfold Send. destruct stat as [e|sz]; [done|]. pose proof (new_entry_wf m filename sz Hw) as H.
    destruct (new_entry m filename sz) as [m' n']. destruct listen as [e|[ip port]]; [by apply drop_entry_wf|done].
  - unfold forget. case_match; [by apply drop_entry_wf|done].
  - pose proof (new_entry_wf m filename size Hw) as H. destruct (new_entry m filename size) as [m' n'] eqn:E.
    injection E as <- <-. split; [done|]. split; [apply not_elem_of_dom, is_fresh|].
    eexists. cbn. rewrite lookup_insert_eq. split_and!; try done.
    + unfold Get. cbn. rewrite lookup_insert_eq. cbn. by rewrite lookup_insert_eq.
    + unfold Get, forget. cbn. rewrite lookup_insert_eq. cbn. by rewrite lookup_delete_eq.
Qed.

(** [finish] is final for the waiters: the channel is closed, the connection too, and
    the result is an error exactly when the transfer failed of its own. *)
Lemma finish_waits err s :
  exists r, Wait (finish err s) = Some r /\ conn (finish err s) = close_conn (conn s) /\
    (State (finish err s) = StateFailed -> State s <> StateFailed -> r = err).
Proof. unfold finish, Wait. destruct err as [e|]; [case_bool_decide|]; eexists; split_and!; cbn; try done; intros H; congruence. Qed.

(** A transfer that finds itself cancelled calls [finish(nil)], which makes it completed. *)
Lemma cancelled_becomes_completed s : State (Cancel s) = StateCancelled /\ State (finish None (Cancel s)) = StateCompleted.
Proof. done. Qed.

(** A cancellation before the connection is made is overwritten too. *)
Lemma early_cancel_lost s : State (store_state StateActive (setConn (Cancel s))) = StateActive.
Proof. done. Qed.

(** An address that cannot be listened on panics instead of returning the error. *)
Lemma listen_error_panics m filename size e : (Send m filename (inr size) (inl e)).2 = Panic.
Proof. done. Qed.

(** The offer as it is written, with its first word, is not accepted: the comment of
    [ParseSendRequest] gives that form. *)
Lemma offer_with_SEND_refused :
  let _ : GoIP := {| ParseIP _ := [] |} in
  ParseSendRequest (FormatSendOffer (str "file.txt") (be_put 4 2130706433) 1234 1000 0) = Err EInvalidIP.
Proof. vm_compute. reflexivity. Qed.

(** A file name with a space shifts every field: here the transfer has another address,
    port and name than the offer. *)
Lemma offer_with_space_misread :
  let _ : GoIP := {| ParseIP _ := [] |} in
  ParseSendRequest (TrimPrefix (FormatSendOffer (str "part 1") (be_put 4 2130706433) 80 1000 0) (str "SEND ")) =
  Err EInvalidPort /\
  ParseSendRequest (TrimPrefix (FormatSendOffer (str "part 1") (be_put 4 25) 80 1000 0) (str "SEND ")) =
  Ok {| Filename := str "part"; IP := be_put 4 1; Port := 25; Size := 80; Token := 1000; Passive := true |}.
Proof. vm_compute. done. Qed.

(* ------------------------------------------------------------------ *)
(** ** Witnesses *)
Lemma offer_roundtrip_witness :
  let _ : GoIP := {| ParseIP _ := [] |} in
  ParseSendRequest (TrimPrefix (FormatSendOffer (str "file.mkv") (be_put 4 2130706433) 0 500000 42) (str "SEND ")) =
  Ok {| Filename := str "file.mkv"; IP := be_put 4 2130706433; Port := 0; Size := 500000; Token := 42; Passive := true |}.
Proof.
  intros I0. apply (@offer_roundtrip I0 (str "file.mkv") (be_put 4 2130706433) (be_put 4 2130706433) 0 500000 42);
    try reflexivity; unfold in_u, in_i64; lia.
Defined.

Lemma ctcp_roundtrip_witness :
  @DecodeCTCP ascii_only (EncodeCTCP (str "DCC") (str "SEND a 1 2 3")) = Some (str "DCC", str "SEND a 1 2 3").
Proof. apply (@ctcp_roundtrip ascii_only (str "DCC") (str "SEND a 1 2 3")). vm_compute. set_solver. Defined.

Lemma destPath_confined_witness :
  let name := Base (str "../../etc/passwd") in
  (normal name = true /\ destPath (abs_path [str "home"; str "u"]) (str "../../etc/passwd") = str "/home/u/passwd") \/
  ((name = str "/" \/ name = str ".") /\ destPath (abs_path [str "home"; str "u"]) (str "../../etc/passwd") = str "/home/u") \/
  (name = str ".." /\ destPath (abs_path [str "home"; str "u"]) (str "../../etc/passwd") = str "/home").
Proof. apply (destPath_confined [str "home"; str "u"] (str "../../etc/passwd")). repeat constructor. Defined.

Lemma manager_table_witness :
  wf_manager (Send NewManager (str "f") (inr 3) (inr (be_put 4 1, 2))).1.
Proof. apply (manager_table NewManager (str "f") 3 (inr 3) (inr (be_put 4 1, 2)) 0). apply map_Forall_empty. Defined.
