(* ===== verification/DccTransfer.v ===== *)
(** * irc/client/dcc/dcc.go: a transfer, sender and receiver together
    [runSend] on one side of a connection and [runReceive] on the other, as two processes
    over a pair of byte streams.  A step is one pass through a loop up to the next
    operation that can block; reads return any part of what is there; a write does not
    block.  Cancellation and the errors of files and connections are steps of their own,
    so that the theorems can tell runs without them. *)
From S2P Require Import Prelude GoStrings GoEncoding Paths Dcc.

Definition bufsize : nat := Z.to_nat (32 * 1024).

Lemma bufsize_pos : (4 <= bufsize)%nat.
Proof. unfold bufsize. lia. Qed.

#[global] Opaque bufsize.

(** Where the two goroutines stand: before the connection, at the head of the loop, in
    the read of an acknowledgement, in the read of the last one, returned. *)
Inductive sender_pc := SAccept | SLoop | SAck | SFinal | SEnd.
Inductive receiver_pc := RDial | RLoop | REnd.

Record Transfer := {
  spc : sender_pc;
  soff : nat;              (* the position in the sender's file *)
  ssess : Session;
  rpc : receiver_pc;
  rsess : Session;
  rfile : bytes;           (* the receiver's file *)
  dialled : bool;
  data : bytes;            (* in flight to the receiver *)
  sclosed : bool;          (* the sender's end is closed *)
  acks : bytes;            (* in flight to the sender *)
  rclosed : bool           (* the receiver's end is closed *)
}.

Inductive label := Sender | Receiver | Cancelled | Failed.

Definition not_cancelled (s : Session) : Prop := State s <> StateCancelled.

(** A session whose user asked to resume. *)
Definition resuming (pos : Z) (s : Session) : Session :=
  {| ID := ID s; SFilename := SFilename s; SSize := SSize s; Transferred := Transferred s; State := State s;
     SPassive := SPassive s; SToken := SToken s; Resume := pos; Err_ := Err_ s; conn := conn s; done := done s |}.

(** The position a session starts at, and what opening the receiver's file leaves of it
    (appended to when resuming, truncated otherwise). *)
Definition start_of (s : Session) : nat := if 0 <? Resume s then Z.to_nat (Resume s) else 0.
Definition opened (s : Session) (f : bytes) : bytes := if 0 <? Resume s then f else [].

(** The state after a step of the sender, and of the receiver. *)
Definition sender t pc off sess dat closed ack : Transfer :=
  {| spc := pc; soff := off; ssess := sess; rpc := rpc t; rsess := rsess t; rfile := rfile t; dialled := dialled t;
     data := dat; sclosed := closed; acks := ack; rclosed := rclosed t |}.

Definition receiver t pc sess f dial dat ack closed : Transfer :=
  {| spc := spc t; soff := soff t; ssess := ssess t; rpc := pc; rsess := sess; rfile := f; dialled := dial;
     data := dat; sclosed := sclosed t; acks := ack; rclosed := closed |}.

(** [conn.Read(ackBuf)] of the sender returns, leaving [rest] to read: with some of the
    bytes there are, or with an error that is ignored. *)
Inductive ack_read (t : Transfer) : bytes -> Prop :=
| ack_bytes k : (0 < k <= 4)%nat -> (k <= length (acks t))%nat -> ack_read t (drop k (acks t))
| ack_ended : acks t = [] -> rclosed t = true -> ack_read t []
| ack_closed : conn (ssess t) = Closed -> ack_read t (acks t).

Section Machine.
Context (file : bytes).

(** [runSend] *)
Inductive sender_step : label -> Transfer -> Transfer -> Prop :=
| s_accept t :
    spc t = SAccept -> dialled t = true ->
    let sess := store_state StateActive (setConn (ssess t)) in
    sender_step Sender t (sender t SLoop (start_of sess)
      (if 0 <? Resume sess then store_transferred (Resume sess) sess else sess) (data t) (sclosed t) (acks t))
| s_chunk t n :
    spc t = SLoop -> not_cancelled (ssess t) -> (0 < n <= bufsize)%nat -> (soff t + n <= length file)%nat ->
    sender_step Sender t (sender t SAck (soff t + n) (store_transferred (Transferred (ssess t) + Z.of_nat n) (ssess t))
                     (data t ++ take n (drop (soff t) file)) (sclosed t) (acks t))
| s_eof t :
    spc t = SLoop -> not_cancelled (ssess t) -> (length file <= soff t)%nat ->
    sender_step Sender t (sender t SFinal (soff t) (ssess t) (data t) (sclosed t) (acks t))
| s_ack t rest :
    spc t = SAck -> ack_read t rest -> sender_step Sender t (sender t SLoop (soff t) (ssess t) (data t) (sclosed t) rest)
| s_final t rest :
    spc t = SFinal -> ack_read t rest ->
    sender_step Sender t (sender t SEnd (soff t) (finish None (ssess t)) (data t) true rest)
| s_cancelled t :
    spc t = SLoop -> ~ not_cancelled (ssess t) ->
    sender_step Cancelled t (sender t SEnd (soff t) (finish None (ssess t)) (data t) true (acks t))
| s_cancel t :
    sender_step Cancelled t (sender t (spc t) (soff t) (Cancel (ssess t)) (data t)
                        (match conn (ssess t) with NoConn => sclosed t | _ => true end) (acks t))
| s_error t e :
    spc t = SAccept \/ spc t = SLoop ->
    sender_step Failed t (sender t SEnd (soff t) (finish (Some e) (ssess t)) (data t) true (acks t)).

(** [runReceive] *)
Inductive receiver_step : label -> Transfer -> Transfer -> Prop :=
| r_dial t :
    rpc t = RDial ->
    receiver_step Receiver t
      (receiver t RLoop (store_transferred (Resume (rsess t)) (store_state StateActive (setConn (rsess t))))
         (opened (rsess t) (rfile t)) true (data t) (acks t) (rclosed t))
| r_read t n :
    rpc t = RLoop -> not_cancelled (rsess t) -> conn (rsess t) = Open -> (0 < n <= bufsize)%nat -> (n <= length (data t))%nat ->
    let transferred := Transferred (rsess t) + Z.of_nat n in
    receiver_step Receiver t
      (receiver t RLoop (store_transferred transferred (rsess t)) (rfile t ++ take n (data t)) (dialled t)
         (drop n (data t)) (acks t ++ be_put 4 (u32 transferred)) (rclosed t))
| r_eof t :
    rpc t = RLoop -> not_cancelled (rsess t) -> data t = [] -> sclosed t = true ->
    receiver_step Receiver t (receiver t REnd (finish None (rsess t)) (rfile t) (dialled t) (data t) (acks t) true)
| r_cancelled t :
    rpc t = RLoop -> ~ not_cancelled (rsess t) ->
    receiver_step Cancelled t (receiver t REnd (finish None (rsess t)) (rfile t) (dialled t) (data t) (acks t) true)
| r_cancel t :
    receiver_step Cancelled t (receiver t (rpc t) (Cancel (rsess t)) (rfile t) (dialled t) (data t) (acks t)
                        (match conn (rsess t) with NoConn => rclosed t | _ => true end))
| r_open_error t e :
    rpc t = RDial ->
    receiver_step Failed t (receiver t REnd (finish (Some e) (rsess t)) (rfile t) (dialled t) (data t) (acks t) true)
| r_dial_error t e :
    rpc t = RDial ->
    receiver_step Failed t
      (receiver t REnd (finish (Some e) (rsess t)) (opened (rsess t) (rfile t)) (dialled t) (data t) (acks t) true)
| r_error t e :
    rpc t = RLoop ->
    receiver_step Failed t (receiver t REnd (finish (Some e) (rsess t)) (rfile t) (dialled t) (data t) (acks t) true).

Definition step (l : label) (t t' : Transfer) : Prop := sender_step l t t' \/ receiver_step l t t'.

(** Any step, and the steps of an undisturbed transfer. *)
Definition any_step t t' : Prop := exists l, step l t t'.
Definition clean_step t t' : Prop := sender_step Sender t t' \/ receiver_step Receiver t t'.

(* ------------------------------------------------------------------ *)
(** ** Nothing is corrupted *)
Section Resumed.
(** Both sides resume at [pos], where the receiver's file [old] ends; at 0, or below, the
    file is sent from its start and [old] is overwritten. *)
Context (filename old : bytes) (pos : Z).

Definition initial : Transfer :=
  {| spc := SAccept; soff := 0; ssess := resuming pos (newSession 1 filename (blen file));
     rpc := RDial; rsess := resuming pos (newSession 1 filename (blen file)); rfile := old;
     dialled := false; data := []; sclosed := false; acks := []; rclosed := false |}.

Definition start : nat := if 0 <? pos then Z.to_nat pos else 0.

(** The receiver's file is as far as the position says. *)
Definition resumable : Prop := (start <= length file)%nat /\ (0 < pos -> old = take start file).

(** How far the sender is. *)
Definition position t : nat := match spc t with SAccept => start | SEnd => if dialled t then soff t else start | _ => soff t end.

Record conveyed t : Prop := {
  c_sresume : Resume (ssess t) = pos;
  c_rresume : Resume (rsess t) = pos;
  c_before : dialled t = false ->
    data t = [] /\ (spc t = SAccept \/ spc t = SEnd) /\ (rpc t = RDial -> rfile t = old) /\ rpc t <> RLoop;
  c_after : dialled t = true -> rpc t <> RDial /\
    exists n, (start <= n <= length file)%nat /\ rfile t ++ data t = take n file /\
      match spc t with SAccept => n = start | SEnd => True | _ => soff t = n end
}.

Context (Hres : resumable).

Lemma opened_start s : Resume s = pos -> opened s old = take start file /\ start_of s = start.
Proof.
  intros E. destruct Hres as [_ Hold]. unfold opened, start_of, start in *. rewrite E.
  destruct (Z.ltb_spec 0 pos); [split; [by apply Hold|done]|done].
Qed.

Lemma conveyed_initial : conveyed initial.
Proof. constructor; cbn; try done. intros _. split_and!; auto. Qed.

Lemma finish_resume e s : Resume (finish e s) = Resume s.
Proof. unfold finish. destruct e; [case_match|]; done. Qed.

Lemma conveyed_sender l t t' : sender_step l t t' -> conveyed t -> conveyed t'.
Proof.
  intros Hs [C1 C2 C3 C4].
  assert (forall e, Resume (finish e (ssess t)) = pos) as Hf by (intros e; by rewrite finish_resume).
  destruct Hs as [t Hp Hd sess|t n Hp Hc Hn Hle|t Hp Hc Hle|t rest Hp Ha|t rest Hp Ha|t Hp Hc|t|t e Hp];
    constructor; cbn -[finish]; auto; try (by destruct (0 <? _)); intros Hdial; try congruence;
    try (destruct (C3 Hdial) as (D1 & D2 & D3 & D4); rewrite ?Hp in D2; naive_solver);
    destruct (C4 Hdial) as (R1 & k & K1 & K2 & K3); rewrite ?Hp in K3; (split; [done|]);
    try (exists k; split_and!; [lia|lia|done|done]).
  - exists start. destruct (opened_start sess C1) as [_ ->]. subst k. split_and!; [lia|lia|done|done].
  - exists (soff t + n)%nat. subst k. split_and!; [lia|lia| |done]. by rewrite app_assoc, K2, <- take_take_drop.
Qed.

Lemma conveyed_receiver l t t' : receiver_step l t t' -> conveyed t -> conveyed t'.
Proof.
  intros Hs [C1 C2 C3 C4].
  assert (forall e, Resume (finish e (rsess t)) = pos) as Hf by (intros e; by rewrite finish_resume).
  destruct Hs as [t Hp|t n Hp Hc Ho Hn Hle tr|t Hp Hc Hd Hcl|t Hp Hc|t|t e Hp|t e Hp|t e Hp];
    constructor; cbn -[finish]; auto; intros Hdial; try discriminate Hdial;
    try (destruct (C3 Hdial) as (D1 & D2 & D3 & D4); first [congruence | by split_and!; auto]);
    try (destruct (C4 Hdial) as (R1 & k & K1 & K2 & K3); split; [done|]; exists k; split_and!; [lia|lia|done|done]);
    try (destruct (C4 Hdial) as (R1 & _); by rewrite Hp in R1).
  - destruct (dialled t) eqn:Ed; [destruct (C4 eq_refl) as (R1 & _); by rewrite Hp in R1|].
    destruct (C3 eq_refl) as (D1 & D2 & D3 & _). split; [done|]. exists start. rewrite D3, D1, app_nil_r by done.
    destruct (opened_start (rsess t) C2) as [-> _]. destruct Hres as [Hle _]. split_and!; [lia|lia|done|].
    destruct D2 as [-> | ->]; done.
  - destruct (C4 Hdial) as (R1 & k & K1 & K2 & K3). split; [done|]. exists k. split_and!; [lia|lia| |done].
    by rewrite <- app_assoc, take_drop.
Qed.

Lemma conveyed_reachable t : rtc any_step initial t -> conveyed t.
Proof.
  intros Hr. pose proof conveyed_initial as H0. revert H0.
  induction Hr as [|a b d [l [Hs|Hs]] _ IH]; [done|..]; intros H0; apply IH; [by eapply conveyed_sender|by eapply conveyed_receiver].
Qed.

(* ------------------------------------------------------------------ *)
(** ** An undisturbed transfer *)
Record quiet_inv t : Prop := {
  q_conveyed : conveyed t;
  q_sender : State (ssess t) <> StateCancelled;
  q_receiver : State (rsess t) <> StateCancelled;
  q_sopen : match spc t with SAccept => conn (ssess t) = NoConn | SEnd => conn (ssess t) = Closed | _ => conn (ssess t) = Open end;
  q_ropen : match rpc t with RDial => conn (rsess t) = NoConn | REnd => conn (rsess t) = Closed | RLoop => conn (rsess t) = Open end;
  q_sclosed : sclosed t = true -> spc t = SEnd;
  q_end : spc t = SFinal \/ spc t = SEnd -> dialled t = true /\ rfile t ++ data t = file;
  q_rend : rpc t = REnd -> sclosed t = true /\ data t = [] /\ State (rsess t) = StateCompleted /\ done (rsess t) = true;
  q_rclosed : rclosed t = true -> rpc t = REnd
}.

Lemma quiet_initial : quiet_inv initial.
Proof. constructor; cbn; try done; [apply conveyed_initial|naive_solver]. Qed.

Lemma quiet_sender t t' : sender_step Sender t t' -> quiet_inv t -> quiet_inv t'.
Proof.
  intros Hs Hq. assert (conveyed t') as Hc by (eapply conveyed_sender; [exact Hs|apply Hq]).
  destruct Hq as [Q0 Q1 Q2 Q3 Q4 Q5 Q6 Q7 Q8].
  inversion Hs; subst; constructor; try exact Hc; cbn;
    repeat match goal with H : spc _ = _ |- _ => rewrite H in Q3, Q5, Q6 end;
    try solve [ done | by destruct (0 <? _) | intros [E|E]; discriminate E | intros E; discriminate (Q5 E)
              | intros E; destruct (Q7 E) as (E' & _); discriminate (Q5 E') | intros _; apply Q6; auto
              | by destruct (conn (ssess t)) ].
  intros _. destruct (dialled t) eqn:Ed.
  - destruct (c_after _ Q0 Ed) as (_ & n & Hn & Hf & Ho). match goal with H : spc t = SLoop |- _ => rewrite H in Ho end. cbn in Ho.
    split; [done|]. rewrite Hf. apply take_ge. lia.
  - destruct (c_before _ Q0 Ed) as (_ & [E|E] & _); congruence.
Qed.

Lemma quiet_receiver t t' : receiver_step Receiver t t' -> quiet_inv t -> quiet_inv t'.
Proof.
  intros Hs Hq. assert (conveyed t') as Hc by (eapply conveyed_receiver; [exact Hs|apply Hq]).
  destruct Hq as [Q0 Q1 Q2 Q3 Q4 Q5 Q6 Q7 Q8].
  inversion Hs; subst; constructor; try exact Hc; cbn;
    repeat match goal with H : rpc _ = _ |- _ => rewrite H in Q4, Q7, Q8 end;
    try solve [ done | intros E; discriminate (Q8 E) | by destruct (conn (rsess t)) ].
  - intros He. destruct (Q6 He) as [Hd _]. destruct (c_after _ Q0 Hd) as [Hr _]. by destruct Hr.
  - intros He. destruct (Q6 He) as [Hd Hf]. split; [done|]. by rewrite <- app_assoc, take_drop.
Qed.

Lemma quiet_reachable t : rtc clean_step initial t -> quiet_inv t.
Proof.
  intros Hr. pose proof quiet_initial as H0. revert H0.
  induction Hr as [|a b d [Hs|Hs] _ IH]; [done|..]; intros H0; apply IH; [by eapply quiet_sender|by eapply quiet_receiver].
Qed.

Lemma clean_any t t' : clean_step t t' -> any_step t t'.
Proof. intros [H|H]; eexists; [by left|by right]. Qed.

(* ------------------------------------------------------------------ *)
(** ** Waiting for the last acknowledgement *)
(** Everything has arrived and been acknowledged, and both sides wait for the other: the
    sender for one more acknowledgement, the receiver for the end of the stream. *)
Definition hung t : Prop :=
  spc t = SFinal /\ conn (ssess t) = Open /\ sclosed t = false /\
  rpc t = RLoop /\ data t = [] /\ acks t = [] /\ rclosed t = false.

Lemma hung_for_ever t t' : hung t -> ~ clean_step t t'.
Proof.
  intros (H1 & H2 & H3 & H4 & H5 & H6 & H7) [Hs|Hs]; inversion Hs; subst; try congruence.
  - match goal with Hr : ack_read _ _ |- _ => destruct Hr as [k ? Hk| |]; [rewrite H6 in Hk; cbn in Hk; lia|congruence..] end.
  - match goal with Hk : (_ <= length (data _))%nat |- _ => rewrite H5 in Hk; cbn in Hk; lia end.
Qed.

(** Between chunks, with nothing in flight. *)
Definition between t : Prop :=
  spc t = SLoop /\ not_cancelled (ssess t) /\ conn (ssess t) = Open /\ sclosed t = false /\
  rpc t = RLoop /\ not_cancelled (rsess t) /\ conn (rsess t) = Open /\ data t = [] /\ acks t = [] /\ rclosed t = false.

(** One chunk, read in one piece and acknowledged, and the acknowledgement read. *)
Lemma one_chunk t n :
  between t -> (0 < n <= bufsize)%nat -> (soff t + n <= length file)%nat ->
  exists t', rtc clean_step t t' /\ between t' /\ soff t' = (soff t + n)%nat.
Proof.
  intros (B1 & B2 & B3 & B4 & B5 & B6 & B7 & B8 & B9 & B10) Hn Hle.
  eexists. split.
  - eapply rtc_l; [left; by apply (s_chunk t n)|].
    set (t1 := sender _ _ _ _ _ _ _). assert (length (data t1) = n) as Hd.
    { cbn. rewrite B8. cbn. rewrite length_take, length_drop. lia. }
    eapply rtc_l; [right; apply (r_read t1 n); try done; rewrite Hd; lia|].
    set (t2 := receiver _ _ _ _ _ _ _ _).
    eapply rtc_l; [left; apply (s_ack t2 (drop 4 (acks t2))); [done|]|reflexivity].
    apply ack_bytes; [lia|]. subst t2 t1. cbn [acks receiver sender]. rewrite length_app, be_put_length. lia.
  - unfold between, not_cancelled in *. cbn. rewrite B8, B9. cbn. split; [|done].
    split_and!; try done. rewrite drop_ge; [done|]. rewrite length_take. lia.
Qed.

Lemma chunks_to_end k : forall t, between t -> (length file - soff t <= k)%nat -> (soff t <= length file)%nat ->
  exists t', rtc clean_step t t' /\ between t' /\ soff t' = length file.
Proof.
  induction k as [|k IH]; intros t Hb Hk Hle; [exists t; split_and!; [reflexivity|done|lia]|].
  destruct (decide (soff t = length file)) as [E|Hne]; [exists t; split_and!; [reflexivity|done..]|].
  destruct (one_chunk t 1 Hb) as (t1 & Hr & Hb1 & Ho); [pose proof bufsize_pos; lia|lia|].
  destruct (IH t1 Hb1) as (t2 & Hr2 & Hb2 & Ho2); [lia..|]. exists t2. split_and!; [by etransitivity|done..].
Qed.
End Resumed.

(* ------------------------------------------------------------------ *)
(** ** Properties *)

(** Whatever happens in a transfer (any chunks, any reads, cancellation and errors at
    any time, resumed or not), once the receiver is connected its file is a prefix of the
    sender's, followed there by the bytes in flight. *)
Theorem received_is_prefix (filename old : bytes) (pos : Z) t :
  resumable old pos -> rtc any_step (initial filename old pos) t -> dialled t = true -> rfile t ++ data t `prefix_of` file.
Proof.
  intros Hres Hr Hd. destruct (c_after _ _ _ (conveyed_reachable filename old pos Hres t Hr) Hd) as (_ & n & _ & -> & _).
  eexists. symmetry. apply take_drop.
Qed.


(** A transfer can hang, whatever the file: when every chunk is read in one piece and
    acknowledged once, the sender has read all the acknowledgements there will be before
    the one it waits for last, and the receiver waits for an end that the sender signals
    only after that; the file has arrived, but neither side ever returns unless it is
    cancelled or the connection fails. *)
Theorem transfer_hangs (filename old : bytes) :
  exists t, rtc clean_step (initial filename old 0) t /\ hung t /\ rfile t = file /\ (forall t', ~ clean_step t t').
Proof.
  set (t0 := initial filename old 0).
  assert (resumable old 0) as Hres by (split; [cbn; lia|lia]).
  assert (exists t, rtc clean_step t0 t /\ between t /\ soff t = 0%nat) as (t1 & Hr1 & Hb1 & Ho1).
  { eexists. split; [eapply rtc_l; [right; by apply (r_dial t0)|]; eapply rtc_l; [left; by apply s_accept|reflexivity]|].
    unfold between, not_cancelled. cbn. by split_and!. }
  destruct (chunks_to_end (length file) t1 Hb1) as (t2 & Hr2 & Hb2 & Ho2); [lia..|].
  destruct Hb2 as (B1 & B2 & B3 & B4 & B5 & B6 & B7 & B8 & B9 & B10).
  set (t3 := sender t2 SFinal (soff t2) (ssess t2) (data t2) (sclosed t2) (acks t2)).
  assert (rtc clean_step t0 t3) as Hr3.
  { etransitivity; [exact Hr1|]. etransitivity; [exact Hr2|]. apply rtc_once. left. apply s_eof; [done..|lia]. }
  assert (hung t3) as Hh by (by repeat split).
  exists t3. split_and!; [done..| |by intros t' Hs; apply (hung_for_ever t3 t')].
  destruct (q_end _ _ _ (quiet_reachable filename old 0 Hres t3 Hr3)) as [_ Hf]; [by left|].
  cbn in Hf. by rewrite B8, app_nil_r in Hf.
Qed.
End Machine.

(* ------------------------------------------------------------------ *)
(** ** Runs *)
#[export] Instance sender_pc_eq_dec : EqDecision sender_pc.
Proof. solve_decision. Defined.
#[export] Instance receiver_pc_eq_dec : EqDecision receiver_pc.
Proof. solve_decision. Defined.
#[export] Instance Conn_eq_dec : EqDecision Conn.
Proof. solve_decision. Defined.
#[export] Instance not_cancelled_dec s : Decision (not_cancelled s).
Proof. unfold not_cancelled. apply _. Defined.

(** The steps a run is made of, executable. *)
Inductive action :=
| ADial | AAccept | AChunk (n : nat) | AEof | AAck (k : nat) | AFinal (k : nat)
| ARead (n : nat) | AReadEof | ARCancel | ARCancelled | ASError (e : bytes).

Section Execute.
Context (file : bytes).

Definition act (a : action) (t : Transfer) : option (label * Transfer) :=
  match a with
  | ADial =>
      if decide (rpc t = RDial) then
        Some (Receiver, receiver t RLoop (store_transferred (Resume (rsess t)) (store_state StateActive (setConn (rsess t))))
                          (opened (rsess t) (rfile t)) true (data t) (acks t) (rclosed t)) else None
  | AAccept =>
      if decide (spc t = SAccept /\ dialled t = true) then
        let sess := store_state StateActive (setConn (ssess t)) in
        Some (Sender, sender t SLoop (start_of sess) (if 0 <? Resume sess then store_transferred (Resume sess) sess else sess)
                        (data t) (sclosed t) (acks t)) else None
  | AChunk n =>
      if decide (spc t = SLoop /\ not_cancelled (ssess t) /\ (0 < n <= bufsize)%nat /\ (soff t + n <= length file)%nat) then
        Some (Sender, sender t SAck (soff t + n) (store_transferred (Transferred (ssess t) + Z.of_nat n) (ssess t))
                        (data t ++ take n (drop (soff t) file)) (sclosed t) (acks t)) else None
  | AEof =>
      if decide (spc t = SLoop /\ not_cancelled (ssess t) /\ (length file <= soff t)%nat) then
        Some (Sender, sender t SFinal (soff t) (ssess t) (data t) (sclosed t) (acks t)) else None
  | AAck k =>
      if decide (spc t = SAck /\ (0 < k <= 4)%nat /\ (k <= length (acks t))%nat) then
        Some (Sender, sender t SLoop (soff t) (ssess t) (data t) (sclosed t) (drop k (acks t))) else None
  | AFinal k =>
      if decide (spc t = SFinal /\ (0 < k <= 4)%nat /\ (k <= length (acks t))%nat) then
        Some (Sender, sender t SEnd (soff t) (finish None (ssess t)) (data t) true (drop k (acks t))) else None
  | ARead n =>
      if decide (rpc t = RLoop /\ not_cancelled (rsess t) /\ conn (rsess t) = Open /\ (0 < n <= bufsize)%nat /\ (n <= length (data t))%nat) then
        let transferred := Transferred (rsess t) + Z.of_nat n in
        Some (Receiver, receiver t RLoop (store_transferred transferred (rsess t)) (rfile t ++ take n (data t)) (dialled t)
                          (drop n (data t)) (acks t ++ be_put 4 (u32 transferred)) (rclosed t)) else None
  | AReadEof =>
      if decide (rpc t = RLoop /\ not_cancelled (rsess t) /\ data t = [] /\ sclosed t = true) then
        Some (Receiver, receiver t REnd (finish None (rsess t)) (rfile t) (dialled t) (data t) (acks t) true) else None
  | ARCancel =>
      Some (Cancelled, receiver t (rpc t) (Cancel (rsess t)) (rfile t) (dialled t) (data t) (acks t)
                         (match conn (rsess t) with NoConn => rclosed t | _ => true end))
  | ARCancelled =>
      if decide (rpc t = RLoop /\ ~ not_cancelled (rsess t)) then
        Some (Cancelled, receiver t REnd (finish None (rsess t)) (rfile t) (dialled t) (data t) (acks t) true) else None
  | ASError e =>
      if decide (spc t = SLoop) then
        Some (Failed, sender t SEnd (soff t) (finish (Some e) (ssess t)) (data t) true (acks t)) else None
  end.

Lemma act_step a t l t' : act a t = Some (l, t') -> step file l t t'.
Proof.
  destruct a; cbn [act]; try case_decide as Hc; try done; intros [= <- <-].
  - right. by constructor.
  - destruct Hc. left. by constructor.
  - destruct Hc as (? & ? & ? & ?). left. by constructor.
  - destruct Hc as (? & ? & ?). left. by constructor.
  - destruct Hc as (? & ? & ?). left. constructor; [done|]. by constructor.
  - destruct Hc as (? & ? & ?). left. constructor; [done|]. by constructor.
  - destruct Hc as (? & ? & ? & ? & ?). right. by constructor.
  - destruct Hc as (? & ? & ? & ?). right. by constructor.
  - right. constructor.
  - destruct Hc. right. by constructor.
  - left. constructor. by right.
Qed.

Fixpoint acts (l : list action) (t : Transfer) : option (bool * Transfer) :=
  match l with
  | [] => Some (true, t)
  | a :: l' =>
      '(lab, t') ← act a t;
      '(clean, t'') ← acts l' t';
      Some (match lab with Sender | Receiver => clean | _ => false end, t'')
  end.

(** A run of actions is a run of the machine, undisturbed when no action disturbs. *)
Lemma acts_run l t b t' : acts l t = Some (b, t') -> rtc (any_step file) t t' /\ (b = true -> rtc (clean_step file) t t').
Proof.
  revert t b. induction l as [|a l IH]; intros t b; cbn [acts]; [intros [= <- <-]; split; [reflexivity|intros _; reflexivity]|].
  destruct (act a t) as [[lab t1]|] eqn:E; [|done]. cbn [mbind option_bind]. apply act_step in E.
  destruct (acts l t1) as [[c t2]|] eqn:E2; [|done]. cbn [mbind option_bind]. intros [= <- <-].
  apply IH in E2 as [H1 H2]. split; [eapply rtc_l; [by eexists|done]|].
  intros Hb. eapply rtc_l; [|apply H2; by destruct lab]. unfold clean_step. destruct E as [E|E]; [left|right]; destruct lab; try done; inversion E.
Qed.
End Execute.

Definition run_of (file : bytes) (l : list action) : Transfer :=
  match acts file l (initial file (str "f") [] 0) with Some (_, t) => t | None => initial file (str "f") [] 0 end.

(** The sender fails after its first chunk: the receiver reports completion of a file of
    which it has half, its size notwithstanding. *)
Definition truncated : list action := [ADial; AAccept; AChunk 2; ARead 2; AAck 4; ASError (str "read error"); AReadEof].

Lemma truncated_is_completed :
  let t := run_of (str "abcd") truncated in
  rtc (any_step (str "abcd")) (initial (str "abcd") (str "f") [] 0) t /\
  rfile t = str "ab" /\ State (rsess t) = StateCompleted /\ Err_ (rsess t) = None /\ SSize (rsess t) = 4.
Proof. split; [apply (acts_run _ truncated _ false)|]; vm_compute; [reflexivity|by repeat split]. Qed.

(** A receiver that is cancelled between two reads reports completion. *)
Definition cancelled : list action := [ADial; ARCancel; ARCancelled].

Lemma cancelled_is_completed :
  let t := run_of (str "abcd") cancelled in
  rtc (any_step (str "abcd")) (initial (str "abcd") (str "f") [] 0) t /\
  rfile t = [] /\ State (rsess t) = StateCompleted /\ rpc t = REnd.
Proof. split; [apply (acts_run _ cancelled _ false)|]; vm_compute; [reflexivity|by repeat split]. Qed.

Lemma received_is_prefix_witness :
  rfile (run_of (str "abcd") truncated) ++ data (run_of (str "abcd") truncated) `prefix_of` str "abcd".
Proof.
  apply (received_is_prefix (str "abcd") (str "f") [] 0 (run_of (str "abcd") truncated)).
  - split; [cbn; lia|lia].
  - apply (acts_run _ truncated _ false). vm_compute. reflexivity.
  - vm_compute. reflexivity.
Defined.

(** A transfer that ends: the receiver reads the one chunk in two pieces, so that there is
    an acknowledgement more than chunks. *)
Definition whole : list action := [ADial; AAccept; AChunk 2; ARead 1; ARead 1; AAck 4; AEof; AFinal 4; AReadEof].

