(* ===== verification/Xdcc.v ===== *)
(** * irc/client/xdcc/xdcc.go: pack lists and the bot that serves them
    Over the DCC manager of Dcc.v.  The regular expression for list lines is written out
    as a matcher; [strconv.ParseFloat] of a size and the arithmetic on its result enter
    through the class [GoFloat]; the printing of sizes is exact. *)
From S2P Require Import Prelude GoStrings GoEncoding Paths Dcc.

(** ** Packs *)
Record Pack := { Number : Z; PFilename : bytes; PSize : Z; Gets : Z; CRC32 : Z; Description : bytes }.

Definition ByNumber (pl : list Pack) (n : Z) : option Pack := List.find (fun p => Number p =? n) pl.

(* ------------------------------------------------------------------ *)
(** ** Sizes *)
(** [int64(f * float64(mult))] for the float [f] that a text denotes. *)
Class GoFloat := { scaled : bytes -> Z -> option Z }.

Definition parseSize `{GoUnicode} `{GoFloat} (s : bytes) : Z :=
  let s := ToUpper (TrimSpace s) in
  let '(mult, s) :=
    if HasSuffix s (str "G") then (2 ^ 30, removelast s)
    else if HasSuffix s (str "M") then (2 ^ 20, removelast s)
    else if HasSuffix s (str "K") then (2 ^ 10, removelast s)
    else (1, s) in
  match scaled s mult with None => -1 | Some z => z end.

(** The quotient rounded to the nearest integer, ties to even. *)
Definition div_even (a b : Z) : Z :=
  let q := a / b in
  let r := 2 * (a mod b) in
  if r <? b then q else if b <? r then q + 1 else if Z.even q then q else q + 1.

(** [float64(n)] of a positive [int64]: 53 significant bits. *)
Definition to_float64 (n : Z) : Z :=
  let e := Z.log2 n - 52 in if e <=? 0 then n else div_even n (2 ^ e) * 2 ^ e.

(** [%.1f] of [float64(size) / unit] for a power of two. *)
Definition fmt_tenths (size unit : Z) : bytes :=
  let t := div_even (10 * to_float64 size) unit in Itoa (t / 10) ++ str "." ++ [digit (t mod 10)].

Definition formatSize (size : Z) : bytes :=
  if size <? 0 then str "???"
  else if size >=? 2 ^ 30 then fmt_tenths size (2 ^ 30) ++ str "G"
  else if size >=? 2 ^ 20 then fmt_tenths size (2 ^ 20) ++ str "M"
  else if size >=? 2 ^ 10 then fmt_tenths size (2 ^ 10) ++ str "K"
  else Itoa size ++ str "B".

Definition FormatPackSize (size : Z) : bytes := formatSize size.

Lemma formatSize_example :
  map formatSize [-1; 0; 1023; 1024; 1536; 12897485; 5368709120; 1048575; 2 ^ 60 + 1] =
  [str "???"; str "0B"; str "1023B"; str "1.0K"; str "1.5K"; str "12.3M"; str "5.0G"; str "1024.0K"; str "1073741824.0G"].
Proof. vm_compute. reflexivity. Qed.

(* ------------------------------------------------------------------ *)
(** ** List lines *)
(** [\s] of RE2. *)
Definition re_space (c : byte) : bool := in_set [Byte.x09; Byte.x0a; Byte.x0c; Byte.x0d; " "%byte] c.

(** A greedy run of a class, at least one character of it. *)
Definition re_plus (p : byte -> bool) (s : bytes) : option (bytes * bytes) :=
  match take_while p s with [] => None | w => Some (w, drop (length w) s) end.

Definition re_char (c : byte) (s : bytes) : option bytes :=
  match s with x :: s' => if beqb x c then Some s' else None | [] => None end.

(** [#(\d+)\s+(\d+)x\s+\[([^\]]+)\]\s+(.+)] at the start of a text.  Each class is disjoint
    from what follows it, and the text does not end in a space, so that the first way to
    match is the only one. *)
Definition iroffer_at (s : bytes) : option (bytes * bytes * bytes * bytes) :=
  s ← re_char "#"%byte s;
  '(m1, s) ← re_plus is_digit s;
  '(_, s) ← re_plus re_space s;
  '(m2, s) ← re_plus is_digit s;
  s ← re_char "x"%byte s;
  '(_, s) ← re_plus re_space s;
  s ← re_char "["%byte s;
  '(m3, s) ← re_plus (fun c => negb (beqb c "]"%byte)) s;
  s ← re_char "]"%byte s;
  '(_, s) ← re_plus re_space s;
  '(m4, _) ← re_plus (fun c => negb (beqb c Byte.x0a)) s;
  Some (m1, m2, m3, m4).

(** [FindStringSubmatch]: the leftmost match. *)
Fixpoint reIroffer (s : bytes) : option (bytes * bytes * bytes * bytes) :=
  match iroffer_at s with
  | Some m => Some m
  | None => match s with [] => None | _ :: s' => reIroffer s' end
  end.

Definition ParseListNotice `{GoUnicode} `{GoFloat} (line : bytes) : option Pack :=
  match reIroffer (TrimSpace line) with
  | Some (m1, m2, m3, m4) =>
      Some {| Number := (Atoi m1).1; PFilename := TrimSpace m4; PSize := parseSize m3; Gets := (Atoi m2).1;
              CRC32 := 0; Description := [] |}
  | None => None
  end.

(* ------------------------------------------------------------------ *)
(** ** The bot *)
Definition SlotLimit : Z := 5.

Record Bot := { packs : list Pack; manager : Manager; maxSlots : Z; active : gmap Z (list Z); listenAddr : bytes }.

Definition NewBot (m : Manager) (addr : bytes) (max : Z) : Bot :=
  {| packs := []; manager := m; maxSlots := if max <=? 0 then SlotLimit else max; active := ∅; listenAddr := addr |}.

Definition AddPack (b : Bot) (p : Pack) : Bot :=
  {| packs := packs b ++ [p]; manager := manager b; maxSlots := maxSlots b; active := active b; listenAddr := listenAddr b |}.

Fixpoint remove_first (n : Z) (pl : list Pack) : option (list Pack) :=
  match pl with
  | [] => None
  | p :: pl' => if Number p =? n then Some pl' else cons p <$> remove_first n pl'
  end.

Definition RemovePack (b : Bot) (n : Z) : Bot * bool :=
  match remove_first n (packs b) with
  | Some pl => ({| packs := pl; manager := manager b; maxSlots := maxSlots b; active := active b; listenAddr := listenAddr b |}, true)
  | None => (b, false)
  end.

Definition activeSlots (b : Bot) : Z := map_fold (fun _ ids total => total + blen ids) 0 (active b).

(** The padding of [%-4d], [%4d] and [%6s] (of ASCII texts). *)
Definition pad_right (w : nat) (s : bytes) : bytes := s ++ replicate (w - length s) " "%byte.
Definition pad_left (w : nat) (s : bytes) : bytes := replicate (w - length s) " "%byte ++ s.

Definition pack_line (p : Pack) : bytes :=
  str "#" ++ pad_right 4 (Itoa (Number p)) ++ str " " ++ pad_left 4 (Itoa (Gets p)) ++ str "x  [" ++
  pad_left 6 (formatSize (PSize p)) ++ str "]  " ++ PFilename p.

Definition ListMessage (b : Bot) : list bytes :=
  (str "Packs: " ++ Itoa (blen (packs b)) ++ str "  Slots: " ++ Itoa (activeSlots b) ++ str "/" ++ Itoa (maxSlots b))
  :: map pack_line (packs b).

Inductive xdcc_err := ENoFreeSlots | EPackNotFound | EStartSend (e : bytes).

(** [RequestPack], with the outcomes of [os.Stat] and [net.Listen] that [Manager.Send] meets. *)
Definition RequestPack (b : Bot) (packNum : Z) (stat : bytes + Z) (listen : bytes + bytes * Z) :
  Bot * res xdcc_err (nat * bytes) :=
  if activeSlots b >=? maxSlots b then (b, Err ENoFreeSlots)
  else match ByNumber (packs b) packNum with
  | None => (b, Err EPackNotFound)
  | Some pack =>
      let '(m, r) := Send (manager b) (PFilename pack) stat listen in
      let b := {| packs := packs b; manager := m; maxSlots := maxSlots b; active := active b; listenAddr := listenAddr b |} in
      match r with
      | Err e => (b, Err (EStartSend e))
      | Panic => (b, Panic)
      | Ok (n, ctcp) =>
          let id := match store m !! n with Some s => ID s | None => 0 end in
          ({| packs := packs b; manager := m; maxSlots := maxSlots b;
              active := <[packNum := default [] (active b !! packNum) ++ [id]]> (active b); listenAddr := listenAddr b |},
           Ok (n, ctcp))
      end
  end.

Fixpoint remove_id (id : Z) (ids : list Z) : list Z :=
  match ids with [] => [] | x :: ids' => if x =? id then ids' else x :: remove_id id ids' end.

(** The goroutine that frees the slot when the session is done. *)
Definition release (b : Bot) (packNum id : Z) : Bot :=
  match active b !! packNum with
  | None => b
  | Some ids =>
      {| packs := packs b; manager := manager b; maxSlots := maxSlots b;
         active := <[packNum := remove_id id ids]> (active b); listenAddr := listenAddr b |}
  end.

(* ------------------------------------------------------------------ *)
(** ** Slots *)
Definition slots (m : gmap Z (list Z)) : Z := map_fold (fun _ ids total => total + blen ids) 0 m.

Lemma slots_insert_new m k ids : m !! k = None -> slots (<[k := ids]> m) = slots m + blen ids.
Proof. intros Hk. unfold slots. rewrite map_fold_insert_L; [done| |done]. intros. lia. Qed.

Lemma slots_insert m k ids : slots (<[k := ids]> m) = slots m - blen (default [] (m !! k)) + blen ids.
Proof.
  destruct (m !! k) as [old|] eqn:E.
  - change (default [] (Some old)) with old. assert (slots m = slots (delete k m) + blen old) as Hm.
    { rewrite <- (slots_insert_new _ k) by apply lookup_delete_eq. by rewrite insert_delete_id. }
    rewrite <- insert_delete_eq, slots_insert_new by apply lookup_delete_eq. lia.
  - rewrite slots_insert_new by done. change (blen (default [] None)) with 0. lia.
Qed.

Lemma remove_id_length id ids : blen (remove_id id ids) = if bool_decide (id ∈ ids) then blen ids - 1 else blen ids.
Proof.
  unfold blen. induction ids as [|x ids IH]; [done|]. cbn [remove_id]. destruct (Z.eqb_spec x id) as [->|Hne].
  - rewrite bool_decide_eq_true_2 by by left. cbn [length]. lia.
  - cbn [length]. rewrite (bool_decide_ext (id ∈ x :: ids) (id ∈ ids)) by (rewrite elem_of_cons; naive_solver).
    case_bool_decide; lia.
Qed.

(** What the bot and the goroutines of its transfers do to it. *)
Inductive bot_step (b : Bot) : Bot -> Prop :=
| step_add p : bot_step b (AddPack b p)
| step_remove n : bot_step b (RemovePack b n).1
| step_request n stat listen : bot_step b (RequestPack b n stat listen).1
| step_release n id : bot_step b (release b n id).

(** A request that is granted, and the release of what it took. *)
Lemma RequestPack_slots b n stat listen b' sess ctcp :
  RequestPack b n stat listen = (b', Ok (sess, ctcp)) ->
  activeSlots b < maxSlots b /\ activeSlots b' = activeSlots b + 1 /\
  exists pack id, ByNumber (packs b) n = Some pack /\ active b' !! n = Some (default [] (active b !! n) ++ [id]) /\
    (exists s, store (manager b') !! sess = Some s /\ ID s = id /\ State s = StatePending).
Proof.
  unfold RequestPack. destruct (Z.geb_spec (activeSlots b) (maxSlots b)); [done|].
  destruct (ByNumber (packs b) n) as [pack|]; [|done]. unfold Send.
  destruct stat as [e|size]; [done|]. destruct (new_entry (manager b) (PFilename pack) size) as [m k] eqn:E.
  destruct listen as [e|[ip port]]; [done|]. cbn. intros [= <- <- <-]. split; [done|].
  injection E as <- <-. cbn. rewrite lookup_insert_eq. cbn. split.
  - unfold activeSlots. cbn. fold (slots (<[n := default [] (active b !! n) ++ [u32 (nextID (manager b) + 1)]]> (active b))).
    fold (slots (active b)). rewrite slots_insert. unfold blen. rewrite length_app. cbn [length]. lia.
  - eexists pack, _. split_and!; [done|by rewrite lookup_insert_eq|]. by eexists.
Qed.

Lemma release_slots b n id :
  activeSlots (release b n id) = if bool_decide (id ∈ default [] (active b !! n)) then activeSlots b - 1 else activeSlots b.
Proof.
  unfold release. destruct (active b !! n) as [ids|] eqn:E; [|by rewrite bool_decide_eq_false_2 by apply not_elem_of_nil].
  unfold activeSlots. cbn. fold (slots (<[n := remove_id id ids]> (active b))). fold (slots (active b)).
  rewrite slots_insert, E, remove_id_length. change (default [] (Some ids)) with ids. case_bool_decide; lia.
Qed.

(** A request that is refused or fails takes no slot. *)
Lemma RequestPack_kept b n stat listen b' r :
  RequestPack b n stat listen = (b', r) ->
  maxSlots b' = maxSlots b /\ (is_ok r = true \/ activeSlots b' = activeSlots b).
Proof.
  unfold RequestPack. case_match; [intros [= <- <-]; auto|]. destruct (ByNumber (packs b) n) as [pack|]; [|intros [= <- <-]; auto].
  destruct (Send _ _ _ _) as [m [[k c]|e|]]; intros [= <- <-]; auto.
Qed.

Lemma bot_step_bounded b b' : bot_step b b' -> activeSlots b <= maxSlots b -> maxSlots b' = maxSlots b /\ activeSlots b' <= maxSlots b'.
Proof.
  intros [p|n|n stat listen|n id] Hb; [done| | |].
  - unfold RemovePack. by destruct (remove_first n (packs b)).
  - destruct (RequestPack b n stat listen) as [b1 r] eqn:E. cbn. pose proof (RequestPack_kept _ _ _ _ _ _ E) as [Hm Hk].
    split; [done|]. rewrite Hm. destruct Hk as [Hok| ->]; [|done]. destruct r as [[sess ctcp]| |]; [|done..].
    apply RequestPack_slots in E. lia.
  - rewrite release_slots. assert (maxSlots (release b n id) = maxSlots b) as -> by (unfold release; by case_match).
    split; [done|]. case_bool_decide; lia.
Qed.

(** The bot never has more transfers than slots: whatever is added, removed, requested
    and finished, in any order, the transfers counted as active are at most [maxSlots],
    which is as configured (or the default); a request is granted only while one is free
    and takes exactly one, and when its session is done exactly that one is free again. *)
Theorem slots_bounded (m : Manager) (addr : bytes) (max : Z) (b : Bot) :
  rtc bot_step (NewBot m addr max) b ->
  maxSlots b = (if max <=? 0 then SlotLimit else max) /\ activeSlots b <= maxSlots b /\
  forall n stat listen b' sess ctcp, RequestPack b n stat listen = (b', Ok (sess, ctcp)) ->
    activeSlots b < maxSlots b /\ activeSlots b' = activeSlots b + 1 /\
    exists s, store (manager b') !! sess = Some s /\ activeSlots (release b' n (ID s)) = activeSlots b.
Proof.
  intros Hr. assert (maxSlots b = (if max <=? 0 then SlotLimit else max) /\ activeSlots b <= maxSlots b) as [H1 H2].
  { assert (forall b0 b, rtc bot_step b0 b -> activeSlots b0 <= maxSlots b0 -> maxSlots b = maxSlots b0 /\ activeSlots b <= maxSlots b) as H.
    { clear. intros b0 b Hr. induction Hr as [|x y z Hs _ IH]; [done|]. intros H0.
      destruct (bot_step_bounded x y Hs H0) as [E1 E2]. destruct (IH E2) as [E3 E4]. split; [congruence|done]. }
    destruct (H _ _ Hr) as [E1 E2]; [|split; [exact E1|done]].
    change (activeSlots (NewBot m addr max)) with 0. cbn. unfold SlotLimit. case_match; lia. }
  split_and!; [done..|]. intros n stat listen b' sess ctcp HR. apply RequestPack_slots in HR as (L & E & pack & id & _ & Ha & s & Hs & Hid & _).
  split_and!; [done..|]. exists s. split; [done|]. rewrite Hid, release_slots, Ha. cbn [from_option].
  rewrite bool_decide_eq_true_2 by (apply elem_of_app; right; by left). lia.
Qed.

(* ------------------------------------------------------------------ *)
(** ** List lines are read back *)
Lemma take_while_app p (w s : bytes) :
  forallb p w = true -> match s with c :: _ => p c = false | [] => True end -> take_while p (w ++ s) = w.
Proof.
  intros Hw Hs. induction w as [|c w IH]; cbn in *.
  - destruct s as [|c s]; [done|]. cbn. by rewrite Hs.
  - apply andb_true_iff in Hw as [-> Hw]. by rewrite IH.
Qed.

Lemma re_plus_app p (w s : bytes) :
  w <> [] -> forallb p w = true -> match s with c :: _ => p c = false | [] => True end -> re_plus p (w ++ s) = Some (w, s).
Proof. intros Hne Hw Hs. unfold re_plus. rewrite take_while_app by done. destruct w; [done|]. by rewrite drop_app_length. Qed.

Lemma re_char_cons c s : re_char c (c :: s) = Some s.
Proof. cbn. by rewrite beqb_refl. Qed.

Lemma trim_left_id fuel c s : word_char c = true -> trim_space_left fuel (c :: s) = c :: s.
Proof.
  unfold word_char. rewrite andb_true_iff, negb_true_iff. intros [Ha Hs]. destruct fuel; [done|]. cbn [trim_space_left].
  rewrite decode_rune_ascii by lia. by rewrite Hs.
Qed.

Lemma trim_right_id fuel s c : word_char c = true -> trim_space_right fuel (s ++ [c]) = s ++ [c].
Proof.
  unfold word_char. rewrite andb_true_iff, negb_true_iff. intros [Ha Hs]. destruct fuel; [done|].
  assert (decode_last_rune (s ++ [c]) = (bz c, 1%nat)) as E.
  { unfold decode_last_rune. cbn [last_start].
    assert (length (s ++ [c]) - 1 = length s)%nat as El by (rewrite length_app; cbn; lia).
    rewrite El, list_lookup_middle by done. unfold cont. rewrite (proj2 (Z.leb_gt 128 (bz c))) by lia. cbn [andb].
    rewrite El, drop_app_length. rewrite decode_rune_ascii by lia. done. }
  cbn [trim_space_right]. destruct (s ++ [c]) eqn:Es; [done|]. rewrite E. by rewrite Hs.
Qed.

(** A text that starts and ends with word characters has nothing to trim. *)
Lemma TrimSpace_id c s d : word_char c = true -> word_char d = true -> TrimSpace (c :: s ++ [d]) = c :: s ++ [d].
Proof.
  intros Hc Hd. unfold TrimSpace. rewrite trim_left_id by done. change (c :: s ++ [d]) with ((c :: s) ++ [d]). by apply trim_right_id.
Qed.

(** A file name that a list line can carry: no line end in it, no space around it. *)
Definition list_name (f : bytes) : bool :=
  match head f, last f with Some a, Some z => word_char a && word_char z | _, _ => false end && negb (in_set f Byte.x0a).

Lemma list_name_inv f : list_name f = true ->
  exists a z, head f = Some a /\ last f = Some z /\ word_char a = true /\ word_char z = true /\ Byte.x0a ∉ f.
Proof.
  unfold list_name. destruct (head f) as [a|], (last f) as [z|]; try done. rewrite !andb_true_iff, negb_true_iff.
  intros [[Ha Hz] Hn]. exists a, z. split_and!; try done. intros Hin. apply in_set_spec in Hin. by rewrite Hin in Hn.
Qed.

Lemma head_last_split (f : bytes) a z : head f = Some a -> last f = Some z -> f = [a] \/ exists s, f = a :: s ++ [z].
Proof.
  destruct f as [|x f]; [done|]. cbn. intros [= ->] Hl. destruct (decide (f = [])) as [->|Hne]; [by left|right].
  exists (removelast f). rewrite (app_removelast_last Byte.x00 Hne) at 1. do 3 f_equal.
  rewrite last_cons in Hl. destruct f as [|y f] using rev_ind; [done|]. rewrite last_snoc in Hl. rewrite last_last. congruence.
Qed.

Lemma TrimSpace_name f : list_name f = true -> TrimSpace f = f.
Proof.
  intros (a & z & Ha & Hz & Wa & Wz & _)%list_name_inv. destruct (head_last_split f a z Ha Hz) as [->|[s ->]]; [|by apply TrimSpace_id].
  unfold TrimSpace. rewrite trim_left_id by done. by apply (trim_right_id _ []).
Qed.

Lemma Itoa_digits z : 0 <= z -> forallb is_digit (Itoa z) = true /\ Itoa z <> [].
Proof.
  intros Hz. unfold Itoa. rewrite (proj2 (Z.ltb_ge z 0)) by lia. split.
  - apply forallb_forall. intros c Hc%list_elem_of_In. by apply (proj1 (Forall_forall _ _) (fmt_uint_digits z Hz)).
  - destruct (fmt_uint_head z Hz) as (c & s & -> & _). done.
Qed.

Lemma spaces_re n : forallb re_space (replicate n " "%byte) = true.
Proof. induction n; [done|]. exact IHn. Qed.

Lemma fmt_tenths_clean size unit : "]"%byte ∉ fmt_tenths size unit.
Proof.
  unfold fmt_tenths. rewrite !not_elem_of_app. split_and!; [by apply Itoa_not_in|cbn; set_solver|].
  intros E%list_elem_of_singleton. set (t := div_even _ _) in E.
  assert (bz "]"%byte = 48 + t mod 10) as Hb by (rewrite E; apply bz_digit, Z.mod_pos_bound; lia).
  pose proof (Z.mod_pos_bound t 10 ltac:(lia)). change (bz "]"%byte) with 93 in Hb. lia.
Qed.

Lemma formatSize_clean size : "]"%byte ∉ formatSize size /\ formatSize size <> [].
Proof.
  unfold formatSize. repeat case_match; (split; [|first [done | intros [_ E]%app_eq_nil; discriminate E]]); rewrite ?not_elem_of_app; split_and?;
    first [apply fmt_tenths_clean | by apply Itoa_not_in | cbn; set_solver].
Qed.

Lemma forallb_not (c : byte) s : c ∉ s -> forallb (fun x => negb (beqb x c)) s = true.
Proof. intros Hn. apply forallb_forall. intros x Hx%list_elem_of_In. apply negb_true_iff, beqb_ne. by intros ->. Qed.

(** The line in the pieces the expression cuts it into. *)
Lemma pack_line_pieces p :
  pack_line p =
  "#"%byte :: Itoa (Number p) ++ (replicate (4 - length (Itoa (Number p))) " "%byte ++ str " " ++
    replicate (4 - length (Itoa (Gets p))) " "%byte) ++ Itoa (Gets p) ++
  "x"%byte :: str "  " ++ "["%byte :: pad_left 6 (formatSize (PSize p)) ++ "]"%byte :: str "  " ++ PFilename p.
Proof. unfold pack_line, pad_right. unfold pad_left at 1. rewrite <- !app_assoc. reflexivity. Qed.

Lemma iroffer_line p :
  0 <= Number p -> 0 <= Gets p -> list_name (PFilename p) = true ->
  iroffer_at (pack_line p) = Some (Itoa (Number p), Itoa (Gets p), pad_left 6 (formatSize (PSize p)), PFilename p).
Proof.
  intros Hn Hg Hf. destruct (Itoa_digits _ Hn) as [Dn Nn], (Itoa_digits _ Hg) as [Dg Ng].
  destruct (formatSize_clean (PSize p)) as [Cs Ns]. destruct (list_name_inv _ Hf) as (a & z & Ha & _ & Wa & _ & Hnl).
  destruct (PFilename p) as [|a' f] eqn:Ef; [done|]. injection Ha as ->.
  rewrite pack_line_pieces, Ef. unfold iroffer_at. rewrite re_char_cons. cbn [mbind option_bind].
  set (gap := replicate _ _ ++ str " " ++ replicate _ _).
  assert (forallb re_space gap = true) as Gs by (unfold gap; rewrite !forallb_app, !spaces_re; done).
  assert (gap <> []) as Gn by (unfold gap; intros E; apply app_eq_nil in E as [_ E]; discriminate E).
  assert (exists g gs, gap = g :: gs /\ is_digit g = false) as (g & gs & Eg & Hgd).
  { destruct gap as [|g gs]; [done|]. exists g, gs. split; [done|]. cbn [forallb] in Gs. apply andb_true_iff in Gs as [Gs _].
    unfold re_space in Gs. apply in_set_spec in Gs. repeat (apply elem_of_cons in Gs as [->|Gs]; [done|]). by apply elem_of_nil in Gs. }
  rewrite re_plus_app by (try done; rewrite Eg; done). cbn [mbind option_bind].
  assert (match Itoa (Gets p) with c :: _ => is_digit c = true | [] => False end) as Hgc.
  { destruct (Itoa (Gets p)); [done|]. cbn in Dg. by apply andb_true_iff in Dg as [Dg _]. }
  rewrite re_plus_app; [|done..|].
  2: { destruct (Itoa (Gets p)) as [|c s]; [done|]. cbn [app]. unfold re_space.
       apply not_true_iff_false. rewrite in_set_spec. intros Hin.
       repeat (apply elem_of_cons in Hin as [->|Hin]; [discriminate Hgc|]). by apply elem_of_nil in Hin. }
  cbn [mbind option_bind]. rewrite re_plus_app by done. cbn [mbind option_bind]. rewrite re_char_cons. cbn [mbind option_bind].
  rewrite (re_plus_app re_space (str "  ")) by done. cbn [mbind option_bind]. rewrite re_char_cons. cbn [mbind option_bind].
  rewrite re_plus_app; [|unfold pad_left; by intros [_ ?]%app_eq_nil|apply forallb_not|by rewrite beqb_refl].
  2: { unfold pad_left. apply not_elem_of_app. split; [|done]. intros Hin. apply elem_of_replicate in Hin as [Hin _]. discriminate Hin. }
  cbn [mbind option_bind]. rewrite re_char_cons. cbn [mbind option_bind].
  rewrite (re_plus_app re_space (str "  ")); [|done..|].
  2: { unfold word_char in Wa. apply andb_true_iff in Wa as [_ Wa]. apply not_true_iff_false. unfold re_space. rewrite in_set_spec. intros Hin.
       repeat (apply elem_of_cons in Hin as [->|Hin]; [discriminate Wa|]). by apply elem_of_nil in Hin. }
  cbn [mbind option_bind]. rewrite <- (app_nil_r (a :: f)) at 1. rewrite re_plus_app by (done || by apply forallb_not). done.
Qed.

(** What the bot lists, a client reads: each line of [ListMessage] for a pack is parsed
    to a pack with the same number, download count and file name, and with the size that
    its printed form is read as. *)
Theorem pack_line_roundtrip `{GoUnicode} `{GoFloat} (p : Pack) :
  0 <= Number p < 2 ^ 63 -> 0 <= Gets p < 2 ^ 63 -> list_name (PFilename p) = true ->
  ParseListNotice (pack_line p) =
  Some {| Number := Number p; PFilename := PFilename p; PSize := parseSize (pad_left 6 (formatSize (PSize p)));
          Gets := Gets p; CRC32 := 0; Description := [] |}.
Proof.
  intros Hn Hg Hf. unfold ParseListNotice.
  assert (TrimSpace (pack_line p) = pack_line p) as ->.
  { destruct (list_name_inv _ Hf) as (a & z & Ha & Hz & _ & Wz & _).
    assert (exists f, PFilename p = f ++ [z]) as [f Ef].
    { destruct (head_last_split _ a z Ha Hz) as [E|[s E]]; [|by exists (a :: s)].
      exists []. rewrite E in Hz |- *. by injection Hz as ->. }
    assert (exists s, pack_line p = "#"%byte :: s ++ [z]) as [s ->]; [|by apply TrimSpace_id].
    exists (pad_right 4 (Itoa (Number p)) ++ str " " ++ pad_left 4 (Itoa (Gets p)) ++ str "x  [" ++
            pad_left 6 (formatSize (PSize p)) ++ str "]  " ++ f).
    unfold pack_line. rewrite Ef, <- !app_assoc. reflexivity. }
  destruct (pack_line p) as [|c l] eqn:E; [discriminate E|]. cbn [reIroffer]. rewrite <- E, iroffer_line by (done || lia).
  unfold Atoi. rewrite !ParseInt_Itoa by (unfold in_i64; lia). by rewrite TrimSpace_name.
Qed.

(* ------------------------------------------------------------------ *)
(** ** Runs *)
#[local] Instance list_unicode : GoUnicode := ascii_only.
(** Whole numbers only, for evaluation. *)
#[local] Instance list_float : GoFloat :=
  {| scaled s mult := match ParseInt s with (v, None) => Some (v * mult) | _ => None end |}.

Definition demo_pack : Pack :=
  {| Number := 12; PFilename := str "some file.mkv"; PSize := 5000; Gets := 3; CRC32 := 7; Description := str "x" |}.

Lemma pack_line_roundtrip_witness :
  pack_line demo_pack = str "#12      3x  [  4.9K]  some file.mkv" /\
  ParseListNotice (pack_line demo_pack) =
  Some {| Number := 12; PFilename := str "some file.mkv"; PSize := parseSize (str "  4.9K"); Gets := 3; CRC32 := 0; Description := [] |}.
Proof.
  split; [vm_compute; reflexivity|]. apply (pack_line_roundtrip demo_pack); [cbn; lia..|vm_compute; reflexivity].
Defined.

Definition demo_bot : Bot := AddPack (NewBot NewManager (str ":0") 0) demo_pack.
Definition requested_bot : Bot := (RequestPack demo_bot 12 (inr 5000) (inr (be_put 4 2130706433, 4000))).1.

Lemma slots_bounded_witness : maxSlots requested_bot = 5 /\ activeSlots requested_bot <= maxSlots requested_bot.
Proof.
  destruct (slots_bounded NewManager (str ":0") 0 requested_bot) as (H1 & H2 & _); [|by split].
  eapply rtc_l; [apply (step_add _ demo_pack)|]. eapply rtc_l; [apply (step_request _ 12 (inr 5000) (inr (be_put 4 2130706433, 4000)))|reflexivity].
Defined.

(** The size of a small pack is printed with a unit that its reader does not know: the
    whole text, letter included, goes to [ParseFloat]. *)
Lemma small_size_not_read (HF : GoFloat) :
  @parseSize list_unicode HF (formatSize 512) = match @scaled HF (str "512B") 1 with None => -1 | Some z => z end.
Proof. vm_compute. reflexivity. Qed.
