(* ===== verification/FtpWire.v ===== *)
(** * ftp/ftp: commands and replies of the FTP control channel

    ftp.go, parse.go and reply.go. *)

From S2P Require Import Prelude GoStrings.

Definition CRLF : bytes := [Byte.x0d; Byte.x0a].

(** ** ftp.go *)

Definition CodeReady := 220.
Definition CodeGoodbye := 221.
Definition CodeUserOK := 331.
Definition CodeLoginOK := 230.
Definition CodeRequestedAction := 250.
Definition CodePathCreated := 257.
Definition CodeOK := 200.
Definition CodeCommandNotImpl := 502.
Definition CodeFileStatus := 213.
Definition CodeDataOpen := 150.
Definition CodeDataClose := 226.
Definition CodeEnterPASV := 227.
Definition CodeEnterEPSV := 229.
Definition CodeCantOpenData := 425.
Definition CodeConnClosed := 426.
Definition CodeSyntaxError := 500.
Definition CodeNotLoggedInReq := 530.
Definition CodeFileUnavailable := 550.
Definition CodeStorageExceeded := 552.

Record Reply := { Code : Z; Text : bytes; Lines : list bytes }.

Definition reply_line (sep : bytes) (code : Z) (l : bytes) : bytes := Itoa code ++ sep ++ l ++ CRLF.

Fixpoint multi_lines (code : Z) (lines : list bytes) : bytes :=
  match lines with
  | [] => []
  | [l] => reply_line (str " ") code l
  | l :: ls => reply_line (str "-") code l ++ multi_lines code ls
  end.

Definition Reply_String (r : Reply) : bytes :=
  match Lines r with
  | [] => reply_line (str " ") (Code r) (Text r)
  | _ => multi_lines (Code r) (Lines r)
  end.

Definition Reply_Error (r : Reply) : bytes := str "ftp: " ++ Itoa (Code r) ++ str " " ++ Text r.

Definition Permanent (r : Reply) : bool := (Code r >=? 500) && (Code r <? 600).
Definition Positive (r : Reply) : bool := (Code r >=? 200) && (Code r <? 400).

Record Command := { CName : bytes; CArg : bytes }.

Definition Command_String (c : Command) : bytes :=
  if seqb (CArg c) [] then CName c ++ CRLF else CName c ++ str " " ++ CArg c ++ CRLF.

Definition IsPrefix `{GoUnicode} (c : Command) (prefixes : list bytes) : bool := existsb (seqb (ToUpper (CName c))) prefixes.

Definition FormatCode (c : Z) : bytes := Itoa c.

(** [None]: empty command. *)
Definition Parse `{GoUnicode} (line : bytes) : option Command :=
  let line := TrimRight CRLF line in
  if seqb line [] then None
  else match IndexByte line " "%byte with
       | Some i => Some {| CName := ToUpper (take i line); CArg := drop (S i) line |}
       | None => Some {| CName := ToUpper line; CArg := [] |}
       end.

Definition NewReply (code : Z) (text : bytes) : Reply := {| Code := code; Text := text; Lines := [] |}.
Definition NewMultiLine (code : Z) (lines : list bytes) : Reply := {| Code := code; Text := []; Lines := lines |}.

(** ** reply.go *)

Inductive reply_err :=
| EReplyIO (e : io_err)
| EMalformedReply (line : bytes)
| EMalformedContinuation (line : bytes)
| ECodeChanged (first code : Z).

Definition parseCode (s : bytes) : option Z :=
  fold_left (fun acc c => n ← acc; if (c <? 48) || (c >? 57) then None else Some (n * 10 + (c - 48)))
    (runes s) (Some 0).

Definition splitReplyLine (line : bytes) : option (Z * bytes) :=
  if blen line <? 3 then None
  else
    code ← parseCode (take 3 line);
    let rest := drop 3 line in
    if HasPrefix rest (str " ") || HasPrefix rest (str "-")
    then Some (code, TrimRight CRLF (drop 1 rest)) else None.

Definition isMultiLineStart (line : bytes) : bool :=
  (blen line >=? 4) && match line !! 3%nat with Some c => beqb c "-"%byte | None => false end.

(** The continuation lines; the input shrinks, so its length is fuel enough. *)
Fixpoint read_continuation (fuel : nat) (firstCode : Z) (lines : list bytes) (r : bytes)
    : res reply_err (Reply * bytes) :=
  match fuel with
  | O => Err (EReplyIO EOF)
  | S fuel' =>
      let! (line, r) := res_wrap EReplyIO (ReadString r Byte.x0a) in
      match splitReplyLine line with
      | None => Err (EMalformedContinuation line)
      | Some (code, text) =>
          if negb (code =? firstCode) then Err (ECodeChanged firstCode code)
          else
            let lines := lines ++ [text] in
            if negb (isMultiLineStart line)
            then Ok ({| Code := firstCode; Text := []; Lines := lines |}, r)
            else read_continuation fuel' firstCode lines r
      end
  end.

Definition Read (r : bytes) : res reply_err (Reply * bytes) :=
  let! (first, r) := res_wrap EReplyIO (ReadString r Byte.x0a) in
  match splitReplyLine first with
  | None => Err (EMalformedReply first)
  | Some (firstCode, firstText) =>
      if isMultiLineStart first then read_continuation (S (length r)) firstCode [firstText] r
      else Ok ({| Code := firstCode; Text := []; Lines := [firstText] |}, r)
  end.

(** ** parse.go *)

(** The text of a reply that carries an address: its last line. *)
Definition reply_text (r : Reply) : bytes := match last (Lines r) with Some l => l | None => Text r end.

(** The text between the first "(" and the last ")". *)
Definition parenthesised (text : bytes) : option bytes :=
  open ← IndexByte text "("%byte;
  close ← LastIndexByte text ")"%byte;
  if Nat.leb close open then None else Some (take (close - S open) (drop (S open) text)).

Definition ParseEPSVReply (r : Reply) : option bytes :=
  if negb (Code r =? CodeEnterEPSV) then None
  else
    inner ← parenthesised (reply_text r);
    let parts := Split inner "|"%byte in
    if Nat.ltb (length parts) 4 || Nat.ltb 5 (length parts) then None
    else if negb (seqb (nth 0 parts []) []) || negb (seqb (nth 1 parts []) []) then None
    else Some (nth (length parts - 2) parts []).

(** Host and port of six comma-separated numbers: [ParsePASVReply], and [parsePORT]
    of the server. *)
Definition host_port (arg : bytes) : option (bytes * Z) :=
  let parts := Split arg ","%byte in
  if negb (length parts =? 6)%nat then None
  else
    let host := Join (take 4 parts) (str ".") in
    match Atoi (TrimSpace (nth 4 parts [])), Atoi (TrimSpace (nth 5 parts [])) with
    | (p1, None), (p2, None) => Some (host, i64 (i64 (p1 * 256) + p2))
    | _, _ => None
    end.

Definition ParsePASVReply (r : Reply) : option (bytes * Z) :=
  if negb (Code r =? CodeEnterPASV) then None
  else inner ← parenthesised (reply_text r); host_port inner.

(** Panics when the host has fewer than four parts; the errors of [Atoi] are ignored. *)
Definition FormatPORT (host : bytes) (port : Z) : res unit bytes :=
  match Split host "."%byte with
  | h0 :: h1 :: h2 :: h3 :: _ =>
      Ok (Join (map Itoa [(Atoi h0).1; (Atoi h1).1; (Atoi h2).1; (Atoi h3).1;
                          Z.quot port 256; Z.rem port 256]) (str ","))
  | _ => Panic
  end.

Definition FormatEPRT (proto host : bytes) (port : Z) : bytes :=
  Join [proto; host; Itoa port; []] (str "|").

(* ------------------------------------------------------------------ *)
(** ** Reply lines *)

(** A check of every number in a range. *)
Lemma range_check (P : Z -> bool) lo n z :
  forallb P (seqZ lo n) = true -> lo <= z < lo + n -> P z = true.
Proof.
  intros H Hz. apply forallb_forall with (x := z) in H; [done|]. apply list_elem_of_In, elem_of_seqZ. lia.
Qed.

Definition code_ok (code : Z) : bool :=
  Nat.eqb (length (Itoa code)) 3 && match parseCode (Itoa code) with Some n => n =? code | None => false end &&
  negb (in_set (Itoa code) Byte.x0a).

Lemma code_digits code :
  100 <= code <= 999 ->
  length (Itoa code) = 3%nat /\ parseCode (Itoa code) = Some code /\ Byte.x0a ∉ Itoa code.
Proof.
  intros H. assert (code_ok code = true) as E by (apply (range_check code_ok 100 900); [by vm_compute|lia]).
  unfold code_ok in E. rewrite !andb_true_iff, Nat.eqb_eq, negb_true_iff in E. destruct E as [[E1 E2] E3].
  repeat split; [done| |].
  - destruct (parseCode (Itoa code)) as [n|]; [|done]. by apply Z.eqb_eq in E2 as ->.
  - intros Hin%in_set_spec. congruence.
Qed.

(** The text of a line: no line feed inside, no line end at its end. *)
Definition wf_line (l : bytes) : bool :=
  negb (in_set l Byte.x0a) && match last l with Some c => negb (in_set CRLF c) | None => true end.

Lemma wf_line_inv l : wf_line l = true -> Byte.x0a ∉ l /\ TrimRight CRLF (l ++ CRLF) = l.
Proof.
  unfold wf_line. rewrite andb_true_iff, negb_true_iff. intros [H1 H2]. split.
  - intros H%in_set_spec. congruence.
  - rewrite TrimRight_app by done. apply TrimRight_id. intros c E Hc. rewrite E in H2.
    apply in_set_spec in Hc. by rewrite Hc in H2.
Qed.

Lemma read_reply_line sep code l rest :
  sep = str " " \/ sep = str "-" -> 100 <= code <= 999 -> wf_line l = true ->
  ReadString (reply_line sep code l ++ rest) Byte.x0a = Ok (reply_line sep code l, rest) /\
  splitReplyLine (reply_line sep code l) = Some (code, l) /\
  isMultiLineStart (reply_line sep code l) = seqb sep (str "-").
Proof.
  intros Hsep Hc Hl. destruct (code_digits code Hc) as (Hlen & Hp & Hn). apply wf_line_inv in Hl as [Hlf Htrim].
  unfold reply_line. repeat split.
  - replace ((Itoa code ++ sep ++ l ++ CRLF) ++ rest) with
      ((Itoa code ++ sep ++ l ++ [Byte.x0d]) ++ Byte.x0a :: rest) by (rewrite <- !app_assoc; done).
    rewrite ReadString_app.
    + rewrite <- !app_assoc. done.
    + rewrite !not_elem_of_app. repeat split; try done; [by destruct Hsep as [-> | ->]; apply (bool_decide_unpack _)|].
      by apply (bool_decide_unpack _).
  - unfold splitReplyLine, blen. rewrite length_app, Hlen. rewrite (proj2 (Z.ltb_ge _ _)) by lia.
    rewrite <- Hlen, take_app_length, drop_app_length, Hp. cbn [mbind option_bind].
    assert (HasPrefix (sep ++ l ++ CRLF) (str " ") || HasPrefix (sep ++ l ++ CRLF) (str "-") = true) as ->.
    { destruct Hsep as [-> | ->]; rewrite HasPrefix_app; [done|apply orb_true_r]. }
    replace (drop 1 (sep ++ l ++ CRLF)) with (l ++ CRLF) by by destruct Hsep as [-> | ->]. by rewrite Htrim.
  - unfold isMultiLineStart, blen. rewrite lookup_app_r by lia. rewrite Hlen, Nat.sub_diag.
    rewrite !length_app, Hlen. destruct Hsep as [-> | ->]; simpl; [apply andb_false_r|].
    rewrite andb_true_r. apply Z.geb_le. lia.
Qed.

Lemma multi_lines_length code lines : (length lines <= length (multi_lines code lines))%nat.
Proof.
  induction lines as [|l ls IH]; [done|]. destruct ls as [|l' ls]; [unfold multi_lines, reply_line; len_solve|].
  change (multi_lines code (l :: l' :: ls)) with (reply_line (str "-") code l ++ multi_lines code (l' :: ls)).
  unfold reply_line. rewrite !length_app. simpl length at 1 4 5. simpl length in IH. simpl. lia.
Qed.

Lemma read_continuation_lines code lines : forall fuel acc rest,
  100 <= code <= 999 -> lines <> [] -> forallb wf_line lines = true -> (length lines <= fuel)%nat ->
  read_continuation fuel code acc (multi_lines code lines ++ rest) =
  Ok ({| Code := code; Text := []; Lines := acc ++ lines |}, rest).
Proof.
  induction lines as [|l ls IH]; intros fuel acc rest Hc Hne Hwf Hf; [done|]. clear Hne.
  destruct fuel as [|fuel]; [simpl in Hf; lia|].
  cbn [forallb] in Hwf. apply andb_true_iff in Hwf as [Hl Hls]. destruct ls as [|l' ls].
  - destruct (read_reply_line (str " ") code l rest) as (E1 & E2 & E3); auto.
    cbn [multi_lines read_continuation]. rewrite E1. cbn [res_wrap res_bind]. rewrite E2, Z.eqb_refl, E3. done.
  - change (multi_lines code (l :: l' :: ls)) with (reply_line (str "-") code l ++ multi_lines code (l' :: ls)).
    destruct (read_reply_line (str "-") code l (multi_lines code (l' :: ls) ++ rest)) as (E1 & E2 & E3); auto.
    rewrite <- app_assoc. cbn [read_continuation]. rewrite E1. cbn [res_wrap res_bind]. rewrite E2, Z.eqb_refl, E3.
    simpl negb. cbv iota zeta. rewrite IH by (done || simpl in *; lia). by rewrite <- app_assoc.
Qed.

Lemma Read_Reply (r : Reply) (rest : bytes) :
  let lines := match Lines r with [] => [Text r] | ls => ls end in
  100 <= Code r <= 999 -> forallb wf_line lines = true ->
  Read (Reply_String r ++ rest) = Ok ({| Code := Code r; Text := []; Lines := lines |}, rest).
Proof.
  intros lines Hc Hwf. unfold Read.
  assert (Reply_String r = multi_lines (Code r) lines) as ->
    by (unfold Reply_String, lines; by destruct (Lines r)).
  assert (lines <> []) as Hne by (unfold lines; by destruct (Lines r)). clearbody lines.
  destruct lines as [|l ls]; [done|]. cbn [forallb] in Hwf. apply andb_true_iff in Hwf as [Hl Hls].
  destruct ls as [|l' ls].
  - destruct (read_reply_line (str " ") (Code r) l rest) as (E1 & E2 & E3); auto.
    cbn [multi_lines]. rewrite E1. cbn [res_wrap res_bind]. by rewrite E2, E3.
  - change (multi_lines (Code r) (l :: l' :: ls)) with (reply_line (str "-") (Code r) l ++ multi_lines (Code r) (l' :: ls)).
    destruct (read_reply_line (str "-") (Code r) l (multi_lines (Code r) (l' :: ls) ++ rest)) as (E1 & E2 & E3); auto.
    rewrite <- app_assoc, E1. cbn [res_wrap res_bind]. rewrite E2, E3.
    change (seqb (str "-") (str "-")) with true. cbv iota.
    rewrite read_continuation_lines; [done..|].
    pose proof (multi_lines_length (Code r) (l' :: ls)). rewrite length_app. lia.
Qed.

(** A reply, single or multi-line, is read back as it was written, up to the end
    of its last line and no further: the code and the lines, the text of a single-line
    reply being its only line. *)
Theorem Read_Reply_String (r : Reply) (rest : bytes) :
  let lines := match Lines r with [] => [Text r] | ls => ls end in
  100 <= Code r <= 999 -> forallb wf_line lines = true ->
  Read (Reply_String r ++ rest) = Ok ({| Code := Code r; Text := []; Lines := lines |}, rest).
Proof. apply Read_Reply. Qed.

Lemma Read_Reply_String_witness :
  Read (Reply_String (NewMultiLine 211 [str "Features:"; str " UTF8"; str "End"]) ++ str "220 next") =
  Ok (NewMultiLine 211 [str "Features:"; str " UTF8"; str "End"], str "220 next").
Proof.
  apply (Read_Reply_String (NewMultiLine 211 [str "Features:"; str " UTF8"; str "End"])); [simpl; lia|by vm_compute].
Defined.

(** The error text of a reply is lost by the scanner: whatever the server sent,
    a reply that was read formats as an error with its code alone. *)
Theorem Read_loses_error_text (input : bytes) (r : Reply) (rest : bytes) :
  Read input = Ok (r, rest) -> Reply_Error r = str "ftp: " ++ Itoa (Code r) ++ str " ".
Proof.
  intros H. assert (Text r = []) as E; [|unfold Reply_Error; by rewrite E].
  unfold Read in H. destruct (ReadString input _) as [[first r1]| |]; try done. cbn [res_wrap res_bind] in H.
  destruct (splitReplyLine first) as [[code text]|]; [|done]. destruct (isMultiLineStart first); [|by simplify_eq].
  revert H. generalize [text] as lines. generalize (S (length r1)) as fuel. intros fuel. revert r1.
  induction fuel as [|fuel IH]; intros r1 lines H; [done|]. cbn [read_continuation] in H.
  destruct (ReadString r1 _) as [[line r2]| |]; try done. cbn [res_wrap res_bind] in H.
  destruct (splitReplyLine line) as [[c t]|]; [|done]. destruct (negb _); [done|].
  destruct (negb _); [by simplify_eq|]. by apply IH in H.
Qed.

Lemma Read_loses_error_text_witness :
  let input := Reply_String (NewReply 550 (str "No such file")) in
  exists r, Read input = Ok (r, []) /\ Reply_Error r = str "ftp: 550 ".
Proof.
  intros input. exists {| Code := 550; Text := []; Lines := [str "No such file"] |}.
  assert (Read input = Ok ({| Code := 550; Text := []; Lines := [str "No such file"] |}, [])) as H by by vm_compute.
  split; [exact H|]. exact (Read_loses_error_text input _ [] H).
Defined.

(** Commands survive the wire: parsing the line of a command gives it back, for
    an upper-case verb without spaces and an argument that does not end in a line
    end. *)
Theorem Parse_Command_String `{GoUnicode} (c : Command) :
  CName c <> [] -> ToUpper (CName c) = CName c -> " "%byte ∉ CName c ->
  wf_line (CName c) = true -> wf_line (CArg c) = true ->
  Parse (Command_String c) = Some c.
Proof.
  intros Hne Hup Hsp Hn Ha. destruct c as [name arg]. cbn [CName CArg] in *. unfold Parse, Command_String. cbn [CName CArg].
  apply wf_line_inv in Hn as [_ Hn].
  destruct (seqb_spec arg []) as [->|Hne'].
  - rewrite Hn, seqb_ne by done. rewrite (proj2 (IndexByte_None _ _) Hsp). by rewrite Hup.
  - assert (TrimRight CRLF (name ++ str " " ++ arg ++ CRLF) = name ++ " "%byte :: arg) as ->.
    { rewrite !app_assoc, TrimRight_app by done. rewrite <- app_assoc. apply TrimRight_id. intros x.
      rewrite last_app_nonempty by done. change (" "%byte :: arg) with ([" "%byte] ++ arg).
      rewrite last_app_nonempty by done.
      intros Hx Hin%in_set_spec.
      unfold wf_line in Ha. rewrite Hx, Hin in Ha. by rewrite andb_false_r in Ha. }
    rewrite seqb_ne by by destruct name. rewrite IndexByte_app by done.
    by rewrite take_app_length, drop_app_S, Hup.
Qed.

Lemma Parse_Command_String_witness :
  let u := ascii_only in
  Parse (Command_String {| CName := str "RETR"; CArg := str "my file" |}) = Some {| CName := str "RETR"; CArg := str "my file" |}.
Proof.
  intros u. apply Parse_Command_String; try done; by apply (bool_decide_unpack _); vm_compute.
Defined.

(** [IsPrefix] asks for a whole verb in upper case: of a command that was parsed, whose verb
    already is, it tells whether the verb is among those given, and a proper prefix or one
    in lower case is never one. *)
Lemma IsPrefix_spec `{GoUnicode} c ps : IsPrefix c ps = true <-> ToUpper (CName c) ∈ ps.
Proof.
  unfold IsPrefix. rewrite existsb_exists. split.
  - intros (p & Hp & E). apply list_elem_of_In. by destruct (seqb_spec (ToUpper (CName c)) p) as [->|].
  - intros Hp%list_elem_of_In. exists (ToUpper (CName c)). split; [done|apply seqb_refl].
Qed.

Lemma IsPrefix_no_prefix : let c := {| CName := str "STOR"; CArg := [] |} in
  @IsPrefix ascii_only c [str "STO"] = false /\ @IsPrefix ascii_only c [str "stor"] = false.
Proof. by vm_compute. Qed.
