(* ===== verification/FtpSession.v ===== *)
(** * ftp/server: authentication and the control session

    auth/auth.go and session.go: one definition per command handler, the dispatch
    and the command loop, over interfaces for the filesystem, the network of the data
    channel and the authenticator.  The session records what it does to its
    environment as a trace of events.  Writing a reply is taken to succeed, a broken
    control connection being seen by the next read. *)

From S2P Require Import Prelude GoStrings GoTime Paths FtpWire.

(* ------------------------------------------------------------------ *)
(** ** auth.go *)

Record User := { UName : bytes; Home : bytes }.
Definition no_user : User := {| UName := []; Home := [] |}.

(** The interface [Authenticator]; an error is its text. *)
Class Authenticator := { Authenticate : bytes -> bytes -> bytes + User }.

Section Auth.
Context `{GoUnicode}.

(** [Static]: rows by lower-cased name. *)
Definition static_rows := gmap bytes (bytes * User).
Definition static_add (rows : static_rows) (user pass : bytes) : static_rows :=
  <[ToLower user := (pass, {| UName := user; Home := [] |})]> rows.
Definition static_authenticate (rows : static_rows) (user pass : bytes) : bytes + User :=
  match rows !! ToLower user with
  | Some (p, u) => if negb (seqb p pass) then inl (str "login incorrect") else inr u
  | None => inl (str "login incorrect")
  end.

(** [AnonymousConfig], after the default of [NewAnonymous]. *)
Record AnonymousConfig := { AUser : bytes; AllowedPasswords : gset bytes }.
Definition NewAnonymous (cfg : AnonymousConfig) : AnonymousConfig :=
  if seqb (AUser cfg) [] then {| AUser := str "anonymous"; AllowedPasswords := AllowedPasswords cfg |} else cfg.
Definition AllowAnonymous : AnonymousConfig := {| AUser := str "anonymous"; AllowedPasswords := ∅ |}.
Definition anonymous_authenticate (cfg : AnonymousConfig) (user pass : bytes) : bytes + User :=
  if negb (EqualFold user (AUser cfg)) then inl (str "login incorrect")
  else if seqb pass [] then inl (str "password required")
  else if negb (bool_decide (AllowedPasswords cfg = ∅)) && negb (bool_decide (pass ∈ AllowedPasswords cfg))
  then inl (str "login incorrect")
  else inr {| UName := user; Home := [] |}.
End Auth.

(* ------------------------------------------------------------------ *)
(** ** Environment *)

Record Entry := { EName : bytes; ESize : Z; EIsDir : bool; EModTime : Time; EOwner : bytes; EGroup : bytes }.

(** The interface [fs.Filesystem] on a state [F]; an error is its text.  [SendFile]
    gives the bytes it wrote to the connection, [RecvFile] and [AppendFile] take the
    bytes the connection delivers. *)
Class Filesystem (F : Type) := {
  fs_resolve : User -> bytes -> bytes -> bytes + bytes;
  fs_stat : User -> bytes -> F -> (bytes + Entry) * F;
  fs_list : User -> bytes -> F -> (bytes + list Entry) * F;
  fs_mkdir : User -> bytes -> F -> option bytes * F;
  fs_remove : User -> bytes -> F -> option bytes * F;
  fs_rename : User -> bytes -> bytes -> F -> option bytes * F;
  fs_send : User -> bytes -> Z -> F -> (bytes * option bytes) * F;
  fs_recv : User -> bytes -> bytes -> F -> option bytes * F;
  fs_append : User -> bytes -> bytes -> F -> option bytes * F
}.

(** What the session relies on for its sandbox: from a clean directory every
    argument resolves to a clean path. *)
Class CleanFilesystem (F : Type) `{Filesystem F} : Prop := {
  fs_resolve_clean : forall u cwd arg p, clean_path cwd -> fs_resolve u cwd arg = inr p -> clean_path p
}.

(** TCP for the data channel: the host and port of a listener, the bytes a peer
    delivers on the connection that is accepted or dialled. *)
Class DataNet (N : Type) := {
  n_listen : bytes -> N -> (bytes + bytes * bytes) * N;
  n_accept : bytes * bytes -> N -> (bytes + bytes) * N;
  n_dial : bytes -> N -> (bytes + bytes) * N
}.

(** The verb [%q] and [Time.Format] at the layouts ["20060102150405"] and
    ["Jan _2 15:04"]. *)
Class GoFmt := { quote : bytes -> bytes; fmt_mdtm : Time -> bytes; fmt_list_time : Time -> bytes }.

Record Config := {
  Banner : bytes;
  WelcomeMessage : bytes;
  PassiveStart : Z;
  PassiveEnd : Z
}.

(** ** Session state *)

Inductive passive_listener := Listening (addr : bytes * bytes) | Remote (addr : bytes).

(** The trace: replies, data sent, logins, and the paths given to the filesystem. *)
Inductive event :=
| EReply (r : Reply)
| EData (data : bytes)
| ELogin (u : User)
| EFile (path : bytes).

Record session (F N : Type) := mkSession {
  user : bytes;
  auth : User;
  logged : bool;
  cwd : bytes;
  renameTo : bytes;
  rest : Z;
  type_ : bytes;
  passive : option passive_listener;
  dataTLS : bool;
  filesystem : F;
  network : N;
  trace : list event
}.
Arguments mkSession {_ _}. Arguments user {_ _}. Arguments auth {_ _}. Arguments logged {_ _}. Arguments cwd {_ _}.
Arguments renameTo {_ _}. Arguments rest {_ _}. Arguments type_ {_ _}. Arguments passive {_ _}.
Arguments dataTLS {_ _}. Arguments filesystem {_ _}. Arguments network {_ _}. Arguments trace {_ _}.

(** The result of a handler: go on, QUIT, or an error that [serve] reports. *)
Inductive handled (F N : Type) :=
| Done (s : session F N)
| Quit (s : session F N)
| Failed (s : session F N) (msg : bytes).
Arguments Done {_ _}. Arguments Quit {_ _}. Arguments Failed {_ _}.

(** [%-8s] and [%12d]. *)
Definition pad_right (w : nat) (s : bytes) : bytes := s ++ replicate (w - length (runes s)) " "%byte.
Definition pad_left (w : nat) (s : bytes) : bytes := replicate (w - length s) " "%byte ++ s.

Definition formatListEntry `{GoFmt} (e : Entry) : bytes :=
  let mode := if EIsDir e then str "drwxr-xr-x" else str "-rw-r--r--" in
  mode ++ str "   1 " ++ pad_right 8 (EOwner e) ++ str " " ++ pad_right 8 (EGroup e) ++ str " " ++
  pad_left 12 (Itoa (ESize e)) ++ str " " ++ fmt_list_time (EModTime e) ++ str " " ++ EName e.

(** [net.JoinHostPort] *)
Definition JoinHostPort (host port : bytes) : bytes :=
  if in_set host ":"%byte then str "[" ++ host ++ str "]:" ++ port else host ++ str ":" ++ port.

Definition mustAtoi (s : bytes) : Z := (Atoi s).1.

(** The texts of the replies to PASV and EPSV. *)
Definition pasv_text (host port : bytes) : bytes :=
  str "Entering Passive Mode (" ++ ReplaceByte host "."%byte (str ",") ++ str "," ++
  Itoa (Z.quot (mustAtoi port) 256) ++ str "," ++ Itoa (Z.rem (mustAtoi port) 256) ++ str ").".
Definition epsv_text (port : bytes) : bytes :=
  str "Entering Extended Passive Mode (|||" ++ port ++ str "|).".

(** The address an EPRT argument names. *)
Definition eprt_addr (arg : bytes) : bytes + bytes :=
  let parts := Split arg "|"%byte in
  if negb (length parts =? 4)%nat then inl (str "Bad EPRT")
  else match Atoi (nth 2 parts []) with
       | (_, Some _) => inl (str "Bad EPRT port")
       | (port, None) => inr (JoinHostPort (nth 1 parts []) (Itoa port))
       end.

Definition parsePORT (arg : bytes) : option (bytes * Z) := host_port arg.

(* ------------------------------------------------------------------ *)
(** ** Handlers *)

Section Session.
Context {F N : Type} `{!Filesystem F} `{!DataNet N} `{!Authenticator} `{GoUnicode} `{!GoFmt} (cfg : Config).
Implicit Types (s : session F N).

Definition newSession (f : F) (n : N) : session F N :=
  {| user := []; auth := no_user; logged := false; cwd := str "/"; renameTo := []; rest := 0;
     type_ := str "A"; passive := None; dataTLS := false; filesystem := f; network := n; trace := [] |}.

Definition emit s (es : list event) : session F N :=
  {| user := user s; auth := auth s; logged := logged s; cwd := cwd s; renameTo := renameTo s; rest := rest s;
     type_ := type_ s; passive := passive s; dataTLS := dataTLS s; filesystem := filesystem s;
     network := network s; trace := trace s ++ es |}.
Definition set_login s (name : bytes) (u : User) (l : bool) (dir : bytes) : session F N :=
  {| user := name; auth := u; logged := l; cwd := dir; renameTo := renameTo s; rest := rest s;
     type_ := type_ s; passive := passive s; dataTLS := dataTLS s; filesystem := filesystem s;
     network := network s; trace := trace s |}.
Definition set_cwd s (dir : bytes) : session F N := set_login s (user s) (auth s) (logged s) dir.
Definition set_modes s (t : bytes) (tls : bool) (r : Z) (ren : bytes) : session F N :=
  {| user := user s; auth := auth s; logged := logged s; cwd := cwd s; renameTo := ren; rest := r;
     type_ := t; passive := passive s; dataTLS := tls; filesystem := filesystem s;
     network := network s; trace := trace s |}.
Definition set_data s (p : option passive_listener) (n : N) : session F N :=
  {| user := user s; auth := auth s; logged := logged s; cwd := cwd s; renameTo := renameTo s; rest := rest s;
     type_ := type_ s; passive := p; dataTLS := dataTLS s; filesystem := filesystem s;
     network := n; trace := trace s |}.
(** A call of the filesystem on [path]. *)
Definition set_fs s (path : bytes) (f : F) : session F N :=
  {| user := user s; auth := auth s; logged := logged s; cwd := cwd s; renameTo := renameTo s; rest := rest s;
     type_ := type_ s; passive := passive s; dataTLS := dataTLS s; filesystem := f;
     network := network s; trace := trace s ++ [EFile path] |}.

Definition reply s (r : Reply) : session F N := emit s [EReply r].
Definition say s (code : Z) (text : bytes) : handled F N := Done (reply s (NewReply code text)).

Definition handleUSER s (arg : bytes) : handled F N :=
  say (set_login s arg no_user false (cwd s)) CodeUserOK (str "Password required").

Definition handlePASS s (arg : bytes) : handled F N :=
  if seqb (user s) [] then say s CodeNotLoggedInReq (str "Login with USER first")
  else match Authenticate (user s) arg with
       | inl err => say s 530 err
       | inr u =>
           let s := emit (set_login s (user s) u true (str "/")) [ELogin u] in
           let msg := if seqb (WelcomeMessage cfg) [] then str "Login successful" else WelcomeMessage cfg in
           say s CodeLoginOK msg
       end.

(** The path an argument stands for, or the 550 reply. *)
Definition resolved s (arg : bytes) (k : bytes -> handled F N) : handled F N :=
  match fs_resolve (auth s) (cwd s) arg with
  | inl err => say s CodeFileUnavailable err
  | inr target => k target
  end.
(** The entry at a path, or the 550 reply. *)
Definition stated s (target : bytes) (k : session F N -> Entry -> handled F N) : handled F N :=
  let '(r, f) := fs_stat (auth s) target (filesystem s) in
  let s := set_fs s target f in
  match r with
  | inl err => say s CodeFileUnavailable err
  | inr st => k s st
  end.

Definition cwd2 s (arg : bytes) : handled F N :=
  resolved s arg (fun target => stated s target (fun s st =>
    if negb (EIsDir st) then say s CodeFileUnavailable (str "Not a directory")
    else say (set_cwd s target) CodeRequestedAction (str "CWD successful"))).

Definition type2 s (arg : bytes) : handled F N :=
  let arg := ToUpper arg in
  if negb (seqb arg (str "A")) && negb (seqb arg (str "I")) then say s CodeSyntaxError (str "Unsupported type")
  else say (set_modes s arg (dataTLS s) (rest s) (renameTo s)) 200 (str "Type set to " ++ arg).

(** [openPassive]: the first port of the range that can be listened on. *)
Fixpoint listen_range (ports : list Z) (n : N) : (bytes + bytes * bytes) * N :=
  match ports with
  | [] => (inl (str "no passive port available"), n)
  | port :: ports' =>
      match n_listen (str "0.0.0.0:" ++ Itoa port) n with
      | (inr ln, n) => (inr ln, n)
      | (inl _, n) => listen_range ports' n
      end
  end.
Definition openPassive (n : N) : (bytes + bytes * bytes) * N :=
  if PassiveEnd cfg >? 0 then listen_range (seqZ (PassiveStart cfg) (PassiveEnd cfg - PassiveStart cfg + 1)) n
  else n_listen (str "0.0.0.0:0") n.

Definition pasv s : handled F N :=
  match openPassive (network s) with
  | (inl err, n) => say (set_data s (passive s) n) CodeCantOpenData err
  | (inr (host, port), n) =>
      say (set_data s (Some (Listening (host, port))) n) CodeEnterPASV (pasv_text host port)
  end.

Definition epsv s : handled F N :=
  match openPassive (network s) with
  | (inl err, n) => say (set_data s (passive s) n) CodeCantOpenData err
  | (inr (host, port), n) =>
      say (set_data s (Some (Listening (host, port))) n) CodeEnterEPSV (epsv_text port)
  end.

Definition port s (arg : bytes) : handled F N :=
  match parsePORT arg with
  | None => say s CodeSyntaxError (str "bad PORT")
  | Some (host, p) =>
      say (set_data s (Some (Remote (JoinHostPort host (Itoa p)))) (network s)) 200 (str "PORT command successful")
  end.

Definition eprt s (arg : bytes) : handled F N :=
  match eprt_addr arg with
  | inl err => say s CodeSyntaxError err
  | inr addr => say (set_data s (Some (Remote addr)) (network s)) 200 (str "EPRT command successful")
  end.

(** [acceptData]: the connection's incoming bytes, or the error. *)
Definition acceptData s : (bytes + bytes) * session F N :=
  match passive s with
  | None => (inl (str "no data channel set up"), s)
  | Some (Listening addr) => let '(r, n) := n_accept addr (network s) in (r, set_data s None n)
  | Some (Remote addr) =>
      if negb (seqb addr []) then let '(r, n) := n_dial addr (network s) in (r, set_data s None n)
      else (inl (str "no data channel"), s)
  end.
Definition with_data s (k : session F N -> bytes -> handled F N) : handled F N :=
  match acceptData s with
  | (inl err, s) => say s CodeCantOpenData err
  | (inr incoming, s) =>
      k (reply s (NewReply CodeDataOpen (str "Opening data connection"))) incoming
  end.
Definition complete s : handled F N := say s CodeDataClose (str "Transfer complete").

Definition list_ s (arg : bytes) : handled F N :=
  let go target :=
    let '(r, f) := fs_list (auth s) target (filesystem s) in
    let s := set_fs s target f in
    match r with
    | inl err => say s CodeFileUnavailable err
    | inr entries => with_data s (fun s _ =>
        complete (emit s (map (fun e => EData (formatListEntry e ++ CRLF)) entries)))
    end in
  if seqb arg [] then go (cwd s) else resolved s arg go.

Definition retr s (arg : bytes) : handled F N :=
  resolved s arg (fun target => with_data s (fun s _ =>
    let '((data, err), f) := fs_send (auth s) target (rest s) (filesystem s) in
    let s := emit (set_fs s target f) [EData data] in
    match err with
    | Some e => say s CodeConnClosed e
    | None => complete s
    end)).

Definition receive s (arg : bytes) (store : User -> bytes -> bytes -> F -> option bytes * F) : handled F N :=
  resolved s arg (fun target => with_data s (fun s incoming =>
    let '(err, f) := store (auth s) target incoming (filesystem s) in
    let s := set_fs s target f in
    match err with
    | Some e => say s CodeStorageExceeded e
    | None => complete s
    end)).
Definition stor s (arg : bytes) : handled F N := receive s arg fs_recv.
Definition appe s (arg : bytes) : handled F N := receive s arg fs_append.

(** DELE, RMD and MKD: one operation on the resolved path. *)
Definition path_op s (arg : bytes) (f : User -> bytes -> F -> option bytes * F)
    (code : Z) (text : bytes -> bytes) : handled F N :=
  resolved s arg (fun target =>
    let '(err, f') := f (auth s) target (filesystem s) in
    let s := set_fs s target f' in
    match err with
    | Some e => say s CodeFileUnavailable e
    | None => say s code (text target)
    end).
Definition dele s (arg : bytes) : handled F N := path_op s arg fs_remove 250 (fun _ => str "Deleted").
Definition rmd s (arg : bytes) : handled F N := path_op s arg fs_remove 250 (fun _ => str "Removed").
Definition mkd s (arg : bytes) : handled F N :=
  path_op s arg fs_mkdir CodePathCreated (fun target => quote target ++ str " created").

Definition rnfr s (arg : bytes) : handled F N :=
  resolved s arg (fun target =>
    say (set_modes s (type_ s) (dataTLS s) (rest s) target) 350 (str "RNFR accepted")).

Definition rnto s (arg : bytes) : handled F N :=
  if seqb (renameTo s) [] then say s CodeSyntaxError (str "Bad sequence")
  else resolved s arg (fun target =>
    let '(err, f) := fs_rename (auth s) (renameTo s) target (filesystem s) in
    let s := set_fs (set_fs s (renameTo s) f) target f in
    match err with
    | Some e => say s CodeFileUnavailable e
    | None => say (set_modes s (type_ s) (dataTLS s) (rest s) []) 250 (str "Rename ok")
    end).

Definition rest2 s (arg : bytes) : handled F N :=
  match ParseInt (TrimSpace arg) with
  | (_, Some _) => say s CodeSyntaxError (str "Bad REST")
  | (off, None) => say (set_modes s (type_ s) (dataTLS s) off (renameTo s)) 350 (str "Restart ok")
  end.

Definition size s (arg : bytes) : handled F N :=
  resolved s arg (fun target => stated s target (fun s st => say s CodeFileStatus (Itoa (ESize st)))).
Definition mdtm s (arg : bytes) : handled F N :=
  resolved s arg (fun target => stated s target (fun s st => say s CodeFileStatus (fmt_mdtm (EModTime st)))).

Definition auth2 s : handled F N := say s CodeCommandNotImpl (str "AUTH not supported on this server").

Definition prot s (arg : bytes) : handled F N :=
  let up := ToUpper arg in
  if seqb up (str "C") then say (set_modes s (type_ s) false (rest s) (renameTo s)) 200 (str "PROT " ++ up)
  else if seqb up (str "P") then say (set_modes s (type_ s) true (rest s) (renameTo s)) 200 (str "PROT " ++ up)
  else say s CodeSyntaxError (str "Bad PROT").

(** ** Dispatch *)

(** The commands allowed before the login. *)
Definition open_command (name : bytes) : bool :=
  existsb (seqb name) [str "USER"; str "PASS"; str "QUIT"; str "AUTH"; str "FEAT"; str "NOOP"; str "HELP";
                       str "SYST"; str "PBSZ"; str "PROT"; str "CCC"].

Definition dispatch s (c : Command) : handled F N :=
  let named name := seqb (CName c) name in
  let arg := CArg c in
  if negb (logged s) && negb (open_command (CName c)) then Failed s (str "please log in")
  else if named (str "USER") then handleUSER s arg
  else if named (str "PASS") then handlePASS s arg
  else if named (str "QUIT") then Quit (reply s (NewReply CodeGoodbye (str "Goodbye")))
  else if named (str "NOOP") then say s CodeOK (str "NOOP ok")
  else if named (str "SYST") then say s 215 (str "UNIX Type: L8")
  else if named (str "FEAT") then Done (reply s (NewMultiLine 211 [str "End"]))
  else if named (str "HELP") then say s 214 (str "Help me help you")
  else if named (str "PWD") then say s CodePathCreated (quote (cwd s))
  else if named (str "CWD") then cwd2 s arg
  else if named (str "CDUP") then cwd2 s (str "..")
  else if named (str "TYPE") then type2 s arg
  else if named (str "PASV") then pasv s
  else if named (str "EPSV") then epsv s
  else if named (str "PORT") then port s arg
  else if named (str "EPRT") then eprt s arg
  else if named (str "LIST") then list_ s arg
  else if named (str "NLST") then list_ s arg
  else if named (str "RETR") then retr s arg
  else if named (str "STOR") then stor s arg
  else if named (str "APPE") then appe s arg
  else if named (str "DELE") then dele s arg
  else if named (str "RMD") then rmd s arg
  else if named (str "MKD") then mkd s arg
  else if named (str "RNFR") then rnfr s arg
  else if named (str "RNTO") then rnto s arg
  else if named (str "REST") then rest2 s arg
  else if named (str "SIZE") then size s arg
  else if named (str "MDTM") then mdtm s arg
  else if named (str "AUTH") then auth2 s
  else if named (str "PBSZ") then say s 200 (str "PBSZ set to 0")
  else if named (str "PROT") then prot s arg
  else say s CodeCommandNotImpl (str "Not implemented").

(** [serve]; a line consumes input, so the length of the input is fuel enough. *)
Fixpoint serve_loop (fuel : nat) s (input : bytes) : option (session F N) :=
  match fuel with
  | O => None
  | S fuel' =>
      match ReadString input Byte.x0a with
      | Ok (line, input') =>
          match Parse line with
          | None => serve_loop fuel' (reply s (NewReply CodeSyntaxError (str "Syntax error"))) input'
          | Some cmd =>
              match dispatch s cmd with
              | Done s' => serve_loop fuel' s' input'
              | Quit s' => Some s'
              | Failed s' msg => serve_loop fuel' (reply s' (NewReply CodeNotLoggedInReq msg)) input'
              end
          end
      | _ => Some s
      end
  end.

(** [handleConn]: the greeting, then the session. *)
Definition handleConn (f : F) (n : N) (input : bytes) : option (session F N) :=
  serve_loop (S (length input)) (reply (newSession f n) (NewReply CodeReady (Banner cfg))) input.
End Session.

(* ------------------------------------------------------------------ *)
(** ** fs.go: the filesystem over a directory of the operating system *)

(** The operating system's files, by full path; [inl] is the error of opening. *)
Class Disk (D : Type) := {
  d_stat : bytes -> D -> (bytes + Entry) * D;
  d_readdir : bytes -> D -> (bytes + list Entry) * D;
  d_mkdir_all : bytes -> D -> option bytes * D;
  d_remove_all : bytes -> D -> option bytes * D;
  d_rename : bytes -> bytes -> D -> option bytes * D;
  d_read : bytes -> Z -> D -> (bytes + bytes * option bytes) * D;
  d_create : bytes -> bytes -> D -> (bytes + option bytes) * D;
  d_append : bytes -> bytes -> D -> (bytes + option bytes) * D
}.

(** [pathError] *)
Definition pathError (op path err : bytes) : bytes := op ++ str " " ++ path ++ str ": " ++ err.
Definition entryFromInfo (fi : Entry) : Entry :=
  {| EName := EName fi; ESize := ESize fi; EIsDir := EIsDir fi; EModTime := EModTime fi;
     EOwner := str "-"; EGroup := str "-" |}.
(** The result of creating and filling a file. *)
Definition stored (op p : bytes) (r : bytes + option bytes) : option bytes :=
  match r with inl e => Some (pathError op p e) | inr e => e end.

Definition NewOS {D : Type} `{!Disk D} (root : bytes) : Filesystem D := {|
  fs_resolve _ cwd arg := match Resolve cwd arg with Some p => inr p | None => inl (str "bad path") end;
  fs_stat u p d :=
    let '(r, d) := d_stat (full root (Home u) p) d in
    (match r with inl e => inl (pathError (str "stat") p e) | inr st => inr (entryFromInfo st) end, d);
  fs_list u p d :=
    let '(r, d) := d_readdir (full root (Home u) p) d in
    (match r with inl e => inl (pathError (str "list") p e) | inr l => inr (map entryFromInfo l) end, d);
  fs_mkdir u p d :=
    let '(r, d) := d_mkdir_all (full root (Home u) p) d in (pathError (str "mkdir") p <$> r, d);
  fs_remove u p d :=
    let '(r, d) := d_remove_all (full root (Home u) p) d in (pathError (str "remove") p <$> r, d);
  fs_rename u from to d :=
    let '(r, d) := d_rename (full root (Home u) from) (full root (Home u) to) d in
    (pathError (str "rename") (from ++ str "->" ++ to) <$> r, d);
  fs_send u p offset d :=
    let '(r, d) := d_read (full root (Home u) p) (if offset >? 0 then offset else 0) d in
    (match r with inl e => ([], Some (pathError (str "retr") p e)) | inr (data, e) => (data, e) end, d);
  fs_recv u p data d :=
    let '(r, d) := d_create (full root (Home u) p) data d in (stored (str "stor") p r, d);
  fs_append u p data d :=
    let '(r, d) := d_append (full root (Home u) p) data d in (stored (str "appe") p r, d) |}.

Lemma NewOS_clean {D : Type} `{!Disk D} root : @CleanFilesystem D (NewOS root).
Proof.
  constructor. intros u cwd arg p Hc. simpl.
  destruct (Resolve_clean cwd arg Hc) as (q & -> & Hq). by intros [= <-].
Qed.

(* ------------------------------------------------------------------ *)
(** ** Sessions stay in their sandbox *)

(** What a trace may contain: files at clean paths, and only after a login. *)
Definition event_clean (e : event) : Prop := match e with EFile p => clean_path p | _ => True end.
Definition is_login (e : event) : bool := match e with ELogin _ => true | _ => false end.
Definition is_file (e : event) : bool := match e with EFile _ => true | _ => false end.

Fixpoint login_first (seen : bool) (tr : list event) : bool :=
  match tr with
  | [] => true
  | e :: tr' => (seen || negb (is_file e)) && login_first (seen || is_login e) tr'
  end.

Lemma login_first_app seen a b :
  login_first seen (a ++ b) = login_first seen a && login_first (seen || existsb is_login a) b.
Proof.
  revert seen. induction a as [|e a IH]; intros seen; simpl; [by rewrite orb_false_r|].
  by rewrite IH, <- andb_assoc, orb_assoc.
Qed.

Lemma login_first_true tr : login_first true tr = true.
Proof. induction tr as [|e tr IH]; [done|]. exact IH. Qed.

Lemma login_first_nofile seen tr : existsb is_file tr = false -> login_first seen tr = true.
Proof.
  revert seen. induction tr as [|e tr IH]; intros seen H; [done|]. simpl in *.
  apply orb_false_iff in H as [-> H]. rewrite orb_true_r. by apply IH.
Qed.

Section Sandbox.
Context {F N : Type} `{!Filesystem F} `{!CleanFilesystem F} `{!DataNet N} {HA : Authenticator}
        {HU : GoUnicode} {HG : GoFmt} (cfg : Config).
Implicit Types (s : session F N).

Definition good s : Prop :=
  clean_path (cwd s) /\ (renameTo s = [] \/ clean_path (renameTo s)) /\
  Forall event_clean (trace s) /\ login_first false (trace s) = true /\
  (logged s = true -> existsb is_login (trace s) = true).

Definition ends (P : session F N -> Prop) (h : handled F N) : Prop :=
  match h with Done s | Quit s | Failed s _ => P s end.

Lemma clean_root : clean_path (str "/").
Proof. by exists []. Qed.

(** Anything but a call of the filesystem keeps the invariant. *)
Lemma good_change s s' es :
  good s -> (cwd s' = cwd s \/ clean_path (cwd s')) ->
  (renameTo s' = renameTo s \/ renameTo s' = [] \/ clean_path (renameTo s')) ->
  trace s' = trace s ++ es -> existsb is_file es = false ->
  (logged s' = true -> logged s = true \/ existsb is_login es = true) -> good s'.
Proof.
  intros (Hc & Hr & Hf & Hl & Hg) Ec Er Et Hes Hlog. unfold good. rewrite Et. repeat split.
  - destruct Ec as [-> | ?]; done.
  - destruct Er as [-> | ?]; tauto.
  - apply Forall_app. split; [done|]. apply Forall_forall. intros [] Hin; try done. exfalso.
    apply list_elem_of_In in Hin. rewrite <- not_true_iff_false, existsb_exists in Hes. apply Hes. by eexists.
  - rewrite login_first_app, Hl. by apply login_first_nofile.
  - intros El. rewrite existsb_app, orb_true_iff. destruct (Hlog El); [left|right]; auto.
Qed.

Lemma good_same s s' :
  good s -> cwd s' = cwd s -> renameTo s' = renameTo s -> trace s' = trace s -> logged s' = logged s -> good s'.
Proof.
  intros H Hc Hr Ht Hl. apply (good_change s s' []); auto; [by rewrite app_nil_r|]. rewrite Hl. auto.
Qed.

Lemma good_reply s r : good s -> good (reply s r).
Proof. intros H. apply (good_change s _ [EReply r]); auto. Qed.

Lemma good_say s code t : good s -> ends good (say s code t).
Proof. intros H. by apply good_reply. Qed.

Lemma good_fs s p f : good s -> logged s = true -> clean_path p -> good (set_fs s p f).
Proof.
  intros (Hc & Hr & Hf & Hl & Hg) El Hp. unfold good. simpl. repeat split; try done.
  - apply Forall_app. split; [done|]. by repeat constructor.
  - rewrite login_first_app, Hl, (Hg El). done.
  - intros _. by rewrite existsb_app, (Hg El).
Qed.

Lemma good_resolved s arg k :
  good s -> (forall p, clean_path p -> ends good (k p)) -> ends good (resolved s arg k).
Proof.
  intros H Hk. unfold resolved. destruct (fs_resolve _ _ _) as [e|p] eqn:E; [by apply good_say|].
  apply Hk. apply fs_resolve_clean in E; [done|]. by destruct H.
Qed.

Lemma good_stated s p k :
  good s -> logged s = true -> clean_path p ->
  (forall s' st, good s' -> ends good (k s' st)) -> ends good (stated s p k).
Proof.
  intros H El Hp Hk. unfold stated. destruct (fs_stat _ _ _) as [[e|st] f]; [apply good_say|apply Hk]; by apply good_fs.
Qed.

Lemma good_with_data s k :
  good s -> logged s = true ->
  (forall s' incoming, good s' -> logged s' = true -> ends good (k s' incoming)) -> ends good (with_data s k).
Proof.
  intros H El Hk. unfold with_data, acceptData.
  assert (forall p n, good (set_data s p n)) as Hd by (intros; by apply (good_same s)).
  destruct (passive s) as [[addr|addr]|].
  - destruct (n_accept _ _) as [[e|i] n]; [by apply good_say|]. apply Hk; [by apply good_reply|done].
  - destruct (negb (seqb addr [])); [|by apply good_say]. destruct (n_dial _ _) as [[e|i] n]; [by apply good_say|].
    apply Hk; [by apply good_reply|done].
  - by apply good_say.
Qed.

Lemma good_cwd2 s arg : good s -> logged s = true -> ends good (cwd2 s arg).
Proof.
  intros H El. apply good_resolved; [done|]. intros p Hp. apply good_stated; auto. intros s' st Hs'.
  case_match; apply good_say; [done|]. apply (good_change s' _ []); auto. by rewrite app_nil_r.
Qed.

Lemma good_modes s t tls r ren : good s -> ren = renameTo s \/ ren = [] \/ clean_path ren -> good (set_modes s t tls r ren).
Proof. intros H Hr. apply (good_change s _ []); auto. by rewrite app_nil_r. Qed.

Lemma good_data s p n : good s -> good (set_data s p n).
Proof. intros H. by apply (good_same s). Qed.

Lemma good_list s arg : good s -> logged s = true -> ends good (list_ s arg).
Proof.
  intros H El. unfold list_. cbv zeta.
  set (go := fun target : bytes => _).
  assert (forall p, clean_path p -> ends good (go p)) as Hgo.
  { intros p Hp. unfold go. destruct (fs_list _ _ _) as [[e|es] f]; [by apply good_say, good_fs|].
    apply good_with_data; [by apply good_fs|done|]. intros s' i Hs' El'. apply good_say.
    apply (good_change s' _ (map (fun e => EData (formatListEntry e ++ CRLF)) es)); auto.
    clear. by induction es. }
  case_match; [|by apply good_resolved]. apply Hgo. by destruct H.
Qed.

Lemma good_retr s arg : good s -> logged s = true -> ends good (retr s arg).
Proof.
  intros H El. apply good_resolved; [done|]. intros p Hp. apply good_with_data; auto. intros s' i Hs' El'.
  destruct (fs_send _ _ _ _) as [[data err] f].
  assert (good (emit (set_fs s' p f) [EData data])) as Hg.
  { apply (good_change (set_fs s' p f) _ [EData data]); auto. by apply good_fs. }
  destruct err; by apply good_say.
Qed.

Lemma good_receive s arg store : good s -> logged s = true -> ends good (receive s arg store).
Proof.
  intros H El. apply good_resolved; [done|]. intros p Hp. apply good_with_data; auto. intros s' i Hs' El'.
  destruct (store _ _ _ _) as [[e|] f]; by apply good_say, good_fs.
Qed.

Lemma good_path_op s arg f code t : good s -> logged s = true -> ends good (path_op s arg f code t).
Proof.
  intros H El. apply good_resolved; [done|]. intros p Hp.
  destruct (f _ _ _) as [[e|] f']; by apply good_say, good_fs.
Qed.

Lemma good_rnfr s arg : good s -> ends good (rnfr s arg).
Proof. intros H. apply good_resolved; [done|]. intros p Hp. apply good_say, good_modes; auto. Qed.

Lemma good_rnto s arg : good s -> logged s = true -> ends good (rnto s arg).
Proof.
  intros H El. unfold rnto. destruct (seqb_spec (renameTo s) []) as [|Hne]; [by apply good_say|].
  apply good_resolved; [done|]. intros p Hp. destruct (fs_rename _ _ _ _) as [err f].
  assert (clean_path (renameTo s)) as Hren by (destruct H as (_ & [?|?] & _); done).
  assert (good (set_fs (set_fs s (renameTo s) f) p f)) as Hg by (apply good_fs; [by apply good_fs|done..]).
  destruct err; [by apply good_say|]. apply good_say, good_modes; auto.
Qed.

Lemma good_query s arg k :
  good s -> logged s = true -> (forall s' st, good s' -> ends good (k s' st)) ->
  ends good (resolved s arg (fun p => stated s p k)).
Proof. intros H El Hk. apply good_resolved; [done|]. intros p Hp. by apply good_stated. Qed.

Lemma good_login s name u dir l es :
  good s -> dir = cwd s \/ clean_path dir -> existsb is_file es = false ->
  (l = true -> existsb is_login es = true) -> good (emit (set_login s name u l dir) es).
Proof. intros H Hd He Hl. apply (good_change s _ es); simpl; auto. Qed.

(** The commands that are open before the login do not touch the filesystem. *)
Lemma good_open s c : good s -> open_command (CName c) = true -> ends good (dispatch cfg s c).
Proof.
  intros H Ho. unfold dispatch. rewrite Ho, andb_false_r. cbv beta zeta.
  if_step. { apply good_say, (good_change s _ []); simpl; auto; by rewrite app_nil_r. }
  if_step.
  { unfold handlePASS. if_step; [by apply good_say|]. destruct (Authenticate _ _) as [e|u]; [by apply good_say|].
    apply good_say, good_login; auto. right. apply clean_root. }
  if_step; [by apply good_reply|].
  unfold open_command in Ho. cbn [existsb] in Ho. rewrite !orb_true_iff in Ho.
  repeat match type of Ho with
  | _ \/ _ => destruct Ho as [Ho|Ho]
  end; try congruence; clear Heqb Heqb0 Heqb1.
  all: match type of Ho with seqb ?a ?b = true => destruct (seqb_spec a b) as [E|]; [|done] end; rewrite ?E.
  all: first [by apply good_say | by apply good_reply | idtac].
  change (ends good (prot s (CArg c))). unfold prot. repeat if_step; apply good_say; auto using good_modes.
Qed.

Lemma good_channel s arg : good s -> ends good (pasv cfg s) /\ ends good (epsv cfg s) /\
  ends good (port s arg) /\ ends good (eprt s arg).
Proof.
  intros H. unfold pasv, epsv, port, eprt. repeat split.
  - destruct (openPassive _ _) as [[e|[h p]] n]; by apply good_say, good_data.
  - destruct (openPassive _ _) as [[e|[h p]] n]; by apply good_say, good_data.
  - destruct (parsePORT arg) as [[h p]|]; [by apply good_say, good_data|by apply good_say].
  - destruct (eprt_addr arg); [by apply good_say|by apply good_say, good_data].
Qed.

Local Ltac branch := if_step; [solve [auto using good_say, good_cwd2, good_list, good_retr, good_receive,
  good_path_op, good_rnfr, good_rnto]|].

Lemma good_dispatch s c : good s -> ends good (dispatch cfg s c).
Proof.
  intros H. destruct (open_command (CName c)) eqn:Ho; [by apply good_open|].
  destruct (logged s) eqn:El; [|by unfold dispatch; rewrite Ho, El].
  destruct (good_channel s (CArg c) H) as (Hp1 & Hp2 & Hp3 & Hp4).
  unfold dispatch. rewrite El. cbn [negb andb]. cbv beta zeta.
  unfold open_command in Ho. cbn [existsb] in Ho. rewrite !orb_false_iff in Ho.
  destruct Ho as (-> & -> & -> & -> & -> & -> & -> & -> & -> & -> & _).
  do 3 branch. if_step. { unfold type2. if_step; auto using good_say, good_modes. }
  unfold stor, appe, dele, rmd, mkd. do 14 branch.
  if_step. { unfold rest2. destruct (ParseInt _) as [off []]; auto using good_say, good_modes. }
  if_step; [apply good_query; auto using good_say|]. if_step; [apply good_query; auto using good_say|].
  by apply good_say.
Qed.

Lemma serve_loop_good fuel s input :
  good s -> (length input < fuel)%nat -> exists s', serve_loop cfg fuel s input = Some s' /\ good s'.
Proof.
  revert s input. induction fuel as [|fuel IH]; intros s input H Hf; [lia|]. cbn [serve_loop].
  destruct (ReadString input _) as [[line input']| |] eqn:E; [|by exists s..].
  apply ReadString_shorter in E. assert (length input' < fuel)%nat by lia.
  destruct (Parse line) as [c|]; [|by apply IH; [apply good_reply|]].
  pose proof (good_dispatch s c H) as Hd. destruct (dispatch cfg s c); simpl in Hd.
  - by apply IH.
  - by eexists.
  - by apply IH; [apply good_reply|].
Qed.

End Sandbox.

(* ------------------------------------------------------------------ *)
(** ** An environment in memory, for evaluation *)

(** Files by full path; every path that is no file is a directory. *)
Definition missing : bytes := str "no such file or directory".
Definition ram_file (p : bytes) (c : bytes) : Entry :=
  {| EName := p; ESize := blen c; EIsDir := false; EModTime := 0; EOwner := []; EGroup := [] |}.
#[export] Instance ram_disk : Disk (gmap bytes bytes) := {|
  d_stat p d :=
    (inr (match d !! p with
          | Some c => ram_file p c
          | None => {| EName := p; ESize := 0; EIsDir := true; EModTime := 0; EOwner := []; EGroup := [] |}
          end), d);
  d_readdir p d := (inr (map (fun kv => ram_file kv.1 kv.2)
                          (filterb (fun kv => HasPrefix kv.1 (p ++ str "/")) (map_to_list d))), d);
  d_mkdir_all _ d := (None, d);
  d_remove_all p d := (None, delete p d);
  d_rename a b d := match d !! a with Some c => (None, <[b := c]> (delete a d)) | None => (Some missing, d) end;
  d_read p off d := match d !! p with
                    | Some c => (inr (drop (Z.to_nat off) c, None), d)
                    | None => (inl missing, d)
                    end;
  d_create p data d := (inr None, <[p := data]> d);
  d_append p data d := (inr None, <[p := default [] (d !! p) ++ data]> d) |}.

(** A network where every connection succeeds and delivers the same bytes. *)
#[export] Instance echo_net : DataNet bytes := {|
  n_listen _ n := (inr (str "0.0.0.0", str "2121"), n);
  n_accept _ n := (inr n, n);
  n_dial _ n := (inr n, n) |}.

Definition plain_fmt : GoFmt := {|
  quote s := [Byte.x22] ++ s ++ [Byte.x22]; fmt_mdtm t := Itoa t; fmt_list_time t := Itoa t |}.
Definition demo_config : Config :=
  {| Banner := str "hello"; WelcomeMessage := []; PassiveStart := 0; PassiveEnd := 0 |}.
Definition demo_disk : gmap bytes bytes := {[ str "/srv/ftp/a.txt" := str "0123456789" ]}.

Definition lines_of (ls : list bytes) : bytes := flat_map (fun l => l ++ CRLF) ls.
Definition demo_run (ls : list bytes) : option (session (gmap bytes bytes) bytes) :=
  @handleConn _ _ (NewOS (str "/srv/ftp")) echo_net
    {| Authenticate := @anonymous_authenticate ascii_only AllowAnonymous |}
    ascii_only plain_fmt demo_config demo_disk (str "new data") (lines_of ls).

Definition hostile_input : list bytes :=
  [ str "RETR ../../etc/passwd"; str "USER anonymous"; str "PASS x"; str "CWD ../../.."; str "PASV";
    str "STOR ../../../etc/passwd"; str "QUIT" ].


(** The data sent in a session. *)
Definition data_sent (tr : list event) : list bytes :=
  omap (fun e => match e with EData d => Some d | _ => None end) tr.

(** A restart offset is never cleared: after REST, every later RETR of the session
    starts at that offset, not only the next one; the second download of the file
    misses its first bytes too. *)
Theorem REST_is_sticky :
  (fun s => data_sent (trace s)) <$> demo_run
    [ str "USER anonymous"; str "PASS x"; str "REST 4"; str "PASV"; str "RETR a.txt"; str "PASV"; str "RETR a.txt" ] =
  Some [str "456789"; str "456789"].
Proof. by vm_compute. Qed.

(** The authenticator [AllowAnonymous] does not accept any login: only the user
    "anonymous" (in any case) with a password that is not empty. *)
Theorem AllowAnonymous_accepts `{GoUnicode} (name pass : bytes) :
  (exists u, anonymous_authenticate AllowAnonymous name pass = inr u) <->
  EqualFold name (str "anonymous") = true /\ pass <> [].
Proof.
  unfold anonymous_authenticate, AllowAnonymous. cbn [AUser AllowedPasswords].
  rewrite bool_decide_eq_true_2 by done.
  destruct (EqualFold name (str "anonymous")), (seqb_spec pass []); simpl; naive_solver.
Qed.

(* ------------------------------------------------------------------ *)
(** ** Addresses of the data channel *)

Lemma parenthesised_app p inner t :
  "("%byte ∉ p -> ")"%byte ∉ t -> parenthesised (p ++ "("%byte :: inner ++ ")"%byte :: t) = Some inner.
Proof.
  intros Hp Ht. unfold parenthesised. rewrite IndexByte_app by done. simpl.
  replace (p ++ "("%byte :: inner ++ ")"%byte :: t) with ((p ++ "("%byte :: inner) ++ ")"%byte :: t)
    by (rewrite <- app_assoc; done).
  rewrite LastIndexByte_app by done. simpl. rewrite length_app. cbn [length].
  rewrite (proj2 (Nat.leb_gt _ _)) by lia. f_equal. rewrite <- app_assoc. simpl app.
  rewrite drop_app_S. rewrite take_app_length'; [done|lia].
Qed.

Definition octets (l : list Z) : Prop := Forall (fun n => 0 <= n < 256) l.

Lemma octet_text n : 0 <= n < 256 -> TrimSpace (Itoa n) = Itoa n /\ Atoi (Itoa n) = (n, None).
Proof.
  intros H. split.
  - assert (seqb (TrimSpace (Itoa n)) (Itoa n) = true) as E.
    { apply (range_check (fun n => seqb (TrimSpace (Itoa n)) (Itoa n)) 0 256); [by vm_compute|lia]. }
    by destruct (seqb_spec (TrimSpace (Itoa n)) (Itoa n)).
  - apply ParseInt_Itoa. unfold in_i64. lia.
Qed.

Lemma host_port_octets a b c d p1 p2 :
  octets [p1; p2] ->
  host_port (Join (map Itoa [a; b; c; d; p1; p2]) (str ",")) =
  Some (Join (map Itoa [a; b; c; d]) (str "."), p1 * 256 + p2).
Proof.
  intros H. apply Forall_cons in H as [H1 H]. apply Forall_cons in H as [H2 _].
  unfold host_port. change (str ",") with [","%byte]. rewrite Split_Join.
  - cbn [length map Nat.eqb negb nth take]. destruct (octet_text p1 H1) as [-> ->], (octet_text p2 H2) as [-> ->].
    rewrite (i64_small (p1 * 256)), i64_small by (unfold in_i64; lia). done.
  - done.
  - repeat constructor; by apply Itoa_not_in.
Qed.

Lemma port_octets port : 0 <= port < 65536 ->
  octets [Z.quot port 256; Z.rem port 256] /\ Z.quot port 256 * 256 + Z.rem port 256 = port.
Proof.
  intros H. rewrite Z.quot_div_nonneg, Z.rem_mod_nonneg by lia.
  repeat constructor; dlia.
Qed.

Lemma ReplaceByte_none s c r : c ∉ s -> ReplaceByte s c r = s.
Proof.
  induction s as [|x s IH]; [done|]. intros [? ?]%not_elem_of_cons. unfold ReplaceByte in *. simpl.
  rewrite beqb_ne by congruence. simpl. by rewrite IH.
Qed.
Lemma ReplaceByte_app s t c r : ReplaceByte (s ++ t) c r = ReplaceByte s c r ++ ReplaceByte t c r.
Proof. unfold ReplaceByte. by rewrite flat_map_app. Qed.

Lemma passive_address (a b c d port : Z) :
  0 <= port < 65536 ->
  let host := Join (map Itoa [a; b; c; d]) (str ".") in
  ParsePASVReply (NewReply CodeEnterPASV (pasv_text host (Itoa port))) = Some (host, port) /\
  ParseEPSVReply (NewReply CodeEnterEPSV (epsv_text (Itoa port))) = Some (Itoa port).
Proof.
  intros Hp host. destruct (port_octets port Hp) as [Ho Ep]. split.
  - unfold ParsePASVReply. cbn [Code NewReply]. rewrite Z.eqb_refl. simpl negb. cbv iota.
    change (reply_text (NewReply CodeEnterPASV ?t)) with t. unfold pasv_text, mustAtoi.
    unfold Atoi. rewrite ParseInt_Itoa by (unfold in_i64; lia). cbn [fst].
    assert (ReplaceByte host "."%byte (str ",") = Join (map Itoa [a; b; c; d]) (str ",")) as ->.
    { subst host. cbn [map Join]. rewrite !ReplaceByte_app. rewrite !(ReplaceByte_none (Itoa _)) by by apply Itoa_not_in.
      done. }
    set (inner := Join (map Itoa [a; b; c; d; Z.quot port 256; Z.rem port 256]) (str ",")).
    replace (str "Entering Passive Mode (" ++ _) with (str "Entering Passive Mode " ++ "("%byte :: inner ++ ")"%byte :: str ".")
      by (subst inner; cbn [map Join]; rewrite <- !app_assoc; done).
    rewrite parenthesised_app by by apply (bool_decide_unpack _); vm_compute. cbn [mbind option_bind].
    subst inner. by rewrite host_port_octets, Ep.
  - unfold ParseEPSVReply. cbn [Code NewReply]. rewrite Z.eqb_refl. simpl negb. cbv iota.
    change (reply_text (NewReply CodeEnterEPSV ?t)) with t. unfold epsv_text.
    set (inner := Join [[]; []; []; Itoa port; []] (str "|")).
    replace (str "Entering Extended Passive Mode (|||" ++ _)
      with (str "Entering Extended Passive Mode " ++ "("%byte :: inner ++ ")"%byte :: str ".")
      by (subst inner; cbn [map Join]; rewrite <- !app_assoc; done).
    rewrite parenthesised_app by by apply (bool_decide_unpack _); vm_compute. cbn [mbind option_bind].
    subst inner. change (str "|") with ["|"%byte]. rewrite Split_Join; [done|done|].
    repeat constructor; try apply not_elem_of_nil. by apply Itoa_not_in.
Qed.

(** A client that parses the server's replies to PASV and EPSV gets the address
    the server listens on, for every IPv4 host and every port. *)
Theorem passive_address_roundtrip (a b c d port : Z) :
  0 <= port < 65536 ->
  let host := Join (map Itoa [a; b; c; d]) (str ".") in
  ParsePASVReply (NewReply CodeEnterPASV (pasv_text host (Itoa port))) = Some (host, port) /\
  ParseEPSVReply (NewReply CodeEnterEPSV (epsv_text (Itoa port))) = Some (Itoa port).
Proof. apply passive_address. Qed.

Lemma passive_address_roundtrip_witness :
  ParsePASVReply (NewReply CodeEnterPASV (pasv_text (Join (map Itoa [127; 0; 0; 1]) (str ".")) (Itoa 2121))) =
  Some (Join (map Itoa [127; 0; 0; 1]) (str "."), 2121).
Proof. apply (passive_address_roundtrip 127 0 0 1 2121). lia. Defined.

(** The server connects to the address the client formats: the arguments that
    [FormatPORT] and [FormatEPRT] build are parsed back to the same host and port. *)
Theorem active_address_roundtrip (a b c d port : Z) (proto host6 : bytes) :
  octets [a; b; c; d] -> 0 <= port < 65536 -> "|"%byte ∉ proto -> "|"%byte ∉ host6 ->
  let host := Join (map Itoa [a; b; c; d]) (str ".") in
  (exists arg, FormatPORT host port = Ok arg /\ parsePORT arg = Some (host, port)) /\
  eprt_addr (FormatEPRT proto host6 port) = inr (JoinHostPort host6 (Itoa port)).
Proof.
  intros Ho Hp Hpr Hh host. destruct (port_octets port Hp) as [Hpo Ep]. split.
  - exists (Join (map Itoa [a; b; c; d; Z.quot port 256; Z.rem port 256]) (str ",")). split.
    + unfold FormatPORT, host. change (str ".") with ["."%byte]. rewrite Split_Join; [|done|].
      * cbn [map]. unfold octets in Ho. rewrite !Forall_cons in Ho. destruct Ho as (Ha & Hb & Hc & Hd & _).
        destruct (octet_text a Ha) as [_ ->], (octet_text b Hb) as [_ ->],
          (octet_text c Hc) as [_ ->], (octet_text d Hd) as [_ ->]. done.
      * repeat constructor; by apply Itoa_not_in.
    + unfold parsePORT, host. by rewrite host_port_octets, Ep.
  - unfold eprt_addr, FormatEPRT. change (str "|") with ["|"%byte]. rewrite Split_Join; [|done|].
    + cbn [length Nat.eqb negb nth]. unfold Atoi. rewrite ParseInt_Itoa by (unfold in_i64; lia). done.
    + repeat constructor; try done; [by apply Itoa_not_in|apply not_elem_of_nil].
Qed.

Lemma active_address_roundtrip_witness :
  eprt_addr (FormatEPRT (str "2") (str "::1") 6275) = inr (str "[::1]:6275").
Proof.
  refine (proj2 (active_address_roundtrip 127 0 0 1 6275 (str "2") (str "::1") _ _ _ _)).
  - repeat constructor; lia.
  - lia.
  - by apply (bool_decide_unpack _); vm_compute.
  - by apply (bool_decide_unpack _); vm_compute.
Defined.

(** An EPSV reply without the trailing bar is not accepted as meant: the port is
    read from the field before it, which is empty. *)
Theorem EPSV_without_trailing_bar :
  ParseEPSVReply (NewReply CodeEnterEPSV (str "Entering Extended Passive Mode (|||6446)")) = Some [].
Proof. by vm_compute. Qed.

(** The server refuses the EPRT argument of RFC 2428, which starts with a bar. *)
Theorem EPRT_of_RFC_refused : eprt_addr (str "|1|132.235.1.2|6275|") = inl (str "Bad EPRT").
Proof. by vm_compute. Qed.
