(* ===== verification/FtpServer.v ===== *)
(** * ftp/server/server.go, ftp/config, ftp/cmd/ftpd, ftp/ftp/commands.go: the FTP server
      around its sessions

    The defaults of the server, the program that configures it with its users, and the
    accept loop with its limit and its shutdown, event by event; the sessions are those
    of FtpSession.v.  [None] is a panic or a fatal error. *)

From S2P Require Import Prelude GoStrings Paths FtpWire FtpSession.

(* ------------------------------------------------------------------ *)
(** ** ftp/config, ftp/server: New, ftp/cmd/ftpd *)


Record serverBlock := {
  BName : bytes; BListen : bytes; BBanner : bytes; BWelcome : bytes; BPassiveStart : Z; BPassiveEnd : Z
}.
Record userBlock := { UBName : bytes; UBPassword : bytes }.
Record File := { FServer : serverBlock; FUsers : list userBlock; FRoot : bytes }.

Definition Default : File :=
  {| FServer := {| BName := str "go-ftp"; BListen := str ":21"; BBanner := str "Welcome to go-ftp"; BWelcome := [];
                   BPassiveStart := 0; BPassiveEnd := 0 |};
     FUsers := []; FRoot := str "." |}.

(** [decode] is the TOML decoder, which writes over a value that is given. *)
Definition Load (decode : bytes -> File -> option File) (data : bytes) (f : File) : option File := decode data f.

Section Server.
Context {F : Type} `{!Disk F} `{GoUnicode}.

Record Config := {
  Name : bytes; Listen : bytes; CBanner : bytes; MaxConnections : Z; ReadTimeout : Z; WriteTimeout : Z;
  CAuthenticator : option Authenticator; CFilesystem : option (Filesystem F); CWelcome : bytes; PassivePortRange : Z * Z
}.

Definition nonempty (s d : bytes) : bytes := if seqb s [] then d else s.

Definition New (cfg : Config) : Config :=
  let name := nonempty (Name cfg) (str "go-ftp") in
  {| Name := name; Listen := nonempty (Listen cfg) (str ":21"); CBanner := nonempty (CBanner cfg) (str "Welcome to " ++ name);
     MaxConnections := MaxConnections cfg;
     ReadTimeout := if ReadTimeout cfg =? 0 then 5 * 60 * 1000000000 else ReadTimeout cfg;
     WriteTimeout := if WriteTimeout cfg =? 0 then 30 * 1000000000 else WriteTimeout cfg;
     CAuthenticator := Some (default {| Authenticate := anonymous_authenticate AllowAnonymous |} (CAuthenticator cfg));
     CFilesystem := Some (default (NewOS (str ".")) (CFilesystem cfg));
     CWelcome := CWelcome cfg; PassivePortRange := PassivePortRange cfg |}.

(** What a session reads of it (FtpSession.v). *)
Definition session_config (cfg : Config) : FtpSession.Config :=
  {| Banner := CBanner cfg; WelcomeMessage := CWelcome cfg; PassiveStart := (PassivePortRange cfg).1; PassiveEnd := (PassivePortRange cfg).2 |}.

Definition buildAuth (users : list userBlock) : Authenticator :=
  match users with
  | [] => {| Authenticate := anonymous_authenticate AllowAnonymous |}
  | _ => {| Authenticate := static_authenticate (fold_left (fun st u => static_add st (UBName u) (UBPassword u)) users ∅) |}
  end.

(** [main] up to [ListenAndServe], with its three flags and the contents of the file;
    [None] is a fatal error. *)
Definition ftpd (decode : bytes -> File -> option File) (cfgPath : option (option bytes)) (addr root : bytes) : option Config :=
  cfg ← match cfgPath with
        | None => Some Default
        | Some file => data ← file; Load decode data Default
        end;
  let listen := nonempty addr (BListen (FServer cfg)) in
  let root := nonempty root (FRoot cfg) in
  Some (New {| Name := BName (FServer cfg); Listen := listen; CBanner := BBanner (FServer cfg); MaxConnections := 0; ReadTimeout := 0;
               WriteTimeout := 0; CAuthenticator := Some (buildAuth (FUsers cfg)); CFilesystem := Some (NewOS root);
               CWelcome := BWelcome (FServer cfg);
               PassivePortRange := if 0 <? BPassiveStart (FServer cfg) then (BPassiveStart (FServer cfg), BPassiveEnd (FServer cfg)) else (0, 0) |}).

Lemma static_lookup users : NoDup ((fun u => ToLower (UBName u)) <$> users) -> forall k r,
  fold_left (fun st u => static_add st (UBName u) (UBPassword u)) users ∅ !! k = Some r <->
  exists u, u ∈ users /\ ToLower (UBName u) = k /\ (UBPassword u, {| UName := UBName u; Home := [] |}) = r.
Proof.
  intros Hn k r.
  etrans; [apply (fold_insert_lookup (fun u => ToLower (UBName u)) (fun u => (UBPassword u, {| UName := UBName u; Home := [] |}))); done|].
  split; [intros [?|[_ ?]]; [done|done]|by left].
Qed.

Lemma anonymous_logins u p usr :
  anonymous_authenticate AllowAnonymous u p = inr usr <->
  EqualFold u (str "anonymous") = true /\ p <> [] /\ usr = {| UName := u; Home := [] |}.
Proof.
  unfold anonymous_authenticate. cbn [AUser AllowedPasswords AllowAnonymous].
  destruct (EqualFold u (str "anonymous")); cbn [negb]; [|split; [intros [=]|intros [[=] _]]].
  destruct (seqb_spec p []) as [->|Hp]; [split; [intros [=]|by intros (_ & ? & _)]|].
  rewrite bool_decide_true by done. cbn. split; [by intros [= <-]|by intros (_ & _ & ->)].
Qed.

Lemma static_logins (rows : static_rows) (users : list userBlock) u p usr :
  (forall k r, rows !! k = Some r <->
    exists u, u ∈ users /\ ToLower (UBName u) = k /\ (UBPassword u, {| UName := UBName u; Home := [] |}) = r) ->
  static_authenticate rows u p = inr usr <->
  exists row, row ∈ users /\ ToLower (UBName row) = ToLower u /\ UBPassword row = p /\ usr = {| UName := UBName row; Home := [] |}.
Proof.
  intros Hl. unfold static_authenticate. specialize (Hl (ToLower u)).
  assert (forall row, row ∈ users -> ToLower (UBName row) = ToLower u ->
    rows !! ToLower u = Some (UBPassword row, {| UName := UBName row; Home := [] |})) as Hrow by (intros row ??; apply Hl; by exists row).
  split.
  - destruct (rows !! ToLower u) as [[p' u']|]; [|intros [=]]. destruct (proj1 (Hl _) eq_refl) as (row & Hr & Hk & [= <- <-]).
    destruct (seqb_spec (UBPassword row) p) as [<-|Hne]; cbn [negb]; [|intros [=]]. intros [= <-]. by exists row.
  - intros (row & Hr & Hk & <- & ->). rewrite (Hrow row Hr Hk). by rewrite seqb_refl.
Qed.

(** The logins of ftpd.  With users in the file whose names differ other than in case,
    exactly their names, in any case, with their passwords are accepted, and the user is
    the one of the file; without any, only the name anonymous with some password is. *)
Theorem ftpd_logins decode file addr root cfg f u p usr :
  file ≫= (fun data => Load decode data Default) = Some f -> ftpd decode (Some file) addr root = Some cfg ->
  NoDup ((fun u => ToLower (UBName u)) <$> FUsers f) ->
  (exists a, CAuthenticator cfg = Some a /\ @Authenticate a u p = inr usr) <->
  match FUsers f with
  | [] => EqualFold u (str "anonymous") = true /\ p <> [] /\ usr = {| UName := u; Home := [] |}
  | _ => exists row, row ∈ FUsers f /\ ToLower (UBName row) = ToLower u /\ UBPassword row = p /\ usr = {| UName := UBName row; Home := [] |}
  end.
Proof.
  intros Hf Hd Hn. unfold ftpd in Hd. destruct file as [data|]; [|done]. cbn in Hf, Hd. rewrite Hf in Hd. cbn in Hd. injection Hd as <-.
  cbn [CAuthenticator New default].
  assert (forall a (P : Authenticator -> Prop), (exists a', Some a = Some a' /\ P a') <-> P a) as Hex by naive_solver.
  rewrite (Hex _ (fun a => @Authenticate a u p = inr usr)). destruct (FUsers f) as [|r l] eqn:E; cbn [buildAuth Authenticate].
  - apply anonymous_logins.
  - rewrite <- E in *. apply static_logins. by apply static_lookup.
Qed.
End Server.

(* ------------------------------------------------------------------ *)
(** ** ftp/ftp/commands.go *)

(** The commands that the library names. *)
Definition commands : list bytes :=
  [
    str "USER"; str "PASS"; str "ACCT"; str "CWD"; str "CDUP"; str "SMNT"; str "QUIT"; str "REIN"; str "PORT";
    str "PASV"; str "TYPE"; str "STRU"; str "MODE"; str "RETR"; str "STOR"; str "STOU"; str "APPE"; str "ALLO";
    str "REST"; str "RNFR"; str "RNTO"; str "ABOR"; str "DELE"; str "RMD"; str "MKD"; str "PWD"; str "LIST";
    str "NLST"; str "SITE"; str "SYST"; str "STAT"; str "HELP"; str "NOOP"; str "FEAT"; str "OPTS"; str "AUTH";
    str "PBSZ"; str "PROT"; str "CCC"; str "SIZE"; str "MDTM"; str "EPSV"; str "EPRT"; str "MLSD"; str "MLST" ].

(** Those among them that no case of the session's dispatch is for. *)
Definition unhandled : list bytes :=
  [str "ACCT"; str "SMNT"; str "REIN"; str "STRU"; str "MODE"; str "STOU"; str "ALLO"; str "ABOR"; str "SITE"; str "STAT"; str "OPTS"; str "CCC"; str "MLSD"; str "MLST"].

(** They are answered with 502 and change nothing else. *)
Lemma unhandled_refused {F N : Type} `{!Filesystem F} `{!DataNet N} `{!Authenticator} `{GoUnicode} `{!GoFmt} cfg (s : session F N) (c : Command) :
  logged s = true -> CName c ∈ unhandled -> dispatch cfg s c = Done (reply s (NewReply CodeCommandNotImpl (str "Not implemented"))).
Proof.
  intros Hl Hc. unfold dispatch. rewrite Hl. cbn [negb andb].
  repeat (apply elem_of_cons in Hc as [->|Hc]; [reflexivity|]). by apply elem_of_nil in Hc.
Qed.
Lemma unhandled_are_commands : Forall (fun c => c ∈ commands) unhandled.
Proof. apply (bool_decide_eq_true_1 _). vm_compute. reflexivity. Qed.

(* ------------------------------------------------------------------ *)
(** ** ftp/server: serveLoop and Shutdown *)

(** [accepted] is the connection that the loop has from [Accept] and has not yet dealt
    with; [sessions] those that have a goroutine. *)
Record Server := {
  ln : option bool;
  sessCnt : Z;
  wg : Z;
  closed : bool;
  accepted : option nat;
  sessions : gset nat;
  seen : gset nat
}.
Definition newServer : Server :=
  {| ln := None; sessCnt := 0; wg := 0; closed := false; accepted := None; sessions := ∅; seen := ∅ |}.

Inductive event := EServe | EAccept (i : nat) | EAdmit | EEnd (i : nat) | EShutdown.

(** A server serves one listener; [Accept] fails once it is closed. *)
Definition possible (e : event) (s : Server) : Prop :=
  match e with
  | EServe => ln s = None
  | EAccept i => ln s = Some true /\ accepted s = None /\ i ∉ seen s
  | EAdmit => accepted s <> None
  | EEnd i => i ∈ sessions s
  | EShutdown => True
  end.

Definition Serve (s : Server) : Server :=
  {| ln := Some true; sessCnt := sessCnt s; wg := wg s; closed := closed s; accepted := accepted s; sessions := sessions s; seen := seen s |}.
Definition accept (i : nat) (s : Server) : Server :=
  {| ln := ln s; sessCnt := sessCnt s; wg := wg s; closed := closed s; accepted := Some i; sessions := sessions s; seen := {[i]} ∪ seen s |}.

(** What [serveLoop] returns when [Accept] fails: [true] is an error, which a listener that
    was closed does not count as. *)
Definition accept_error (errClosed : bool) (s : Server) : bool := negb errClosed && negb (closed s).

(** The rest of a turn of [serveLoop]. *)
Definition admit_conn (MaxConnections : Z) (s : Server) : Server :=
  match accepted s with
  | None => s
  | Some i =>
      if (0 <? MaxConnections) && (MaxConnections <=? sessCnt s)
      then {| ln := ln s; sessCnt := sessCnt s; wg := wg s; closed := closed s; accepted := None; sessions := sessions s; seen := seen s |}
      else {| ln := ln s; sessCnt := if 0 <? MaxConnections then sessCnt s + 1 else sessCnt s; wg := wg s + 1; closed := closed s;
              accepted := None; sessions := {[i]} ∪ sessions s; seen := seen s |}
  end.

(** The deferred functions of a session's goroutine. *)
Definition end_conn (MaxConnections : Z) (i : nat) (s : Server) : Server :=
  {| ln := ln s; sessCnt := if 0 <? MaxConnections then sessCnt s - 1 else sessCnt s; wg := wg s - 1; closed := closed s;
     accepted := accepted s; sessions := sessions s ∖ {[i]}; seen := seen s |}.

(** [Shutdown] up to its select, which goes on when [wg] is zero or the context ends. *)
Definition Shutdown (s : Server) : option Server :=
  if closed s then None
  else Some {| ln := (fun _ => false) <$> ln s; sessCnt := sessCnt s; wg := wg s; closed := true; accepted := accepted s;
               sessions := sessions s; seen := seen s |}.

Definition handle (MaxConnections : Z) (e : event) (s : Server) : option Server :=
  match e with
  | EServe => Some (Serve s)
  | EAccept i => Some (accept i s)
  | EAdmit => Some (admit_conn MaxConnections s)
  | EEnd i => Some (end_conn MaxConnections i s)
  | EShutdown => Shutdown s
  end.

Inductive steps (MaxConnections : Z) : Server -> Server -> Prop :=
| steps_refl s : steps MaxConnections s s
| steps_step s s1 e s' : steps MaxConnections s s1 -> possible e s1 -> handle MaxConnections e s1 = Some s' -> steps MaxConnections s s'.

Record wf (MaxConnections : Z) (s : Server) : Prop := {
  wf_wg : wg s = Z.of_nat (base.size (sessions s));
  wf_cnt : 0 < MaxConnections -> sessCnt s = Z.of_nat (base.size (sessions s)) /\ sessCnt s <= MaxConnections;
  wf_new : match accepted s with Some i => i ∉ sessions s /\ i ∈ seen s | None => True end;
  wf_seen : sessions s ⊆ seen s
}.

Lemma ftp_wf_handle MaxConnections e s s' :
  wf MaxConnections s -> possible e s -> handle MaxConnections e s = Some s' -> wf MaxConnections s'.
Proof.
  intros [Hw Hc Ha Hs] Hp He. destruct e as [|i| |i|]; cbn in Hp, He.
  - by simplify_eq.
  - destruct Hp as (_ & _ & Hi). simplify_eq. split; cbn; [done|done|set_solver|set_solver].
  - unfold admit_conn in He. destruct (accepted s) as [i|] eqn:Ea; [|done]. destruct Ha as [Ha Ha'].
    destruct (Z.ltb_spec 0 MaxConnections), (Z.leb_spec MaxConnections (sessCnt s)); cbn in He; simplify_eq; [by split|..];
      (split; cbn; [rewrite size_add by done; lia|intros Hm; rewrite size_add by done; destruct (Hc Hm); lia|done|set_solver]).
  - simplify_eq. split; cbn; rewrite ?size_del by done; [lia| |destruct (accepted s); [set_solver|done]|set_solver].
    intros Hm. destruct (Hc Hm), (Z.ltb_spec 0 MaxConnections); lia.
  - unfold Shutdown in He. destruct (closed s); [done|]. by simplify_eq.
Qed.

Lemma steps_wf MaxConnections s s' : wf MaxConnections s -> steps MaxConnections s s' -> wf MaxConnections s'.
Proof. intros Hw. induction 1 as [|s s1 e s' _ IH Hp He]; [done|]. by eapply ftp_wf_handle; [apply IH| |]. Qed.

Lemma wf_newServer MaxConnections : wf MaxConnections newServer.
Proof. split; cbn; rewrite ?size_empty; [done|lia|done|set_solver]. Qed.

(** C39. The limit of the FTP server is exact: with a limit, the sessions are never more,
    and a connection that was accepted gets a session if and only if there are fewer; the
    wait group counts the sessions. *)
Theorem connections_limited MaxConnections s i :
  steps MaxConnections newServer s -> accepted s = Some i ->
  wg s = Z.of_nat (base.size (sessions s)) /\
  (0 < MaxConnections -> Z.of_nat (base.size (sessions s)) <= MaxConnections) /\
  (i ∈ sessions (admit_conn MaxConnections s) <-> (0 < MaxConnections -> Z.of_nat (base.size (sessions s)) < MaxConnections)).
Proof.
  intros Hs Ha. destruct (steps_wf _ _ _ (wf_newServer MaxConnections) Hs) as [Hw Hc Hn _]. rewrite Ha in Hn. destruct Hn as [Hn _].
  split; [done|]. split; [intros Hm; destruct (Hc Hm); lia|]. unfold admit_conn. rewrite Ha.
  destruct (Z.ltb_spec 0 MaxConnections) as [Hm|Hm]; cbn; [|set_solver by lia]. destruct (Hc Hm) as [Hc1 Hc2].
  destruct (Z.leb_spec MaxConnections (sessCnt s)); cbn.
  - split; [done|]. intros Hl. specialize (Hl Hm). lia.
  - split; [lia|set_solver].
Qed.

Lemma shutdown_keeps MaxConnections s s' :
  steps MaxConnections s s' -> ln s = Some false -> ln s' = Some false /\
  forall i, i ∈ sessions s' \/ accepted s' = Some i -> i ∈ sessions s \/ accepted s = Some i.
Proof.
  intros Hs Hl. induction Hs as [|s s1 e s' _ IH Hp He]; [by auto|]. destruct (IH Hl) as [Hl1 Hi]. destruct e as [|i| |i|]; cbn in Hp, He.
  - congruence.
  - destruct Hp as (? & _). congruence.
  - unfold admit_conn in He. destruct (accepted s1) as [i|] eqn:Ea; [|by simplify_eq]. destruct (_ && _); simplify_eq/=; (split; [done|]).
    + intros j [?|?]; [by apply Hi; left|done].
    + intros j [[->%elem_of_singleton|?]%elem_of_union|?]; [by apply Hi; right|by apply Hi; left|done].
  - simplify_eq/=. split; [done|]. intros j [?|?]; apply Hi; set_solver.
  - unfold Shutdown in He. destruct (closed s1); simplify_eq/=. rewrite Hl1. by split.
Qed.

(** [Shutdown] of a server that serves: from then on no session starts but the one of
    a connection that [Accept] had already returned, and when its wait is over there is no
    session left but possibly that one. *)
Theorem shutdown_drains MaxConnections s s1 s2 :
  steps MaxConnections newServer s -> ln s <> None -> Shutdown s = Some s1 -> steps MaxConnections s1 s2 ->
  (forall i, i ∈ sessions s2 -> i ∈ sessions s \/ accepted s = Some i) /\
  (wg s2 = 0 -> sessions s2 = ∅).
Proof.
  intros Hs Hl Hd H2. pose proof (steps_wf _ _ _ (wf_newServer MaxConnections) Hs) as Hw.
  assert (wf MaxConnections s1) as Hw1 by (by apply (ftp_wf_handle _ EShutdown s)).
  split; [|intros H0; pose proof (wf_wg _ _ (steps_wf _ _ _ Hw1 H2)); apply leibniz_equiv, size_empty_inv; lia].
  unfold Shutdown in Hd. destruct (closed s); [done|]. simplify_eq.
  apply shutdown_keeps in H2 as [_ Hi]; [|cbn; by destruct (ln s)]. intros i Hin. by apply (Hi i); left.
Qed.

(** A second [Shutdown] closes a closed channel. *)
Lemma second_shutdown_panics s s1 : Shutdown s = Some s1 -> Shutdown s1 = None.
Proof. unfold Shutdown. destruct (closed s); [done|]. by intros [= <-]. Qed.

(** Runs. *)
#[export] Instance ftp_possible_dec e s : Decision (possible e s).
Proof. destruct e; cbn; apply _. Defined.

Fixpoint go (MaxConnections : Z) (es : list event) (s : Server) : option Server :=
  match es with
  | [] => Some s
  | e :: es => if bool_decide (possible e s) then s ← handle MaxConnections e s; go MaxConnections es s else None
  end.
Lemma ftp_go_steps MaxConnections es s0 : forall s s', steps MaxConnections s0 s -> go MaxConnections es s = Some s' -> steps MaxConnections s0 s'.
Proof.
  induction es as [|e es IH]; intros s s' Hr; cbn; [by intros [= <-]|]. case_bool_decide; [|done].
  destruct (handle _ e s) as [s1|] eqn:E; [|done]. cbn. apply IH. by eapply steps_step.
Qed.

(** A connection that [Accept] has returned when [Shutdown] runs is served after
    [Shutdown] has found nothing to wait for. *)
Lemma session_after_shutdown : exists s1 s2,
  go 0 [EServe; EAccept 7; EShutdown] newServer = Some s1 /\ wg s1 = 0 /\ go 0 [EAdmit] s1 = Some s2 /\ sessions s2 = {[7%nat]}.
Proof. eexists _, _. split; [reflexivity|]. split; [reflexivity|]. split; [reflexivity|]. by apply leibniz_equiv, (bool_decide_eq_true_1 _). Qed.

(** [Shutdown] before [Serve] finds no listener to close: the server then serves. *)
Lemma shutdown_before_serve : exists s, go 0 [EShutdown; EServe; EAccept 7; EAdmit] newServer = Some s /\ wg s = 1 /\ ln s = Some true.
Proof. eexists. split; [reflexivity|]. by split. Qed.

Definition one_of_one : Server := default newServer (go 1 [EServe; EAccept 3; EAdmit; EAccept 4] newServer).
Lemma one_of_one_steps : steps 1 newServer one_of_one.
Proof. apply (ftp_go_steps 1 [EServe; EAccept 3; EAdmit; EAccept 4] newServer newServer); [constructor|vm_compute; reflexivity]. Qed.

Lemma connections_limited_witness : ~ 4%nat ∈ sessions (admit_conn 1 one_of_one).
Proof.
  destruct (connections_limited 1 one_of_one 4) as (_ & _ & H); [exact one_of_one_steps|reflexivity|].
  intros Hin. apply H in Hin; [|lia]. revert Hin. vm_compute. discriminate.
Defined.

Definition shut : Server := default newServer (Shutdown one_of_one).
Definition shut_drained : Server := default newServer (go 1 [EAdmit; EEnd 3] shut).
Lemma shutdown_drains_witness : sessions shut_drained = ∅.
Proof.
  apply (shutdown_drains 1 one_of_one shut shut_drained); [exact one_of_one_steps|discriminate|vm_compute; reflexivity| |vm_compute; reflexivity].
  apply (ftp_go_steps 1 [EAdmit; EEnd 3] shut shut); [constructor|vm_compute; reflexivity].
Defined.

(** A file with two users. *)
#[local] Instance demo_unicode : GoUnicode := ascii_only.
Definition demo_file : File :=
  {| FServer := FServer Default; FUsers := [{| UBName := str "Alice"; UBPassword := str "a" |}; {| UBName := str "bob"; UBPassword := str "b" |}];
     FRoot := str "/srv" |}.
Definition demo_ftpd : option (@Config (gmap bytes bytes)) := ftpd (fun _ _ => Some demo_file) (Some (Some [])) [] [].

Lemma ftpd_logins_witness :
  exists cfg a, demo_ftpd = Some cfg /\ CAuthenticator cfg = Some a /\ @Authenticate a (str "ALICE") (str "a") = inr {| UName := str "Alice"; Home := [] |}.
Proof.
  eexists.
  destruct (proj2 (ftpd_logins (F := gmap bytes bytes) (fun _ _ => Some demo_file) (Some []) [] [] _ demo_file (str "ALICE") (str "a")
    {| UName := str "Alice"; Home := [] |} eq_refl eq_refl ltac:(apply (bool_decide_eq_true_1 _); vm_compute; reflexivity))) as (a & Ha & Hl).
  - exists {| UBName := str "Alice"; UBPassword := str "a" |}. split; [apply elem_of_cons; by left|]. split; [vm_compute; reflexivity|done].
  - exists a. split; [reflexivity|]. split; [exact Ha|exact Hl].
Defined.
