(* ===== verification/FtpClient.v ===== *)
(** * ftp/client: the FTP client

    client.go, session.go, data.go and ftps/ftps.go: every operation of the client over
    an interface [FtpPeer] for what is at the other end of its connections.  The peer
    answers a command line with the bytes it sends before the next one; the client keeps
    those it has not read. *)

From S2P Require Import Prelude GoStrings FtpWire FtpSession.

(** Writing a command line (its error, or the bytes sent in return), a data connection
    (its error, or the bytes it delivers), and the TLS handshake on the control
    connection. *)
Class FtpPeer (K : Type) := {
  p_line : bytes -> K -> (bytes + bytes) * K;
  p_dial : bytes -> K -> (bytes + bytes) * K;
  p_tls : K -> option bytes * K
}.
(** [net.SplitHostPort]. *)
Class GoAddr := { SplitHostPort : bytes -> bytes + bytes * bytes }.

Inductive ftp_err :=
| EIOError (msg : bytes)
| EReadReply (e : reply_err)
| EReplied (r : Reply)
| EBadAddress
| ENumber (e : num_err)
| ETLSError (msg : bytes)
| EConfig (msg : bytes)
| EContextual (what : bytes) (e : ftp_err).

Record Client (K : Type) := mkFtpClient {
  c_peer : K;
  c_unread : bytes;
  c_host : bytes;
  c_port : bytes;
  c_disableEPSV : bool;
  c_tls : bool;
  c_open : bool;
  c_features : list bytes
}.
Arguments mkFtpClient {_}. Arguments c_peer {_}. Arguments c_unread {_}. Arguments c_host {_}. Arguments c_port {_}.
Arguments c_disableEPSV {_}. Arguments c_tls {_}. Arguments c_open {_}. Arguments c_features {_}.

(** ** The reply scanner on what is unread *)

(** What [Read] leaves of its input, also when it fails. *)
Fixpoint continuation_rest (fuel : nat) (firstCode : Z) (r : bytes) : bytes :=
  match fuel with
  | O => r
  | S fuel' =>
      match ReadString r Byte.x0a with
      | Ok (line, r') =>
          match splitReplyLine line with
          | Some (code, _) =>
              if negb (code =? firstCode) || negb (isMultiLineStart line) then r'
              else continuation_rest fuel' firstCode r'
          | None => r'
          end
      | _ => []
      end
  end.
Definition Read_rest (r : bytes) : bytes :=
  match ReadString r Byte.x0a with
  | Ok (first, r') =>
      match splitReplyLine first with
      | Some (code, _) => if isMultiLineStart first then continuation_rest (S (length r')) code r' else r'
      | None => r'
      end
  | _ => []
  end.

Section Client.
Context {K : Type} `{!FtpPeer K} `{GoUnicode}.

Definition P (A : Type) : Type := Client K -> res ftp_err A * Client K.
Definition ret {A} (r : res ftp_err A) : P A := fun c => (r, c).
Definition bind {A B} (m : P A) (k : A -> P B) : P B :=
  fun c => match m c with
           | (Ok a, c) => k a c
           | (Err e, c) => (Err e, c)
           | (Panic, c) => (Panic, c)
           end.
Notation "'let*' x ':=' m 'in' k" := (bind m (fun x => k))
  (at level 10, x pattern, m at level 100, k at level 200).

Definition set_io (c : Client K) (k : K) (unread : bytes) : Client K :=
  {| c_peer := k; c_unread := unread; c_host := c_host c; c_port := c_port c;
     c_disableEPSV := c_disableEPSV c; c_tls := c_tls c; c_open := c_open c; c_features := c_features c |}.

(** ** client.go *)

Definition SendCommand (name arg : bytes) : P unit :=
  fun c =>
    match p_line (Command_String {| CName := name; CArg := arg |}) (c_peer c) with
    | (inl e, k) => (Err (EIOError e), set_io c k (c_unread c))
    | (inr out, k) => (Ok tt, set_io c k (c_unread c ++ out))
    end.

Definition readReply : P Reply :=
  fun c =>
    let c' := set_io c (c_peer c) (Read_rest (c_unread c)) in
    match Read (c_unread c) with
    | Ok (r, _) => (Ok r, c')
    | Err e => (Err (EReadReply e), c')
    | Panic => (Panic, c')
    end.
Definition ReadReply : P Reply := readReply.

Definition Do (name arg : bytes) : P Reply :=
  let* _ := SendCommand name arg in readReply.

Definition close_ctrl (c : Client K) : Client K :=
  {| c_peer := c_peer c; c_unread := c_unread c; c_host := c_host c; c_port := c_port c;
     c_disableEPSV := c_disableEPSV c; c_tls := c_tls c; c_open := false; c_features := c_features c |}.
(** [Close]: QUIT is sent, its reply is not read; closing the socket is taken to
    succeed. *)
Definition Close : P unit :=
  fun c => if negb (c_open c) then (Ok tt, c)
           else (Ok tt, close_ctrl (SendCommand (str "QUIT") [] c).2).

Definition splitHostPort `{GoAddr} (addr : bytes) : res ftp_err (bytes * bytes) :=
  match SplitHostPort addr with
  | inl e => Err (EIOError e)
  | inr (host, port) => Ok (host, if seqb port [] then str "21" else port)
  end.

(** The greeting of a connection that was dialled. *)
Definition greeted : P unit :=
  fun c => match readReply c with
           | (Ok greet, c) => if negb (Positive greet) then (Err (EReplied greet), close_ctrl c) else (Ok tt, c)
           | (Err e, c) => (Err e, close_ctrl c)
           | (Panic, c) => (Panic, c)
           end.
Record FtpConfig := {
  Addr : bytes; CfgUser : bytes; CfgPassword : bytes; HasTLSConfig : bool; DisableEPSV : bool
}.
(** [New]: [dial] gives the peer and the bytes it has sent. *)
Definition new_client (cfg : FtpConfig) (tls : bool) (host port : bytes) (k : K) (banner : bytes) : Client K :=
  {| c_peer := k; c_unread := banner; c_host := host; c_port := port; c_disableEPSV := DisableEPSV cfg;
     c_tls := tls; c_open := true; c_features := [] |}.
Definition New `{GoAddr} (cfg : FtpConfig) (dial : bytes -> bytes -> bytes + K * bytes) : res ftp_err (Client K) :=
  if seqb (Addr cfg) [] then Err (EConfig (str "ftp: empty Addr"))
  else
    let! (host, port) := splitHostPort (Addr cfg) in
    match dial host port with
    | inl e => Err (EIOError e)
    | inr (k, banner) =>
        match greeted (new_client cfg false host port k banner) with
        | (Ok _, c) => Ok c
        | (Err e, _) => Err e
        | (Panic, _) => Panic
        end
    end.
(** [DialTLS]: [dial] includes the TLS handshake. *)
Definition DialTLS `{GoAddr} (cfg : FtpConfig) (dial : bytes -> bytes -> bytes + K * bytes) : res ftp_err (Client K) :=
  if negb (HasTLSConfig cfg) then Err (EConfig (str "ftp: DialTLS requires a non-nil TLSConfig"))
  else
    let! (host, port) := splitHostPort (Addr cfg) in
    match dial host port with
    | inl e => Err (EIOError e)
    | inr (k, banner) =>
        match greeted (new_client cfg true host port k banner) with
        | (Ok _, c) => Ok c
        | (Err e, _) => Err e
        | (Panic, _) => Panic
        end
    end.

(** ** session.go *)

Definition CodeNeedPassword : Z := 332.

(** A command whose reply must be positive. *)
Definition command (name arg : bytes) : P unit :=
  let* reply := Do name arg in
  if negb (Positive reply) then ret (Err (EReplied reply)) else ret (Ok tt).

Definition Login (user pass account : bytes) : P unit :=
  let user := if seqb user [] then str "anonymous" else user in
  let pass := if seqb pass [] then str "anonymous@" else pass in
  let* reply := Do (str "USER") user in
  if Code reply =? CodeLoginOK then ret (Ok tt)
  else if negb (Code reply =? CodeUserOK) && negb (Code reply =? CodeNeedPassword) then ret (Err (EReplied reply))
  else
    let* reply := Do (str "PASS") pass in
    if Code reply =? CodeLoginOK then ret (Ok tt)
    else
      let* reply := if (Code reply =? CodeNeedPassword) && negb (seqb account []) then Do (str "ACCT") account
                    else ret (Ok reply) in
      if negb (Positive reply) then ret (Err (EReplied reply)) else ret (Ok tt).

Definition set_features (ls : list bytes) : P unit :=
  fun c => (Ok tt, {| c_peer := c_peer c; c_unread := c_unread c; c_host := c_host c; c_port := c_port c;
                      c_disableEPSV := c_disableEPSV c; c_tls := c_tls c; c_open := c_open c; c_features := ls |}).
Definition Feat : P (list bytes) :=
  let* reply := Do (str "FEAT") [] in
  if Code reply =? CodeCommandNotImpl then ret (Ok [])
  else let* _ := set_features (Lines reply) in ret (Ok (Lines reply)).

Definition Supports (feature : bytes) (c : Client K) : bool :=
  existsb (fun f => seqb (ToUpper (TrimSpace f)) (ToUpper feature)) (c_features c).

Definition unwrapQuoted (s : bytes) : bytes :=
  let s := TrimSpace s in
  if HasPrefix s [Byte.x22] && HasSuffix s [Byte.x22] && (blen s >=? 2)
  then take (length s - 2) (drop 1 s) else s.

Definition Pwd : P bytes :=
  let* reply := Do (str "PWD") [] in
  if negb (Code reply =? CodePathCreated) then ret (Err (EReplied reply))
  else ret (Ok (unwrapQuoted (Text reply))).
Definition Cwd (path : bytes) : P unit := command (str "CWD") path.
Definition Cdup : P unit := Cwd (str "..").
Definition Mkd (path : bytes) : P bytes :=
  let* reply := Do (str "MKD") path in
  if negb (Code reply =? CodePathCreated) then ret (Err (EReplied reply))
  else ret (Ok (unwrapQuoted (Text reply))).
Definition Rmd (path : bytes) : P unit := command (str "RMD") path.
Definition Dele (path : bytes) : P unit := command (str "DELE") path.
Definition Rename (from to : bytes) : P unit :=
  let* reply := Do (str "RNFR") from in
  if negb (Code reply =? CodeRequestedAction) && negb (Code reply =? 350) then ret (Err (EReplied reply))
  else command (str "RNTO") to.
Definition parsed (r : Z * option num_err) : res ftp_err Z :=
  match r with (n, None) => Ok n | (_, Some e) => Err (ENumber e) end.
Definition Size (path : bytes) : P Z :=
  let* reply := Do (str "SIZE") path in
  if negb (Code reply =? CodeFileStatus) then ret (Err (EReplied reply))
  else ret (parsed (ParseInt (TrimSpace (Text reply)))).
Definition Mdtm (path : bytes) : P bytes :=
  let* reply := Do (str "MDTM") path in
  if negb (Code reply =? CodeFileStatus) then ret (Err (EReplied reply))
  else ret (Ok (TrimSpace (Text reply))).
Definition Type_ (repr : bytes) (formatControl : list bytes) : P unit :=
  command (str "TYPE") (fold_left (fun arg fc => arg ++ str " " ++ fc) formatControl repr).
Definition Pasv : P (bytes * Z) :=
  let* reply := Do (str "PASV") [] in
  ret (match ParsePASVReply reply with Some a => Ok a | None => Err EBadAddress end).
Definition Epsv : P Z :=
  fun c =>
    if c_disableEPSV c then (let* (_, p) := Pasv in ret (Ok p)) c
    else
      (let* reply := Do (str "EPSV") [] in
       if (Code reply =? CodeCommandNotImpl) || (Code reply =? 500) then let* (_, p) := Pasv in ret (Ok p)
       else match ParseEPSVReply reply with
            | None => ret (Err EBadAddress)
            | Some portStr => ret (parsed (Atoi portStr))
            end) c.
Definition Port (host : bytes) (port : Z) : P unit :=
  let* arg := ret (match FormatPORT host port with Ok a => Ok a | Err _ => Err EBadAddress | Panic => Panic end) in
  command (str "PORT") arg.
Definition Eprt (proto host : bytes) (port : Z) : P unit := command (str "EPRT") (FormatEPRT proto host port).
Definition Rest (offset : Z) : P unit := command (str "REST") (Itoa offset).
Definition Noop : P unit := command (str "NOOP") [].

(** [AuthTLS]: the scanner over the encrypted connection starts without what the old one
    had buffered. *)
Definition CodeServiceReadyTLS : Z := 234.
Definition AuthTLS (mech : bytes) : P unit :=
  let mech := if seqb mech [] then str "TLS" else mech in
  let* reply := Do (str "AUTH") mech in
  if negb (Code reply =? CodeServiceReadyTLS) then ret (Err (EReplied reply))
  else fun c =>
    match p_tls (c_peer c) with
    | (Some e, k) => (Err (ETLSError e), set_io c k (c_unread c))
    | (None, k) =>
        (Ok tt, {| c_peer := k; c_unread := []; c_host := c_host c; c_port := c_port c;
                   c_disableEPSV := c_disableEPSV c; c_tls := true; c_open := c_open c; c_features := c_features c |})
    end.
Definition Prot (level : bytes) : P unit := command (str "PROT") level.
Definition PBSZ (size : Z) : P unit := command (str "PBSZ") (Itoa size).
Definition Opts (feature value : bytes) : P unit := command (str "OPTS") (feature ++ str " " ++ value).

(** ** data.go *)

(** [Done] of a data channel: the final reply. *)
Definition data_done : P Reply :=
  let* reply := readReply in
  if negb (Positive reply) then ret (Err (EReplied reply)) else ret (Ok reply).
Definition openDataPassive : P bytes :=
  let* port := Epsv in fun c => (Ok (JoinHostPort (c_host c) (Itoa port)), c).
(** The bytes the data connection delivers. *)
Definition dialDataPassive : P bytes :=
  let* addr := openDataPassive in
  fun c => match p_dial addr (c_peer c) with
           | (inl e, k) => (Err (EContextual (str "ftp: dial data") (EIOError e)), set_io c k (c_unread c))
           | (inr data, k) => (Ok data, set_io c k (c_unread c))
           end.
(** RETR, STOR and LIST up to the data connection. *)
Definition transfer (name path : bytes) : P bytes :=
  let* reply := Do name path in
  if negb (Code reply =? CodeDataOpen) then ret (Err (EReplied reply)) else dialDataPassive.
Definition Retr (path : bytes) : P bytes := transfer (str "RETR") path.
Definition Stor (path : bytes) : P bytes := transfer (str "STOR") path.
Definition List_ (path : bytes) : P bytes :=
  let* buf := transfer (str "LIST") path in
  let* _ := data_done in ret (Ok buf).

(** ** ftps/ftps.go *)

Definition Wrap (protect : bool) : P unit :=
  let* _ := PBSZ 0 in if protect then Prot (str "P") else Prot (str "C").

(** A step of [Connect]: a failure closes the client. *)
Definition or_close (what : bytes) (m : P unit) : P unit :=
  fun c => match m c with
           | (Err e, c) => (Err (if seqb what [] then e else EContextual what e), (Close c).2)
           | r => r
           end.
Definition protect_level (protect : bool) : bytes := if protect then str "P" else str "C".
Definition Connect `{GoAddr} (cfg : FtpConfig) (explicit protect : bool)
    (dial dial_tls : bytes -> bytes -> bytes + K * bytes) : res ftp_err (Client K) :=
  if negb (HasTLSConfig cfg) then Err (EConfig (str "ftps: nil TLSConfig"))
  else
    let! c := if explicit then New cfg dial else DialTLS cfg dial_tls in
    let tag (what : bytes) := if explicit then what else [] in
    match (let* _ := (if explicit then or_close (str "ftps: AUTH TLS") (AuthTLS (str "TLS")) else ret (Ok tt)) in
           let* _ := or_close (tag (str "ftps: PBSZ")) (PBSZ 0) in
           let* _ := or_close (tag (str "ftps: PROT " ++ protect_level protect)) (Prot (protect_level protect)) in
           if seqb (CfgUser cfg) [] then ret (Ok tt)
           else or_close [] (Login (CfgUser cfg) (CfgPassword cfg) [])) c with
    | (Ok _, c) => Ok c
    | (Err e, _) => Err e
    | (Panic, _) => Panic
    end.
Definition ErrorIsReply (e : option ftp_err) : option Reply :=
  match e with Some (EReplied r) => Some r | _ => None end.
End Client.

(* ------------------------------------------------------------------ *)
(** ** What the scanner does to replies *)

Lemma continuation_rest_ok fuel code : forall lines r x rest,
  read_continuation fuel code lines r = Ok (x, rest) -> continuation_rest fuel code r = rest /\ Text x = [].
Proof.
  induction fuel as [|fuel IH]; intros lines r x rest H; simpl in *; [done|].
  destruct (ReadString r Byte.x0a) as [[line r']| |]; simpl in H; [|done..].
  destruct (splitReplyLine line) as [[c text]|]; [|done].
  destruct (c =? code); simpl in *; [|done].
  destruct (isMultiLineStart line); simpl in *; [by eapply IH|]. by simplify_eq.
Qed.

Lemma Read_ok r x rest : Read r = Ok (x, rest) -> Read_rest r = rest /\ Text x = [].
Proof.
  unfold Read, Read_rest. intros H. destruct (ReadString r Byte.x0a) as [[first r']| |];
    cbn [res_wrap res_bind] in H; [|done..].
  destruct (splitReplyLine first) as [[code text]|]; [|done].
  destruct (isMultiLineStart first); [by eapply continuation_rest_ok|]. by simplify_eq.
Qed.

Section Texts.
Context {K : Type} `{!FtpPeer K} `{GoUnicode}.
Implicit Types (c : Client K).

Lemma Do_no_text name arg c r c' : Do name arg c = (Ok r, c') -> Text r = [].
Proof.
  unfold Do, bind. destruct (SendCommand name arg c) as [[[]|e|] c1]; [|done..]. unfold readReply.
  destruct (Read (c_unread c1)) as [[x rest]| |] eqn:E; intros [= <- <-]. by destruct (Read_ok _ _ _ E).
Qed.

(** The replies to PWD, MKD, MDTM and SIZE never reach the caller: the client takes their
    text from a field that the scanner leaves empty, so against any server the directory
    and the time are empty strings, and the size is an error even when the server sends
    it. *)
Theorem reply_texts_lost c :
  (forall d c', Pwd c = (Ok d, c') -> d = []) /\
  (forall path d c', Mkd path c = (Ok d, c') -> d = []) /\
  (forall path t c', Mdtm path c = (Ok t, c') -> t = []) /\
  (forall path n c', Size path c <> (Ok n, c')).
Proof.
  unfold Pwd, Mkd, Mdtm, Size. split_and!; [|intros path..]; intros d c'; unfold bind at 1;
    (match goal with |- context [Do ?n ?a c] => pose proof (Do_no_text n a c) as Ht; destruct (Do n a c) as [[r|e|] c1] end);
    try done; specialize (Ht _ _ eq_refl); rewrite Ht; destruct (negb _); intros E; first [discriminate E|injection E as <- _; reflexivity].
Qed.
End Texts.
