(* ===== verification/FtpLink.v ===== *)
(** * The FTP client against the FTP server

    The client of FtpClient.v with the session of FtpSession.v at the other end of its
    control connection.  The data connections and TLS are left to the environment. *)

From S2P Require Import Prelude GoStrings Paths FtpWire FtpSession FtpClient.

(** The replies among the events of a session, and the bytes they are sent as. *)
Definition replies_in (es : list event) : list Reply :=
  omap (fun e => match e with EReply r => Some r | _ => None end) es.
Definition reply_bytes (rs : list Reply) : bytes := flat_map Reply_String rs.

Section Link.
Context {F N : Type} `{!Filesystem F} `{!DataNet N} {HA : Authenticator} {HU : GoUnicode} {HG : GoFmt}
        (cfg : Config).
Context (dial : bytes -> session F N * bool -> (bytes + bytes) * (session F N * bool))
        (handshake : session F N * bool -> option bytes * (session F N * bool)).
Implicit Types (s : session F N).

(** The command loop of the server on the lines it is given, and whether it goes on. *)
Fixpoint peer_run (fuel : nat) s (input : bytes) : session F N * bool :=
  match fuel with
  | O => (s, true)
  | S fuel' =>
      match ReadString input Byte.x0a with
      | Ok (line, input') =>
          match Parse line with
          | None => peer_run fuel' (reply s (NewReply CodeSyntaxError (str "Syntax error"))) input'
          | Some cmd =>
              match dispatch cfg s cmd with
              | Done s' => peer_run fuel' s' input'
              | Quit s' => (s', false)
              | Failed s' msg => peer_run fuel' (reply s' (NewReply CodeNotLoggedInReq msg)) input'
              end
          end
      | _ => (s, true)
      end
  end.

(** It is the loop of the server. *)
Lemma peer_run_serve fuel : forall s input,
  (length input < fuel)%nat -> serve_loop cfg fuel s input = Some (peer_run fuel s input).1.
Proof.
  induction fuel as [|fuel IH]; intros s input Hf; [lia|]. cbn [serve_loop peer_run].
  destruct (ReadString input Byte.x0a) as [[line input']| |] eqn:E; [|done..].
  apply ReadString_shorter in E. assert (length input' < fuel)%nat by lia.
  destruct (Parse line) as [cmd|]; [|by apply IH]. destruct (dispatch cfg s cmd); [by apply IH|done|by apply IH].
Qed.

Definition server_line (line : bytes) (k : session F N * bool) : (bytes + bytes) * (session F N * bool) :=
  let '(s, alive) := k in
  if negb alive then (inl (str "broken pipe"), k)
  else
    let '(s', alive') := peer_run (S (length line)) s line in
    (inr (reply_bytes (replies_in (drop (length (trace s)) (trace s')))), (s', alive')).
#[global] Instance server_peer : FtpPeer (session F N * bool) :=
  {| p_line := server_line; p_dial := dial; p_tls := handshake |}.

(* ------------------------------------------------------------------ *)
(** ** One command and its reply *)

(** A reply that can be put on lines. *)
Definition reply_lines (r : Reply) : list bytes := match Lines r with [] => [Text r] | ls => ls end.
Definition wf_reply (r : Reply) : Prop := 100 <= Code r <= 999 /\ forallb wf_line (reply_lines r) = true.
Definition read_back (r : Reply) : Reply := {| Code := Code r; Text := []; Lines := reply_lines r |}.

(** A verb of the client: it is its own upper-case form and has no space or line end. *)
Definition verb (name : bytes) : bool :=
  negb (seqb name []) && is_ascii name && seqb (map ascii_upper name) name &&
  negb (in_set name " "%byte) && wf_line name.

Lemma verb_inv name : verb name = true ->
  name <> [] /\ ToUpper name = name /\ " "%byte ∉ name /\ wf_line name = true.
Proof.
  unfold verb. rewrite !andb_true_iff, !negb_true_iff. intros ((((H1 & H2) & H3) & H4) & H5).
  unfold ToUpper. rewrite H2. split_and!; [by intros ->| | |done].
  - by destruct (seqb_spec (map ascii_upper name) name).
  - intros Hin. apply in_set_spec in Hin. congruence.
Qed.

Lemma Command_String_line name arg : wf_line name = true -> wf_line arg = true ->
  exists body, Command_String {| CName := name; CArg := arg |} = body ++ [Byte.x0a] /\ Byte.x0a ∉ body.
Proof.
  intros Hn Ha. apply wf_line_inv in Hn as [Hn _]. apply wf_line_inv in Ha as [Ha _].
  unfold Command_String, CRLF. cbn [CArg CName]. case_match.
  - exists (name ++ [Byte.x0d]). rewrite <- app_assoc. split; [done|]. set_solver.
  - exists (name ++ str " " ++ arg ++ [Byte.x0d]). rewrite <- !app_assoc. split; [done|].
    rewrite !elem_of_app. intros [?|[Hx|[?|Hx]]]; try done; [|by apply list_elem_of_singleton in Hx].
    by apply list_elem_of_singleton in Hx.
Qed.

Lemma one_command s name arg :
  verb name = true -> wf_line arg = true ->
  let cmd := {| CName := name; CArg := arg |} in
  peer_run (S (length (Command_String cmd))) s (Command_String cmd) =
  match dispatch cfg s cmd with
  | Done s' => (s', true)
  | Quit s' => (s', false)
  | Failed s' msg => (reply s' (NewReply CodeNotLoggedInReq msg), true)
  end.
Proof.
  intros Hv Ha cmd. destruct (verb_inv _ Hv) as (Hne & Hup & Hsp & Hwf).
  assert (Hp : Parse (Command_String cmd) = Some cmd) by (by apply Parse_Command_String).
  destruct (Command_String_line name arg Hwf Ha) as (body & E & Hno). fold cmd in E.
  assert (Hr : ReadString (Command_String cmd) Byte.x0a = Ok (Command_String cmd, [])).
  { rewrite E. apply (ReadString_app body _ []); done. }
  cbn [peer_run]. rewrite Hr, Hp. rewrite E, length_app, Nat.add_comm. cbn [length Nat.add].
  by destruct (dispatch cfg s cmd).
Qed.

(** The server's session at the other end, all its replies read. *)
Definition in_sync (c : Client (session F N * bool)) s : Prop := c_peer c = (s, true) /\ c_unread c = [].

(** The command [name arg] makes the session go to [s'] with the reply [r] to read. *)
Definition answered s name arg s' (r : Reply) : Prop :=
  exists es, replies_in es = [r] /\ wf_reply r /\ verb name = true /\ wf_line arg = true /\
    trace s' = trace s ++ es /\
    (dispatch cfg s {| CName := name; CArg := arg |} = Done s' \/
     exists s0 msg, dispatch cfg s {| CName := name; CArg := arg |} = Failed s0 msg /\
       s' = reply s0 (NewReply CodeNotLoggedInReq msg)).

Lemma Do_answered c s name arg s' r :
  in_sync c s -> answered s name arg s' r ->
  Do name arg c = (Ok (read_back r), set_io c (s', true) []).
Proof.
  intros [Hp Hu] (es & Hrs & (Hc & Hl) & Hv & Ha & Htr & Hd). unfold Do, bind, SendCommand. rewrite Hp.
  cbn [p_line server_peer server_line negb]. rewrite one_command by done.
  assert (Hpeer : match dispatch cfg s {| CName := name; CArg := arg |} with
    | Done s' => (s', true)
    | Quit s' => (s', false)
    | Failed s' msg => (reply s' (NewReply CodeNotLoggedInReq msg), true)
    end = (s', true)) by (destruct Hd as [->|(s0 & msg & -> & ->)]; done).
  rewrite Hpeer, Htr, drop_app_length, Hrs. unfold readReply. cbn [c_unread set_io]. rewrite Hu, app_nil_l.
  unfold reply_bytes. cbn [flat_map].
  pose proof (Read_Reply r [] Hc Hl) as E. rewrite E. by destruct (Read_ok _ _ _ E) as [-> _].
Qed.

Lemma in_sync_after c s s' : in_sync c s -> in_sync (set_io c (s', true) []) s'.
Proof. done. Qed.

(** A command that must be answered positively. *)
Lemma command_answered c s name arg s' r :
  in_sync c s -> answered s name arg s' r ->
  command name arg c =
  (if Positive r then Ok tt else Err (EReplied (read_back r)), set_io c (s', true) []).
Proof.
  intros Hs Ha. unfold command, bind. rewrite (Do_answered _ _ _ _ _ _ Hs Ha). unfold Positive. cbn [Code read_back].
  by destruct (_ && _).
Qed.

(* ------------------------------------------------------------------ *)
(** ** Every command is answered *)

(** [s] comes from [s0] with these replies sent on the way. *)
Definition since s0 (rs : list Reply) s : Prop := exists es, trace s = trace s0 ++ es /\ replies_in es = rs.
(** One reply, or for a transfer the reply 150 and one at its end. *)
Definition one_answer (rs : list Reply) : Prop :=
  (exists r, rs = [r]) \/ exists r1 r2, rs = [r1; r2] /\ Code r1 = CodeDataOpen.
Definition answers s0 (h : handled F N) : Prop :=
  match h with
  | Done s | Quit s => exists rs, since s0 rs s /\ one_answer rs
  | Failed s _ => since s0 [] s
  end.

Lemma since_refl s : since s [] s.
Proof. exists []. by rewrite app_nil_r. Qed.
Lemma since_trace s0 rs s s' : since s0 rs s -> trace s' = trace s -> since s0 rs s'.
Proof. intros (es & E & H) Et. exists es. by rewrite Et. Qed.
Lemma since_emit s0 rs s s' es :
  since s0 rs s -> trace s' = trace s ++ es -> since s0 (rs ++ replies_in es) s'.
Proof.
  intros (es0 & E & <-) Et. exists (es0 ++ es). rewrite Et, E, <- app_assoc. split; [done|].
  unfold replies_in. by rewrite omap_app.
Qed.
Lemma since_silent s0 rs s s' es :
  since s0 rs s -> trace s' = trace s ++ es -> replies_in es = [] -> since s0 rs s'.
Proof. intros H Et He. rewrite <- (app_nil_r rs), <- He. by eapply since_emit. Qed.
Lemma since_fs s0 rs s p f : since s0 rs s -> since s0 rs (set_fs s p f).
Proof. intros H. by apply (since_silent _ _ s _ [EFile p]). Qed.

Lemma say_answers s0 rs s code text :
  since s0 rs s -> one_answer (rs ++ [NewReply code text]) -> answers s0 (say s code text).
Proof.
  intros H Ho. exists (rs ++ [NewReply code text]). split; [|done].
  by apply (since_emit _ _ s _ [EReply (NewReply code text)]).
Qed.
Lemma say_first s0 s code text : since s0 [] s -> answers s0 (say s code text).
Proof. intros H. eapply say_answers; [done|]. left. by eexists. Qed.
Lemma say_last s0 s r code text : since s0 [r] s -> Code r = CodeDataOpen -> answers s0 (say s code text).
Proof. intros H Hr. eapply say_answers; [done|]. right. by eexists _, _. Qed.

Lemma resolved_answers s0 s arg k :
  since s0 [] s -> (forall p, answers s0 (k p)) -> answers s0 (resolved s arg k).
Proof. intros H Hk. unfold resolved. destruct (fs_resolve _ _ _); [by apply say_first|done]. Qed.
Lemma stated_answers s0 s p k :
  since s0 [] s -> (forall s' st, since s0 [] s' -> answers s0 (k s' st)) -> answers s0 (stated s p k).
Proof.
  intros H Hk. unfold stated. destruct (fs_stat _ _ _) as [[e|st] f]; [apply say_first|apply Hk]; by apply since_fs.
Qed.
Lemma with_data_answers s0 s k :
  since s0 [] s ->
  (forall s' r incoming, since s0 [r] s' -> Code r = CodeDataOpen -> answers s0 (k s' incoming)) ->
  answers s0 (with_data s k).
Proof.
  intros H Hk. unfold with_data, acceptData.
  assert (Hopen : forall s' incoming, since s0 [] s' ->
    answers s0 (k (reply s' (NewReply CodeDataOpen (str "Opening data connection"))) incoming)).
  { intros s' incoming H'. apply (Hk _ (NewReply CodeDataOpen (str "Opening data connection"))); [|done].
    by apply (since_emit _ [] s' _ [EReply (NewReply CodeDataOpen (str "Opening data connection"))]). }
  destruct (passive s) as [[addr|addr]|]; [| |by apply say_first].
  - destruct (n_accept addr (network s)) as [[e|d] n]; [by apply say_first|by apply Hopen].
  - destruct (negb (seqb addr [])); [|by apply say_first].
    destruct (n_dial addr (network s)) as [[e|d] n]; [by apply say_first|by apply Hopen].
Qed.
Lemma data_events_silent (es : list event) : (forall e, e ∈ es -> exists d, e = EData d) -> replies_in es = [].
Proof.
  induction es as [|e es IH]; intros He; [done|]. destruct (He e ltac:(set_solver)) as [d ->]. simpl.
  apply IH. set_solver.
Qed.

Lemma cwd2_answers s arg : answers s (cwd2 s arg).
Proof.
  apply resolved_answers; [apply since_refl|]. intros p. apply stated_answers; [apply since_refl|].
  intros s' st H. destruct (negb _); by apply say_first.
Qed.
Lemma list_answers s arg : answers s (list_ s arg).
Proof.
  cbv beta delta [list_]. lazymatch goal with |- answers _ (let go := ?g in _) => assert (Hgo : forall t, answers s (g t)) end.
  { intros t. cbv beta. destruct (fs_list _ _ _) as [[e|l] f]; [apply say_first; apply since_fs, since_refl|].
    apply with_data_answers; [apply since_fs, since_refl|]. intros s' r _ H Hr.
    apply (say_last _ _ r); [|done]. eapply since_silent; [done|reflexivity|].
    apply data_events_silent. intros e (en & -> & _)%list_elem_of_fmap. eauto. }
  cbv zeta. destruct (seqb arg []); [apply Hgo|]. apply resolved_answers; [apply since_refl|apply Hgo].
Qed.
Lemma retr_answers s arg : answers s (retr s arg).
Proof.
  apply resolved_answers; [apply since_refl|]. intros p. apply with_data_answers; [apply since_refl|].
  intros s' r _ H Hr. destruct (fs_send _ _ _ _) as [[data err] f].
  assert (H' : since s [r] (emit (set_fs s' p f) [EData data])) by (by apply (since_silent _ _ s' _ [EFile p; EData data]); [|simpl; rewrite <- app_assoc|]).
  destruct err; by apply (say_last _ _ r).
Qed.
Lemma receive_answers s arg store : answers s (receive s arg store).
Proof.
  apply resolved_answers; [apply since_refl|]. intros p. apply with_data_answers; [apply since_refl|].
  intros s' r d H Hr. destruct (store _ _ _ _) as [[e|] f]; apply (say_last _ _ r); try done; by apply since_fs.
Qed.
Lemma path_op_answers s arg f code text : answers s (path_op s arg f code text).
Proof.
  apply resolved_answers; [apply since_refl|]. intros p.
  destruct (f _ _ _) as [[e|] f']; apply say_first; apply since_fs, since_refl.
Qed.
Lemma rnto_answers s arg : answers s (rnto s arg).
Proof.
  unfold rnto. destruct (seqb (renameTo s) []); [apply say_first, since_refl|].
  apply resolved_answers; [apply since_refl|]. intros p.
  destruct (fs_rename _ _ _ _) as [[e|] f]; apply say_first; [do 2 apply since_fs; apply since_refl|].
  eapply since_trace; [|reflexivity]. do 2 apply since_fs. apply since_refl.
Qed.
Lemma query_answers s arg k :
  (forall s' st, since s [] s' -> answers s (k s' st)) -> answers s (resolved s arg (fun p => stated s p k)).
Proof. intros Hk. apply resolved_answers; [apply since_refl|]. intros p. by apply stated_answers; [apply since_refl|]. Qed.
Lemma other_answers s arg :
  answers s (handleUSER s arg) /\ answers s (handlePASS cfg s arg) /\ answers s (type2 s arg) /\
  answers s (pasv cfg s) /\ answers s (epsv cfg s) /\ answers s (port s arg) /\ answers s (eprt s arg) /\
  answers s (rnfr s arg) /\ answers s (rest2 s arg) /\ answers s (prot s arg).
Proof.
  assert (Hs : forall s' code text, trace s' = trace s -> answers s (say s' code text)).
  { intros s' code text E. apply say_first. eapply since_trace; [apply since_refl|done]. }
  split_and!.
  - by apply Hs.
  - unfold handlePASS. destruct (seqb (user s) []); [by apply Hs|]. destruct (Authenticate _ _) as [e|u]; [by apply Hs|].
    apply say_first. by apply (since_silent _ _ s _ [ELogin u]); [apply since_refl|..].
  - unfold type2. destruct (_ && _); by apply Hs.
  - unfold pasv. destruct (openPassive cfg (network s)) as [[e|[h p]] n]; by apply Hs.
  - unfold epsv. destruct (openPassive cfg (network s)) as [[e|[h p]] n]; by apply Hs.
  - unfold port. destruct (parsePORT arg) as [[h p]|]; by apply Hs.
  - unfold eprt. destruct (eprt_addr arg); by apply Hs.
  - apply resolved_answers; [apply since_refl|]. intros p. by apply Hs.
  - unfold rest2. destruct (ParseInt _) as [off [e|]]; by apply Hs.
  - unfold prot. repeat case_match; by apply Hs.
Qed.

Lemma dispatch_answers s c : answers s (dispatch cfg s c).
Proof.
  destruct (other_answers s (CArg c)) as (H1 & H2 & H3 & H4 & H5 & H6 & H7 & H8 & H9 & H10).
  assert (Hsay : forall code text, answers s (say s code text)) by (intros; apply say_first, since_refl).
  unfold dispatch. cbv zeta.
  repeat (if_step; [first
    [ apply since_refl | apply H1 | apply H2 | apply H3 | apply H4 | apply H5 | apply H6 | apply H7 | apply H8 | apply H9
    | apply H10 | apply Hsay | apply cwd2_answers | apply list_answers | apply retr_answers | apply receive_answers
    | apply path_op_answers | apply rnto_answers
    | apply query_answers; intros; by apply say_first
    | eexists; split; [by eexists [_]|left; by eexists] ]|]).
  apply Hsay.
Qed.

(** Every command of an FTP session is answered once: with one reply, or for a transfer
    that opened its data connection with the reply 150 and one at the end; a command that
    is refused before the login sends nothing itself and leaves the answer to the loop. *)
Theorem ftp_commands_answered s (c : Command) : answers s (dispatch cfg s c).
Proof. apply dispatch_answers. Qed.

(* ------------------------------------------------------------------ *)
(** ** Logging in *)

Lemma answered_say s name arg s' code text :
  dispatch cfg s {| CName := name; CArg := arg |} = say s' code text -> trace s' = trace s ->
  verb name = true -> wf_line arg = true -> 100 <= code <= 999 -> wf_line text = true ->
  answered s name arg (reply s' (NewReply code text)) (NewReply code text).
Proof.
  intros Hd Ht Hv Ha Hc Hw. exists [EReply (NewReply code text)]. split_and!; try done.
  - split; [done|]. simpl. by rewrite Hw.
  - simpl. by rewrite Ht.
  - by left.
Qed.

(** The user and password the client sends. *)
Definition sent_user (user : bytes) : bytes := if seqb user [] then str "anonymous" else user.
Definition sent_pass (pass : bytes) : bytes := if seqb pass [] then str "anonymous@" else pass.
Definition welcome : bytes := if seqb (WelcomeMessage cfg) [] then str "Login successful" else WelcomeMessage cfg.


(* ------------------------------------------------------------------ *)
(** ** Files *)

(** A command on a path of a session that is logged in, the texts of its refusals being
    lines. *)
Definition may_use s (path : bytes) : Prop :=
  logged s = true /\ wf_line path = true /\
  forall err, fs_resolve (auth s) (cwd s) path = inl err -> wf_line err = true.

Lemma transfer_refused c s name path k :
  in_sync c s -> may_use s path -> verb name = true ->
  dispatch cfg s {| CName := name; CArg := path |} = resolved s path (fun target => with_data s (k target)) ->
  passive s = None ->
  exists r, (transfer name path c).1 = Err (EReplied r) /\ (Code r = CodeCantOpenData \/ Code r = CodeFileUnavailable).
Proof.
  intros Hs (Hl & Hp & He) Hv Hd Hpas. unfold resolved, with_data, acceptData in Hd. rewrite Hpas in Hd.
  unfold transfer, bind. destruct (fs_resolve (auth s) (cwd s) path) as [err|target] eqn:E.
  - rewrite (Do_answered c s name path _ _ Hs
      (answered_say s name path s _ _ Hd eq_refl Hv Hp ltac:(done) (He _ eq_refl))). eexists. by split; [|right].
  - rewrite (Do_answered c s name path _ _ Hs
      (answered_say s name path s _ _ Hd eq_refl Hv Hp ltac:(done) eq_refl)). eexists. by split; [|left].
Qed.

(** A download or upload of the client cannot succeed against this server: the client
    asks for the transfer first and for the data channel after, and the server refuses a
    transfer without a data channel; the file is not touched. *)
Theorem transfers_refused c s (path : bytes) :
  in_sync c s -> may_use s path -> passive s = None ->
  (exists r, (Retr path c).1 = Err (EReplied r) /\ (Code r = CodeCantOpenData \/ Code r = CodeFileUnavailable)) /\
  (exists r, (Stor path c).1 = Err (EReplied r) /\ (Code r = CodeCantOpenData \/ Code r = CodeFileUnavailable)).
Proof.
  intros Hs Hm Hp. destruct Hm as (Hl & Hm).
  split; (eapply transfer_refused; [done|by split|done| |done]); unfold dispatch; by rewrite Hl.
Qed.

(** The reply the client sees of an operation on a path, and the filesystem after it. *)
Definition file_result (e : option bytes) : res ftp_err unit :=
  match e with Some e => Err (EReplied (NewMultiLine CodeFileUnavailable [e])) | None => Ok tt end.

Lemma path_command c s name path f text :
  in_sync c s -> may_use s path -> verb name = true ->
  dispatch cfg s {| CName := name; CArg := path |} = path_op s path f 250 (fun _ => text) -> wf_line text = true ->
  match fs_resolve (auth s) (cwd s) path with
  | inl err => (command name path c).1 = file_result (Some err) /\ in_sync (command name path c).2 (reply s (NewReply 550 err))
  | inr target =>
      (forall e, (f (auth s) target (filesystem s)).1 = Some e -> wf_line e = true) ->
      (command name path c).1 = file_result (f (auth s) target (filesystem s)).1 /\
      exists s', in_sync (command name path c).2 s' /\ filesystem s' = (f (auth s) target (filesystem s)).2
  end.
Proof.
  intros Hs (Hl & Hp & He) Hv Hd Ht. unfold path_op, resolved in Hd.
  destruct (fs_resolve (auth s) (cwd s) path) as [err|target] eqn:E.
  - rewrite (command_answered c s name path _ _ Hs
      (answered_say s name path s _ _ Hd eq_refl Hv Hp ltac:(done) (He _ eq_refl))). done.
  - intros Hf. destruct (f (auth s) target (filesystem s)) as [[e|] f'] eqn:Ef; cbn [fst snd] in *.
    + assert (Ha : answered s name path (reply (set_fs s target f') (NewReply 550 e)) (NewReply 550 e)).
      { exists [EFile target; EReply (NewReply 550 e)]. split_and!; try done.
        - split; [done|]. simpl. by rewrite Hf.
        - simpl. by rewrite <- app_assoc.
        - by left. }
      rewrite (command_answered _ _ _ _ _ _ Hs Ha). split; [done|]. by eexists.
    + assert (Ha : answered s name path (reply (set_fs s target f') (NewReply 250 text)) (NewReply 250 text)).
      { exists [EFile target; EReply (NewReply 250 text)]. split_and!; try done.
        - split; [done|]. simpl. by rewrite Ht.
        - simpl. by rewrite <- app_assoc.
        - by left. }
      rewrite (command_answered _ _ _ _ _ _ Hs Ha). split; [done|]. by eexists.
Qed.

(** Deleting through the client is deleting on the server's filesystem, at the path the
    argument stands for: the call succeeds exactly when the filesystem's does, its error
    text is the reply's, and the two ends are still in step. *)
Theorem delete_agrees c s (path target : bytes) :
  in_sync c s -> may_use s path -> fs_resolve (auth s) (cwd s) path = inr target ->
  (forall e, (fs_remove (auth s) target (filesystem s)).1 = Some e -> wf_line e = true) ->
  (Dele path c).1 = file_result (fs_remove (auth s) target (filesystem s)).1 /\
  (Rmd path c).1 = file_result (fs_remove (auth s) target (filesystem s)).1 /\
  exists s', in_sync (Dele path c).2 s' /\ filesystem s' = (fs_remove (auth s) target (filesystem s)).2.
Proof.
  intros Hs Hm Hr He. pose proof Hm as (Hl & _).
  pose proof (path_command c s (str "DELE") path fs_remove (str "Deleted") Hs Hm eq_refl) as H1.
  pose proof (path_command c s (str "RMD") path fs_remove (str "Removed") Hs Hm eq_refl) as H2.
  rewrite Hr in H1, H2.
  destruct H1 as [H1 H1']; [unfold dispatch; by rewrite Hl|done|done|].
  destruct H2 as [H2 H2']; [unfold dispatch; by rewrite Hl|done|done|]. done.
Qed.

(** Renaming through the client: RNFR and RNTO together are one rename on the server's
    filesystem between the paths the arguments stand for. *)
Theorem rename_agrees c s (from to a b : bytes) :
  in_sync c s -> may_use s from -> may_use s to -> a <> [] ->
  fs_resolve (auth s) (cwd s) from = inr a -> fs_resolve (auth s) (cwd s) to = inr b ->
  (forall e, (fs_rename (auth s) a b (filesystem s)).1 = Some e -> wf_line e = true) ->
  (Rename from to c).1 = file_result (fs_rename (auth s) a b (filesystem s)).1 /\
  exists s', in_sync (Rename from to c).2 s' /\ filesystem s' = (fs_rename (auth s) a b (filesystem s)).2.
Proof.
  intros Hs (Hl & Hf & _) (_ & Ht & _) Hne Ha Hb He.
  set (s1 := reply (set_modes s (type_ s) (dataTLS s) (rest s) a) (NewReply 350 (str "RNFR accepted"))).
  assert (H1 : answered s (str "RNFR") from s1 (NewReply 350 (str "RNFR accepted"))).
  { apply (answered_say s (str "RNFR") from (set_modes s (type_ s) (dataTLS s) (rest s) a)); try done.
    transitivity (rnfr s from); [unfold dispatch; by rewrite Hl|]. unfold rnfr, resolved. by rewrite Ha. }
  assert (Hd : dispatch cfg s1 {| CName := str "RNTO"; CArg := to |} = rnto s1 to).
  { unfold dispatch. change (logged s1) with (logged s). by rewrite Hl. }
  unfold rnto in Hd. change (renameTo s1) with a in Hd.
  replace (seqb a []) with false in Hd by (symmetry; by apply seqb_ne). unfold resolved in Hd.
  change (fs_resolve (auth s1) (cwd s1) to) with (fs_resolve (auth s) (cwd s) to) in Hd. rewrite Hb in Hd.
  change (fs_rename (auth s1) a b (filesystem s1)) with (fs_rename (auth s) a b (filesystem s)) in Hd.
  set (c1 := set_io c (s1, true) []). assert (Hs1 : in_sync c1 s1) by done.
  assert (E : Rename from to c = command (str "RNTO") to c1).
  { unfold Rename, bind. by rewrite (Do_answered _ _ _ _ _ _ Hs H1). }
  rewrite E. destruct (fs_rename (auth s) a b (filesystem s)) as [[e|] f]; cbn [fst snd] in *.
  - set (s2 := set_fs (set_fs s1 a f) b f) in *.
    assert (H2 : answered s1 (str "RNTO") to (reply s2 (NewReply 550 e)) (NewReply 550 e)).
    { exists [EFile a; EFile b; EReply (NewReply 550 e)]. split_and!; try done.
      - split; [done|]. simpl. by rewrite He.
      - simpl. by rewrite <- !app_assoc.
      - by left. }
    rewrite (command_answered _ _ _ _ _ _ Hs1 H2). split; [done|]. by eexists.
  - set (s2 := set_modes (set_fs (set_fs s1 a f) b f) (type_ s1) (dataTLS s1) (rest s1) []) in *.
    assert (H2 : answered s1 (str "RNTO") to (reply s2 (NewReply 250 (str "Rename ok"))) (NewReply 250 (str "Rename ok"))).
    { exists [EFile a; EFile b; EReply (NewReply 250 (str "Rename ok"))]. split_and!; try done.
      - simpl. by rewrite <- !app_assoc.
      - by left. }
    rewrite (command_answered _ _ _ _ _ _ Hs1 H2). split; [done|]. by eexists.
Qed.

(* ------------------------------------------------------------------ *)
(** ** The data channel *)

Lemma epsv_text_line port : wf_line (epsv_text (Itoa port)) = true.
Proof.
  unfold wf_line, epsv_text. apply andb_true_iff. split.
  - apply negb_true_iff, not_true_is_false. rewrite in_set_spec, !elem_of_app.
    intros [H|[H|H]]; [by apply in_set_spec in H|revert H; by apply Itoa_not_in|by apply in_set_spec in H].
  - rewrite app_assoc, last_app_nonempty by done. done.
Qed.

(** The port that [Epsv] returns is the one the server has just begun to listen on. *)
Theorem Epsv_agrees c s (host : bytes) (port : Z) (n : N) :
  in_sync c s -> logged s = true -> c_disableEPSV c = false -> 0 <= port < 65536 ->
  openPassive cfg (network s) = (inr (host, Itoa port), n) ->
  (Epsv c).1 = Ok port /\
  exists s', in_sync (Epsv c).2 s' /\ passive s' = Some (Listening (host, Itoa port)).
Proof.
  intros Hs Hl Hdis Hp Ho.
  set (s1 := set_data s (Some (Listening (host, Itoa port))) n).
  set (r := NewReply CodeEnterEPSV (epsv_text (Itoa port))).
  assert (Ha : answered s (str "EPSV") [] (reply s1 r) r).
  { apply answered_say; try done; [|apply epsv_text_line].
    transitivity (epsv cfg s); [unfold dispatch; by rewrite Hl|]. unfold epsv. by rewrite Ho. }
  assert (E : Epsv c = (Ok port, set_io c (reply s1 r, true) [])).
  { unfold Epsv, bind. rewrite Hdis, (Do_answered _ _ _ _ _ _ Hs Ha).
    change ((Code (read_back r) =? CodeCommandNotImpl) || (Code (read_back r) =? 500)) with false. cbv iota.
    change (ParseEPSVReply (read_back r)) with (ParseEPSVReply r).
    pose proof (proj2 (passive_address 0 0 0 0 port Hp)) as E. fold r in E. rewrite E.
    unfold ret, parsed. unfold Atoi. rewrite ParseInt_Itoa by (unfold in_i64; lia). done. }
  rewrite E. split; [done|]. by eexists.
Qed.
End Link.

(* ------------------------------------------------------------------ *)
(** ** A server in memory *)

Definition demo_auth : Authenticator := {| Authenticate := @anonymous_authenticate ascii_only AllowAnonymous |}.
Definition demo_session := session (gmap bytes bytes) bytes.
Definition demo_peer : FtpPeer (demo_session * bool) :=
  @server_peer _ _ (NewOS (str "/srv/ftp")) echo_net demo_auth ascii_only plain_fmt demo_config
    (fun _ k => (inl (str "connection refused"), k)) (fun k => (Some (str "no TLS"), k)).
Definition fresh : demo_session := newSession demo_disk (str "new data").
Definition logged_in : demo_session := set_login fresh (str "anonymous") no_user true (str "/").
Definition client_of (s : demo_session) : Client (demo_session * bool) :=
  {| c_peer := (s, true); c_unread := []; c_host := str "127.0.0.1"; c_port := str "21"; c_disableEPSV := false;
     c_tls := false; c_open := true; c_features := [] |}.


Lemma transfers_refused_witness :
  exists r, (@Retr _ demo_peer (str "a.txt") (client_of logged_in)).1 = Err (EReplied r) /\
    (Code r = CodeCantOpenData \/ Code r = CodeFileUnavailable).
Proof.
  refine (proj1 (@transfers_refused _ _ (NewOS (str "/srv/ftp")) echo_net demo_auth ascii_only plain_fmt demo_config
    (fun _ k => (inl (str "connection refused"), k)) (fun k => (Some (str "no TLS"), k))
    (client_of logged_in) logged_in (str "a.txt") _ _ _)); try reflexivity.
  - split; reflexivity.
  - split; [reflexivity|]. split; [reflexivity|]. intros err Herr. vm_compute in Herr. discriminate Herr.
Defined.

Lemma delete_agrees_witness :
  (@Dele _ demo_peer (str "a.txt") (client_of logged_in)).1 = Ok tt.
Proof.
  refine (proj1 (@delete_agrees _ _ (NewOS (str "/srv/ftp")) echo_net demo_auth ascii_only plain_fmt demo_config
    (fun _ k => (inl (str "connection refused"), k)) (fun k => (Some (str "no TLS"), k))
    (client_of logged_in) logged_in (str "a.txt") (str "/a.txt") _ _ _ _)).
  - split; reflexivity.
  - split; [reflexivity|]. split; [reflexivity|]. intros err Herr. vm_compute in Herr. discriminate Herr.
  - vm_compute. reflexivity.
  - intros err Herr. vm_compute in Herr. discriminate Herr.
Defined.

Lemma rename_agrees_witness :
  (@Rename _ demo_peer (str "a.txt") (str "b.txt") (client_of logged_in)).1 =
  file_result (@fs_rename _ (NewOS (str "/srv/ftp")) no_user (str "/a.txt") (str "/b.txt") demo_disk).1.
Proof.
  refine (proj1 (@rename_agrees _ _ (NewOS (str "/srv/ftp")) echo_net demo_auth ascii_only plain_fmt demo_config
    (fun _ k => (inl (str "connection refused"), k)) (fun k => (Some (str "no TLS"), k))
    (client_of logged_in) logged_in (str "a.txt") (str "b.txt") (str "/a.txt") (str "/b.txt") _ _ _ _ _ _ _)).
  - split; reflexivity.
  - split; [reflexivity|]. split; [reflexivity|]. intros err Herr. vm_compute in Herr. discriminate Herr.
  - split; [reflexivity|]. split; [reflexivity|]. intros err Herr. vm_compute in Herr. discriminate Herr.
  - discriminate.
  - vm_compute. reflexivity.
  - vm_compute. reflexivity.
  - intros err Herr. vm_compute in Herr. discriminate Herr.
Defined.

Lemma Epsv_agrees_witness : (@Epsv _ demo_peer (client_of logged_in)).1 = Ok 2121.
Proof.
  refine (proj1 (@Epsv_agrees _ _ (NewOS (str "/srv/ftp")) echo_net demo_auth ascii_only plain_fmt demo_config
    (fun _ k => (inl (str "connection refused"), k)) (fun k => (Some (str "no TLS"), k))
    (client_of logged_in) logged_in (str "0.0.0.0") 2121 (str "new data") _ _ _ _ _)); try reflexivity; [|lia].
  split; reflexivity.
Defined.

(** The client does not look for line ends in arguments: an argument with one is sent
    as two commands, and here the deletion of a file that the caller did not name. *)
Theorem argument_injects_command :
  filesystem logged_in !! str "/srv/ftp/a.txt" = Some (str "0123456789") /\
  filesystem (c_peer (@Dele _ demo_peer (str "x" ++ CRLF ++ str "DELE a.txt") (client_of logged_in)).2).1
    !! str "/srv/ftp/a.txt" = None.
Proof. split; vm_compute; reflexivity. Qed.

(** A server that knows the directory and the size, and a client that does not. *)
Lemma reply_texts_lost_witness :
  let i : FtpPeer unit := {| p_line _ k := (inr (str "257 " ++ [Byte.x22] ++ str "/pub" ++ [Byte.x22] ++ CRLF), k);
                             p_dial _ k := (inl [], k); p_tls k := (None, k) |} in
  let c := mkFtpClient tt [] (str "h") (str "21") false false true [] in
  exists c', Pwd c = (Ok [], c').
Proof.
  intros i c. destruct (Pwd c) as [[d|e|] c'] eqn:E; [|vm_compute in E; discriminate E..].
  exists c'. f_equal. f_equal. exact (proj1 (reply_texts_lost c) d c' E).
Defined.
