(* ===== verification/IrcNames.v ===== *)
(** * irc/server/handlers.go: names, masks and line splitting

    The helpers at the end of the file ([isValidNick], [isValidChannelName],
    [cleanUsername], [globMatch]) and the loops that split long lists over several
    lines ([sendCAPList], [sendMonitorList], [sendNames]). *)

From S2P Require Import Prelude GoStrings.

Definition isLetter (ch : Z) : bool := ((97 <=? ch) && (ch <=? 122)) || ((65 <=? ch) && (ch <=? 90)).
Definition isDigit (ch : Z) : bool := (48 <=? ch) && (ch <=? 57).

(** The special characters of a nickname: underscore, backslash, brackets, braces,
    bar, caret and backquote. *)
Definition nick_special (ch : Z) : bool :=
  existsb (fun c => ch =? bz c) (["_"%byte; Byte.x5c] ++ str "[]{}|^`").

Definition isValidNick (nick : bytes) : bool :=
  if (blen nick =? 0) || (blen nick >? 30) then false
  else forallb (fun '(i, ch) =>
         if (i =? 0)%nat then isLetter ch || nick_special ch
         else isLetter ch || isDigit ch || (ch =? 45) || nick_special ch)
         (range_runes (length nick) 0 nick).

Definition isValidChannelName (name : bytes) : bool :=
  if (blen name <? 2) || (blen name >? 64) then false
  else match name with
       | c :: _ => if negb (beqb c "#"%byte) && negb (beqb c "&"%byte) then false
                   else negb (ContainsAny name [" "%byte; Byte.x07; ","%byte])
       | [] => false
       end.

Definition cleanUsername (u : bytes) : bytes :=
  let u := TrimPrefix u (str "~") in
  if blen u >? 10 then take 10 u else u.

(** ** Masks *)

(** The positions [for i := range s] visits: the starts of the runes. *)
Definition rune_starts (s : bytes) : list nat := (range_runes (length s) 0 s).*1.

Fixpoint globMatch (pattern s : bytes) : bool :=
  match pattern with
  | [] => match s with [] => true | _ => false end
  | c :: pattern' =>
      if beqb c "*"%byte then
        match pattern' with
        | [] => true
        | _ => existsb (fun i => globMatch pattern' (drop i s)) (rune_starts s)
        end
      else if beqb c "?"%byte then
        match s with [] => false | _ :: s' => globMatch pattern' s' end
      else
        match s with [] => false | d :: s' => if beqb c d then globMatch pattern' s' else false end
  end.

Definition matchMask `{GoUnicode} (mask target : bytes) : bool := globMatch (ToLower mask) (ToLower target).

(** ** Splitting lists over lines *)

(** How many of the values fit a line: the loop on [end] and [size]. *)
Fixpoint fitting (max size : Z) (values : list bytes) : nat :=
  match values with
  | v :: vs => if size + blen v + 1 <=? max then S (fitting max (size + blen v + 1) vs) else 0%nat
  | [] => 0%nat
  end.

(** The groups of values that go on a line each; a value too long for any line has
    one of its own. *)
Fixpoint line_groups (fuel : nat) (max : Z) (values : list bytes) : list (list bytes) :=
  match fuel, values with
  | S fuel', _ :: _ =>
      let e := fitting max 0 values in
      let e := if (e =? 0)%nat then 1%nat else e in
      take e values :: line_groups fuel' max (drop e values)
  | _, _ => []
  end.
Definition groups (max : Z) (values : list bytes) : list (list bytes) := line_groups (length values) max values.

(** The greedy lines of [sendNames]: a line is flushed before a name that would take
    it past the maximum. *)
Definition names_step (st : list (list bytes) * list bytes * Z) (n : bytes) : list (list bytes) * list bytes * Z :=
  let '(done_, line, lineLen) := st in
  let '(done_, line, lineLen) :=
    if lineLen + blen n + 1 >? 400 then
      match line with [] => (done_, line, lineLen) | _ => (done_ ++ [line], [], 0) end
    else (done_, line, lineLen) in
  (done_, line ++ [n], lineLen + blen n + 1).
Definition names_lines (names : list bytes) : list (list bytes) :=
  let '(done_, line, _) := fold_left names_step names ([], [], 0) in
  match line with [] => done_ | _ => done_ ++ [line] end.

(* ------------------------------------------------------------------ *)
(** ** Masks match as globs *)

(** What a mask means: [*] any text, [?] any one byte, anything else itself. *)
Inductive matches : bytes -> bytes -> Prop :=
| matches_nil : matches [] []
| matches_star p u t : matches p t -> matches ("*"%byte :: p) (u ++ t)
| matches_any p c s : matches p s -> matches ("?"%byte :: p) (c :: s)
| matches_byte p c s : c <> "*"%byte -> c <> "?"%byte -> matches p s -> matches (c :: p) (c :: s).

Lemma range_runes_ascii fuel i s :
  is_ascii s = true -> (length s <= fuel)%nat -> range_runes fuel i s = zip (seq i (length s)) (map bz s).
Proof.
  revert i s. induction fuel as [|fuel IH]; intros i [|c s] Ha Hf; simpl in Hf; try done; [lia|].
  cbn [is_ascii forallb] in Ha. apply andb_true_iff in Ha as [Hc Ha]. apply Z.ltb_lt in Hc.
  cbn [range_runes]. rewrite decode_rune_ascii by done. cbn [length seq map zip zip_with]. f_equal.
  simpl drop. rewrite drop_0, Nat.add_1_r. apply IH; [done|lia].
Qed.

Lemma rune_starts_ascii s : is_ascii s = true -> rune_starts s = seq 0 (length s).
Proof.
  intros H. unfold rune_starts. rewrite range_runes_ascii by done. apply fst_zip.
  by rewrite length_map, length_seq.
Qed.

Lemma globMatch_sound p s : globMatch p s = true -> matches p s.
Proof.
  revert s. induction p as [|c p IH]; intros s H; [by destruct s; [constructor|]|]. cbn [globMatch] in H.
  destruct (beqb_spec c "*"%byte) as [->|H1].
  - destruct p as [|c' p].
    + rewrite <- (app_nil_r s). constructor. constructor.
    + apply existsb_exists in H as (i & _ & Hi). rewrite <- (take_drop i s). constructor. by apply IH.
  - destruct (beqb_spec c "?"%byte) as [->|H2].
    + destruct s as [|d s]; [done|]. constructor. by apply IH.
    + destruct s as [|d s]; [done|]. destruct (beqb_spec c d) as [->|]; [|done]. constructor; auto.
Qed.

(** No two stars in a row. *)
Fixpoint no_double_star (p : bytes) : bool :=
  match p with
  | c :: p' => negb (beqb c "*"%byte && match p' with d :: _ => beqb d "*"%byte | [] => false end) && no_double_star p'
  | [] => true
  end.

Lemma matches_empty c p : matches (c :: p) [] -> c = "*"%byte.
Proof. by inversion 1. Qed.

Lemma globMatch_complete p s :
  is_ascii s = true -> no_double_star p = true -> matches p s -> globMatch p s = true.
Proof.
  intros Ha Hd Hm. revert Ha Hd.
  induction Hm as [|p u t Hm IH|p c s Hm IH|p c s H1 H2 Hm IH]; intros Ha Hd; [done|..].
  - cbn [globMatch]. rewrite beqb_refl. destruct p as [|c p]; [done|].
    cbn [no_double_star] in Hd. rewrite beqb_refl in Hd. simpl andb at 1 in Hd.
    apply andb_true_iff in Hd as [Hc Hd]. apply negb_true_iff in Hc.
    apply existsb_exists. exists (length u). split.
    + apply list_elem_of_In. rewrite rune_starts_ascii by done. apply elem_of_seq. rewrite length_app. destruct t as [|x t]; [|simpl; lia].
      apply matches_empty in Hm as ->. by rewrite beqb_refl in Hc.
    + rewrite drop_app_length. apply IH; [|done].
      unfold is_ascii in *. rewrite forallb_app in Ha. by apply andb_true_iff in Ha as [_ ?].
  - cbn [globMatch]. replace (beqb "?"%byte "*"%byte) with false by done. rewrite beqb_refl.
    simpl in Ha, Hd. apply andb_true_iff in Ha as [_ Ha]. auto.
  - cbn [globMatch]. rewrite !beqb_ne by done. rewrite beqb_refl.
    simpl in Ha. apply andb_true_iff in Ha as [_ Ha]. cbn [no_double_star] in Hd.
    apply andb_true_iff in Hd as [_ Hd]. auto.
Qed.

(** A mask without two stars in a row matches an ASCII name exactly as a glob. *)
Theorem globMatch_spec (p s : bytes) :
  is_ascii s = true -> no_double_star p = true -> globMatch p s = true <-> matches p s.
Proof. intros Ha Hd. split; [apply globMatch_sound|by apply globMatch_complete]. Qed.

Lemma globMatch_spec_witness :
  globMatch (str "*!*@host?.example") (str "nick!user@host1.example") = true <->
  matches (str "*!*@host?.example") (str "nick!user@host1.example").
Proof. apply globMatch_spec; by vm_compute. Defined.

(** A star never matches the empty rest when more of the mask follows: [a**] does not
    match [a], which as a glob it does. *)
Lemma double_star_differs : globMatch (str "a**") (str "a") = false /\ matches (str "a**") (str "a").
Proof.
  split; [by vm_compute|]. apply matches_byte; [done..|].
  change (@nil byte) with ([] ++ @nil byte). do 2 (constructor; change (@nil byte) with ([] ++ @nil byte)). constructor.
Qed.

(* ------------------------------------------------------------------ *)
(** ** Lines *)

(** The room values take on a line, with a separator each. *)
Definition width (vs : list bytes) : Z := fold_right (fun v a => blen v + 1 + a) 0 vs.

Lemma fitting_width max size vs :
  size <= max -> size + width (take (fitting max size vs) vs) <= max.
Proof.
  revert size. induction vs as [|v vs IH]; intros size H; cbn [fitting]; [simpl; lia|].
  destruct (Z.leb_spec (size + blen v + 1) max) as [Hf|]; [|simpl; lia].
  specialize (IH _ Hf). cbn [take width fold_right]. fold (width (take (fitting max (size + blen v + 1) vs) vs)). lia.
Qed.

Lemma line_groups_spec fuel max vs :
  0 <= max -> (length vs <= fuel)%nat ->
  concat (line_groups fuel max vs) = vs /\
  Forall (fun g => g <> [] /\ (width g <= max \/ length g = 1%nat)) (line_groups fuel max vs).
Proof.
  intros Hm. revert vs. induction fuel as [|fuel IH]; intros vs Hf; [by destruct vs; [|simpl in Hf; lia]|].
  destruct vs as [|v vs]; [done|]. cbn [line_groups].
  pose proof (fitting_width max 0 (v :: vs) Hm) as Hw.
  set (e := if (fitting max 0 (v :: vs) =? 0)%nat then 1%nat else fitting max 0 (v :: vs)).
  assert (0 < e)%nat as He by (subst e; destruct (Nat.eqb_spec (fitting max 0 (v :: vs)) 0); lia).
  destruct (IH (drop e (v :: vs))) as [IH1 IH2]; [rewrite length_drop; simpl in *; lia|].
  split; [simpl; by rewrite IH1, take_drop|]. constructor; [|done]. split.
  - destruct e; [lia|done].
  - subst e. destruct (Nat.eqb_spec (fitting max 0 (v :: vs)) 0); [by right|left; lia].
Qed.

(** Long lists are split over lines without loss: the groups put together are the
    list, none is empty, and each fits the line unless it is a single value that is
    longer than a line. *)
Theorem groups_spec (max : Z) (vs : list bytes) :
  0 <= max ->
  concat (groups max vs) = vs /\
  Forall (fun g => g <> [] /\ (width g <= max \/ length g = 1%nat)) (groups max vs).
Proof. intros Hm. by apply line_groups_spec. Qed.

Lemma groups_spec_witness : concat (groups 8 [str "ab"; str "cd"; str "toolongname"; str "e"]) =
  [str "ab"; str "cd"; str "toolongname"; str "e"].
Proof. apply groups_spec. lia. Defined.

(* ------------------------------------------------------------------ *)
(** ** Nicknames *)

Lemma all_runes_ascii fuel i s :
  (length s <= fuel)%nat -> Forall (fun ir => 0 <= ir.2 < 128) (range_runes fuel i s) ->
  is_ascii s = true.
Proof.
  revert i s. induction fuel as [|fuel IH]; intros i [|c s] Hf H; simpl in Hf; try done; [lia|].
  cbn [range_runes] in H. destruct (decode_rune (c :: s)) as [r w] eqn:E.
  apply Forall_cons in H as [Hr H]. simpl in Hr.
  pose proof (decode_rune_small c s) as Hs. rewrite E in Hs. simpl in Hs. specialize (Hs ltac:(lia)).
  rewrite decode_rune_ascii in E by done. injection E as <- <-. cbn [is_ascii forallb].
  rewrite (proj2 (Z.ltb_lt _ _) Hs). simpl. simpl in H. rewrite drop_0 in H. by eapply (IH (i + 1)%nat); [lia|].
Qed.

(** The bytes a valid nickname may contain. *)
Definition nick_byte (c : byte) : bool := isLetter (bz c) || isDigit (bz c) || (bz c =? 45) || nick_special (bz c).

Lemma nick_byte_range ch : isLetter ch || isDigit ch || (ch =? 45) || nick_special ch = true -> 0 <= ch < 128.
Proof.
  unfold isLetter, isDigit, nick_special. rewrite !orb_true_iff, !andb_true_iff, !Z.leb_le, Z.eqb_eq, existsb_exists.
  intros [[[[[? ?]|[? ?]]|[? ?]]|?]|(c & Hc & Ec)]; try lia. apply Z.eqb_eq in Ec as ->.
  simpl in Hc. repeat destruct Hc as [<-|Hc]; by vm_compute.
Qed.

Lemma nick_tail i nick :
  forallb (fun '(j, ch) => if (j =? 0)%nat then isLetter ch || nick_special ch
      else isLetter ch || isDigit ch || (ch =? 45) || nick_special ch)
    (zip (seq (S i) (length nick)) (map bz nick)) = true -> forallb nick_byte nick = true.
Proof.
  revert i. induction nick as [|d nick IH]; intros i H; [done|].
  cbn [length seq map zip zip_with forallb Nat.eqb] in *.
  apply andb_true_iff in H as [Hd H]. apply andb_true_iff. split; [exact Hd|]. by eapply IH.
Qed.

Lemma nick_first c : isLetter (bz c) || nick_special (bz c) = true -> is_digit c = false.
Proof. by destruct c. Qed.

(** A valid nickname is safe on the wire: 1 to 30 ASCII bytes, letters, digits and
    the special characters only (so no space, comma, colon, bang or at sign), the
    first neither a digit nor a dash. *)
Theorem isValidNick_safe (nick : bytes) :
  isValidNick nick = true ->
  1 <= blen nick <= 30 /\ forallb nick_byte nick = true /\
  ContainsAny nick (str " ,:!@#&*") = false /\
  match nick with c :: _ => is_digit c = false /\ c <> "-"%byte | [] => False end.
Proof.
  unfold isValidNick. destruct (_ || _) eqn:El; [done|]. apply orb_false_iff in El as [El1 El2].
  apply Z.eqb_neq in El1. rewrite Z.gtb_ltb in El2. apply Z.ltb_ge in El2. intros H.
  assert (is_ascii nick = true) as Ha.
  { apply (all_runes_ascii (length nick) 0 nick); [lia|]. apply Forall_forall. intros [i ch] Hin.
    rewrite forallb_forall in H. apply list_elem_of_In, H in Hin. apply nick_byte_range. simpl.
    destruct (i =? 0)%nat; rewrite !orb_true_iff in *; tauto. }
  rewrite range_runes_ascii in H by done. destruct nick as [|c nick]; [done|].
  cbn [length seq map zip zip_with forallb Nat.eqb] in H. apply andb_true_iff in H as [Hc H].
  assert (forallb nick_byte (c :: nick) = true) as Hb.
  { cbn [forallb]. apply andb_true_iff. split; [unfold nick_byte; rewrite !orb_true_iff in *; tauto|].
    by apply (nick_tail 0). }
  repeat split; try done; [unfold blen in *; cbn [length] in *; lia|..].
  - apply ContainsAny_false. intros x Hx Hin. rewrite forallb_forall in Hb. apply list_elem_of_In, Hb in Hin.
    apply list_elem_of_In in Hx. simpl in Hx. repeat destruct Hx as [<-|Hx]; by vm_compute in Hin.
  - by apply nick_first.
  - intros ->. by vm_compute in Hc.
Qed.

Lemma isValidNick_safe_witness :
  1 <= blen (str "al[i]ce-42") <= 30 /\ forallb nick_byte (str "al[i]ce-42") = true.
Proof.
  split; [|exact (proj1 (proj2 (isValidNick_safe (str "al[i]ce-42") eq_refl)))].
  exact (proj1 (isValidNick_safe (str "al[i]ce-42") eq_refl)).
Defined.
