(* ===== verification/IrcConst.v ===== *)
(** * irc/irc/numeric.go and commands.go: the constants the server uses *)

From S2P Require Import Prelude GoTime.

(** ** Numerics *)

Definition numeric_string (n : Z) : bytes := pad_zero 3 n.

Definition RPL_WELCOME : Z := 1.
Definition RPL_YOURHOST : Z := 2.
Definition RPL_CREATED : Z := 3.
Definition RPL_MYINFO : Z := 4.
Definition RPL_ISUPPORT : Z := 5.
Definition RPL_ENDOFSTATS : Z := 219.
Definition RPL_UMODEIS : Z := 221.
Definition RPL_STATSUPTIME : Z := 242.
Definition RPL_LUSERCLIENT : Z := 251.
Definition RPL_LUSERCHANNELS : Z := 254.
Definition RPL_LUSERME : Z := 255.
Definition RPL_ADMINME : Z := 256.
Definition RPL_ADMINLOC1 : Z := 257.
Definition RPL_ADMINLOC2 : Z := 258.
Definition RPL_ADMINEMAIL : Z := 259.
Definition RPL_AWAY : Z := 301.
Definition RPL_USERHOST : Z := 302.
Definition RPL_ISON : Z := 303.
Definition RPL_UNAWAY : Z := 305.
Definition RPL_NOWAWAY : Z := 306.
Definition RPL_WHOISUSER : Z := 311.
Definition RPL_WHOISSERVER : Z := 312.
Definition RPL_WHOISOPERATOR : Z := 313.
Definition RPL_WHOWASUSER : Z := 314.
Definition RPL_ENDOFWHO : Z := 315.
Definition RPL_WHOISIDLE : Z := 317.
Definition RPL_ENDOFWHOIS : Z := 318.
Definition RPL_WHOISCHANNELS : Z := 319.
Definition RPL_LISTSTART : Z := 321.
Definition RPL_LIST : Z := 322.
Definition RPL_LISTEND : Z := 323.
Definition RPL_CHANNELMODEIS : Z := 324.
Definition RPL_CREATIONTIME : Z := 329.
Definition RPL_WHOISACCOUNT : Z := 330.
Definition RPL_NOTOPIC : Z := 331.
Definition RPL_TOPIC : Z := 332.
Definition RPL_TOPICWHOTIME : Z := 333.
Definition RPL_INVITING : Z := 341.
Definition RPL_VERSION : Z := 351.
Definition RPL_WHOREPLY : Z := 352.
Definition RPL_NAMREPLY : Z := 353.
Definition RPL_ENDOFNAMES : Z := 366.
Definition RPL_BANLIST : Z := 367.
Definition RPL_ENDOFBANLIST : Z := 368.
Definition RPL_ENDOFWHOWAS : Z := 369.
Definition RPL_INFO : Z := 371.
Definition RPL_MOTD : Z := 372.
Definition RPL_ENDOFINFO : Z := 374.
Definition RPL_MOTDSTART : Z := 375.
Definition RPL_ENDOFMOTD : Z := 376.
Definition RPL_YOUROPER : Z := 381.
Definition RPL_TIME : Z := 391.
Definition ERR_NOSUCHNICK : Z := 401.
Definition ERR_NOSUCHCHANNEL : Z := 403.
Definition ERR_CANNOTSENDTOCHAN : Z := 404.
Definition ERR_WASNOSUCHNICK : Z := 406.
Definition ERR_INVALIDCAPCMD : Z := 410.
Definition ERR_NORECIPIENT : Z := 411.
Definition ERR_INPUTTOOLONG : Z := 417.
Definition ERR_UNKNOWNCOMMAND : Z := 421.
Definition ERR_NOMOTD : Z := 422.
Definition ERR_NONICKNAMEGIVEN : Z := 431.
Definition ERR_ERRONEUSNICKNAME : Z := 432.
Definition ERR_NICKNAMEINUSE : Z := 433.
Definition ERR_USERNOTINCHANNEL : Z := 441.
Definition ERR_NOTONCHANNEL : Z := 442.
Definition ERR_NOTREGISTERED : Z := 451.
Definition ERR_NEEDMOREPARAMS : Z := 461.
Definition ERR_ALREADYREGISTRED : Z := 462.
Definition ERR_PASSWDMISMATCH : Z := 464.
Definition ERR_CHANNELISFULL : Z := 471.
Definition ERR_INVITEONLYCHAN : Z := 473.
Definition ERR_BADCHANNELKEY : Z := 475.
Definition ERR_NOPRIVILEGES : Z := 481.
Definition ERR_CHANOPRIVSNEEDED : Z := 482.
Definition ERR_USERSDONTMATCH : Z := 502.
Definition RPL_LOGGEDIN : Z := 900.
Definition RPL_SASLSUCCESS : Z := 903.
Definition ERR_SASLFAIL : Z := 904.
Definition ERR_SASLTOOLONG : Z := 905.
Definition ERR_SASLABORTED : Z := 906.
Definition ERR_SASLALREADY : Z := 907.
Definition RPL_SASLMECHS : Z := 908.
Definition RPL_MONONLINE : Z := 730.
Definition RPL_MONOFFLINE : Z := 731.
Definition RPL_MONLIST : Z := 732.
Definition RPL_ENDOFMONLIST : Z := 733.
Definition ERR_MONLISTFULL : Z := 734.

(** ** Subcommands and capabilities of CAP *)

Definition CapLS : bytes := str "LS".
Definition CapLIST : bytes := str "LIST".
Definition CapREQ : bytes := str "REQ".
Definition CapACK : bytes := str "ACK".
Definition CapNAK : bytes := str "NAK".
Definition CapEND : bytes := str "END".
Definition CapNEW : bytes := str "NEW".
Definition CapDEL : bytes := str "DEL".
Definition CapSASL : bytes := str "sasl".
Definition CapServerTime : bytes := str "server-time".
Definition CapMessageTags : bytes := str "message-tags".
Definition CapBatch : bytes := str "batch".
Definition CapLabeledResponse : bytes := str "labeled-response".
Definition CapEchoMessage : bytes := str "echo-message".
Definition CapMultiPrefix : bytes := str "multi-prefix".
Definition CapAwayNotify : bytes := str "away-notify".
Definition CapExtendedJoin : bytes := str "extended-join".
Definition CapChghost : bytes := str "chghost".
Definition CapSetname : bytes := str "setname".
Definition CapAccountTag : bytes := str "account-tag".
Definition CapCapNotify : bytes := str "cap-notify".
Definition CapChatHistory : bytes := str "draft/chathistory".
Definition CapUserHostInNames : bytes := str "userhost-in-names".
Definition CapInviteNotify : bytes := str "invite-notify".
Definition CapAccountNotify : bytes := str "account-notify".
Definition CapNoImplicitNames : bytes := str "no-implicit-names".
Definition CapStandardReplies : bytes := str "standard-replies".
Definition CapExtendedMonitor : bytes := str "extended-monitor".
Definition CapSTS : bytes := str "sts".
