(* ===== verification/IrcServer.v ===== *)
(** * irc/server/server.go: the state of the IRC server and its output

    Sessions are objects shared by the registry, the channels and their connections:
    they live in a store by number, and the maps of the server hold numbers.  The
    fields of a session that buffer a labelled response are kept beside the store, so
    that sending never changes a session.  A handler is a program in a state monad
    over the whole server and runs to its end before the next one.  [sent] records, in
    order, the messages handed to the writer of each session.  Maps are walked in any
    order: the class [IterOrder]. *)

From S2P Require Import Prelude GoStrings GoSort GoTime GoEncoding IrcMessage IrcMode IrcNames IrcConst.

Inductive SessionState := StatePreReg | StateCapNeg | StateRegistered.
#[export] Instance SessionState_eq_dec : EqDecision SessionState.
Proof. solve_decision. Defined.

Record historyEntry := { htime : Time; hmsg : Message }.

Record Session := {
  nick : bytes; user : bytes; host : bytes; realname : bytes; account : bytes; away : bytes;
  secure : bool;
  serverName : bytes;
  smodes : ModeSet;
  caps : gset bytes;
  shistory : gmap bytes (list historyEntry);
  state : SessionState;
  monitor : gmap bytes bytes;
  capVersion : Z;
  saslActive : bool;
  saslBuffer : bytes;
  idleAt : Time;
  signOnAt : Time;
  isOper : bool;
  closed : bool
}.

Record Membership := { mid : nat; mprefix : bytes }.

Record Channel := {
  cname : bytes; topic : bytes; topicSetBy : bytes; topicSetAt : Time;
  cmodes : ModeSet;
  createdAt : Time;
  members : gmap bytes Membership;
  chistory : list historyEntry
}.

Record whowasEntry := { wnick : bytes; wuser : bytes; whost : bytes; wrealname : bytes; quitAt : Time }.

(** The response under construction for a labelled command. *)
Record responseState := { rlabel : bytes; rmessages : list Message; rimmediate : list Message }.

Record Server := {
  store : gmap nat Session;
  sessions : gmap bytes nat;
  channels : gmap bytes Channel;
  whowas : list whowasEntry;
  live : gset nat;
  response : gmap nat responseState;
  sent : list (nat * Message)
}.

Record Account := { AName : bytes; PasswordHash : bytes; AHost : bytes }.
Record STSConfig := { STSPort : Z; STSDuration : Z; STSPreload : bool; STSHostnames : list bytes }.

(** The parts of the configuration the handlers read, with the accounts by lower-case
    name and the hash tried for a name that has none. *)
Class Config := {
  Name : bytes; Network : bytes; MOTD : bytes;
  Opers : gmap bytes bytes;
  accounts : gmap bytes Account;
  dummyPasswordHash : bytes;
  STS : option STSConfig
}.

(** What a command takes from outside: the clock, the offset of the local time zone,
    and the results of [rand.Text] (at most one in a handler, one for a response). *)
Class Env := { now : Time; zone : Time -> Z; rnd : bytes; batch_rnd : bytes }.

(** [bcrypt.CompareHashAndPassword(hash, password) == nil]. *)
Class Bcrypt := { bcryptCheck : bytes -> bytes -> bool }.

Definition chatHistoryLimit : Z := 50.
Definition monitorLimit : Z := 100.

(* ------------------------------------------------------------------ *)
(** ** Field updates *)

Definition set_nick x (s : Session) : Session :=
  {| nick := x; user := user s; host := host s; realname := realname s; account := account s; away := away s;
     secure := secure s; serverName := serverName s; smodes := smodes s; caps := caps s; shistory := shistory s;
     state := state s; monitor := monitor s; capVersion := capVersion s; saslActive := saslActive s; saslBuffer
     := saslBuffer s; idleAt := idleAt s; signOnAt := signOnAt s; isOper := isOper s; closed := closed s |}.
Definition set_user x (s : Session) : Session :=
  {| nick := nick s; user := x; host := host s; realname := realname s; account := account s; away := away s;
     secure := secure s; serverName := serverName s; smodes := smodes s; caps := caps s; shistory := shistory s;
     state := state s; monitor := monitor s; capVersion := capVersion s; saslActive := saslActive s; saslBuffer
     := saslBuffer s; idleAt := idleAt s; signOnAt := signOnAt s; isOper := isOper s; closed := closed s |}.
Definition set_host x (s : Session) : Session :=
  {| nick := nick s; user := user s; host := x; realname := realname s; account := account s; away := away s;
     secure := secure s; serverName := serverName s; smodes := smodes s; caps := caps s; shistory := shistory s;
     state := state s; monitor := monitor s; capVersion := capVersion s; saslActive := saslActive s; saslBuffer
     := saslBuffer s; idleAt := idleAt s; signOnAt := signOnAt s; isOper := isOper s; closed := closed s |}.
Definition set_realname x (s : Session) : Session :=
  {| nick := nick s; user := user s; host := host s; realname := x; account := account s; away := away s; secure
     := secure s; serverName := serverName s; smodes := smodes s; caps := caps s; shistory := shistory s; state
     := state s; monitor := monitor s; capVersion := capVersion s; saslActive := saslActive s; saslBuffer :=
     saslBuffer s; idleAt := idleAt s; signOnAt := signOnAt s; isOper := isOper s; closed := closed s |}.
Definition set_account x (s : Session) : Session :=
  {| nick := nick s; user := user s; host := host s; realname := realname s; account := x; away := away s; secure
     := secure s; serverName := serverName s; smodes := smodes s; caps := caps s; shistory := shistory s; state
     := state s; monitor := monitor s; capVersion := capVersion s; saslActive := saslActive s; saslBuffer :=
     saslBuffer s; idleAt := idleAt s; signOnAt := signOnAt s; isOper := isOper s; closed := closed s |}.
Definition set_away x (s : Session) : Session :=
  {| nick := nick s; user := user s; host := host s; realname := realname s; account := account s; away := x;
     secure := secure s; serverName := serverName s; smodes := smodes s; caps := caps s; shistory := shistory s;
     state := state s; monitor := monitor s; capVersion := capVersion s; saslActive := saslActive s; saslBuffer
     := saslBuffer s; idleAt := idleAt s; signOnAt := signOnAt s; isOper := isOper s; closed := closed s |}.
Definition set_smodes x (s : Session) : Session :=
  {| nick := nick s; user := user s; host := host s; realname := realname s; account := account s; away := away
     s; secure := secure s; serverName := serverName s; smodes := x; caps := caps s; shistory := shistory s;
     state := state s; monitor := monitor s; capVersion := capVersion s; saslActive := saslActive s; saslBuffer
     := saslBuffer s; idleAt := idleAt s; signOnAt := signOnAt s; isOper := isOper s; closed := closed s |}.
Definition set_caps x (s : Session) : Session :=
  {| nick := nick s; user := user s; host := host s; realname := realname s; account := account s; away := away
     s; secure := secure s; serverName := serverName s; smodes := smodes s; caps := x; shistory := shistory s;
     state := state s; monitor := monitor s; capVersion := capVersion s; saslActive := saslActive s; saslBuffer
     := saslBuffer s; idleAt := idleAt s; signOnAt := signOnAt s; isOper := isOper s; closed := closed s |}.
Definition set_shistory x (s : Session) : Session :=
  {| nick := nick s; user := user s; host := host s; realname := realname s; account := account s; away := away
     s; secure := secure s; serverName := serverName s; smodes := smodes s; caps := caps s; shistory := x; state
     := state s; monitor := monitor s; capVersion := capVersion s; saslActive := saslActive s; saslBuffer :=
     saslBuffer s; idleAt := idleAt s; signOnAt := signOnAt s; isOper := isOper s; closed := closed s |}.
Definition set_state x (s : Session) : Session :=
  {| nick := nick s; user := user s; host := host s; realname := realname s; account := account s; away := away
     s; secure := secure s; serverName := serverName s; smodes := smodes s; caps := caps s; shistory := shistory
     s; state := x; monitor := monitor s; capVersion := capVersion s; saslActive := saslActive s; saslBuffer :=
     saslBuffer s; idleAt := idleAt s; signOnAt := signOnAt s; isOper := isOper s; closed := closed s |}.
Definition set_monitor x (s : Session) : Session :=
  {| nick := nick s; user := user s; host := host s; realname := realname s; account := account s; away := away
     s; secure := secure s; serverName := serverName s; smodes := smodes s; caps := caps s; shistory := shistory
     s; state := state s; monitor := x; capVersion := capVersion s; saslActive := saslActive s; saslBuffer :=
     saslBuffer s; idleAt := idleAt s; signOnAt := signOnAt s; isOper := isOper s; closed := closed s |}.
Definition set_capVersion x (s : Session) : Session :=
  {| nick := nick s; user := user s; host := host s; realname := realname s; account := account s; away := away
     s; secure := secure s; serverName := serverName s; smodes := smodes s; caps := caps s; shistory := shistory
     s; state := state s; monitor := monitor s; capVersion := x; saslActive := saslActive s; saslBuffer :=
     saslBuffer s; idleAt := idleAt s; signOnAt := signOnAt s; isOper := isOper s; closed := closed s |}.
Definition set_saslActive x (s : Session) : Session :=
  {| nick := nick s; user := user s; host := host s; realname := realname s; account := account s; away := away
     s; secure := secure s; serverName := serverName s; smodes := smodes s; caps := caps s; shistory := shistory
     s; state := state s; monitor := monitor s; capVersion := capVersion s; saslActive := x; saslBuffer :=
     saslBuffer s; idleAt := idleAt s; signOnAt := signOnAt s; isOper := isOper s; closed := closed s |}.
Definition set_saslBuffer x (s : Session) : Session :=
  {| nick := nick s; user := user s; host := host s; realname := realname s; account := account s; away := away
     s; secure := secure s; serverName := serverName s; smodes := smodes s; caps := caps s; shistory := shistory
     s; state := state s; monitor := monitor s; capVersion := capVersion s; saslActive := saslActive s;
     saslBuffer := x; idleAt := idleAt s; signOnAt := signOnAt s; isOper := isOper s; closed := closed s |}.
Definition set_idleAt x (s : Session) : Session :=
  {| nick := nick s; user := user s; host := host s; realname := realname s; account := account s; away := away
     s; secure := secure s; serverName := serverName s; smodes := smodes s; caps := caps s; shistory := shistory
     s; state := state s; monitor := monitor s; capVersion := capVersion s; saslActive := saslActive s;
     saslBuffer := saslBuffer s; idleAt := x; signOnAt := signOnAt s; isOper := isOper s; closed := closed s |}.
Definition set_isOper x (s : Session) : Session :=
  {| nick := nick s; user := user s; host := host s; realname := realname s; account := account s; away := away
     s; secure := secure s; serverName := serverName s; smodes := smodes s; caps := caps s; shistory := shistory
     s; state := state s; monitor := monitor s; capVersion := capVersion s; saslActive := saslActive s;
     saslBuffer := saslBuffer s; idleAt := idleAt s; signOnAt := signOnAt s; isOper := x; closed := closed s |}.
Definition set_closed x (s : Session) : Session :=
  {| nick := nick s; user := user s; host := host s; realname := realname s; account := account s; away := away
     s; secure := secure s; serverName := serverName s; smodes := smodes s; caps := caps s; shistory := shistory
     s; state := state s; monitor := monitor s; capVersion := capVersion s; saslActive := saslActive s;
     saslBuffer := saslBuffer s; idleAt := idleAt s; signOnAt := signOnAt s; isOper := isOper s; closed := x |}.

Definition no_session : Session :=
  {| nick := []; user := []; host := []; realname := []; account := []; away := []; secure := false;
     serverName := []; smodes := ModeSet_New; caps := ∅; shistory := ∅; state := StatePreReg; monitor := ∅;
     capVersion := 0; saslActive := false; saslBuffer := []; idleAt := zero_time; signOnAt := zero_time;
     isOper := false; closed := false |}.

Definition with_store (srv : Server) x : Server :=
  {| store := x; sessions := sessions srv; channels := channels srv; whowas := whowas srv; live := live srv; response := response srv; sent := sent srv |}.
Definition with_sessions (srv : Server) x : Server :=
  {| store := store srv; sessions := x; channels := channels srv; whowas := whowas srv; live := live srv; response := response srv; sent := sent srv |}.
Definition with_channels (srv : Server) x : Server :=
  {| store := store srv; sessions := sessions srv; channels := x; whowas := whowas srv; live := live srv; response := response srv; sent := sent srv |}.
Definition with_whowas (srv : Server) x : Server :=
  {| store := store srv; sessions := sessions srv; channels := channels srv; whowas := x; live := live srv; response := response srv; sent := sent srv |}.
Definition with_live (srv : Server) x : Server :=
  {| store := store srv; sessions := sessions srv; channels := channels srv; whowas := whowas srv; live := x; response := response srv; sent := sent srv |}.
Definition with_response (srv : Server) x : Server :=
  {| store := store srv; sessions := sessions srv; channels := channels srv; whowas := whowas srv; live := live srv; response := x; sent := sent srv |}.
Definition with_sent (srv : Server) x : Server :=
  {| store := store srv; sessions := sessions srv; channels := channels srv; whowas := whowas srv; live := live srv; response := response srv; sent := x |}.
Definition set_members m (ch : Channel) : Channel :=
  {| cname := cname ch; topic := topic ch; topicSetBy := topicSetBy ch; topicSetAt := topicSetAt ch; cmodes := cmodes ch; createdAt := createdAt ch; members := m; chistory := chistory ch |}.
Definition set_cmodes m (ch : Channel) : Channel :=
  {| cname := cname ch; topic := topic ch; topicSetBy := topicSetBy ch; topicSetAt := topicSetAt ch; cmodes := m; createdAt := createdAt ch; members := members ch; chistory := chistory ch |}.
Definition set_topic t b a (ch : Channel) : Channel :=
  {| cname := cname ch; topic := t; topicSetBy := b; topicSetAt := a; cmodes := cmodes ch; createdAt := createdAt ch; members := members ch; chistory := chistory ch |}.
Definition set_chistory h (ch : Channel) : Channel :=
  {| cname := cname ch; topic := topic ch; topicSetBy := topicSetBy ch; topicSetAt := topicSetAt ch; cmodes := cmodes ch; createdAt := createdAt ch; members := members ch; chistory := h |}.

(* ------------------------------------------------------------------ *)
(** ** The state monad *)

Definition M (A : Type) : Type := Server -> A * Server.
#[export] Instance M_ret : MRet M := fun A a srv => (a, srv).
#[export] Instance M_bind : MBind M := fun A B f m srv => let '(a, srv) := m srv in f a srv.

Definition get : M Server := fun srv => (srv, srv).
Definition modify (f : Server -> Server) : M unit := fun srv => (tt, f srv).

Fixpoint forM_ {A} (l : list A) (f : A -> M unit) : M unit :=
  match l with
  | [] => mret tt
  | x :: l' => _ ← f x; forM_ l' f
  end.
(** A loop that carries a value. *)
Fixpoint foldM {A B} (f : B -> A -> M B) (b : B) (l : list A) : M B :=
  match l with
  | [] => mret b
  | x :: l' => b' ← f b x; foldM f b' l'
  end.
Definition when (b : bool) (m : M unit) : M unit := if b then m else mret tt.

(** The session object of a number, and the change of its fields. *)
Definition obj (srv : Server) (i : nat) : Session := default no_session (store srv !! i).
Definition the (i : nat) : M Session := srv ← get; mret (obj srv i).
Definition update (i : nat) (f : Session -> Session) : M unit :=
  modify (fun srv => with_store srv (alter f i (store srv))).

Definition capEnabled (s : Session) (c : bytes) : bool := bool_decide (c ∈ caps s).
Definition Prefix_of (s : Session) : Prefix := {| Nick := nick s; User := user s; Host := host s |}.
Definition mask (s : Session) : bytes := Prefix_String (Some (Prefix_of s)).

(** [append] and the cut to the last [chatHistoryLimit]. *)
Definition append_history (h : list historyEntry) (e : historyEntry) : list historyEntry :=
  let h := h ++ [e] in
  if blen h >? chatHistoryLimit then drop (Z.to_nat (blen h - chatHistoryLimit)) h else h.

Section Operations.
Context {HU : GoUnicode} {HI : IterOrder} {cfg : Config} {env : Env}.

Definition newSession (h : bytes) : Session :=
  {| nick := []; user := []; host := h; realname := []; account := []; away := []; secure := false;
     serverName := []; smodes := ModeSet_New; caps := ∅; shistory := ∅; state := StatePreReg; monitor := ∅;
     capVersion := 0; saslActive := false; saslBuffer := []; idleAt := now; signOnAt := now;
     isOper := false; closed := false |}.

Definition Session_appendHistory (i : nat) (target : bytes) (e : historyEntry) : M unit :=
  update i (fun s => set_shistory (<[ToLower target := append_history (default [] (shistory s !! ToLower target)) e]> (shistory s)) s).

Definition isMonitoring (s : Session) (n : bytes) : bool := bool_decide (is_Some (monitor s !! ToLower n)).
Definition monitorSnapshot (s : Session) : list bytes := iter (map_to_list (monitor s)).*2.

(* ------------------------------------------------------------------ *)
(** ** Registry *)

Definition Registry_Get (srv : Server) (n : bytes) : option nat := sessions srv !! ToLower n.
Definition Registry_All (srv : Server) : list nat := iter (map_to_list (sessions srv)).*2.
Definition Registry_Count (srv : Server) : Z := Z.of_nat (size (sessions srv)).

(** Whether the nickname was free. *)
Definition Registry_Add (i : nat) : M bool :=
  srv ← get;
  let key := ToLower (nick (obj srv i)) in
  match sessions srv !! key with
  | Some _ => mret false
  | None => _ ← modify (fun srv => with_sessions srv (<[key := i]> (sessions srv))); mret true
  end.

Definition Registry_Remove (n : bytes) : M unit :=
  modify (fun srv => with_sessions srv (delete (ToLower n) (sessions srv))).

(** Whether the session was renamed. *)
Definition Registry_Rename (oldNick newNick : bytes) : M bool :=
  srv ← get;
  let oldKey := ToLower oldNick in
  let newKey := ToLower newNick in
  if seqb oldKey newKey then mret true
  else match sessions srv !! oldKey with
       | None => mret false
       | Some s =>
           match sessions srv !! newKey with
           | Some _ => mret false
           | None =>
               _ ← modify (fun srv => with_sessions srv (<[newKey := s]> (delete oldKey (sessions srv))));
               mret true
           end
       end.

(* ------------------------------------------------------------------ *)
(** ** Channels *)

Definition newChannel (name : bytes) : Channel :=
  {| cname := name; topic := []; topicSetBy := []; topicSetAt := zero_time; cmodes := ModeSet_New;
     createdAt := now; members := ∅; chistory := [] |}.

Definition AddMember (n : bytes) (i : nat) (prefix : bytes) (ch : Channel) : Channel :=
  set_members (<[ToLower n := {| mid := i; mprefix := prefix |}]> (members ch)) ch.

(** The channel without the member; the caller asks whether it is now empty. *)
Definition RemoveMember (n : bytes) (ch : Channel) : Channel :=
  set_members (delete (ToLower n) (members ch)) ch.
Definition is_empty (ch : Channel) : bool := (Z.of_nat (size (members ch)) =? 0).

Definition GetMembership (ch : Channel) (n : bytes) : option Membership := members ch !! ToLower n.
Definition HasMember (ch : Channel) (n : bytes) : bool := bool_decide (is_Some (members ch !! ToLower n)).
Definition Members (ch : Channel) : list Membership := iter (map_to_list (members ch)).*2.

(** The prefix letters in their order of rank, by mode letter. *)
Definition prefix_modes : list (Z * byte) :=
  [(rune "q"%byte, "~"%byte); (rune "a"%byte, "&"%byte); (rune "o"%byte, "@"%byte);
   (rune "h"%byte, "%"%byte); (rune "v"%byte, "+"%byte)].
Definition prefix_of_mode (m : Z) : option byte :=
  snd <$> List.find (fun mp => m =? mp.1) prefix_modes.
Definition ordered_prefix (current : bytes) : bytes := filterb (in_set current) (str "~&@%+").

(** The changed channel, when the change has an effect. *)
Definition applyMembershipMode (ch : Channel) (change : ModeChange) : option Channel :=
  match prefix_of_mode (Mode change) with
  | None => None
  | Some prefix =>
      if seqb (Arg change) [] then None
      else match members ch !! ToLower (Arg change) with
           | None => None
           | Some membership =>
               let current := ReplaceByte (mprefix membership) prefix [] in
               let current := if Add change then current ++ [prefix] else current in
               let ordered := ordered_prefix current in
               if seqb (mprefix membership) ordered then None
               else Some (set_members (<[ToLower (Arg change) := {| mid := mid membership; mprefix := ordered |}]> (members ch)) ch)
           end
  end.

Definition NamesReply (srv : Server) (multiPrefix : bool) (ch : Channel) : list bytes :=
  map (fun m => (if negb multiPrefix && (blen (mprefix m) >? 1) then take 1 (mprefix m) else mprefix m)
                ++ nick (obj srv (mid m))) (Members ch).

Definition Channels_Get (srv : Server) (name : bytes) : option Channel := channels srv !! ToLower name.
Definition Channels_All (srv : Server) : list (bytes * Channel) := iter (map_to_list (channels srv)).
Definition Channels_Count (srv : Server) : Z := Z.of_nat (size (channels srv)).
Definition Channels_GetOrCreate (name : bytes) : M Channel :=
  srv ← get;
  match Channels_Get srv name with
  | Some ch => mret ch
  | None =>
      let ch := newChannel name in
      _ ← modify (fun srv => with_channels srv (<[ToLower name := ch]> (channels srv))); mret ch
  end.
Definition Channels_Remove (name : bytes) : M unit :=
  modify (fun srv => with_channels srv (delete (ToLower name) (channels srv))).

(** A change of the channel object that the registry holds under a key. *)
Definition modify_channel (key : bytes) (f : Channel -> Channel) : M unit :=
  modify (fun srv => with_channels srv (alter f key (channels srv))).

(** [RemoveMember], then [Remove] of the channel by a name when it became empty. *)
Definition remove_member (key n name : bytes) : M unit :=
  _ ← modify_channel key (RemoveMember n);
  srv ← get;
  match channels srv !! key with
  | Some ch => when (is_empty ch) (Channels_Remove name)
  | None => mret tt
  end.

(* ------------------------------------------------------------------ *)
(** ** Output *)

(** The capability that lets a tag through. *)
Definition tag_cap (tag : bytes) : bytes :=
  if seqb tag (str "time") then CapServerTime
  else if seqb tag (str "batch") then CapBatch
  else if seqb tag (str "account") then CapAccountTag
  else if seqb tag (str "label") then CapLabeledResponse
  else if seqb tag (str "draft/chathistory-end") then CapChatHistory
  else CapMessageTags.

Definition with_tags (m : Message) (t : Tags) : Message :=
  {| MTags := t; MPrefix := MPrefix m; Command := Command m; Params := Params m |}.

(** A tag set unless the message has it. *)
Definition add_tag (k v : bytes) (t : Tags) : Tags :=
  let m := default ∅ t in Some (match m !! k with Some _ => m | None => <[k := v]> m end).

(** The message as one session gets it: server time and account added when the
    session asked for them, tags it did not negotiate dropped. *)
Definition prepare (srv : Server) (s : Session) (msg : Message) : Message :=
  if negb (Z.of_nat (size (default ∅ (MTags msg) : tagmap)) =? 0) || capEnabled s CapServerTime || capEnabled s CapAccountTag then
    let tags := MTags msg in
    let tags := if capEnabled s CapServerTime then add_tag (str "time") (format_server_time now) tags else tags in
    let tags :=
      match MPrefix msg with
      | Some p =>
          if capEnabled s CapAccountTag && negb (seqb (User p) []) then
            match Registry_Get srv (Nick p) with
            | Some j =>
                let a := account (obj srv j) in
                if negb (seqb a []) then add_tag (str "account") a tags else tags
            | None => tags
            end
          else tags
      | None => tags
      end in
    with_tags msg (filter (fun kv => capEnabled s (tag_cap kv.1) = true) <$> tags)
  else msg.

(** [Send]; with [immediate], [sendImmediate]. *)
Definition Send_ (immediate : bool) (i : nat) (msg : Message) : M unit :=
  srv ← get;
  let s := obj srv i in
  if seqb (Command msg) (str "TAGMSG") && negb (capEnabled s CapMessageTags) then mret tt
  else
    let out := prepare srv s msg in
    match response srv !! i with
    | Some r =>
        let r := if immediate
                 then {| rlabel := rlabel r; rmessages := rmessages r; rimmediate := rimmediate r ++ [out] |}
                 else {| rlabel := rlabel r; rmessages := rmessages r ++ [out]; rimmediate := rimmediate r |} in
        modify (fun srv => with_response srv (<[i := r]> (response srv)))
    | None => modify (fun srv => with_sent srv (sent srv ++ [(i, out)]))
    end.
Definition Send := Send_ false.
Definition sendImmediate := Send_ true.

Definition message (p : option Prefix) (cmd : bytes) (params : list bytes) : Message :=
  {| MTags := None; MPrefix := p; Command := cmd; Params := params |}.
Definition server_prefix : option Prefix := Some {| Nick := Name; User := []; Host := [] |}.

Definition Sendf (i : nat) (cmd : bytes) (params : list bytes) : M unit := Send i (message None cmd params).

(** The nickname replies are addressed to. *)
Definition reply_nick (s : Session) : bytes := if seqb (nick s) [] then str "*" else nick s.

Definition SendNumeric (i : nat) (n : Z) (params : list bytes) : M unit :=
  s ← the i;
  Send i (message server_prefix (numeric_string n) (reply_nick s :: params)).

Definition Channel_Broadcast (ch : Channel) (msg : Message) (exclude : option nat) : M unit :=
  forM_ (Members ch) (fun m => if bool_decide (Some (mid m) = exclude) then mret tt else Send (mid m) msg).

Definition Server_Broadcast (msg : Message) : M unit :=
  srv ← get; forM_ (Registry_All srv) (fun i => Send i msg).

(** ** Labelled responses *)

Definition responseMessage (s : Session) (msg : Message) : Message :=
  if capEnabled s CapServerTime
  then with_tags msg (Some (<[str "time" := format_server_time now]> (default ∅ (MTags msg))))
  else msg.

Definition tag_message (k v : bytes) (m : Message) : Message :=
  with_tags m (Some (<[k := v]> (default ∅ (MTags m)))).

Definition beginResponse (i : nat) (label : bytes) : M unit :=
  modify (fun srv => with_response srv (<[i := {| rlabel := label; rmessages := []; rimmediate := [] |}]> (response srv))).

Definition response_lines (s : Session) (r : responseState) : list Message :=
  let labelled m := with_tags m (Some {[str "label" := rlabel r]}) in
  match rmessages r with
  | [] => rimmediate r ++ [responseMessage s (labelled (message server_prefix (str "ACK") []))]
  | [m] => rimmediate r ++ [tag_message (str "label") (rlabel r) m]
  | m :: rest =>
      if seqb (Command m) (str "BATCH") && HasPrefix (Param m 0) (str "+")
      then rimmediate r ++ tag_message (str "label") (rlabel r) m :: rest
      else
        rimmediate r ++
        responseMessage s (labelled (message server_prefix (str "BATCH") [str "+" ++ batch_rnd; str "labeled-response"])) ::
        map (tag_message (str "batch") batch_rnd) (m :: rest) ++
        [responseMessage s (message server_prefix (str "BATCH") [str "-" ++ batch_rnd])]
  end.

Definition finishResponse (i : nat) : M (list Message) :=
  srv ← get;
  match response srv !! i with
  | Some r =>
      _ ← modify (fun srv => with_response srv (delete i (response srv)));
      mret (response_lines (obj srv i) r)
  | None => mret []
  end.

Definition sendPrepared (i : nat) (msgs : list Message) : M unit :=
  modify (fun srv => with_sent srv (sent srv ++ map (pair i) msgs)).

(** ** Monitors *)

Definition sendMonitorList (i : nat) (n : Z) (values : list bytes) : M unit :=
  forM_ (groups 350 values) (fun g => SendNumeric i n [Join g (str ",")]).

Definition notifyMonitorOnline (target : nat) : M unit :=
  srv ← get;
  forM_ (Registry_All srv) (fun w =>
    srv ← get;
    when (negb (bool_decide (w = target)) && isMonitoring (obj srv w) (nick (obj srv target)))
      (sendMonitorList w RPL_MONONLINE [mask (obj srv target)])).

Definition notifyMonitorOffline (n : bytes) : M unit :=
  srv ← get;
  forM_ (Registry_All srv) (fun w =>
    srv ← get;
    when (isMonitoring (obj srv w) n) (sendMonitorList w RPL_MONOFFLINE [n])).

Definition extendedMonitorPeers (srv : Server) (target : nat) (capability : bytes) : list nat :=
  filterb (fun w => negb (bool_decide (w = target)) && capEnabled (obj srv w) CapExtendedMonitor
                    && capEnabled (obj srv w) capability && isMonitoring (obj srv w) (nick (obj srv target)))
          (Registry_All srv).
End Operations.
