(* ===== verification/IrcHandlers.v ===== *)
(** * irc/server/handlers.go: the commands of the IRC server

    One definition per handler, each a program in the monad of IrcServer.v over the
    number of the session that sent the command; [dispatch], [dispatchCommand],
    [handle_line] and [removeSession] put them together.  Handlers run one at a time
    (in the program most run under a shared lock and could interleave). *)

From S2P Require Import Prelude GoStrings GoSort GoTime GoEncoding IrcMessage ChatHistory IrcMode IrcNames IrcConst IrcServer.

Section Handlers.
Context {HU : GoUnicode} {HI : IterOrder} {cfg : Config} {env : Env} {HB : Bcrypt}.

Definition is_channel_target (t : bytes) : bool := HasPrefix t (str "#") || HasPrefix t (str "&").
Definition is_chanop (prefix : bytes) : bool := ContainsAny prefix (str "@&~").

(** [msg.Params[i]] after a length check. *)
Definition param (msg : Message) (i : nat) : bytes := nth i (Params msg) [].

(* ------------------------------------------------------------------ *)
(** ** Server information *)

Definition sendMOTD (i : nat) : M unit :=
  if seqb MOTD [] then SendNumeric i ERR_NOMOTD [str "MOTD File is missing"]
  else
    _ ← SendNumeric i RPL_MOTDSTART [str "- " ++ Name ++ str " Message of the Day -"];
    _ ← forM_ (Split MOTD Byte.x0a) (fun line => SendNumeric i RPL_MOTD [str "- " ++ line]);
    SendNumeric i RPL_ENDOFMOTD [str "End of /MOTD command."].

Definition sendLusers (i : nat) : M unit :=
  srv ← get;
  let total := Registry_Count srv in
  let chans := Channels_Count srv in
  _ ← SendNumeric i RPL_LUSERCLIENT [str "There are " ++ Itoa total ++ str " users on 1 server"];
  _ ← SendNumeric i RPL_LUSERCHANNELS [Itoa chans; str "channels formed"];
  SendNumeric i RPL_LUSERME [str "I have " ++ Itoa total ++ str " clients and 0 servers"].

Definition isupport : list bytes :=
  [ str "NETWORK=" ++ Network; str "CASEMAPPING=ascii"; str "CHANMODES=beIq,k,l,imnpstrcCzGSNufjQKLPOARTF";
    str "CHANTYPES=#&"; str "PREFIX=(qaohv)~&@%+"; str "STATUSMSG=@+"; str "MODES=4"; str "MAXCHANNELS=25";
    str "MAXNICKLEN=30"; str "MAXBANS=100"; str "TOPICLEN=390"; str "KICKLEN=255"; str "AWAYLEN=307";
    str "CHANNELLEN=64"; str "EXTBAN=$,ajoqrz"; str "WHOX"; str "WALLCHOPS"; str "ELIST=MNUCT"; str "INVEX";
    str "EXCEPTS"; str "CALLERID"; str "MONITOR=100"; str "CHATHISTORY=50"; str "MSGREFTYPES=timestamp,msgid" ].

(** The tokens in lines of 13. *)
Fixpoint isupport_batches (fuel : nat) (tokens : list bytes) : list (list bytes) :=
  match fuel, tokens with
  | S fuel', _ :: _ =>
      let batch := if blen tokens >? 13 then take 13 tokens else tokens in
      batch :: isupport_batches fuel' (drop (length batch) tokens)
  | _, _ => []
  end.

(* ------------------------------------------------------------------ *)
(** ** Registration *)

Definition tryRegister (i : nat) : M unit :=
  s ← the i;
  if bool_decide (state s = StateRegistered) then mret tt
  else if bool_decide (state s = StateCapNeg) then mret tt
  else if seqb (nick s) [] || seqb (user s) [] then mret tt
  else
    added ← Registry_Add i;
    if negb added then
      _ ← SendNumeric i ERR_NICKNAMEINUSE [nick s; str "Nickname is already in use"];
      update i (set_nick [])
    else
      _ ← update i (set_state StateRegistered);
      _ ← notifyMonitorOnline i;
      _ ← SendNumeric i RPL_WELCOME [str "Welcome to the " ++ Network ++ str " IRC Network " ++ mask s];
      _ ← SendNumeric i RPL_YOURHOST [str "Your host is " ++ Name ++ str ", running go-irc"];
      _ ← SendNumeric i RPL_CREATED [str "This server was created just now"];
      _ ← SendNumeric i RPL_MYINFO [Name; str "go-irc-1.0"; str "iowzBGHRSXZaegimnpstv"; str "beIqaohvIMRScOAQKFLPTuGzjf"];
      _ ← forM_ (isupport_batches (length isupport) isupport)
            (fun batch => SendNumeric i RPL_ISUPPORT (batch ++ [str "are supported by this server"]));
      _ ← sendLusers i;
      sendMOTD i.

Definition handlePass (i : nat) (msg : Message) : M unit :=
  s ← the i;
  if bool_decide (state s = StateRegistered)
  then SendNumeric i ERR_ALREADYREGISTRED [str "You may not reregister"]
  else mret tt.

Definition handleNick (i : nat) (msg : Message) : M unit :=
  match Params msg with
  | [] => SendNumeric i ERR_NONICKNAMEGIVEN [str "No nickname given"]
  | n :: _ =>
      if negb (isValidNick n) then SendNumeric i ERR_ERRONEUSNICKNAME [n; str "Erroneous Nickname"]
      else
        srv ← get;
        if bool_decide (is_Some (Registry_Get srv n)) && negb (EqualFold n (nick (obj srv i)))
        then SendNumeric i ERR_NICKNAMEINUSE [n; str "Nickname is already in use"]
        else
          _ ← update i (set_nick n);
          tryRegister i
  end.

(** The nickname change of a registered session, with its announcements. *)
Definition handleNickRegistered (i : nat) (msg : Message) : M unit :=
  match Params msg with
  | [] => SendNumeric i ERR_NONICKNAMEGIVEN [str "No nickname given"]
  | newNick :: _ =>
      if negb (isValidNick newNick) then SendNumeric i ERR_ERRONEUSNICKNAME [newNick; str "Erroneous Nickname"]
      else
        srv ← get;
        let s := obj srv i in
        let oldNick := nick s in
        if bool_decide (is_Some (Registry_Get srv newNick)) && negb (EqualFold newNick oldNick)
        then SendNumeric i ERR_NICKNAMEINUSE [newNick; str "Nickname is already in use"]
        else
          renamed ← Registry_Rename oldNick newNick;
          if negb renamed then SendNumeric i ERR_NICKNAMEINUSE [newNick; str "Nickname is already in use"]
          else
            _ ← update i (set_nick newNick);
            _ ← when (negb (EqualFold oldNick newNick))
                  (_ ← notifyMonitorOffline oldNick; notifyMonitorOnline i);
            let nickMsg := with_tags (message (Some (Prefix_of s)) (str "NICK") [newNick])
                             (if seqb (account s) [] then None else Some {[str "account" := account s]}) in
            _ ← Send i nickMsg;
            srv ← get;
            _ ← foldM (fun (notified : gset bytes) kc =>
                  let '(key, _) := kc in
                  srv ← get;
                  match channels srv !! key with
                  | None => mret notified
                  | Some ch =>
                      if negb (HasMember ch oldNick) && negb (HasMember ch newNick) then mret notified
                      else
                        _ ← modify_channel key (fun ch =>
                              match members ch !! ToLower oldNick with
                              | Some m => set_members (<[ToLower newNick := m]> (delete (ToLower oldNick) (members ch))) ch
                              | None => ch
                              end);
                        srv ← get;
                        foldM (fun (notified : gset bytes) m =>
                          srv ← get;
                          let k := ToLower (nick (obj srv (mid m))) in
                          if bool_decide (k ∈ notified) then mret notified
                          else _ ← Send (mid m) nickMsg; mret ({[k]} ∪ notified))
                          notified (default [] (Members <$> channels srv !! key))
                  end) {[ToLower oldNick]} (Channels_All srv);
            mret tt
  end.

Definition handleUser (i : nat) (msg : Message) : M unit :=
  s ← the i;
  if bool_decide (state s = StateRegistered) then SendNumeric i ERR_ALREADYREGISTRED [str "You may not reregister"]
  else if blen (Params msg) <? 4 then SendNumeric i ERR_NEEDMOREPARAMS [str "USER"; str "Not enough parameters"]
  else
    _ ← update i (set_user (cleanUsername (param msg 0)));
    _ ← update i (set_realname (param msg 3));
    tryRegister i.

(* ------------------------------------------------------------------ *)
(** ** Capabilities *)

Definition slicesContainsFold (values : list bytes) (value : bytes) : bool := existsb (fun c => EqualFold c value) values.

(** The capabilities offered to a session, with their values. *)
Definition supportedCaps (s : Session) : gmap bytes bytes :=
  let base : gmap bytes bytes := list_to_map (map (fun c => (c, []))
    [ CapServerTime; CapMessageTags; CapBatch; CapChatHistory; CapEchoMessage; CapMultiPrefix; CapAwayNotify;
      CapExtendedJoin; CapSetname; CapCapNotify; CapInviteNotify; CapUserHostInNames; CapNoImplicitNames;
      CapStandardReplies; CapAccountTag; CapAccountNotify; CapChghost; CapExtendedMonitor; CapLabeledResponse ]) in
  let c := if secure s && negb (Z.of_nat (size accounts) =? 0) then <[CapSASL := str "PLAIN"]> base else base in
  match STS with
  | Some sts =>
      if capVersion s >=? 302 then
        if negb (secure s) then <[CapSTS := str "port=" ++ Itoa (STSPort sts)]> c
        else if slicesContainsFold (STSHostnames sts) (serverName s) then
          <[CapSTS := str "duration=" ++ Itoa (Z.quot (STSDuration sts) 1000000000) ++
              (if STSPreload sts then str ",preload" else [])]> c
        else c
      else c
  | None => c
  end.

Definition sendCAP (i : nat) (subCmd value : bytes) : M unit :=
  s ← the i;
  Send i (message server_prefix (str "CAP") [reply_nick s; subCmd; value]).

(** Every line but the last is marked as continued. *)
Fixpoint send_cap_lines (i : nat) (subCmd : bytes) (lines : list (list bytes)) : M unit :=
  match lines with
  | [] => mret tt
  | [g] => sendCAP i subCmd (Join g (str " "))
  | g :: rest =>
      s ← the i;
      _ ← Send i (message server_prefix (str "CAP") [reply_nick s; subCmd; str "*"; Join g (str " ")]);
      send_cap_lines i subCmd rest
  end.
Definition sendCAPList (i : nat) (subCmd : bytes) (cs : list bytes) : M unit :=
  match cs with
  | [] => sendCAP i subCmd []
  | _ => send_cap_lines i subCmd (groups 400 cs)
  end.

Definition saslFailure (i : nat) (numeric : Z) (text : bytes) : M unit :=
  _ ← update i (fun s => set_saslBuffer [] (set_saslActive false s));
  SendNumeric i numeric [text].

(** One token of CAP REQ applied to the set of enabled capabilities. *)
Definition request_cap (version : Z) (enabled : gset bytes) (c : bytes) : gset bytes :=
  let disable := HasPrefix c (str "-") in
  let capName := TrimPrefix c (str "-") in
  if disable && (negb (seqb capName CapCapNotify) || (version <? 302)) then enabled ∖ {[capName]}
  else if negb disable then {[capName]} ∪ enabled
  else enabled.

Definition enter_negotiation (i : nat) : M unit :=
  update i (fun s => if bool_decide (state s = StateRegistered) then s else set_state StateCapNeg s).

Definition handleCAP (i : nat) (msg : Message) : M unit :=
  match Params msg with
  | [] => SendNumeric i ERR_INVALIDCAPCMD [str "*"; str "Invalid CAP command"]
  | sub :: args =>
      let subCmd := ToUpper sub in
      let subArg := nth 0 args [] in
      s ← the i;
      let supported := supportedCaps s in
      if seqb subCmd CapLS then
        _ ← enter_negotiation i;
        _ ← (match Atoi subArg with
             | (version, None) =>
                 when (version >=? 302)
                   (update i (fun s => set_caps ({[CapCapNotify]} ∪ caps s) (set_capVersion version s)))
             | _ => mret tt
             end);
        s ← the i;
        let parts := map (fun '(k, v) => if (capVersion s >=? 302) && negb (seqb v []) then k ++ str "=" ++ v else k)
                         (iter (map_to_list (supportedCaps s))) in
        sendCAPList i CapLS (sort_strings parts)
      else if seqb subCmd CapLIST then
        sendCAPList i CapLIST (sort_strings (iter (elements (caps s))))
      else if seqb subCmd CapREQ then
        _ ← enter_negotiation i;
        let req := TrimPrefix subArg (str ":") in
        if existsb (fun c => let capName := TrimPrefix c (str "-") in
                      bool_decide (supported !! capName = None) || seqb capName CapSTS) (Fields req)
        then sendCAP i CapNAK req
        else
          _ ← update i (fun s => set_caps (fold_left (request_cap (capVersion s)) (Fields req) (caps s)) s);
          sendCAP i CapACK req
      else if seqb subCmd CapEND then
        _ ← when (saslActive s) (saslFailure i ERR_SASLABORTED (str "SASL authentication aborted"));
        _ ← update i (fun s => if bool_decide (state s = StateCapNeg) then set_state StatePreReg s else s);
        tryRegister i
      else SendNumeric i ERR_INVALIDCAPCMD [subCmd; str "Invalid CAP command"]
  end.
(* ------------------------------------------------------------------ *)
(** ** SASL *)

Definition maxSASLPayload : Z := 4096.
Definition checkPassword (hash password : bytes) : bool := bcryptCheck hash password.

(** Sends a message to the sessions of a list that are not yet notified, and returns
    the sessions notified so far. *)
Definition notify_new (msg : Message) (p : Session -> bool) (notified : gset nat) (l : list nat) : M (gset nat) :=
  foldM (fun (notified : gset nat) j =>
    s ← the j;
    if negb (bool_decide (j ∈ notified)) && p s then _ ← Send j msg; mret ({[j]} ∪ notified)
    else mret notified) notified l.

(** The members of the channels a session is in, channel by channel. *)
Definition channel_peers (srv : Server) (n : bytes) : list nat :=
  flat_map (fun '(_, ch) => if HasMember ch n then map mid (Members ch) else []) (Channels_All srv).

Definition notifyAccount (i : nat) (prefix : Prefix) : M unit :=
  srv ← get;
  let s := obj srv i in
  let msg := message (Some prefix) (str "ACCOUNT") [account s] in
  notified ← (if capEnabled s CapAccountNotify then _ ← Send i msg; mret {[i]} else mret ∅);
  notified ← notify_new msg (fun p => capEnabled p CapAccountNotify) notified (channel_peers srv (nick s));
  _ ← notify_new msg (fun _ => true) notified (extendedMonitorPeers srv i CapAccountNotify);
  mret tt.

(** The channels of a session that another session is in too, by that session. *)
Definition shared_channels (srv : Server) (i : nat) : gmap nat (list Channel) :=
  fold_left (fun acc '(_, ch) =>
    if HasMember ch (nick (obj srv i)) then
      fold_left (fun acc m => if bool_decide (mid m = i) then acc
                              else <[mid m := default [] (acc !! mid m) ++ [ch]]> acc) (Members ch) acc
    else acc) (Channels_All srv) ∅.

(** What a peer without chghost sees instead: the session leaves and comes back. *)
Definition rejoin (i peer : nat) (oldPrefix : Prefix) (chs : list Channel) : M unit :=
  srv ← get;
  let s := obj srv i in
  _ ← Send peer (message (Some oldPrefix) (str "QUIT") [str "Changing hostname"]);
  forM_ chs (fun ch =>
    p ← the peer;
    _ ← Send peer (message (Some (Prefix_of s)) (str "JOIN")
          (cname ch :: if capEnabled p CapExtendedJoin then [account s; realname s] else []));
    match GetMembership ch (nick s) with
    | Some membership =>
        forM_ (zip (str "~&@%+") (str "qaohv")) (fun '(prefix, letter) =>
          when (in_set (mprefix membership) prefix)
            (Send peer (message server_prefix (str "MODE") [cname ch; [ "+"%byte; letter ]; nick s])))
    | None => mret tt
    end).

Definition notifyHostChange (i : nat) (oldPrefix : Prefix) : M unit :=
  srv ← get;
  let s := obj srv i in
  let msg := message (Some oldPrefix) (str "CHGHOST") [user s; host s] in
  notified ← (if capEnabled s CapChghost then _ ← Send i msg; mret {[i]} else mret ∅);
  notified ← foldM (fun (notified : gset nat) '(peer, chs) =>
      if capEnabled (obj srv peer) CapChghost then notify_new msg (fun _ => true) notified [peer]
      else _ ← rejoin i peer oldPrefix chs; mret notified)
    notified (iter (map_to_list (shared_channels srv i)));
  _ ← notify_new msg (fun _ => true) notified (extendedMonitorPeers srv i CapChghost);
  mret tt.

Definition saslFail (i : nat) : M unit := SendNumeric i ERR_SASLFAIL [str "SASL authentication failed"].

(** The account a PLAIN payload proves, if it does. *)
Definition plain_account (payload : bytes) : option Account :=
  match Split payload Byte.x00 with
  | [authz; authc; pass] =>
      if seqb authc [] || seqb pass [] || (negb (seqb authz []) && negb (EqualFold authz authc)) then None
      else
        let found := accounts !! ToLower authc in
        let hash := match found with Some a => PasswordHash a | None => dummyPasswordHash end in
        if checkPassword hash pass then found else None
  | _ => None
  end.

Definition login (i : nat) (a : Account) : M unit :=
  s ← the i;
  _ ← update i (set_account (AName a));
  let registered := bool_decide (state s = StateRegistered) in
  _ ← when registered (notifyAccount i (Prefix_of s));
  _ ← when (negb (seqb (AHost a) []) && negb (seqb (AHost a) (host s)))
        (s ← the i;
         _ ← update i (set_host (AHost a));
         when registered (notifyHostChange i (Prefix_of s)));
  s ← the i;
  _ ← SendNumeric i RPL_LOGGEDIN [mask s; account s; str "You are now logged in as " ++ account s];
  SendNumeric i RPL_SASLSUCCESS [str "SASL authentication successful"].

Definition handleAuthenticate (i : nat) (msg : Message) : M unit :=
  s ← the i;
  match Params msg with
  | [] => saslFailure i ERR_SASLFAIL (str "SASL authentication failed")
  | chunk :: _ =>
      if negb (capEnabled s CapSASL) then saslFailure i ERR_SASLFAIL (str "SASL authentication failed")
      else if negb (saslActive s) then
        if negb (seqb (account s) [])
        then SendNumeric i ERR_SASLALREADY [str "You have already authenticated using SASL"]
        else if negb (EqualFold chunk (str "PLAIN")) then
          _ ← SendNumeric i RPL_SASLMECHS [str "PLAIN"; str "are available SASL mechanisms"];
          saslFailure i ERR_SASLFAIL (str "SASL authentication failed")
        else
          _ ← update i (fun s => set_saslBuffer [] (set_saslActive true s));
          Sendf i (str "AUTHENTICATE") [str "+"]
      else if seqb chunk (str "*") then saslFailure i ERR_SASLABORTED (str "SASL authentication aborted")
      else if (blen chunk >? 400) || (blen (saslBuffer s) + blen chunk >? maxSASLPayload)
      then saslFailure i ERR_SASLTOOLONG (str "SASL message too long")
      else
        let buffer := if seqb chunk (str "+") then saslBuffer s else saslBuffer s ++ chunk in
        if blen chunk =? 400 then update i (set_saslBuffer buffer)
        else
          _ ← update i (fun s => set_saslBuffer [] (set_saslActive false s));
          match b64_decode buffer with
          | None => saslFail i
          | Some payload =>
              match plain_account payload with
              | None => saslFail i
              | Some a => login i a
              end
          end
  end.

(* ------------------------------------------------------------------ *)
(** ** Messaging *)

(** The tags of a relayed message: id, time and account, and the client-only tags of
    the original. *)
Definition relay_tags (s : Session) (relay : bool) (msg : Message) : Tags :=
  let tags : tagmap := <[str "time" := format_server_time now]> {[str "msgid" := rnd]} in
  let tags := if seqb (account s) [] then tags else <[str "account" := account s]> tags in
  Some (if relay then filter (fun kv => HasPrefix kv.1 (str "+") = true) (default ∅ (MTags msg)) ∪ tags else tags).

(** Why a session may not send to a channel. *)
Definition send_refused (ch : Channel) (s : Session) : option bytes :=
  if negb (HasMember ch (nick s)) && Has (cmodes ch) (rune "n"%byte) then Some (str "Cannot send to channel")
  else if Has (cmodes ch) (rune "m"%byte) then
    match GetMembership ch (nick s) with
    | Some m => if seqb (mprefix m) [] then Some (str "Cannot send to channel (+m)") else None
    | None => Some (str "Cannot send to channel (+m)")
    end
  else None.

Definition no_such_nick (i : nat) (target : bytes) : M unit :=
  SendNumeric i ERR_NOSUCHNICK [target; str "No such nick/channel"].

Definition handlePrivmsg (i : nat) (msg : Message) (notice : bool) : M unit :=
  match Params msg with
  | target :: text :: _ =>
      srv ← get;
      let s := obj srv i in
      let outMsg := {| MTags := relay_tags s (capEnabled s CapMessageTags) msg; MPrefix := Some (Prefix_of s);
                       Command := if notice then str "NOTICE" else str "PRIVMSG"; Params := [target; text] |} in
      let entry := {| htime := now; hmsg := outMsg |} in
      if is_channel_target target then
        match Channels_Get srv target with
        | None => no_such_nick i target
        | Some ch =>
            match send_refused ch s with
            | Some why => SendNumeric i ERR_CANNOTSENDTOCHAN [target; why]
            | None =>
                _ ← modify_channel (ToLower target) (fun ch => set_chistory (append_history (chistory ch) entry) ch);
                _ ← Channel_Broadcast ch outMsg (Some i);
                when (capEnabled s CapEchoMessage) (Send i outMsg)
            end
        end
      else
        match Registry_Get srv target with
        | None => no_such_nick i target
        | Some dest =>
            let d := obj srv dest in
            _ ← Session_appendHistory i (nick d) entry;
            _ ← Session_appendHistory dest (nick s) entry;
            _ ← (if bool_decide (dest = i) then sendImmediate i outMsg else Send dest outMsg);
            _ ← when (capEnabled s CapEchoMessage) (Send i outMsg);
            when (negb (seqb (away d) []) && negb notice) (SendNumeric i RPL_AWAY [target; away d])
        end
  | _ => SendNumeric i ERR_NEEDMOREPARAMS [Command msg; str "Not enough parameters"]
  end.

Definition handleTagmsg (i : nat) (msg : Message) : M unit :=
  let target := param msg 0 in
  if seqb target [] then SendNumeric i ERR_NORECIPIENT [str "No recipient given (TAGMSG)"]
  else
    srv ← get;
    let s := obj srv i in
    if negb (capEnabled s CapMessageTags) then mret tt
    else
      let outMsg := {| MTags := relay_tags s true msg; MPrefix := Some (Prefix_of s);
                       Command := str "TAGMSG"; Params := [target] |} in
      if is_channel_target target then
        match Channels_Get srv target with
        | None => no_such_nick i target
        | Some ch =>
            match send_refused ch s with
            | Some why => SendNumeric i ERR_CANNOTSENDTOCHAN [target; why]
            | None =>
                _ ← Channel_Broadcast ch outMsg (Some i);
                when (capEnabled s CapEchoMessage) (Send i outMsg)
            end
        end
      else
        match Registry_Get srv target with
        | None => no_such_nick i target
        | Some dest =>
            _ ← (if bool_decide (dest = i) then sendImmediate i outMsg else Send dest outMsg);
            when (capEnabled s CapEchoMessage) (Send i outMsg)
        end.
(* ------------------------------------------------------------------ *)
(** ** Chat history *)

Definition sendChatHistoryFail (i : nat) (code subcommand text : bytes) : M unit :=
  Send i (message server_prefix (str "FAIL") [str "CHATHISTORY"; code; subcommand; text]).

Definition sendHistoryBatch (i : nat) (batchType target : bytes) (entries : list ChatHistoryEntry) (complete : bool) : M unit :=
  s ← the i;
  let batched := capEnabled s CapBatch in
  _ ← when batched
        (Send i (with_tags (message server_prefix (str "BATCH")
                   ([str "+" ++ rnd; batchType] ++ (if seqb target [] then [] else [target])))
                 (Some (if complete then {[str "draft/chathistory-end" := []]} else ∅))));
  _ ← forM_ entries (fun e => Send i (if batched && negb (seqb rnd []) then tag_message (str "batch") rnd (EMsg e) else EMsg e));
  when (batched && negb (seqb rnd [])) (Send i (message server_prefix (str "BATCH") [str "-" ++ rnd])).

Definition newer_first (a b : ChatHistoryEntry) : Prop := ETime b <= ETime a.
#[local] Instance newer_first_dec : RelDecision newer_first.
Proof. intros a b. unfold newer_first. apply _. Defined.

(** The timestamp of a TARGETS parameter. *)
Definition targets_time (p : bytes) : option Time :=
  match parse_server_time (TrimPrefix p (str "timestamp=")) with
  | Some t => if HasPrefix p (str "timestamp=") then Some t else None
  | None => None
  end.

(** The entry of a conversation in the list of targets, when its last message is
    inside the window. *)
Definition target_entry (first second : Time) (name : bytes) (h : list historyEntry) : list ChatHistoryEntry :=
  match last h with
  | Some e =>
      if time_after (htime e) first && time_before (htime e) second
      then [ {| ETime := htime e;
                EMsg := message None (str "CHATHISTORY") [str "TARGETS"; name; format_server_time (htime e)] |} ]
      else []
  | None => []
  end.

Definition handleChatHistoryTargets (i : nat) (msg : Message) : M unit :=
  if negb (blen (Params msg) =? 4)
  then sendChatHistoryFail i (str "INVALID_PARAMS") (Param msg 0) (str "Invalid parameters")
  else
    match targets_time (param msg 1), targets_time (param msg 2), Atoi (param msg 3) with
    | None, _, _ | _, None, _ => sendChatHistoryFail i (str "INVALID_PARAMS") (param msg 0) (str "Invalid timestamp")
    | Some first, Some second, (limit, err) =>
        if bool_decide (is_Some err) || (limit <=? 0)
        then sendChatHistoryFail i (str "INVALID_PARAMS") (param msg 0) (str "Invalid limit")
        else
          srv ← get;
          let s := obj srv i in
          let '(first, second) := if time_after first second then (second, first) else (first, second) in
          let targets :=
            flat_map (fun '(_, ch) => if HasMember ch (nick s) then target_entry first second (cname ch) (chistory ch) else [])
                     (Channels_All srv) ++
            flat_map (fun '(t, h) => target_entry first second t h) (iter (map_to_list (shistory s))) in
          let targets := merge_sort newer_first targets in
          sendHistoryBatch i (str "draft/chathistory-targets") [] (take (Z.to_nat limit) targets) (blen targets <=? limit)
    end.

(** The history a session may read: of a channel it is in, or its own with a nick. *)
Definition history_of (srv : Server) (i : nat) (target : bytes) : option (bytes * list historyEntry) :=
  if is_channel_target target then
    match Channels_Get srv target with
    | Some ch => if HasMember ch (nick (obj srv i)) then Some (cname ch, chistory ch) else None
    | None => None
    end
  else Some (target, default [] (shistory (obj srv i) !! ToLower target)).

(** The branch for a panic is not taken: the number of selectors is checked first. *)
Definition handleChatHistory (i : nat) (msg : Message) : M unit :=
  srv ← get;
  let subcommand := ToUpper (Param msg 0) in
  if negb (capEnabled (obj srv i) CapChatHistory)
  then SendNumeric i ERR_UNKNOWNCOMMAND [str "CHATHISTORY"; str "Unknown command"]
  else if seqb subcommand (str "TARGETS") then handleChatHistoryTargets i msg
  else if negb (blen (Params msg) =? (if seqb subcommand (str "BETWEEN") then 5 else 4))
  then sendChatHistoryFail i (str "INVALID_PARAMS") (Param msg 0) (str "Invalid parameters")
  else
    match Atoi (default [] (last (Params msg))) with
    | (limit, err) =>
        if bool_decide (is_Some err) || (limit <=? 0)
        then sendChatHistoryFail i (str "INVALID_PARAMS") (param msg 0) (str "Invalid limit")
        else
          match history_of srv i (param msg 1) with
          | None => sendChatHistoryFail i (str "INVALID_TARGET") (param msg 0) (str "Messages could not be retrieved")
          | Some (canonicalTarget, stored) =>
              let entries := map (fun e => {| ETime := htime e; EMsg := hmsg e |}) stored in
              let selectors := take (length (Params msg) - 3) (drop 2 (Params msg)) in
              match SelectChatHistory entries subcommand selectors (Z.min limit chatHistoryLimit) with
              | Ok (entries, complete) => sendHistoryBatch i (str "chathistory") canonicalTarget entries complete
              | Err e =>
                  sendChatHistoryFail i
                    (match e with EUnsupportedReference => str "INVALID_MSGREFTYPE" | _ => str "INVALID_PARAMS" end)
                    (param msg 0) (hist_err_text e)
              | Panic => mret tt
              end
          end
    end.
(* ------------------------------------------------------------------ *)
(** ** Channel commands *)

Definition sendNames (i : nat) (ch : Channel) : M unit :=
  srv ← get;
  let s := obj srv i in
  let multiPrefix := capEnabled s CapMultiPrefix in
  let names :=
    if capEnabled s CapUserHostInNames
    then map (fun m => (if negb multiPrefix && (blen (mprefix m) >? 1) then take 1 (mprefix m) else mprefix m)
                       ++ mask (obj srv (mid m))) (Members ch)
    else NamesReply srv multiPrefix ch in
  _ ← forM_ (names_lines names) (fun line => SendNumeric i RPL_NAMREPLY [str "="; cname ch; Join line (str " ")]);
  SendNumeric i RPL_ENDOFNAMES [cname ch; str "End of /NAMES list"].

Definition send_topic (i : nat) (chanName : bytes) (ch : Channel) : M unit :=
  if seqb (topic ch) [] then SendNumeric i RPL_NOTOPIC [chanName; str "No topic is set"]
  else
    _ ← SendNumeric i RPL_TOPIC [chanName; topic ch];
    SendNumeric i RPL_TOPICWHOTIME [chanName; topicSetBy ch; Itoa (Unix (topicSetAt ch))].

(** Why a session may not join: the numeric and its text. *)
Definition join_refused (ch : Channel) (s : Session) (key : bytes) : option (Z * bytes) :=
  if match ArgOf (cmodes ch) (rune "k"%byte) with Some k => negb (seqb k key) | None => false end
  then Some (ERR_BADCHANNELKEY, str "Cannot join channel (+k)")
  else if Has (cmodes ch) (rune "i"%byte) && negb (HasMember ch (nick s))
  then Some (ERR_INVITEONLYCHAN, str "Cannot join channel (+i)")
  else if match ArgOf (cmodes ch) (rune "l"%byte) with
          | Some limit => let n := default 0 (Sscan_int limit) in (n >? 0) && (Z.of_nat (size (members ch)) >=? n)
          | None => false
          end
  then Some (ERR_CHANNELISFULL, str "Cannot join channel (+l)")
  else None.

Definition join_one (i : nat) (chanName key : bytes) : M unit :=
  if seqb chanName [] then mret tt
  else if negb (isValidChannelName chanName)
  then SendNumeric i ERR_NOSUCHCHANNEL [chanName; str "Invalid channel name"]
  else
    ch ← Channels_GetOrCreate chanName;
    s ← the i;
    match join_refused ch s key with
    | Some (numeric, why) => SendNumeric i numeric [chanName; why]
    | None =>
        if HasMember ch (nick s) then mret tt
        else
          let ch := AddMember (nick s) i (if is_empty ch then str "@" else []) ch in
          _ ← modify_channel (ToLower chanName) (fun _ => ch);
          _ ← forM_ (Members ch) (fun m =>
                p ← the (mid m);
                Send (mid m) (message (Some (Prefix_of s)) (str "JOIN")
                  (chanName :: if capEnabled p CapExtendedJoin
                               then [if seqb (account s) [] then str "*" else account s; realname s] else [])));
          _ ← send_topic i chanName ch;
          when (negb (capEnabled s CapNoImplicitNames)) (sendNames i ch)
    end.

Definition handleJoin (i : nat) (msg : Message) : M unit :=
  match Params msg with
  | [] => SendNumeric i ERR_NEEDMOREPARAMS [str "JOIN"; str "Not enough parameters"]
  | chans :: args =>
      let keys := match args with k :: _ => Split k ","%byte | [] => [] end in
      forM_ (imap (fun n c => (n, c)) (Split chans ","%byte)) (fun '(n, chanName) => join_one i chanName (nth n keys []))
  end.

Definition part_one (i : nat) (reason chanName : bytes) : M unit :=
  srv ← get;
  let s := obj srv i in
  match Channels_Get srv chanName with
  | None => SendNumeric i ERR_NOSUCHCHANNEL [chanName; str "No such channel"]
  | Some ch =>
      if negb (HasMember ch (nick s))
      then SendNumeric i ERR_NOTONCHANNEL [chanName; str "You're not on that channel"]
      else
        _ ← Channel_Broadcast ch (message (Some (Prefix_of s)) (str "PART")
              (chanName :: if seqb reason [] then [] else [reason])) None;
        remove_member (ToLower chanName) (nick s) chanName
  end.

Definition handlePart (i : nat) (msg : Message) : M unit :=
  match Params msg with
  | [] => SendNumeric i ERR_NEEDMOREPARAMS [str "PART"; str "Not enough parameters"]
  | chans :: args => forM_ (Split chans ","%byte) (part_one i (nth 0 args []))
  end.

Definition handleTopic (i : nat) (msg : Message) : M unit :=
  match Params msg with
  | [] => SendNumeric i ERR_NEEDMOREPARAMS [str "TOPIC"; str "Not enough parameters"]
  | chanName :: args =>
      srv ← get;
      let s := obj srv i in
      match Channels_Get srv chanName with
      | None => SendNumeric i ERR_NOSUCHCHANNEL [chanName; str "No such channel"]
      | Some ch =>
          if negb (HasMember ch (nick s))
          then SendNumeric i ERR_NOTONCHANNEL [chanName; str "You're not on that channel"]
          else match args with
               | [] => send_topic i chanName ch
               | newTopic :: _ =>
                   if Has (cmodes ch) (rune "t"%byte) &&
                      negb (match GetMembership ch (nick s) with Some m => is_chanop (mprefix m) | None => false end)
                   then SendNumeric i ERR_CHANOPRIVSNEEDED [chanName; str "You're not channel operator"]
                   else
                     _ ← modify_channel (ToLower chanName) (set_topic newTopic (mask s) now);
                     Channel_Broadcast ch (message (Some (Prefix_of s)) (str "TOPIC") [chanName; newTopic]) None
               end
      end
  end.

Definition handleNames (i : nat) (msg : Message) : M unit :=
  srv ← get;
  match Params msg with
  | [] => forM_ (Channels_All srv) (fun '(_, ch) => when (HasMember ch (nick (obj srv i))) (sendNames i ch))
  | chans :: _ =>
      forM_ (Split chans ","%byte) (fun c =>
        match Channels_Get srv c with Some ch => sendNames i ch | None => mret tt end)
  end.

Definition handleList (i : nat) (msg : Message) : M unit :=
  srv ← get;
  _ ← SendNumeric i RPL_LISTSTART [str "Channel"; str "Users  Name"];
  _ ← forM_ (Channels_All srv) (fun '(_, ch) =>
        if (Has (cmodes ch) (rune "s"%byte) || Has (cmodes ch) (rune "p"%byte)) && negb (HasMember ch (nick (obj srv i)))
        then mret tt
        else SendNumeric i RPL_LIST [cname ch; Itoa (Z.of_nat (size (members ch))); topic ch]);
  SendNumeric i RPL_LISTEND [str "End of /LIST"].

Definition handleKick (i : nat) (msg : Message) : M unit :=
  match Params msg with
  | chanName :: target :: args =>
      srv ← get;
      let s := obj srv i in
      let reason := match args with r :: _ => r | [] => nick s end in
      match Channels_Get srv chanName with
      | None => SendNumeric i ERR_NOSUCHCHANNEL [chanName; str "No such channel"]
      | Some ch =>
          match GetMembership ch (nick s) with
          | None => SendNumeric i ERR_NOTONCHANNEL [chanName; str "You're not on that channel"]
          | Some m =>
              if negb (is_chanop (mprefix m))
              then SendNumeric i ERR_CHANOPRIVSNEEDED [chanName; str "You're not channel operator"]
              else if negb (HasMember ch target)
              then SendNumeric i ERR_USERNOTINCHANNEL [target; chanName; str "They aren't on that channel"]
              else
                _ ← Channel_Broadcast ch (message (Some (Prefix_of s)) (str "KICK") [chanName; target; reason]) None;
                remove_member (ToLower chanName) target chanName
          end
      end
  | _ => SendNumeric i ERR_NEEDMOREPARAMS [str "KICK"; str "Not enough parameters"]
  end.

Definition handleInvite (i : nat) (msg : Message) : M unit :=
  match Params msg with
  | target :: chanName :: _ =>
      srv ← get;
      let s := obj srv i in
      match Registry_Get srv target with
      | None => no_such_nick i target
      | Some dest =>
          let ch := Channels_Get srv chanName in
          if match ch with Some ch => negb (HasMember ch (nick s)) | None => false end
          then SendNumeric i ERR_NOTONCHANNEL [chanName; str "You're not on that channel"]
          else
            let invite := message (Some (Prefix_of s)) (str "INVITE") [target; chanName] in
            _ ← SendNumeric i RPL_INVITING [target; chanName];
            _ ← Send dest invite;
            match ch with
            | Some ch =>
                forM_ (Members ch) (fun m =>
                  when (negb (bool_decide (mid m = i)) && capEnabled (obj srv (mid m)) CapInviteNotify) (Send (mid m) invite))
            | None => mret tt
            end
      end
  | _ => SendNumeric i ERR_NEEDMOREPARAMS [str "INVITE"; str "Not enough parameters"]
  end.
(* ------------------------------------------------------------------ *)
(** ** Modes *)

(** [mode.Set.String]. *)
Definition ModeSet_String (s : ModeSet) : bytes :=
  let fs := iter (map_to_list (flags s)) in
  let args := iter (map_to_list (margs s)) in
  str "+" ++ flat_map (fun mv => encode_rune mv.1) fs ++ flat_map (fun mv => encode_rune mv.1) args ++
  (match args with [] => [] | _ => str " " ++ Join args.*2 (str " ") end).

(** One change of a MODE command on a channel, and the changes reported so far. *)
Definition channel_change (st : Channel * list ModeChange) (change : ModeChange) : Channel * list ModeChange :=
  let '(ch, applied) := st in
  if rune_in (str "qaohv") (Mode change) then
    match applyMembershipMode ch change with
    | Some ch' => (ch', applied ++ [change])
    | None => (ch, applied)
    end
  else
    let '(modes, more) := Apply ChannelValidator (cmodes ch) [change] in
    (set_cmodes modes ch, applied ++ more).

Definition handleChannelMode (i : nat) (msg : Message) (chanName : bytes) : M unit :=
  srv ← get;
  let s := obj srv i in
  match Channels_Get srv chanName with
  | None => SendNumeric i ERR_NOSUCHCHANNEL [chanName; str "No such channel"]
  | Some ch =>
      match drop 1 (Params msg) with
      | [] =>
          _ ← SendNumeric i RPL_CHANNELMODEIS [chanName; ModeSet_String (cmodes ch)];
          SendNumeric i RPL_CREATIONTIME [chanName; Itoa (Unix (createdAt ch))]
      | modes :: args =>
          let query := match modes, args with
                       | [c], [] => match Type_ (ModeValidator := ChannelValidator) (rune c) with
                                    | TypeList => Some (rune c) | _ => None end
                       | _, _ => None
                       end in
          match query with
          | Some m =>
              _ ← forM_ (List_ (cmodes ch) m) (fun entry => SendNumeric i RPL_BANLIST [chanName; entry]);
              SendNumeric i RPL_ENDOFBANLIST [chanName; str "End of ban list"]
          | None =>
              match GetMembership ch (nick s) with
              | None => SendNumeric i ERR_NOTONCHANNEL [chanName; str "You're not on that channel"]
              | Some membership =>
                  if negb (is_chanop (mprefix membership)) && negb (isOper s)
                  then SendNumeric i ERR_CHANOPRIVSNEEDED [chanName; str "You're not channel operator"]
                  else
                    let '(ch', applied) := fold_left channel_change (ParseModeString modes args) (ch, []) in
                    _ ← modify_channel (ToLower chanName) (fun _ => ch');
                    match applied with
                    | [] => mret tt
                    | _ =>
                        let '(modeStr, margs) := FormatModeChanges applied in
                        Channel_Broadcast ch' (message (Some (Prefix_of s)) (str "MODE") (chanName :: modeStr :: margs)) None
                    end
              end
          end
      end
  end.

Definition handleUserMode (i : nat) (msg : Message) (target : bytes) : M unit :=
  srv ← get;
  let s := obj srv i in
  if negb (EqualFold target (nick s)) && negb (isOper s)
  then SendNumeric i ERR_USERSDONTMATCH [str "Cannot change mode for other users"]
  else match Registry_Get srv target with
       | None => SendNumeric i ERR_NOSUCHNICK [target; str "No such nick"]
       | Some dest =>
           match drop 1 (Params msg) with
           | [] => SendNumeric i RPL_UMODEIS [ModeSet_String (smodes (obj srv dest))]
           | modes :: args =>
               let '(ms, applied) := Apply UserValidator (smodes (obj srv dest)) (ParseModeString modes args) in
               _ ← update dest (set_smodes ms);
               match applied with
               | [] => mret tt
               | _ =>
                   let '(modeStr, margs) := FormatModeChanges applied in
                   Send dest (message (Some (Prefix_of s)) (str "MODE") (target :: modeStr :: margs))
               end
           end
       end.

Definition handleMode (i : nat) (msg : Message) : M unit :=
  match Params msg with
  | [] => SendNumeric i ERR_NEEDMOREPARAMS [str "MODE"; str "Not enough parameters"]
  | target :: _ =>
      if is_channel_target target then handleChannelMode i msg target else handleUserMode i msg target
  end.

(* ------------------------------------------------------------------ *)
(** ** Queries *)

Definition who_reply (i : nat) (m : bytes) (u : Session) (prefix : bytes) : M unit :=
  SendNumeric i RPL_WHOREPLY
    [m; user u; host u; Name; nick u; (if seqb (away u) [] then str "H" else str "G") ++ prefix; str "0 " ++ realname u].

Definition handleWho (i : nat) (msg : Message) : M unit :=
  srv ← get;
  let m := match Params msg with p :: _ => p | [] => str "*" end in
  _ ← (if is_channel_target m then
         match Channels_Get srv m with
         | Some ch => forM_ (Members ch) (fun mb => who_reply i m (obj srv (mid mb)) (mprefix mb))
         | None => mret tt
         end
       else
         forM_ (Registry_All srv) (fun j =>
           let u := obj srv j in
           when (matchMask m (mask u) || matchMask m (nick u)) (who_reply i m u [])));
  SendNumeric i RPL_ENDOFWHO [m; str "End of /WHO list"].

Definition handleWhois (i : nat) (msg : Message) : M unit :=
  match Params msg with
  | [] => SendNumeric i ERR_NONICKNAMEGIVEN [str "No nickname given"]
  | n :: _ =>
      srv ← get;
      match Registry_Get srv n with
      | None =>
          _ ← no_such_nick i n;
          SendNumeric i RPL_ENDOFWHOIS [n; str "End of /WHOIS list"]
      | Some j =>
          let t := obj srv j in
          _ ← SendNumeric i RPL_WHOISUSER [nick t; user t; host t; str "*"; realname t];
          _ ← when (negb (seqb (account t) [])) (SendNumeric i RPL_WHOISACCOUNT [nick t; account t; str "is logged in as"]);
          _ ← SendNumeric i RPL_WHOISSERVER [nick t; Name; Network];
          let chans := omap (fun '(_, ch) => (fun m => mprefix m ++ cname ch) <$> GetMembership ch (nick t)) (Channels_All srv) in
          _ ← when (negb (blen chans =? 0)) (SendNumeric i RPL_WHOISCHANNELS [nick t; Join chans (str " ")]);
          _ ← when (isOper t) (SendNumeric i RPL_WHOISOPERATOR [nick t; str "is an IRC operator"]);
          _ ← when (negb (seqb (away t) [])) (SendNumeric i RPL_AWAY [nick t; away t]);
          _ ← SendNumeric i RPL_WHOISIDLE [nick t; Itoa (Z.quot (now - idleAt t) 1000000000); Itoa (Unix (signOnAt t));
                str "seconds idle, signon time"];
          SendNumeric i RPL_ENDOFWHOIS [nick t; str "End of /WHOIS list"]
      end
  end.

Definition handleWhowas (i : nat) (msg : Message) : M unit :=
  match Params msg with
  | [] => SendNumeric i ERR_NONICKNAMEGIVEN [str "No nickname given"]
  | n :: _ =>
      srv ← get;
      let found := filterb (fun e => EqualFold (wnick e) n) (rev (whowas srv)) in
      _ ← forM_ found (fun e =>
            _ ← SendNumeric i RPL_WHOWASUSER [wnick e; wuser e; whost e; str "*"; wrealname e];
            SendNumeric i RPL_WHOISSERVER [wnick e; Name; format_whowas_time (zone (quitAt e)) (quitAt e)]);
      _ ← when (blen found =? 0) (SendNumeric i ERR_WASNOSUCHNICK [n; str "There was no such nickname"]);
      SendNumeric i RPL_ENDOFWHOWAS [n; str "End of WHOWAS"]
  end.

Definition handleUserhost (i : nat) (msg : Message) : M unit :=
  srv ← get;
  let results := omap (fun n =>
        (fun j => let u := obj srv j in
           nick u ++ (if isOper u then str "*" else []) ++ str "=" ++
           (if seqb (away u) [] then str "+" else str "-") ++ user u ++ str "@" ++ host u)
        <$> Registry_Get srv n) (Params msg) in
  SendNumeric i RPL_USERHOST [Join results (str " ")].

Definition handleIson (i : nat) (msg : Message) : M unit :=
  srv ← get;
  SendNumeric i RPL_ISON [Join (filterb (fun n => bool_decide (is_Some (Registry_Get srv n))) (Params msg)) (str " ")].

Definition handleVersion (i : nat) : M unit := SendNumeric i RPL_VERSION [str "go-irc-1.0"; Name; str "go-irc"].
Definition handleTime (i : nat) : M unit := SendNumeric i RPL_TIME [Name; format_local_time (zone now) now].
Definition handleAdmin (i : nat) : M unit :=
  _ ← SendNumeric i RPL_ADMINME [Name; str "Administrative info"];
  _ ← SendNumeric i RPL_ADMINLOC1 [str "go-irc IRC server"];
  _ ← SendNumeric i RPL_ADMINLOC2 [str "Running go-irc"];
  SendNumeric i RPL_ADMINEMAIL [str "admin@" ++ Name].
Definition handleInfo (i : nat) : M unit :=
  _ ← SendNumeric i RPL_INFO [str "go-irc — a Go IRC server"];
  _ ← SendNumeric i RPL_INFO [str "https://github.com/natalie-o-perret/go-protocols/irc"];
  SendNumeric i RPL_ENDOFINFO [str "End of /INFO list"].
Definition handleStats (i : nat) (msg : Message) : M unit :=
  let query := match Params msg with q :: _ => q | [] => str "?" end in
  _ ← when (seqb (ToLower query) (str "u")) (SendNumeric i RPL_STATSUPTIME [str "Server Up 0 days, 0:00:00"]);
  SendNumeric i RPL_ENDOFSTATS [query; str "End of /STATS report"].
(* ------------------------------------------------------------------ *)
(** ** User state *)

Definition handleAway (i : nat) (msg : Message) : M unit :=
  let text := param msg 0 in
  _ ← update i (set_away text);
  _ ← (if seqb text [] then SendNumeric i RPL_UNAWAY [str "You are no longer marked as being away"]
       else SendNumeric i RPL_NOWAWAY [str "You have been marked as being away"]);
  srv ← get;
  let s := obj srv i in
  let awayMsg := message (Some (Prefix_of s)) (str "AWAY") (if seqb (away s) [] then [] else [away s]) in
  notified ← notify_new awayMsg (fun p => capEnabled p CapAwayNotify) ∅
               (filterb (fun j => negb (bool_decide (j = i))) (channel_peers srv (nick s)));
  _ ← notify_new awayMsg (fun _ => true) notified (extendedMonitorPeers srv i CapAwayNotify);
  mret tt.

(** One nickname of MONITOR +: the list, and the nicknames online, offline and
    refused so far. *)
Definition monitor_add (srv : Server) (st : gmap bytes bytes * list bytes * list bytes * list bytes) (n : bytes)
    : gmap bytes bytes * list bytes * list bytes * list bytes :=
  let '(mon, online, offline, rejected) := st in
  if negb (isValidNick n) then st
  else
    let key := ToLower n in
    let known := bool_decide (is_Some (mon !! key)) in
    if negb known && (Z.of_nat (size mon) >=? monitorLimit) then (mon, online, offline, rejected ++ [n])
    else
      let mon := if known then mon else <[key := n]> mon in
      match Registry_Get srv n with
      | Some j => (mon, online ++ [mask (obj srv j)], offline, rejected)
      | None => (mon, online, offline ++ [n], rejected)
      end.

Definition fold_le (a b : bytes) : Prop := str_le (ToLower a) (ToLower b).
#[local] Instance fold_le_dec : RelDecision fold_le.
Proof. intros a b. unfold fold_le. apply _. Defined.

Definition need_monitor_params (i : nat) : M unit :=
  SendNumeric i ERR_NEEDMOREPARAMS [str "MONITOR"; str "Not enough parameters"].

Definition handleMonitor (i : nat) (msg : Message) : M unit :=
  match Params msg with
  | [] => need_monitor_params i
  | sub :: args =>
      srv ← get;
      let s := obj srv i in
      let sub := ToUpper sub in
      if seqb sub (str "+") then
        match args with
        | [] => need_monitor_params i
        | nicks :: _ =>
            let '(mon, online, offline, rejected) :=
              fold_left (monitor_add srv) (Split nicks ","%byte) (monitor s, [], [], []) in
            _ ← update i (set_monitor mon);
            _ ← sendMonitorList i RPL_MONONLINE online;
            _ ← sendMonitorList i RPL_MONOFFLINE offline;
            when (negb (blen rejected =? 0))
              (SendNumeric i ERR_MONLISTFULL [Itoa monitorLimit; Join rejected (str ","); str "Monitor list is full"])
        end
      else if seqb sub (str "-") then
        match args with
        | [] => need_monitor_params i
        | nicks :: _ =>
            update i (fun s => set_monitor (fold_left (fun mon n => delete (ToLower n) mon) (Split nicks ","%byte) (monitor s)) s)
        end
      else if seqb sub (str "C") then update i (set_monitor ∅)
      else if seqb sub (str "L") then
        _ ← sendMonitorList i RPL_MONLIST (merge_sort fold_le (monitorSnapshot s));
        SendNumeric i RPL_ENDOFMONLIST [str "End of MONITOR list"]
      else if seqb sub (str "S") then
        let snapshot := monitorSnapshot s in
        _ ← sendMonitorList i RPL_MONONLINE (omap (fun n => (fun j => mask (obj srv j)) <$> Registry_Get srv n) snapshot);
        sendMonitorList i RPL_MONOFFLINE (filterb (fun n => bool_decide (Registry_Get srv n = None)) snapshot)
      else SendNumeric i ERR_NEEDMOREPARAMS [str "MONITOR"; str "Invalid MONITOR subcommand"]
  end.

Definition handleSetname (i : nat) (msg : Message) : M unit :=
  match Params msg with
  | [] => mret tt
  | name :: _ =>
      _ ← update i (set_realname name);
      srv ← get;
      let s := obj srv i in
      let setMsg := message (Some (Prefix_of s)) (str "SETNAME") [name] in
      _ ← when (capEnabled s CapSetname) (Send i setMsg);
      let tell (p : Session -> bool) (notified : gset bytes) (l : list nat) :=
        foldM (fun (notified : gset bytes) j =>
          let k := ToLower (nick (obj srv j)) in
          if negb (bool_decide (k ∈ notified)) && p (obj srv j) then _ ← Send j setMsg; mret ({[k]} ∪ notified)
          else mret notified) notified l in
      notified ← tell (fun p => capEnabled p CapSetname) {[ToLower (nick s)]} (channel_peers srv (nick s));
      _ ← tell (fun _ => true) notified (extendedMonitorPeers srv i CapSetname);
      mret tt
  end.

(* ------------------------------------------------------------------ *)
(** ** Connection and operators *)

Definition handlePing (i : nat) (msg : Message) : M unit :=
  Send i (message server_prefix (str "PONG") (match Params msg with [] => [Name] | ps => ps end)).

Definition handleQuit (i : nat) (msg : Message) : M unit :=
  s ← the i;
  let reason := if seqb (param msg 0) [] then str "Quit" else param msg 0 in
  _ ← Send i (message server_prefix (str "ERROR") [str "Closing Link: " ++ host s ++ str " (Quit: " ++ reason ++ str ")"]);
  update i (set_closed true).

Definition handleWallops (i : nat) (msg : Message) : M unit :=
  srv ← get;
  let s := obj srv i in
  if negb (isOper s) then SendNumeric i ERR_NOPRIVILEGES [str "Permission Denied- You're not an IRC operator"]
  else
    let wallMsg := message (Some (Prefix_of s)) (str "WALLOPS") [param msg 0] in
    forM_ (Registry_All srv) (fun j =>
      when (Has (smodes (obj srv j)) (rune "w"%byte) || isOper (obj srv j)) (Send j wallMsg)).

Definition handleOper (i : nat) (msg : Message) : M unit :=
  match Params msg with
  | name :: pass :: _ =>
      if match Opers !! name with Some hash => checkPassword hash pass | None => false end then
        _ ← update i (fun s => set_smodes (Apply UserValidator (smodes s) [ {| Add := true; Mode := rune "o"%byte; Arg := [] |} ]).1
                                (set_isOper true s));
        _ ← SendNumeric i RPL_YOUROPER [str "You are now an IRC operator"];
        s ← the i;
        Send i (message server_prefix (str "MODE") [nick s; str "+o"])
      else SendNumeric i ERR_PASSWDMISMATCH [str "Password incorrect"]
  | _ => SendNumeric i ERR_NEEDMOREPARAMS [str "OPER"; str "Not enough parameters"]
  end.

Definition handleKill (i : nat) (msg : Message) : M unit :=
  srv ← get;
  let s := obj srv i in
  if negb (isOper s) then SendNumeric i ERR_NOPRIVILEGES [str "Permission Denied- You're not an IRC operator"]
  else match Params msg with
       | n :: reason :: _ =>
           match Registry_Get srv n with
           | None => SendNumeric i ERR_NOSUCHNICK [n; str "No such nick"]
           | Some j =>
               _ ← Send j (message (Some (Prefix_of s)) (str "ERROR") [str "Killed by " ++ nick s ++ str " (" ++ reason ++ str ")"]);
               update j (set_closed true)
           end
       | _ => SendNumeric i ERR_NEEDMOREPARAMS [str "KILL"; str "Not enough parameters"]
       end.

(* ------------------------------------------------------------------ *)
(** ** Dispatch *)

(** The commands of a registered session. *)
Definition dispatch_registered (i : nat) (cmd : bytes) (msg : Message) : M unit :=
  if seqb cmd (str "JOIN") then handleJoin i msg
  else if seqb cmd (str "PART") then handlePart i msg
  else if seqb cmd (str "TOPIC") then handleTopic i msg
  else if seqb cmd (str "NAMES") then handleNames i msg
  else if seqb cmd (str "LIST") then handleList i msg
  else if seqb cmd (str "KICK") then handleKick i msg
  else if seqb cmd (str "INVITE") then handleInvite i msg
  else if seqb cmd (str "MODE") then handleMode i msg
  else if seqb cmd (str "PRIVMSG") then handlePrivmsg i msg false
  else if seqb cmd (str "NOTICE") then handlePrivmsg i msg true
  else if seqb cmd (str "TAGMSG") then handleTagmsg i msg
  else if seqb cmd (str "CHATHISTORY") then handleChatHistory i msg
  else if seqb cmd (str "WHO") then handleWho i msg
  else if seqb cmd (str "WHOIS") then handleWhois i msg
  else if seqb cmd (str "WHOWAS") then handleWhowas i msg
  else if seqb cmd (str "AWAY") then handleAway i msg
  else if seqb cmd (str "NICK") then handleNickRegistered i msg
  else if seqb cmd (str "USERHOST") then handleUserhost i msg
  else if seqb cmd (str "ISON") then handleIson i msg
  else if seqb cmd (str "MONITOR") then handleMonitor i msg
  else if seqb cmd (str "PING") then handlePing i msg
  else if seqb cmd (str "MOTD") then sendMOTD i
  else if seqb cmd (str "LUSERS") then sendLusers i
  else if seqb cmd (str "VERSION") then handleVersion i
  else if seqb cmd (str "TIME") then handleTime i
  else if seqb cmd (str "ADMIN") then handleAdmin i
  else if seqb cmd (str "INFO") then handleInfo i
  else if seqb cmd (str "STATS") then handleStats i msg
  else if seqb cmd (str "WALLOPS") then handleWallops i msg
  else if seqb cmd (str "OPER") then handleOper i msg
  else if seqb cmd (str "KILL") then handleKill i msg
  else if seqb cmd (str "SETNAME") then handleSetname i msg
  else SendNumeric i ERR_UNKNOWNCOMMAND [cmd; str "Unknown command"].

Definition dispatch (i : nat) (msg : Message) : M unit :=
  let cmd := ToUpper (Command msg) in
  if seqb cmd (str "CAP") then handleCAP i msg
  else if seqb cmd (str "PASS") then handlePass i msg
  else if seqb cmd (str "NICK") then handleNick i msg
  else if seqb cmd (str "USER") then handleUser i msg
  else if seqb cmd (str "QUIT") then handleQuit i msg
  else if seqb cmd (str "PING") then handlePing i msg
  else if seqb cmd (str "PONG") then mret tt
  else if seqb cmd (str "AUTHENTICATE") then handleAuthenticate i msg
  else
    s ← the i;
    if negb (bool_decide (state s = StateRegistered)) then SendNumeric i ERR_NOTREGISTERED [str "You have not registered"]
    else dispatch_registered i cmd msg.

(** The label of a command whose replies are to be collected. *)
Definition response_label (s : Session) (msg : Message) : option bytes :=
  match Tags_Get (MTags msg) (str "label") with
  | Some label =>
      if seqb label [] || (blen label >? 64) || seqb (Command msg) (str "QUIT") ||
         negb (capEnabled s CapLabeledResponse) || negb (capEnabled s CapBatch) then None
      else Some label
  | None => None
  end.

Definition dispatchCommand (i : nat) (msg : Message) : M unit :=
  s ← the i;
  match response_label s msg with
  | None => dispatch i msg
  | Some label =>
      _ ← beginResponse i label;
      _ ← dispatch i msg;
      lines ← finishResponse i;
      sendPrepared i lines
  end.

(* ------------------------------------------------------------------ *)
(** ** Sessions *)

(** [startSession] of a connection: the new session object. *)
Definition connect (i : nat) (h : bytes) (tls : bool) (sni : bytes) : M unit :=
  let s := newSession h in
  let s := {| nick := nick s; user := user s; host := host s; realname := realname s; account := account s; away := away s;
              secure := tls; serverName := sni;
              smodes := if tls then (Apply UserValidator (smodes s) [ {| Add := true; Mode := rune "z"%byte; Arg := [] |} ]).1 else smodes s;
              caps := caps s; shistory := shistory s; state := state s; monitor := monitor s; capVersion := capVersion s;
              saslActive := saslActive s; saslBuffer := saslBuffer s; idleAt := idleAt s; signOnAt := signOnAt s;
              isOper := isOper s; closed := closed s |} in
  _ ← modify (fun srv => with_store srv (<[i := s]> (store srv)));
  modify (fun srv => with_live srv ({[i]} ∪ live srv)).

(** The loop body of [handleSession]: one line of input. *)
Definition handle_line (i : nat) (line : bytes) : M unit :=
  if InputTooLong line then SendNumeric i ERR_INPUTTOOLONG [str "Input line was too long"]
  else match Parse line with
       | Ok msg => _ ← update i (set_idleAt now); dispatchCommand i msg
       | _ => mret tt
       end.

(** The end of [handleSession]. *)
Definition removeSession (i : nat) : M unit :=
  srv ← get;
  let s := obj srv i in
  if seqb (nick s) [] then mret tt
  else
    _ ← modify (fun srv =>
          let w := whowas srv ++ [ {| wnick := nick s; wuser := user s; whost := host s; wrealname := realname s; quitAt := now |} ] in
          with_whowas srv (if blen w >? 256 then drop 1 w else w));
    _ ← forM_ (Channels_All srv) (fun '(key, ch) =>
          if HasMember ch (nick s) then
            _ ← Channel_Broadcast ch (message (Some (Prefix_of s)) (str "QUIT") [str "Connection closed"]) (Some i);
            remove_member key (nick s) (cname ch)
          else mret tt);
    _ ← Registry_Remove (nick s);
    notifyMonitorOffline (nick s).

Definition disconnect (i : nat) : M unit :=
  _ ← removeSession i;
  modify (fun srv => with_live srv (live srv ∖ {[i]})).
End Handlers.

(** A server just made by [New]. *)
Definition newServer : Server :=
  {| store := ∅; sessions := ∅; channels := ∅; whowas := []; live := ∅; response := ∅; sent := [] |}.
