(* ===== verification/IrcReason.v ===== *)
(** * Reasoning about the handlers of the IRC server

    [wp m Q srv]: started in [srv], the program [m] ends with a result and a state that
    satisfy [Q].  Programs that only produce output are [quiet]: they keep the core of
    the state (everything but the messages sent and collected), and [solve_quiet]
    proves it by following the program. *)

From S2P Require Import Prelude GoStrings GoTime IrcMessage ChatHistory IrcMode IrcNames IrcConst IrcServer IrcHandlers.

(** Two states that differ only in their output. *)
Definition same_core (a b : Server) : Prop :=
  store a = store b /\ sessions a = sessions b /\ channels a = channels b /\ whowas a = whowas b /\ live a = live b.

#[export] Instance same_core_refl : Reflexive same_core.
Proof. intros a. by repeat split. Qed.
#[export] Instance same_core_sym : Symmetric same_core.
Proof. intros a b (?&?&?&?&?). by repeat split. Qed.
#[export] Instance same_core_trans : Transitive same_core.
Proof. intros a b c (?&?&?&?&?) (?&?&?&?&?). repeat split; congruence. Qed.

Lemma obj_core a b i : same_core a b -> obj a i = obj b i.
Proof. intros (E & _). unfold obj. by rewrite E. Qed.

Definition wp {A} (m : M A) (Q : A -> Server -> Prop) (srv : Server) : Prop := Q (m srv).1 (m srv).2.
Definition quiet {A} (m : M A) : Prop := forall srv, same_core srv (m srv).2.

Lemma wp_mono {A} (m : M A) (Q R : A -> Server -> Prop) srv :
  wp m Q srv -> (forall a srv', Q a srv' -> R a srv') -> wp m R srv.
Proof. unfold wp. auto. Qed.

Lemma wp_ret {A} (a : A) (Q : A -> Server -> Prop) srv : Q a srv -> wp (mret a) Q srv.
Proof. done. Qed.

Lemma wp_bind {A B} (m : M A) (f : A -> M B) Q srv :
  wp m (fun a srv' => wp (f a) Q srv') srv -> wp (m ≫= f) Q srv.
Proof. unfold wp, mbind, M_bind. by destruct (m srv). Qed.

Lemma wp_get (Q : Server -> Server -> Prop) srv : Q srv srv -> wp get Q srv.
Proof. done. Qed.
Lemma wp_the i (Q : Session -> Server -> Prop) srv : Q (obj srv i) srv -> wp (the i) Q srv.
Proof. done. Qed.
Lemma wp_modify f (Q : unit -> Server -> Prop) srv : Q tt (f srv) -> wp (modify f) Q srv.
Proof. done. Qed.
Lemma wp_update i f (Q : unit -> Server -> Prop) srv :
  Q tt (with_store srv (alter f i (store srv))) -> wp (update i f) Q srv.
Proof. done. Qed.
Lemma wp_modify_channel k f (Q : unit -> Server -> Prop) srv :
  Q tt (with_channels srv (alter f k (channels srv))) -> wp (modify_channel k f) Q srv.
Proof. done. Qed.

Lemma wp_quiet {A} (m : M A) (Q : A -> Server -> Prop) srv :
  quiet m -> (forall a srv', same_core srv srv' -> Q a srv') -> wp m Q srv.
Proof. intros Hq H. apply H, Hq. Qed.

Lemma wp_when b m (Q : unit -> Server -> Prop) srv :
  (b = true -> wp m Q srv) -> (b = false -> Q tt srv) -> wp (when b m) Q srv.
Proof. unfold when. destruct b; [auto|]. intros _ H. by apply H. Qed.

(** Loops keep an invariant of the state. *)
Lemma wp_forM_ {A} (I : Server -> Prop) (l : list A) (f : A -> M unit) srv :
  (forall x srv, x ∈ l -> I srv -> wp (f x) (fun _ => I) srv) -> I srv -> wp (forM_ l f) (fun _ => I) srv.
Proof.
  revert srv. induction l as [|x l IH]; intros srv Hf HI; [done|]. cbn [forM_]. apply wp_bind.
  eapply wp_mono; [by apply Hf; [left|]|]. intros a srv' H'. apply IH; [|done]. intros y srv2 Hy. apply Hf. by right.
Qed.

Lemma wp_foldM {A B} (I : Server -> Prop) (f : B -> A -> M B) (l : list A) b srv :
  (forall b x srv, x ∈ l -> I srv -> wp (f b x) (fun _ => I) srv) -> I srv -> wp (foldM f b l) (fun _ => I) srv.
Proof.
  revert b srv. induction l as [|x l IH]; intros b srv Hf HI; [done|]. cbn [foldM]. apply wp_bind.
  eapply wp_mono; [by apply Hf; [left|]|]. intros b' srv' H'. apply IH; [|done]. intros b2 y srv2 Hy. apply Hf. by right.
Qed.

Create HintDb quiet discriminated.
#[export] Hint Constants Opaque : quiet.

Lemma quiet_ret {A} (a : A) : quiet (mret a : M A).
Proof. intros srv. reflexivity. Qed.
Lemma quiet_get : quiet get.
Proof. intros srv. reflexivity. Qed.
Lemma quiet_the i : quiet (the i).
Proof. intros srv. reflexivity. Qed.
Lemma quiet_bind {A B} (m : M A) (f : A -> M B) : quiet m -> (forall a, quiet (f a)) -> quiet (m ≫= f).
Proof.
  intros Hm Hf srv. specialize (Hm srv). unfold mbind, M_bind. destruct (m srv) as [a srv1].
  etransitivity; [exact Hm|apply Hf].
Qed.
Lemma quiet_when b m : quiet m -> quiet (when b m).
Proof. intros H. destruct b; [done|apply quiet_ret]. Qed.
Lemma quiet_forM_ {A} (l : list A) f : (forall x, quiet (f x)) -> quiet (forM_ l f).
Proof. intros H. induction l; cbn [forM_]; [apply quiet_ret|]. apply quiet_bind; auto. Qed.
Lemma quiet_foldM {A B} (f : B -> A -> M B) b (l : list A) : (forall b x, quiet (f b x)) -> quiet (foldM f b l).
Proof. intros H. revert b. induction l; intros b; cbn [foldM]; [apply quiet_ret|]. apply quiet_bind; auto. Qed.

(** Follows a program through binds, branches and loops. *)
Ltac quiet_step :=
  match goal with
  | |- quiet (mbind _ _) => apply quiet_bind; [|intros ?]
  | |- quiet (mret _) => apply quiet_ret
  | |- quiet get => apply quiet_get
  | |- quiet (the _) => apply quiet_the
  | |- quiet (when _ _) => apply quiet_when
  | |- quiet (forM_ _ _) => apply quiet_forM_; intros ?
  | |- quiet (foldM _ _ _) => apply quiet_foldM; intros ? ?
  | |- forall _, _ => intros ?
  | |- quiet (match ?x with _ => _ end) => destruct x
  | |- quiet (let _ := _ in _) => cbv zeta
  end.
Ltac solve_quiet := repeat first [ solve [eauto 2 with quiet nocore] | quiet_step ].

Section Quiet.
Context {HU : GoUnicode} {HI : IterOrder} {cfg : Config} {env : Env} {HB : Bcrypt}.

Lemma quiet_Send_ b i msg : quiet (Send_ b i msg).
Proof.
  intros srv. unfold Send_, mbind, M_bind, get. destruct (_ && _); [reflexivity|].
  by destruct (response srv !! i).
Qed.
Lemma quiet_Send i msg : quiet (Send i msg).
Proof. apply quiet_Send_. Qed.
Lemma quiet_sendImmediate i msg : quiet (sendImmediate i msg).
Proof. apply quiet_Send_. Qed.
Lemma quiet_SendNumeric i n ps : quiet (SendNumeric i n ps).
Proof. apply quiet_bind; [apply quiet_the|]. intros s. apply quiet_Send. Qed.
Lemma quiet_Sendf i cmd ps : quiet (Sendf i cmd ps).
Proof. apply quiet_Send. Qed.
#[local] Hint Resolve quiet_Send quiet_sendImmediate quiet_SendNumeric : quiet.
Lemma quiet_Broadcast ch msg ex : quiet (Channel_Broadcast ch msg ex).
Proof. unfold Channel_Broadcast. solve_quiet. Qed.
Lemma quiet_sendMonitorList i n vs : quiet (sendMonitorList i n vs).
Proof. unfold sendMonitorList. solve_quiet. Qed.
#[local] Hint Resolve quiet_Broadcast quiet_sendMonitorList : quiet.
Lemma quiet_notifyMonitorOnline i : quiet (notifyMonitorOnline i).
Proof. unfold notifyMonitorOnline. solve_quiet. Qed.
Lemma quiet_notifyMonitorOffline n : quiet (notifyMonitorOffline n).
Proof. unfold notifyMonitorOffline. solve_quiet. Qed.
Lemma quiet_sendMOTD i : quiet (sendMOTD i).
Proof. unfold sendMOTD. solve_quiet. Qed.
Lemma quiet_sendLusers i : quiet (sendLusers i).
Proof. unfold sendLusers. solve_quiet. Qed.
Lemma quiet_sendCAP i a b : quiet (sendCAP i a b).
Proof. unfold sendCAP. solve_quiet. Qed.
#[local] Hint Resolve quiet_sendCAP : quiet.
Lemma quiet_sendCAPList i a cs : quiet (sendCAPList i a cs).
Proof.
  unfold sendCAPList. destruct cs as [|c cs]; [apply quiet_sendCAP|]. generalize (groups 400 (c :: cs)) as ls.
  induction ls as [|g [|g' ls] IH]; cbn [send_cap_lines]; solve_quiet.
Qed.
Lemma quiet_notify_new msg p no l : quiet (notify_new msg p no l).
Proof. unfold notify_new. solve_quiet. Qed.
#[local] Hint Resolve quiet_notify_new : quiet.
Lemma quiet_rejoin i j p chs : quiet (rejoin i j p chs).
Proof. unfold rejoin. solve_quiet. Qed.
#[local] Hint Resolve quiet_rejoin : quiet.
Lemma quiet_notifyAccount i p : quiet (notifyAccount i p).
Proof. unfold notifyAccount. solve_quiet. Qed.
Lemma quiet_notifyHostChange i p : quiet (notifyHostChange i p).
Proof. unfold notifyHostChange. solve_quiet. Qed.
Lemma quiet_sendNames i ch : quiet (sendNames i ch).
Proof. unfold sendNames. solve_quiet. Qed.
Lemma quiet_send_topic i n ch : quiet (send_topic i n ch).
Proof. unfold send_topic. solve_quiet. Qed.
#[local] Hint Resolve quiet_sendNames quiet_send_topic : quiet.
Lemma quiet_history_fail i a b c : quiet (sendChatHistoryFail i a b c).
Proof. apply quiet_Send. Qed.
Lemma quiet_sendHistoryBatch i a b es c : quiet (sendHistoryBatch i a b es c).
Proof. unfold sendHistoryBatch. solve_quiet. Qed.
#[local] Hint Resolve quiet_history_fail quiet_sendHistoryBatch : quiet.
Lemma quiet_no_such_nick i t : quiet (no_such_nick i t).
Proof. apply quiet_SendNumeric. Qed.
#[local] Hint Resolve quiet_no_such_nick : quiet.

(** The commands that only answer. *)
Lemma quiet_handlePass i m : quiet (handlePass i m).
Proof. unfold handlePass. solve_quiet. Qed.
Lemma quiet_handlePing i m : quiet (handlePing i m).
Proof. unfold handlePing. solve_quiet. Qed.
Lemma quiet_handleTagmsg i m : quiet (handleTagmsg i m).
Proof. unfold handleTagmsg. solve_quiet. Qed.
Lemma quiet_handleChatHistory i m : quiet (handleChatHistory i m).
Proof. unfold handleChatHistory, handleChatHistoryTargets. solve_quiet. Qed.
Lemma quiet_handleNames i m : quiet (handleNames i m).
Proof. unfold handleNames. solve_quiet. Qed.
Lemma quiet_handleList i m : quiet (handleList i m).
Proof. unfold handleList. solve_quiet. Qed.
Lemma quiet_handleInvite i m : quiet (handleInvite i m).
Proof. unfold handleInvite. solve_quiet. Qed.
Lemma quiet_handleWho i m : quiet (handleWho i m).
Proof. unfold handleWho, who_reply. solve_quiet. Qed.
Lemma quiet_handleWhois i m : quiet (handleWhois i m).
Proof. unfold handleWhois. solve_quiet. Qed.
Lemma quiet_handleWhowas i m : quiet (handleWhowas i m).
Proof. unfold handleWhowas. solve_quiet. Qed.
Lemma quiet_handleUserhost i m : quiet (handleUserhost i m).
Proof. unfold handleUserhost. solve_quiet. Qed.
Lemma quiet_handleIson i m : quiet (handleIson i m).
Proof. unfold handleIson. solve_quiet. Qed.
Lemma quiet_handleAdmin i : quiet (handleAdmin i).
Proof. unfold handleAdmin. solve_quiet. Qed.
Lemma quiet_handleInfo i : quiet (handleInfo i).
Proof. unfold handleInfo. solve_quiet. Qed.
Lemma quiet_handleStats i m : quiet (handleStats i m).
Proof. unfold handleStats. solve_quiet. Qed.
Lemma quiet_handleWallops i m : quiet (handleWallops i m).
Proof. unfold handleWallops. solve_quiet. Qed.
Lemma quiet_handleVersion i : quiet (handleVersion i).
Proof. apply quiet_SendNumeric. Qed.
Lemma quiet_handleTime i : quiet (handleTime i).
Proof. apply quiet_SendNumeric. Qed.
End Quiet.

#[export] Hint Resolve quiet_Send quiet_Sendf quiet_sendImmediate quiet_SendNumeric quiet_Broadcast quiet_sendMonitorList
  quiet_notifyMonitorOnline quiet_notifyMonitorOffline quiet_sendMOTD quiet_sendLusers quiet_sendCAP quiet_sendCAPList
  quiet_notify_new quiet_rejoin quiet_notifyAccount quiet_notifyHostChange quiet_sendNames quiet_send_topic
  quiet_history_fail quiet_sendHistoryBatch quiet_no_such_nick quiet_handlePass quiet_handlePing quiet_handleTagmsg
  quiet_handleChatHistory quiet_handleNames quiet_handleList quiet_handleInvite quiet_handleWho quiet_handleWhois
  quiet_handleWhowas quiet_handleUserhost quiet_handleIson quiet_handleAdmin quiet_handleInfo quiet_handleStats
  quiet_handleWallops quiet_handleVersion quiet_handleTime : quiet.
