(* ===== verification/IrcInvariant.v ===== *)
(** * The invariant of the IRC server

    What holds of the registry, the sessions and the channels in every state the
    server can reach: every step (a connection, a line of input, a disconnection)
    preserves it. *)

From S2P Require Import Prelude GoStrings GoTime GoEncoding IrcMessage IrcMode IrcNames IrcConst IrcServer IrcHandlers IrcReason.

(** Walks a program under [wp]: a quiet part leaves a state with the same core. *)
Ltac wp_step :=
  lazymatch goal with
  | |- wp (mbind _ _) _ _ => apply wp_bind
  | |- wp (mret _) _ _ => apply wp_ret
  | |- wp get _ _ => apply wp_get
  | |- wp (the _) _ _ => apply wp_the
  | |- wp (update _ _) _ _ => apply wp_update
  | |- wp (modify_channel _ _) _ _ => apply wp_modify_channel
  | |- wp (modify _) _ _ => apply wp_modify
  | |- wp (when _ _) _ _ => apply wp_when; intros ?
  | |- wp (match ?x with _ => _ end) _ _ => destruct x eqn:?
  | |- wp _ _ _ => apply wp_quiet; [solve [solve_quiet]|intros ? ? ?]
  | |- forall _, _ => intros ?
  end.
Ltac wp_quiet_step := apply wp_quiet; [solve [eauto 2 with quiet nocore]|intros ? ? ?].
Ltac wp_steps := repeat first [wp_quiet_step | wp_step].

Section Invariant.
Context {HU : GoUnicode} {HI : IterOrder} {cfg : Config} {env : Env} {HB : Bcrypt}.

Definition wf_session (s : Session) : Prop :=
  wf_set (smodes s) /\
  Z.of_nat (size (monitor s)) <= monitorLimit /\
  map_Forall (fun _ h => blen h <= chatHistoryLimit) (shistory s) /\
  blen (saslBuffer s) <= maxSASLPayload /\
  (nick s = [] \/ isValidNick (nick s) = true) /\
  (state s = StateRegistered -> nick s <> [] /\ user s <> []).

Definition wf_channel (st : gmap nat Session) (key : bytes) (ch : Channel) : Prop :=
  key = ToLower (cname ch) /\
  isValidChannelName (cname ch) = true /\
  members ch <> ∅ /\
  map_Forall (fun _ m => ordered_prefix (mprefix m) = mprefix m /\ is_Some (st !! mid m)) (members ch) /\
  wf_set (cmodes ch) /\
  blen (chistory ch) <= chatHistoryLimit.

Record wf_server (srv : Server) : Prop := {
  wf_sessions : map_Forall (fun _ s => wf_session s) (store srv);
  wf_channels : map_Forall (wf_channel (store srv)) (channels srv);
  wf_registry : forall key i, sessions srv !! key = Some i ->
    exists s, store srv !! i = Some s /\ state s = StateRegistered;
  wf_unique : forall key key' i, sessions srv !! key = Some i -> sessions srv !! key' = Some i -> key = key';
  wf_whowas : blen (whowas srv) <= 256;
  wf_live : forall i, i ∈ live srv -> is_Some (store srv !! i)
}.

Lemma wf_core a b : same_core a b -> wf_server a -> wf_server b.
Proof.
  intros (E1 & E2 & E3 & E4 & E5) [H1 H2 H3 H4 H5 H6].
  constructor; rewrite <- ?E1, <- ?E2, <- ?E3, <- ?E4, <- ?E5; done.
Qed.

Lemma append_history_limit h e : blen h <= chatHistoryLimit -> blen (append_history h e) <= chatHistoryLimit.
Proof.
  intros H. unfold append_history. destruct (Z.gtb_spec (blen (h ++ [e])) chatHistoryLimit); [|lia].
  unfold blen, chatHistoryLimit in *. rewrite length_drop. lia.
Qed.

Lemma alter_const_insert {V} (m : gmap bytes V) k x y : m !! k = Some x -> alter (fun _ => y) k m = <[k := y]> m.
Proof.
  intros E. apply map_eq. intros j. destruct (decide (k = j)) as [<-|].
  - by rewrite lookup_alter_eq, E, lookup_insert_eq.
  - by rewrite lookup_alter_ne, lookup_insert_ne.
Qed.

Lemma with_channels_twice srv a b : with_channels (with_channels srv a) b = with_channels srv b.
Proof. done. Qed.
Lemma obj_with_channels srv a i : obj (with_channels srv a) i = obj srv i.
Proof. done. Qed.

(** ** Changes that keep the invariant *)

Lemma wf_channel_alter st f i key ch : wf_channel st key ch -> wf_channel (alter f i st) key ch.
Proof.
  intros (H1 & H2 & H3 & H4 & H5 & H6). unfold wf_channel. split_and!; try done.
  eapply map_Forall_impl; [exact H4|]. intros k m (Ho & Hm). split; [done|].
  destruct Hm as [s Hs]. destruct (decide (i = mid m)) as [->|].
  - rewrite lookup_alter_eq, Hs. by eexists.
  - rewrite lookup_alter_ne by done. by exists s.
Qed.

(** A change of one session that keeps it well formed and registered if it was. *)
Definition keeps (f : Session -> Session) : Prop :=
  forall s, wf_session s -> wf_session (f s) /\ (state s = StateRegistered -> state (f s) = StateRegistered).

Lemma wf_update i f srv :
  (forall s, store srv !! i = Some s -> wf_session s ->
     wf_session (f s) /\ (state s = StateRegistered -> state (f s) = StateRegistered)) ->
  wf_server srv -> wf_server (with_store srv (alter f i (store srv))).
Proof.
  intros Hf [H1 H2 H3 H4 H5 H6]. constructor; cbn; try done.
  - intros j s Hs. apply lookup_alter_Some in Hs as [(-> & s0 & Hs & ->)|[_ Hs]]; [|by eapply H1].
    apply Hf; [done|]. by eapply H1.
  - intros k ch Hk. apply wf_channel_alter. by eapply H2.
  - intros key j Hj. destruct (H3 _ _ Hj) as (s & Hs & Er). destruct (decide (i = j)) as [->|].
    + exists (f s). rewrite lookup_alter_eq, Hs. split; [done|]. by apply (Hf s Hs); [eapply H1|].
    + exists s. by rewrite lookup_alter_ne.
  - intros j Hj. destruct (H6 _ Hj) as [s Hs]. destruct (decide (i = j)) as [->|].
    + rewrite lookup_alter_eq, Hs. by eexists.
    + rewrite lookup_alter_ne by done. by exists s.
Qed.

Lemma wf_update_keeps i f srv : keeps f -> wf_server srv -> wf_server (with_store srv (alter f i (store srv))).
Proof. intros Hf. apply wf_update. intros s _. apply Hf. Qed.

Lemma wf_channels_insert srv key ch :
  wf_channel (store srv) key ch -> wf_server srv -> wf_server (with_channels srv (<[key := ch]> (channels srv))).
Proof. intros Hc [H1 H2 H3 H4 H5 H6]. constructor; cbn; try done. by apply map_Forall_insert_2. Qed.

Lemma wf_channels_delete srv key :
  wf_server srv -> wf_server (with_channels srv (delete key (channels srv))).
Proof. intros [H1 H2 H3 H4 H5 H6]. constructor; cbn; try done. by apply map_Forall_delete. Qed.

Lemma wf_channels_alter srv key f :
  (forall ch, channels srv !! key = Some ch -> wf_channel (store srv) key ch -> wf_channel (store srv) key (f ch)) ->
  wf_server srv -> wf_server (with_channels srv (alter f key (channels srv))).
Proof.
  intros Hf [H1 H2 H3 H4 H5 H6]. constructor; cbn; try done.
  intros k ch Hk. apply lookup_alter_Some in Hk as [(-> & ch0 & Hc & ->)|[_ Hk]]; [|by eapply H2].
  apply Hf; [done|]. by eapply H2.
Qed.

(** ** Programs that keep the invariant *)

Definition pres {A} (m : M A) : Prop := forall srv, wf_server srv -> wp m (fun _ => wf_server) srv.

Lemma pres_quiet {A} (m : M A) : quiet m -> pres m.
Proof. intros Hq srv H. apply wp_quiet; [done|]. intros a srv' Hc. by eapply wf_core. Qed.

Lemma pres_bind {A B} (m : M A) (f : A -> M B) : pres m -> (forall a, pres (f a)) -> pres (m ≫= f).
Proof. intros Hm Hf srv H. apply wp_bind. eapply wp_mono; [by apply Hm|]. intros a srv' H'. by apply Hf. Qed.

Lemma pres_forM_ {A} (l : list A) f : (forall x, pres (f x)) -> pres (forM_ l f).
Proof. intros Hf srv H. apply wp_forM_; [|done]. intros x srv' _ H'. by apply Hf. Qed.

Lemma pres_update i f : keeps f -> pres (update i f).
Proof. intros Hf srv H. apply wp_update. by apply wf_update_keeps. Qed.

(** A branch: a read of the state, then a program that depends on it. *)
Lemma pres_get {A} (f : Server -> M A) : (forall srv, wf_server srv -> wp (f srv) (fun _ => wf_server) srv) -> pres (get ≫= f).
Proof. intros Hf srv H. apply wp_bind, wp_get. by apply Hf. Qed.

Lemma keeps_id f : (forall s, wf_session s -> wf_session (f s)) -> (forall s, state (f s) = state s) -> keeps f.
Proof. intros H1 H2 s H. split; [auto|]. by rewrite H2. Qed.

Lemma keeps_smodes changes op : keeps (fun s => set_smodes (Apply UserValidator (smodes s) changes).1 (set_isOper op s)).
Proof.
  apply keeps_id; [|done]. intros s (H1 & H2 & H3 & H4 & H5 & H6). unfold wf_session. cbn. split_and!; try done.
  by apply Apply_wf.
Qed.

Lemma wf_set_smodes m s : wf_set m -> wf_session s -> wf_session (set_smodes m s).
Proof. intros Hm (H1 & H2 & H3 & H4 & H5 & H6). unfold wf_session. cbn. by split_and!. Qed.

Lemma wf_set_monitor m s : Z.of_nat (size m) <= monitorLimit -> wf_session s -> wf_session (set_monitor m s).
Proof. intros Hm (H1 & H2 & H3 & H4 & H5 & H6). unfold wf_session. cbn. by split_and!. Qed.

Lemma wf_set_saslBuffer b s : blen b <= maxSASLPayload -> wf_session s -> wf_session (set_saslBuffer b s).
Proof. intros Hm (H1 & H2 & H3 & H4 & H5 & H6). unfold wf_session. cbn. by split_and!. Qed.

Lemma wf_set_nick n s :
  (n = [] /\ state s <> StateRegistered) \/ isValidNick n = true -> wf_session s -> wf_session (set_nick n s).
Proof.
  intros Hn (H1 & H2 & H3 & H4 & H5 & H6). unfold wf_session. cbn. split_and!; try done; [naive_solver|].
  intros Hr. destruct Hn as [[_ ?]|Hn]; [done|]. split; [by intros ->|by apply H6].
Qed.

Lemma wf_set_user u s : state s <> StateRegistered -> wf_session s -> wf_session (set_user u s).
Proof. intros Hu (H1 & H2 & H3 & H4 & H5 & H6). unfold wf_session. cbn. by split_and!. Qed.

Lemma wf_set_state st s :
  (st = StateRegistered -> nick s <> [] /\ user s <> []) -> wf_session s -> wf_session (set_state st s).
Proof. intros Hs (H1 & H2 & H3 & H4 & H5 & H6). unfold wf_session. cbn. by split_and!. Qed.

Lemma wf_session_history t e s :
  wf_session s -> wf_session (set_shistory (<[t := append_history (default [] (shistory s !! t)) e]> (shistory s)) s).
Proof.
  intros (H1 & H2 & H3 & H4 & H5 & H6). unfold wf_session. cbn. split_and!; try done.
  apply map_Forall_insert_2; [|done]. apply append_history_limit.
  destruct (shistory s !! t) as [h|] eqn:E; simpl; [by eapply H3|by vm_compute].
Qed.

(** ** Registration *)

Lemma wf_register i srv :
  wf_server srv -> sessions srv !! ToLower (nick (obj srv i)) = None ->
  state (obj srv i) <> StateRegistered -> nick (obj srv i) <> [] -> user (obj srv i) <> [] ->
  wf_server (with_store (with_sessions srv (<[ToLower (nick (obj srv i)) := i]> (sessions srv)))
                        (alter (set_state StateRegistered) i (store srv))).
Proof.
  intros [H1 H2 H3 H4 H5 H6] Hn Hs Hnk Hu. unfold obj in *. destruct (store srv !! i) as [s|] eqn:Es; [|done].
  simpl in *. constructor; cbn; try done.
  - intros j s' Hj. apply lookup_alter_Some in Hj as [(<- & s0 & Hj & ->)|[_ Hj]]; [|by eapply H1].
    simplify_eq. apply wf_set_state; [done|]. by eapply H1.
  - intros k ch Hk. apply wf_channel_alter. by eapply H2.
  - intros key j Hj. destruct (decide (i = j)) as [<-|Hne].
    + rewrite lookup_alter_eq, Es. by eexists.
    + rewrite lookup_alter_ne by done. apply lookup_insert_Some in Hj as [[_ ->]|[_ Hj]]; [done|by eapply H3].
  - assert (forall key, sessions srv !! key = Some i -> False) as Hfree.
    { intros key Hk. destruct (H3 _ _ Hk) as (s' & Hs' & Er). by simplify_eq. }
    intros key key' j Hj Hj'. apply lookup_insert_Some in Hj as [[<- <-]|[_ Hj]];
      apply lookup_insert_Some in Hj' as [[<- ?]|[_ Hj']]; subst; try done; [by apply Hfree in Hj'|by apply Hfree in Hj|].
    by eapply H4.
  - intros j Hj. destruct (H6 _ Hj) as [s' Hs']. destruct (decide (i = j)) as [<-|].
    + rewrite lookup_alter_eq, Es. by eexists.
    + rewrite lookup_alter_ne by done. by exists s'.
Qed.

Lemma pres_tryRegister i : pres (tryRegister i).
Proof.
  intros srv H. unfold tryRegister. apply wp_bind, wp_the.
  destruct (bool_decide_reflect (state (obj srv i) = StateRegistered)) as [|Hr]; [done|].
  destruct (bool_decide_reflect (state (obj srv i) = StateCapNeg)) as [|Hc]; [done|].
  destruct (seqb_spec (nick (obj srv i)) []) as [|Hn]; [done|].
  destruct (seqb_spec (user (obj srv i)) []) as [|Hu]; [done|]. simpl orb. cbv iota.
  apply wp_bind. unfold Registry_Add. apply wp_bind, wp_get.
  destruct (sessions srv !! _) eqn:Es.
  - apply wp_ret. simpl. apply wp_bind. wp_quiet_step. apply wp_update. apply wf_update; [|by eapply wf_core].
    intros s Hs Hw. assert (state s <> StateRegistered) as Hs'.
    { intros E. apply Hr. rewrite (obj_core _ _ i ltac:(eassumption)). unfold obj. by rewrite Hs. }
    split; [by apply wf_set_nick; [left|]|done].
  - apply wp_bind, wp_modify, wp_ret. cbn [negb]. cbv iota. apply wp_bind, wp_update.
    apply (pres_quiet (A := unit)); [solve_quiet|]. exact (wf_register i srv H Es Hr Hn Hu).
Qed.

Lemma pres_handleNick i msg : pres (handleNick i msg).
Proof.
  unfold handleNick. destruct (Params msg) as [|n ps]; [apply pres_quiet; solve_quiet|].
  destruct (isValidNick n) eqn:Hn; simpl negb; cbv iota; [|apply pres_quiet; solve_quiet].
  apply pres_get. intros srv H. destruct (_ && _); [by apply pres_quiet; [solve_quiet|]|].
  apply pres_bind; [|intros _; apply pres_tryRegister|done].
  apply pres_update, keeps_id; [|done]. intros s Hs. by apply wf_set_nick; [right|].
Qed.

Lemma pres_handleUser i msg : pres (handleUser i msg).
Proof.
  intros srv H. unfold handleUser. apply wp_bind, wp_the.
  destruct (bool_decide_reflect (state (obj srv i) = StateRegistered)) as [|Hr]; [by apply pres_quiet; [solve_quiet|]|].
  destruct (_ <? _); [by apply pres_quiet; [solve_quiet|]|].
  apply wp_bind, wp_update. apply pres_bind; [apply pres_update; by apply keeps_id|intros _; apply pres_tryRegister|].
  apply wf_update; [|done]. intros s Hs Hw. unfold obj in Hr. rewrite Hs in Hr. by split; [apply wf_set_user|].
Qed.

(** ** Capabilities and SASL *)

Lemma keeps_state st : st <> StateRegistered ->
  keeps (fun s => if bool_decide (state s = StateRegistered) then s else set_state st s).
Proof.
  intros Hst s H. destruct (bool_decide_reflect (state s = StateRegistered)) as [|Hn]; [done|].
  split; [by apply wf_set_state|by intros ?].
Qed.

Lemma keeps_sasl b : keeps (fun s => set_saslBuffer [] (set_saslActive b s)).
Proof. apply keeps_id; [|done]. intros s Hs. apply wf_set_saslBuffer; [by vm_compute|exact Hs]. Qed.

Lemma pres_saslFailure i n t : pres (saslFailure i n t).
Proof. apply pres_bind; [apply pres_update, keeps_sasl|]. intros _. apply pres_quiet. solve_quiet. Qed.

Lemma pres_read {A} i (f : Session -> M A) : (forall s, pres (f s)) -> pres (the i ≫= f).
Proof. intros Hf srv H. apply wp_bind, wp_the. by apply Hf. Qed.

Lemma pres_when b m : pres m -> pres (when b m).
Proof. intros Hm. destruct b; [done|]. apply pres_quiet, quiet_ret. Qed.

Lemma pres_handleCAP i msg : pres (handleCAP i msg).
Proof.
  unfold handleCAP. destruct (Params msg) as [|sub args]; [apply pres_quiet; solve_quiet|].
  apply pres_read. intros s. cbv zeta.
  assert (pres (enter_negotiation i)) as Hneg by by apply pres_update, keeps_state.
  if_step; [|if_step; [apply pres_quiet; solve_quiet|if_step; [|if_step; [|apply pres_quiet; solve_quiet]]]].
  - apply pres_bind; [done|]. intros _. apply pres_bind; [|intros _; apply pres_quiet; solve_quiet].
    destruct (Atoi _) as [v [e|]]; [apply pres_quiet, quiet_ret|]. apply pres_when, pres_update. by apply keeps_id.
  - apply pres_bind; [done|]. intros _. if_step; [apply pres_quiet; solve_quiet|].
    apply pres_bind; [by apply pres_update, keeps_id|]. intros _. apply pres_quiet. solve_quiet.
  - apply pres_bind; [apply pres_when, pres_saslFailure|]. intros _.
    apply pres_bind; [|intros _; apply pres_tryRegister]. apply pres_update.
    intros s' H'. destruct (bool_decide_reflect (state s' = StateCapNeg)) as [E|]; [|done].
    split; [by apply wf_set_state|by rewrite E].
Qed.

Lemma pres_login i a : pres (login i a).
Proof.
  unfold login. apply pres_read. intros s. apply pres_bind; [by apply pres_update, keeps_id|]. intros _. cbv zeta.
  apply pres_bind; [apply pres_quiet; solve_quiet|]. intros _.
  apply pres_bind; [|intros _; apply pres_quiet; solve_quiet]. apply pres_when, pres_read. intros s2.
  apply pres_bind; [by apply pres_update, keeps_id|]. intros _. apply pres_quiet. solve_quiet.
Qed.

Lemma pres_handleAuthenticate i msg : pres (handleAuthenticate i msg).
Proof.
  intros srv H. unfold handleAuthenticate. apply wp_bind, wp_the.
  destruct (Params msg) as [|chunk ps]; [by apply pres_saslFailure|].
  if_step; [by apply pres_saslFailure|]. if_step.
  - if_step; [by apply pres_quiet; [solve_quiet|]|]. if_step.
    + apply wp_bind. wp_quiet_step. apply pres_saslFailure. by eapply wf_core.
    + by apply pres_bind; [apply pres_update, keeps_sasl|intros _; apply pres_quiet; solve_quiet|].
  - if_step; [by apply pres_saslFailure|].
    destruct (_ || _) eqn:El; [by apply pres_saslFailure|]. cbv zeta. apply orb_false_iff in El as [_ El].
    rewrite Z.gtb_ltb in El. apply Z.ltb_ge in El. if_step.
    + apply wp_update, wf_update; [|done]. intros s Hs Hw. unfold obj in El. rewrite Hs in El. simpl in El.
      split; [|done]. apply wf_set_saslBuffer; [|done]. unfold obj. rewrite Hs. simpl.
      destruct (seqb chunk (str "+")); [by destruct Hw as (_ & _ & _ & ? & _)|]. unfold blen in *. rewrite length_app. lia.
    + apply pres_bind; [apply pres_update, keeps_sasl|intros _|done].
      destruct (b64_decode _); [|apply pres_quiet; unfold saslFail; solve_quiet].
      destruct (plain_account _); [apply pres_login|apply pres_quiet; unfold saslFail; solve_quiet].
Qed.

(** ** Channels *)

Lemma ordered_prefix_idem p : ordered_prefix (ordered_prefix p) = ordered_prefix p.
Proof.
  unfold ordered_prefix. apply filterb_ext. intros c Hc. apply eq_true_iff_eq. rewrite in_set_spec, elem_of_filterb. tauto.
Qed.

Lemma wf_add_member st key n i p ch :
  key = ToLower (cname ch) -> isValidChannelName (cname ch) = true -> wf_set (cmodes ch) ->
  blen (chistory ch) <= chatHistoryLimit ->
  map_Forall (fun _ m => ordered_prefix (mprefix m) = mprefix m /\ is_Some (st !! mid m)) (members ch) ->
  is_Some (st !! i) -> ordered_prefix p = p -> wf_channel st key (AddMember n i p ch).
Proof.
  intros. unfold wf_channel, AddMember. cbn. split_and!; try done; [apply insert_non_empty|].
  by apply map_Forall_insert_2.
Qed.

Lemma wf_remove_member key n name srv :
  wf_server srv -> key = ToLower name -> wp (remove_member key n name) (fun _ => wf_server) srv.
Proof.
  intros H ->. unfold remove_member. apply wp_bind, wp_modify_channel, wp_bind, wp_get. cbn.
  destruct (channels srv !! ToLower name) as [ch|] eqn:E; cycle 1.
  { rewrite alter_id' by done. rewrite E. apply wp_ret. by destruct H. }
  rewrite lookup_alter_eq, E. simpl. apply wp_when; intros He.
  - apply wp_modify. cbn. rewrite delete_alter_eq. exact (wf_channels_delete srv _ H).
  - apply wf_channels_alter; [|done]. intros ch' E' (H1 & H2 & H3 & H4 & H5 & H6). simplify_eq.
    unfold wf_channel, RemoveMember. cbn. split_and!; try done; [|by apply map_Forall_delete].
    intros E0. unfold is_empty, RemoveMember in He. cbn in He. by rewrite E0 in He.
Qed.

Lemma applyMembershipMode_wf st key ch change ch' :
  wf_channel st key ch -> applyMembershipMode ch change = Some ch' -> wf_channel st key ch'.
Proof.
  intros (H1 & H2 & H3 & H4 & H5 & H6) E. unfold applyMembershipMode in E.
  destruct (prefix_of_mode _) as [p|]; [|done]. destruct (seqb _ _); [done|].
  destruct (members ch !! _) as [m|] eqn:Em; [|done]. destruct (seqb _ (ordered_prefix _)); simplify_eq.
  unfold wf_channel. cbn. split_and!; try done; [apply insert_non_empty|]. apply map_Forall_insert_2; [|done].
  cbn. split; [apply ordered_prefix_idem|]. by apply (H4 _ _ Em).
Qed.

Lemma channel_changes_wf st key changes ch applied :
  wf_channel st key ch -> wf_channel st key (fold_left channel_change changes (ch, applied)).1.
Proof.
  revert ch applied. induction changes as [|c changes IH]; intros ch applied H; [done|].
  cbn [fold_left]. unfold channel_change at 2. destruct (rune_in _ _).
  - destruct (applyMembershipMode ch c) eqn:E; [|by apply IH]. apply IH. by eapply applyMembershipMode_wf.
  - pose proof (Apply_wf ChannelValidator (cmodes ch) [c]) as Hw. destruct (Apply _ _ _) as [ms more]. apply IH.
    destruct H as (H1 & H2 & H3 & H4 & H5 & H6). unfold wf_channel. cbn. split_and!; try done. by apply Hw.
Qed.

(** The state while session [i] runs a command. *)
Definition wf_running (i : nat) (srv : Server) : Prop := wf_server srv /\ is_Some (store srv !! i).

Lemma wf_running_core i a b : same_core a b -> wf_running i a -> wf_running i b.
Proof. intros Hc [H Hi]. split; [by eapply wf_core|]. by destruct Hc as (<- & _). Qed.

Lemma wp_running_quiet {A} i (m : M A) srv : quiet m -> wf_running i srv -> wp m (fun _ => wf_running i) srv.
Proof. intros Hq H. apply wp_quiet; [done|]. intros a srv' Hc. by eapply wf_running_core. Qed.

Lemma join_refused_new n s key : join_refused (newChannel n) s key = None.
Proof. unfold join_refused, HasMember. cbn. done. Qed.

Lemma wf_join i n p ch chanName srv :
  wf_running i srv -> ordered_prefix p = p ->
  (channels srv !! ToLower chanName = Some ch \/ ch = newChannel chanName /\ isValidChannelName chanName = true) ->
  wf_server (with_channels srv (<[ToLower chanName := AddMember n i p ch]> (channels srv))).
Proof.
  intros [H Hi] Hp Hch. apply wf_channels_insert; [|done]. destruct Hch as [E|[-> Hv]].
  - apply (wf_channels _ H) in E as (H1 & H2 & H3 & H4 & H5 & H6). by apply wf_add_member.
  - by apply wf_add_member.
Qed.

Lemma wp_join_one i chanName key srv : wf_running i srv -> wp (join_one i chanName key) (fun _ => wf_running i) srv.
Proof.
  intros H. unfold join_one. if_step; [done|].
  destruct (isValidChannelName chanName) eqn:Hv; simpl negb; cbv iota; [|by apply wp_running_quiet; [solve_quiet|]].
  apply wp_bind. unfold Channels_GetOrCreate, Channels_Get. apply wp_bind, wp_get.
  assert (forall e, ordered_prefix (if e : bool then str "@" else []) = if e then str "@" else []) as Hp by by intros [].
  assert (forall ch p s srv', quiet (_ ← forM_ (Members ch) (fun m =>
            q ← the (mid m);
            Send (mid m) (message (Some (Prefix_of s)) (str "JOIN")
              (chanName :: if capEnabled q CapExtendedJoin
                           then [if seqb (account s) [] then str "*" else account s; realname s] else [])));
          _ ← send_topic i chanName p;
          when (negb (capEnabled srv' CapNoImplicitNames)) (sendNames i p))) as Hq by (intros; solve_quiet).
  destruct (channels srv !! ToLower chanName) as [ch|] eqn:E.
  - apply wp_ret, wp_bind, wp_the. destruct (join_refused _ _ _) as [[num why]|]; [by apply wp_running_quiet; [solve_quiet|]|].
    if_step; [done|]. cbv zeta. apply wp_bind, wp_modify_channel, (wp_running_quiet (A := unit)); [apply Hq|].
    split; [|by destruct H]. rewrite (alter_const_insert _ _ ch) by done. by apply wf_join; [..|left].
  - apply wp_bind, wp_modify, wp_ret, wp_bind, wp_the. rewrite join_refused_new. unfold HasMember at 1. cbn [members newChannel].
    rewrite lookup_empty, bool_decide_eq_false_2 by (by intros [? ?]). cbv zeta.
    apply wp_bind, wp_modify_channel, (wp_running_quiet (A := unit)); [apply Hq|].
    split; [|by destruct H]. cbn [channels with_channels]. rewrite alter_insert_eq.
    rewrite with_channels_twice, obj_with_channels. by apply wf_join; [..|right].
Qed.

(** Programs that keep the invariant keep the running session too. *)
Lemma update_running i j f srv : is_Some (store srv !! i) -> is_Some (store (with_store srv (alter f j (store srv))) !! i).
Proof.
  intros [s Hs]. cbn. destruct (decide (j = i)) as [->|].
  - rewrite lookup_alter_eq, Hs. by eexists.
  - rewrite lookup_alter_ne by done. by exists s.
Qed.

Lemma pres_part_one i reason chanName : pres (part_one i reason chanName).
Proof.
  apply pres_get. intros srv H. cbv zeta. destruct (Channels_Get srv chanName) as [ch|]; [|by apply pres_quiet; [solve_quiet|]].
  if_step; [by apply pres_quiet; [solve_quiet|]|]. apply wp_bind. wp_quiet_step.
  apply wf_remove_member; [by eapply wf_core|done].
Qed.

Lemma pres_handlePart i msg : pres (handlePart i msg).
Proof.
  unfold handlePart. destruct (Params msg); [apply pres_quiet; solve_quiet|]. apply pres_forM_. intros c. apply pres_part_one.
Qed.

Lemma wf_channel_topic st key t b a ch : wf_channel st key ch -> wf_channel st key (set_topic t b a ch).
Proof. by intros. Qed.

Lemma pres_handleTopic i msg : pres (handleTopic i msg).
Proof.
  unfold handleTopic. destruct (Params msg) as [|chanName args]; [apply pres_quiet; solve_quiet|].
  apply pres_get. intros srv H. cbv zeta. destruct (Channels_Get srv chanName) as [ch|]; [|by apply pres_quiet; [solve_quiet|]].
  if_step; [by apply pres_quiet; [solve_quiet|]|]. destruct args as [|t args]; [by apply pres_quiet; [solve_quiet|]|].
  if_step; [by apply pres_quiet; [solve_quiet|]|]. apply wp_bind, wp_modify_channel.
  apply (pres_quiet (A := unit)); [solve_quiet|]. apply wf_channels_alter; [|done]. intros ch' _ Hc. by apply wf_channel_topic.
Qed.

Lemma pres_handleKick i msg : pres (handleKick i msg).
Proof.
  unfold handleKick. destruct (Params msg) as [|chanName [|target args]]; try solve [apply pres_quiet; solve_quiet].
  apply pres_get. intros srv H. cbv zeta. destruct (Channels_Get srv chanName) as [ch|]; [|by apply pres_quiet; [solve_quiet|]].
  destruct (GetMembership _ _); [|by apply pres_quiet; [solve_quiet|]].
  if_step; [by apply pres_quiet; [solve_quiet|]|]. if_step; [by apply pres_quiet; [solve_quiet|]|].
  apply wp_bind. wp_quiet_step. apply wf_remove_member; [by eapply wf_core|done].
Qed.

Lemma pres_handleChannelMode i msg n : pres (handleChannelMode i msg n).
Proof.
  apply pres_get. intros srv H. cbv zeta. unfold Channels_Get.
  destruct (channels srv !! ToLower n) as [ch|] eqn:E; [|by apply pres_quiet; [solve_quiet|]].
  destruct (drop 1 (Params msg)) as [|modes args]; [by apply pres_quiet; [solve_quiet|]|].
  match goal with |- wp (match ?q with _ => _ end) _ _ => destruct q end; [by apply pres_quiet; [solve_quiet|]|].
  destruct (GetMembership _ _); [|by apply pres_quiet; [solve_quiet|]]. if_step; [by apply pres_quiet; [solve_quiet|]|].
  pose proof (channel_changes_wf (store srv) (ToLower n) (ParseModeString modes args) ch []) as Hw.
  destruct (fold_left channel_change _ _) as [ch' applied]. apply wp_bind, wp_modify_channel.
  apply (pres_quiet (A := unit)); [solve_quiet|]. apply wf_channels_alter; [|done]. intros ch2 E2 Hc. simplify_eq. by apply Hw.
Qed.

Lemma pres_handleUserMode i msg t : pres (handleUserMode i msg t).
Proof.
  apply pres_get. intros srv H. cbv zeta. if_step; [by apply pres_quiet; [solve_quiet|]|].
  destruct (Registry_Get srv t) as [dest|]; [|by apply pres_quiet; [solve_quiet|]].
  destruct (drop 1 (Params msg)) as [|modes args]; [by apply pres_quiet; [solve_quiet|]|].
  pose proof (Apply_wf UserValidator (smodes (obj srv dest)) (ParseModeString modes args)) as Hw.
  destruct (Apply _ _ _) as [ms applied]. apply wp_bind, wp_update. apply (pres_quiet (A := unit)); [solve_quiet|].
  apply wf_update; [|done]. intros s Hs Hws. split; [|done]. apply wf_set_smodes; [|done]. apply Hw.
  unfold obj. rewrite Hs. by destruct Hws.
Qed.

Lemma pres_handleMode i msg : pres (handleMode i msg).
Proof.
  unfold handleMode. destruct (Params msg); [apply pres_quiet; solve_quiet|].
  if_step; [apply pres_handleChannelMode|apply pres_handleUserMode].
Qed.

Lemma pres_appendHistory i t e : pres (Session_appendHistory i t e).
Proof. apply pres_update, keeps_id; [|done]. intros s. apply wf_session_history. Qed.

Lemma pres_handlePrivmsg i msg notice : pres (handlePrivmsg i msg notice).
Proof.
  unfold handlePrivmsg. destruct (Params msg) as [|target [|text ps]]; try solve [apply pres_quiet; solve_quiet].
  apply pres_get. intros srv H. cbv zeta. if_step.
  - destruct (Channels_Get srv target) as [ch|]; [|by apply pres_quiet; [solve_quiet|]].
    destruct (send_refused _ _); [by apply pres_quiet; [solve_quiet|]|]. apply wp_bind, wp_modify_channel.
    apply (pres_quiet (A := unit)); [solve_quiet|]. apply wf_channels_alter; [|done].
    intros ch' _ (H1 & H2 & H3 & H4 & H5 & H6). unfold wf_channel. cbn. split_and!; try done. by apply append_history_limit.
  - destruct (Registry_Get srv target); [|by apply pres_quiet; [solve_quiet|]].
    apply pres_bind; [apply pres_appendHistory|intros _|done]. apply pres_bind; [apply pres_appendHistory|intros _].
    apply pres_quiet. solve_quiet.
Qed.

(** ** User state *)

Lemma pres_handleAway i msg : pres (handleAway i msg).
Proof. apply pres_bind; [by apply pres_update, keeps_id|]. intros _. apply pres_quiet. solve_quiet. Qed.

Lemma pres_handleSetname i msg : pres (handleSetname i msg).
Proof.
  unfold handleSetname. destruct (Params msg); [apply pres_quiet; solve_quiet|].
  apply pres_bind; [by apply pres_update, keeps_id|]. intros _. apply pres_quiet. solve_quiet.
Qed.

Lemma monitor_add_limit srv ns st :
  Z.of_nat (size st.1.1.1) <= monitorLimit -> Z.of_nat (size (fold_left (monitor_add srv) ns st).1.1.1) <= monitorLimit.
Proof.
  revert st. induction ns as [|n ns IH]; intros [[[mon on] off] rej] H; [done|]. cbn [fold_left]. apply IH.
  unfold monitor_add. cbn [fst] in H. destruct (isValidNick n); simpl; [|done].
  destruct (bool_decide_reflect (is_Some (mon !! ToLower n))) as [|Hn]; simpl; [by destruct (Registry_Get srv n)|].
  rewrite Z.geb_leb. destruct (Z.leb_spec monitorLimit (Z.of_nat (size mon))); [done|].
  assert (Z.of_nat (size (<[ToLower n:=n]> mon)) <= monitorLimit) as Hs.
  { rewrite map_size_insert_None by (by apply eq_None_not_Some). unfold monitorLimit in *. lia. }
  by destruct (Registry_Get srv n).
Qed.

Lemma monitor_del_limit (ns : list bytes) (mon : gmap bytes bytes) :
  Z.of_nat (size mon) <= monitorLimit -> Z.of_nat (size (fold_left (fun mon n => delete (ToLower n) mon) ns mon)) <= monitorLimit.
Proof.
  revert mon. induction ns as [|n ns IH]; intros mon H; [done|]. cbn [fold_left]. apply IH.
  rewrite map_size_delete. destruct (mon !! ToLower n); unfold id; lia.
Qed.

Lemma pres_handleMonitor i msg : pres (handleMonitor i msg).
Proof.
  assert (forall i, quiet (need_monitor_params i)) as Hq by (intros; apply quiet_SendNumeric).
  unfold handleMonitor. destruct (Params msg) as [|sub args]; [by apply pres_quiet|].
  apply pres_get. intros srv H. cbv zeta. if_step.
  - destruct args as [|nicks args]; [by apply pres_quiet|].
    pose proof (monitor_add_limit srv (Split nicks ","%byte) (monitor (obj srv i), [], [], [])) as Hl.
    destruct (fold_left (monitor_add srv) _ _) as [[[mon on] off] rej]. cbn [fst] in Hl.
    apply wp_bind, wp_update. apply (pres_quiet (A := unit)); [solve_quiet|]. apply wf_update; [|done].
    intros s Hs Hw. split; [|done]. apply wf_set_monitor; [|done]. apply Hl. unfold obj. rewrite Hs. by destruct Hw as (_ & ? & _).
  - if_step; [|if_step; [|by apply pres_quiet; [solve_quiet|]]].
    + destruct args as [|nicks args]; [by apply pres_quiet|]. apply pres_update; [|done]. apply keeps_id; [|done].
      intros s Hs. apply wf_set_monitor; [|done]. apply monitor_del_limit. by destruct Hs as (_ & ? & _).
    + apply pres_update; [|done]. apply keeps_id; [|done]. intros s Hs. by apply wf_set_monitor.
Qed.

Lemma pres_handleQuit i msg : pres (handleQuit i msg).
Proof.
  apply pres_read. intros s. apply pres_bind; [apply pres_quiet; solve_quiet|]. intros _. by apply pres_update, keeps_id.
Qed.

Lemma pres_handleOper i msg : pres (handleOper i msg).
Proof.
  unfold handleOper. destruct (Params msg) as [|name [|pass ps]]; try solve [apply pres_quiet; solve_quiet].
  if_step; [|apply pres_quiet; solve_quiet]. apply pres_bind; [apply pres_update, keeps_smodes|].
  intros _. apply pres_quiet. solve_quiet.
Qed.

Lemma pres_handleKill i msg : pres (handleKill i msg).
Proof.
  apply pres_get. intros srv H. cbv zeta. if_step; [by apply pres_quiet; [solve_quiet|]|].
  destruct (Params msg) as [|n [|r ps]]; try (by apply pres_quiet; [solve_quiet|]).
  destruct (Registry_Get srv n); [|by apply pres_quiet; [solve_quiet|]].
  apply pres_bind; [apply pres_quiet; solve_quiet|intros _; by apply pres_update, keeps_id|done].
Qed.

(** ** Nicknames of registered sessions *)

Lemma pres_Rename a b : pres (Registry_Rename a b).
Proof.
  apply pres_get. intros srv [H1 H2 H3 H4 H5 H6]. cbv zeta. if_step; [done|].
  destruct (sessions srv !! ToLower a) as [i|] eqn:E; [|done]. destruct (sessions srv !! ToLower b) eqn:E'; [done|].
  apply wp_bind, wp_modify, wp_ret. constructor; cbn; try done.
  - intros key j [[<- <-]|[_ [_ Hj]%lookup_delete_Some]]%lookup_insert_Some; by eapply H3.
  - intros key key' j [[<- <-]|[_ [Hk Hj]%lookup_delete_Some]]%lookup_insert_Some
      [[<- ?]|[_ [Hk' Hj']%lookup_delete_Some]]%lookup_insert_Some; subst; try done.
    + destruct Hk'. by eapply H4.
    + destruct Hk. by eapply H4.
    + by eapply H4.
Qed.

Definition rename_member (a b : bytes) (ch : Channel) : Channel :=
  match members ch !! ToLower a with
  | Some m => set_members (<[ToLower b := m]> (delete (ToLower a) (members ch))) ch
  | None => ch
  end.

Lemma rename_member_wf st key a b ch : wf_channel st key ch -> wf_channel st key (rename_member a b ch).
Proof.
  intros (H1 & H2 & H3 & H4 & H5 & H6). unfold rename_member. destruct (members ch !! _) as [m|] eqn:E; [|done].
  unfold wf_channel. cbn. split_and!; try done; [apply insert_non_empty|].
  apply map_Forall_insert_2; [by apply (H4 _ _ E)|by apply map_Forall_delete].
Qed.

Lemma pres_foldM {A B} (f : B -> A -> M B) b l : (forall b x, pres (f b x)) -> pres (foldM f b l).
Proof. intros Hf srv H. apply wp_foldM; [|done]. intros b' x srv' _ H'. by apply Hf. Qed.

Lemma pres_handleNickRegistered i msg : pres (handleNickRegistered i msg).
Proof.
  unfold handleNickRegistered. destruct (Params msg) as [|n ps]; [apply pres_quiet; solve_quiet|].
  destruct (isValidNick n) eqn:Hn; simpl negb; cbv iota; [|apply pres_quiet; solve_quiet].
  apply pres_get. intros srv H. cbv zeta. if_step; [by apply pres_quiet; [solve_quiet|]|].
  apply pres_bind; [apply pres_Rename|intros renamed|done]. if_step; [apply pres_quiet; solve_quiet|].
  apply pres_bind; [|intros _].
  { apply pres_update, keeps_id; [|done]. intros s Hs. by apply wf_set_nick; [right|]. }
  apply pres_bind; [apply pres_quiet; solve_quiet|intros _]. apply pres_bind; [apply pres_quiet; solve_quiet|intros _].
  apply pres_get. intros srv1 H1. apply pres_bind; [|intros _; apply pres_quiet; solve_quiet|done].
  apply pres_foldM. intros no [k c]. apply pres_get. intros srv2 H2.
  destruct (channels srv2 !! k) as [ch|]; [|done]. if_step; [done|].
  apply wp_bind, wp_modify_channel. apply (pres_quiet (A := gset bytes)); [solve_quiet|].
  apply wf_channels_alter; [|done]. intros ch' _. apply rename_member_wf.
Qed.

(** ** Dispatch *)

Create HintDb pres discriminated.
#[local] Hint Constants Opaque : pres.
#[local] Hint Resolve pres_handlePart pres_handleTopic pres_handleKick pres_handleMode pres_handlePrivmsg pres_handleAway
  pres_handleNickRegistered pres_handleMonitor pres_handleOper pres_handleKill pres_handleSetname pres_handleCAP
  pres_handleNick pres_handleUser pres_handleQuit pres_handleAuthenticate : pres.

Lemma wp_pres {A} (m : M A) srv : pres m -> wf_server srv -> wp m (fun _ => wf_server) srv.
Proof. auto. Qed.

(** Closes a branch of the dispatcher. *)
Ltac pres_branch := apply wp_pres; [solve [eauto 2 with pres nocore | apply pres_quiet; solve [solve_quiet]]|assumption].

Lemma wp_handleJoin i msg srv : wf_running i srv -> wp (handleJoin i msg) (fun _ => wf_running i) srv.
Proof.
  intros H. unfold handleJoin. destruct (Params msg) as [|chans args]; [by apply wp_running_quiet; [solve_quiet|]|].
  apply wp_forM_; [|done]. intros [n c] srv' _ H'. by apply wp_join_one.
Qed.

Lemma pres_dispatch_registered i cmd msg srv :
  wf_running i srv -> wp (dispatch_registered i cmd msg) (fun _ => wf_server) srv.
Proof.
  intros H. unfold dispatch_registered. if_step.
  { eapply wp_mono; [by apply wp_handleJoin|]. by intros ? ? []. }
  destruct H as [H _].
  repeat (if_step; [pres_branch|]). pres_branch.
Qed.

Lemma pres_dispatch i msg srv : wf_running i srv -> wp (dispatch i msg) (fun _ => wf_server) srv.
Proof.
  intros H. pose proof H as [Hw _]. unfold dispatch. cbv zeta.
  repeat (if_step; [pres_branch|]).
  apply wp_bind, wp_the. if_step; [by apply pres_quiet; [solve_quiet|]|]. by apply pres_dispatch_registered.
Qed.

Lemma quiet_beginResponse i l : quiet (beginResponse i l).
Proof. by intros srv. Qed.
Lemma quiet_finishResponse i : quiet (finishResponse i).
Proof. intros srv. unfold finishResponse, mbind, M_bind, get. by destruct (response srv !! i). Qed.
Lemma quiet_sendPrepared i ms : quiet (sendPrepared i ms).
Proof. by intros srv. Qed.

Lemma pres_dispatchCommand i msg srv : wf_running i srv -> wp (dispatchCommand i msg) (fun _ => wf_server) srv.
Proof.
  intros H. unfold dispatchCommand. apply wp_bind, wp_the.
  destruct (response_label _ _) as [label|]; [|by apply pres_dispatch].
  apply wp_bind, wp_quiet; [apply quiet_beginResponse|]. intros _ srv1 H1. apply wp_bind.
  eapply wp_mono; [apply pres_dispatch; by eapply wf_running_core|]. intros [] srv2 H2.
  apply pres_bind; [apply pres_quiet, quiet_finishResponse|intros lines; apply pres_quiet, quiet_sendPrepared|done].
Qed.

Lemma pres_handle_line i line srv : wf_running i srv -> wp (handle_line i line) (fun _ => wf_server) srv.
Proof.
  intros H. pose proof H as [Hw Hi]. unfold handle_line. if_step; [by apply pres_quiet; [solve_quiet|]|].
  destruct (Parse line) as [msg| |]; [|done|done]. apply wp_bind, wp_update, pres_dispatchCommand.
  split; [by apply wf_update_keeps; [apply keeps_id|]|by apply update_running].
Qed.

(** ** Connections *)

Lemma wf_connect i h tls sni srv :
  wf_server srv -> store srv !! i = None -> wp (connect i h tls sni) (fun _ => wf_server) srv.
Proof.
  intros [H1 H2 H3 H4 H5 H6] Hi. unfold connect. apply wp_bind, wp_modify, wp_modify. constructor; cbn; try done.
  - apply map_Forall_insert_2; [|done]. unfold wf_session. cbn. split_and!; try done; [|by left].
    destruct tls; [|by split; apply map_Forall_empty]. 
    apply (Apply_wf UserValidator ModeSet_New [ {| Add := true; Mode := rune "z"%byte; Arg := [] |} ]).
    by split; apply map_Forall_empty.
  - intros k ch Hk. destruct (H2 _ _ Hk) as (C1 & C2 & C3 & C4 & C5 & C6). unfold wf_channel. split_and!; try done.
    eapply map_Forall_impl; [exact C4|]. intros k' m (Ho & [s Hs]). split; [done|].
    rewrite lookup_insert_ne by (intros ->; congruence). by exists s.
  - intros key j Hj. destruct (H3 _ _ Hj) as (s & Hs & Hr). exists s.
    rewrite lookup_insert_ne by (intros ->; congruence). done.
  - intros j [->%elem_of_singleton|Hj]%elem_of_union; [rewrite lookup_insert_eq; by eexists|].
    destruct (H6 _ Hj) as [s Hs]. rewrite lookup_insert_ne by (intros ->; congruence). by exists s.
Qed.

Lemma pres_removeSession i : pres (removeSession i).
Proof.
  apply pres_get. intros srv H. cbv zeta. if_step; [done|]. apply wp_bind, wp_modify.
  set (srv1 := with_whowas _ _).
  assert (wf_server srv1) as Hw.
  { destruct H as [H1 H2 H3 H4 H5 H6]. constructor; cbn; try done. destruct (Z.gtb_spec (blen (whowas srv ++
      [ {| wnick := nick (obj srv i); wuser := user (obj srv i); whost := host (obj srv i);
           wrealname := realname (obj srv i); quitAt := now |} ])) 256); [|lia].
    unfold blen in *. rewrite length_drop, length_app in *. simpl in *. lia. }
  clearbody srv1. apply wp_bind.
  eapply wp_mono; [apply (wp_forM_ wf_server); [|exact Hw]|].
  - intros [key ch] srv' Hin H'. if_step; [|done]. apply wp_bind. wp_quiet_step.
    apply wf_remove_member; [by eapply wf_core|]. unfold Channels_All in Hin.
    rewrite iter_perm in Hin. apply elem_of_map_to_list in Hin. by destruct (wf_channels _ H _ _ Hin).
  - intros [] srv' H'. apply wp_bind, wp_modify. apply (pres_quiet (A := unit)); [solve_quiet|].
    destruct H' as [H1 H2 H3 H4 H5 H6]. constructor; cbn; try done.
    + intros key j [_ Hj]%lookup_delete_Some. by eapply H3.
    + intros key key' j [_ Hj]%lookup_delete_Some [_ Hj']%lookup_delete_Some. by eapply H4.
Qed.

Lemma pres_disconnect i : pres (disconnect i).
Proof.
  apply pres_bind; [apply pres_removeSession|]. intros _ srv [H1 H2 H3 H4 H5 H6]. apply wp_modify.
  constructor; cbn; try done. intros j [Hj _]%elem_of_difference. by apply H6.
Qed.
End Invariant.

(** ** Reachable states *)

(** What can happen to the server: a connection, a line of input from a session whose
    connection is served, the end of that connection. *)
Inductive step {HU : GoUnicode} {HI : IterOrder} {cfg : Config} {HB : Bcrypt} : Server -> Server -> Prop :=
| step_connect (env : Env) srv i h tls sni : store srv !! i = None -> step srv (connect i h tls sni srv).2
| step_line (env : Env) srv i line : i ∈ live srv -> step srv (handle_line i line srv).2
| step_disconnect (env : Env) srv i : i ∈ live srv -> step srv (disconnect i srv).2.

Section Reachable.
Context {HU : GoUnicode} {HI : IterOrder} {cfg : Config} {HB : Bcrypt}.

Lemma step_wf srv srv' : step srv srv' -> wf_server srv -> wf_server srv'.
Proof.
  intros Hs H. destruct Hs as [env srv i h tls sni Hi|env srv i line Hi|env srv i Hi].
  - by apply wf_connect.
  - apply pres_handle_line. split; [done|by apply (wf_live _ H)].
  - by apply pres_disconnect.
Qed.

Lemma newServer_wf : wf_server newServer.
Proof. by constructor. Qed.

Lemma rtc_wf a b : rtc step a b -> wf_server a -> wf_server b.
Proof. induction 1; [done|]. intros Ha. by apply IHrtc, (step_wf x). Qed.

(** C1. The invariant of the IRC server: in every state that connections, input and
    disconnections in any order can produce, every channel is registered under its
    lower-cased name, has a valid name, at least one member, rank prefixes in order and
    a bounded history; every nickname of the registry belongs to one registered
    session; nicknames are valid; monitor lists, private histories, SASL buffers and
    the record of past users stay within their limits. *)
Theorem server_invariant srv : rtc step newServer srv -> wf_server srv.
Proof.
  intros H. by eapply rtc_wf, newServer_wf.
Qed.
End Reachable.
