(* ===== verification/IrcAuthority.v ===== *)
(** * Who may change what on the IRC server

    Each relation below holds between the states before and after a command, whatever
    the command is: channels are changed by their operators only, operator status is
    granted by OPER alone, a session that is not registered touches nothing but
    itself. *)

From S2P Require Import Prelude GoStrings GoTime GoEncoding IrcMessage IrcMode IrcNames IrcConst IrcServer IrcHandlers IrcReason IrcInvariant.

(** ** Programs whose effect stays inside a preorder *)

Definition stable (R : Server -> Server -> Prop) {A} (m : M A) : Prop := forall srv, R srv (m srv).2.

Section Stable.
Context (R : Server -> Server -> Prop) {HR : PreOrder R} (Hcore : forall a b, same_core a b -> R a b).

Lemma stable_quiet {A} (m : M A) : quiet m -> stable R m.
Proof. intros Hq srv. apply Hcore, Hq. Qed.
Lemma stable_bind {A B} (m : M A) (f : A -> M B) : stable R m -> (forall a, stable R (f a)) -> stable R (m ≫= f).
Proof.
  intros Hm Hf srv. specialize (Hm srv). unfold mbind, M_bind. destruct (m srv) as [a srv1].
  etransitivity; [exact Hm|apply Hf].
Qed.
Lemma stable_get {A} (f : Server -> M A) : (forall srv, R srv (f srv srv).2) -> stable R (get ≫= f).
Proof. intros Hf srv. apply Hf. Qed.
Lemma stable_read {A} i (f : Session -> M A) : (forall srv, R srv (f (obj srv i) srv).2) -> stable R (the i ≫= f).
Proof. intros Hf srv. apply Hf. Qed.
Lemma stable_when b m : stable R m -> stable R (when b m).
Proof. intros H. destruct b; [done|]. intros srv. reflexivity. Qed.
Lemma stable_forM_ {A} (l : list A) f : (forall x, stable R (f x)) -> stable R (forM_ l f).
Proof. intros H. induction l; cbn [forM_]; [intros srv; reflexivity|]. apply stable_bind; auto. Qed.
Lemma stable_foldM {A B} (f : B -> A -> M B) b (l : list A) : (forall b x, stable R (f b x)) -> stable R (foldM f b l).
Proof. intros H. revert b. induction l; intros b; cbn [foldM]; [intros srv; reflexivity|]. apply stable_bind; auto. Qed.
End Stable.

(** ** Channels *)

Definition same_channels (a b : Server) : Prop := channels a = channels b.
#[export] Instance same_channels_pre : PreOrder same_channels.
Proof. split; [done|]. intros a b c. unfold same_channels. congruence. Qed.
Lemma same_channels_core a b : same_core a b -> same_channels a b.
Proof. by intros (_ & _ & E & _). Qed.
Lemma same_channels_update i f : stable same_channels (update i f).
Proof. by intros srv. Qed.

(** Follows a program that only sends and changes sessions. *)
Ltac chan_step :=
  match goal with
  | |- stable _ (mbind _ _) => apply stable_bind; [apply _|..|intros ?]
  | |- stable _ (update _ _) => apply same_channels_update
  | |- stable _ (when _ _) => apply stable_when; [apply _|]
  | |- stable _ (match ?x with _ => _ end) => destruct x
  | |- stable _ (let _ := _ in _) => cbv zeta
  end.
Ltac solve_channels :=
  repeat first [ solve [apply stable_quiet; [apply same_channels_core|solve [solve_quiet]]] | chan_step ].

Section Authority.
Context {HU : GoUnicode} {HI : IterOrder} {cfg : Config} {env : Env} {HB : Bcrypt}.

Lemma channels_tryRegister i : stable same_channels (tryRegister i).
Proof.
  unfold tryRegister. chan_step; [solve_channels|]. if_step; [solve_channels|]. if_step; [solve_channels|].
  if_step; [solve_channels|]. chan_step; [|solve_channels]. intros srv. unfold Registry_Add, mbind, M_bind, get.
  by destruct (sessions srv !! _).
Qed.
Lemma channels_saslFailure i n t : stable same_channels (saslFailure i n t).
Proof. unfold saslFailure. solve_channels. Qed.
Lemma channels_login i a : stable same_channels (login i a).
Proof. unfold login. solve_channels. Qed.
Lemma channels_handleNick i msg : stable same_channels (handleNick i msg).
Proof. unfold handleNick. solve_channels. apply channels_tryRegister. Qed.
Lemma channels_handleUser i msg : stable same_channels (handleUser i msg).
Proof. unfold handleUser. solve_channels. apply channels_tryRegister. Qed.
Lemma channels_handleCAP i msg : stable same_channels (handleCAP i msg).
Proof. unfold handleCAP, enter_negotiation. solve_channels; [apply channels_saslFailure|apply channels_tryRegister]. Qed.
Lemma channels_handleAuthenticate i msg : stable same_channels (handleAuthenticate i msg).
Proof.
  unfold handleAuthenticate, saslFail. solve_channels; try apply channels_saslFailure. apply channels_login.
Qed.
Lemma channels_handleQuit i msg : stable same_channels (handleQuit i msg).
Proof. unfold handleQuit. solve_channels. Qed.
Lemma channels_handleAway i msg : stable same_channels (handleAway i msg).
Proof. unfold handleAway. solve_channels. Qed.
Lemma channels_handleMonitor i msg : stable same_channels (handleMonitor i msg).
Proof. unfold handleMonitor, need_monitor_params. solve_channels. Qed.
Lemma channels_handleSetname i msg : stable same_channels (handleSetname i msg).
Proof. unfold handleSetname. solve_channels. Qed.
Lemma channels_handleOper i msg : stable same_channels (handleOper i msg).
Proof. unfold handleOper. solve_channels. Qed.
Lemma channels_handleKill i msg : stable same_channels (handleKill i msg).
Proof. unfold handleKill. solve_channels. Qed.
Lemma channels_handleUserMode i msg t : stable same_channels (handleUserMode i msg t).
Proof. unfold handleUserMode. solve_channels. Qed.

(** The membership of a lower-case nickname in the channel of a key. *)
Definition member_of (srv : Server) (k n : bytes) : option Membership := channels srv !! k ≫= fun ch => members ch !! n.

Definition own_key (srv : Server) (i : nat) : bytes := ToLower (nick (obj srv i)).

(** Whether a session may act as operator of a channel. *)
Definition operator (srv : Server) (i : nat) (ch : Channel) : bool :=
  isOper (obj srv i) ||
  match GetMembership ch (nick (obj srv i)) with Some m => is_chanop (mprefix m) | None => false end.

(** What a session without operator rights leaves alone. *)
Record respects (srv srv' : Server) (i : nat) (k : bytes) (ch : Channel) : Prop := {
  others_kept : forall n, n <> own_key srv i -> member_of srv' k n = members ch !! n;
  modes_kept : forall ch', channels srv' !! k = Some ch' -> cmodes ch' = cmodes ch;
  topic_kept : forall ch', channels srv' !! k = Some ch' ->
    topic ch' = topic ch \/ HasMember ch (nick (obj srv i)) = true /\ Has (cmodes ch) (rune "t"%byte) = false;
  own_kept : forall m m', members ch !! own_key srv i = Some m -> member_of srv' k (own_key srv i) = Some m' -> m' = m
}.

(** What it takes to become a member: the checks of JOIN, and no rank. *)
Definition admitted (srv srv' : Server) (i : nat) (k : bytes) (ch : Channel) : Prop :=
  forall m, members ch !! own_key srv i = None -> member_of srv' k (own_key srv i) = Some m ->
    mid m = i /\ mprefix m = [] /\ exists key, join_refused ch (obj srv i) key = None.

Definition lawful (i : nat) (srv srv' : Server) : Prop :=
  forall k ch, channels srv !! k = Some ch ->
    (operator srv i ch = false -> respects srv srv' i k ch) /\ admitted srv srv' i k ch.

(** A channel that kept its members and modes, and its topic. *)
Lemma lawful_kept i srv srv' :
  (forall k ch, channels srv !! k = Some ch -> exists ch', channels srv' !! k = Some ch' /\
     members ch' = members ch /\ cmodes ch' = cmodes ch /\ topic ch' = topic ch) -> lawful i srv srv'.
Proof.
  intros H k ch Hk. destruct (H k ch Hk) as (ch' & E & Em & Ec & Et). unfold admitted, member_of. split.
  - intros _. split; unfold member_of; rewrite E; simpl; rewrite ?Em; intros; simplify_eq; auto.
  - intros m Hn Hm. rewrite E in Hm. simpl in Hm. rewrite Em, Hn in Hm. done.
Qed.

Lemma lawful_same i srv srv' : same_channels srv srv' -> lawful i srv srv'.
Proof. intros E. apply lawful_kept. intros k ch Hk. exists ch. unfold same_channels in E. by rewrite <- E. Qed.

(** ** PRIVMSG and TOPIC *)

Lemma wp_lawful_quiet {A} i (m : M A) srv srv' :
  quiet m -> lawful i srv srv' -> wp m (fun _ => lawful i srv) srv'.
Proof.
  intros Hq H. apply wp_quiet; [done|]. intros _ srv2 (_ & _ & E & _) k ch Hk.
  destruct (H k ch Hk) as [Hr Ha]. split.
  - intros Ho. destruct (Hr Ho) as [R1 R2 R3 R4]. split; unfold member_of in *; rewrite <- E; done.
  - unfold admitted, member_of in *. by rewrite <- E.
Qed.

(** The change of one channel, then output. *)
Lemma wp_lawful_alter {A} i (m : M A) srv key f :
  quiet m ->
  (forall ch, channels srv !! key = Some ch ->
     (operator srv i ch = false -> respects srv (with_channels srv (alter f key (channels srv))) i key ch) /\
     admitted srv (with_channels srv (alter f key (channels srv))) i key ch) ->
  wp (modify_channel key f ≫= fun _ => m) (fun _ => lawful i srv) srv.
Proof.
  intros Hq H. apply wp_bind, wp_modify_channel, wp_lawful_quiet; [done|].
  intros k ch Hk. destruct (decide (key = k)) as [<-|Hne]; [by apply H|]. split.
  - intros _. split; unfold member_of; cbn; rewrite lookup_alter_ne, Hk by done; simpl; intros; simplify_eq; auto.
  - intros mm Hn Hm. unfold member_of in Hm. cbn in Hm. rewrite lookup_alter_ne, Hk in Hm by done. simpl in Hm. congruence.
Qed.

Lemma lawful_privmsg i msg notice srv : wp (handlePrivmsg i msg notice) (fun _ => lawful i srv) srv.
Proof.
  unfold handlePrivmsg. destruct (Params msg) as [|target [|text ps]];
    try solve [apply wp_lawful_quiet; [solve_quiet|by apply lawful_same]].
  apply wp_bind, wp_get. cbv zeta. if_step.
  - destruct (Channels_Get srv target); [|by apply wp_lawful_quiet; [solve_quiet|apply lawful_same]].
    destruct (send_refused _ _); [by apply wp_lawful_quiet; [solve_quiet|apply lawful_same]|].
    apply wp_lawful_alter; [solve_quiet|]. intros ch Hk. apply lawful_kept; [|done]. intros k' ch' Hk'. cbn.
    destruct (decide (ToLower target = k')) as [<-|].
    + rewrite lookup_alter_eq, Hk'. simpl. by eexists.
    + rewrite lookup_alter_ne by done. by exists ch'.
  - apply lawful_same. destruct (Registry_Get srv target); 
      [|apply (stable_quiet same_channels same_channels_core (no_such_nick i target)); solve_quiet].
    apply (stable_bind same_channels); [by intros ?|intros _]. apply (stable_bind same_channels); [by intros ?|intros _].
    apply stable_quiet; [apply same_channels_core|solve_quiet].
Qed.

Lemma lawful_topic i msg srv : wp (handleTopic i msg) (fun _ => lawful i srv) srv.
Proof.
  unfold handleTopic. destruct (Params msg) as [|c args]; [by apply wp_lawful_quiet; [solve_quiet|apply lawful_same]|].
  apply wp_bind, wp_get. cbv zeta. unfold Channels_Get.
  destruct (channels srv !! ToLower c) as [ch|] eqn:E; [|by apply wp_lawful_quiet; [solve_quiet|apply lawful_same]].
  destruct (HasMember ch _) eqn:Hm; simpl negb; cbv iota; [|by apply wp_lawful_quiet; [solve_quiet|apply lawful_same]].
  destruct args as [|t args]; [by apply wp_lawful_quiet; [solve_quiet|apply lawful_same]|].
  destruct (Has (cmodes ch) _ && _) eqn:Ht; [by apply wp_lawful_quiet; [solve_quiet|apply lawful_same]|].
  apply wp_lawful_alter; [solve_quiet|]. intros ch2 E2. simplify_eq. split.
  - intros Ho. split; unfold member_of; cbn; rewrite lookup_alter_eq, E; simpl; intros; simplify_eq; auto.
    right. split; [done|]. unfold operator in Ho. apply orb_false_iff in Ho as [_ Ho].
    rewrite Ho in Ht. by rewrite andb_true_r in Ht.
  - intros m Hn Hm'. unfold member_of in Hm'. cbn in Hm'. rewrite lookup_alter_eq, E in Hm'. simpl in Hm'. congruence.
Qed.

(** ** KICK and PART *)

(** What [remove_member] does to the channels: one membership is gone, and a channel
    that is left with none. *)
Record removed (a b : Server) (key n : bytes) : Prop := {
  removed_store : store b = store a;
  removed_members : forall k x, member_of b k x = if bool_decide (k = key /\ x = n) then None else member_of a k x;
  removed_channels : forall k ch', channels b !! k = Some ch' ->
    exists ch, channels a !! k = Some ch /\ cmodes ch' = cmodes ch /\ topic ch' = topic ch
}.

Lemma remove_member_removed name n srv :
  removed srv (remove_member (ToLower name) n name srv).2 (ToLower name) (ToLower n).
Proof.
  set (key := ToLower name). unfold remove_member, modify_channel, modify, mbind, M_bind, get.
  destruct (channels srv !! key) as [ch|] eqn:E; cycle 1.
  { cbn. rewrite alter_id' by done. rewrite E. cbn. split; [done| |by eauto].
    intros k x. case_bool_decide as Hd; [|done]. destruct Hd as [-> ->]. unfold member_of. cbn. by rewrite E. }
  cbn [channels with_channels]. rewrite lookup_alter_eq, E. cbn [fmap option_fmap option_map]. unfold when.
  destruct (is_empty (RemoveMember n ch)) eqn:He; split; try done; cbn; fold key.
  - intros k x. unfold member_of. cbn. rewrite delete_alter_eq. destruct (decide (k = key)) as [->|Hne].
    + rewrite lookup_delete_eq, E. simpl. case_bool_decide as Hd; [done|]. unfold is_empty, RemoveMember in He. cbn in He.
      apply Z.eqb_eq in He. assert (delete (ToLower n) (members ch) = ∅) as He0 by (apply map_size_empty_iff; lia).
      rewrite <- (lookup_delete_ne _ (ToLower n)) by naive_solver. by rewrite He0.
    + rewrite lookup_delete_ne by done. case_bool_decide; naive_solver.
  - intros k ch' Hk. rewrite delete_alter_eq in Hk. apply lookup_delete_Some in Hk as [_ Hk]. by eauto.
  - intros k x. unfold member_of. cbn. destruct (decide (k = key)) as [->|Hne].
    + rewrite lookup_alter_eq, E. simpl. case_bool_decide as Hd.
      * destruct Hd as [_ ->]. apply lookup_delete_eq.
      * apply lookup_delete_ne. naive_solver.
    + rewrite lookup_alter_ne by done. case_bool_decide; naive_solver.
  - intros k ch' [(<- & ch0 & Hc & ->)|[_ Hk]]%lookup_alter_Some; eauto.
Qed.

Lemma member_of_core a b k n : same_core a b -> member_of b k n = member_of a k n.
Proof. intros (_ & _ & E & _). unfold member_of. by rewrite E. Qed.

Lemma lawful_kick i msg srv : wp (handleKick i msg) (fun _ => lawful i srv) srv.
Proof.
  unfold handleKick. destruct (Params msg) as [|c [|t args]];
    try solve [apply wp_lawful_quiet; [solve_quiet|by apply lawful_same]].
  apply wp_bind, wp_get. cbv zeta. unfold Channels_Get.
  destruct (channels srv !! ToLower c) as [ch|] eqn:E; [|by apply wp_lawful_quiet; [solve_quiet|apply lawful_same]].
  destruct (GetMembership ch _) as [m|] eqn:Em; [|by apply wp_lawful_quiet; [solve_quiet|apply lawful_same]].
  destruct (is_chanop (mprefix m)) eqn:Hop; simpl negb; cbv iota; [|by apply wp_lawful_quiet; [solve_quiet|apply lawful_same]].
  if_step; [by apply wp_lawful_quiet; [solve_quiet|apply lawful_same]|].
  apply wp_bind, wp_quiet; [solve_quiet|]. intros _ srv1 Hc. pose proof Hc as (_ & _ & E1 & _).
  destruct (remove_member_removed c t srv1) as [_ Rm Rc]. intros k ch0 Hk.
  assert (forall x, member_of srv1 k x = members ch0 !! x) as Hx
    by (intros x; rewrite (member_of_core srv) by done; unfold member_of; by rewrite Hk).
  split.
  - intros Ho. destruct (decide (k = ToLower c)) as [->|Hne].
    { simplify_eq. unfold operator in Ho. rewrite Em, Hop, orb_true_r in Ho. done. }
    assert (forall x, member_of (remove_member (ToLower c) t c srv1).2 k x = members ch0 !! x) as Hx'
      by (intros x; rewrite Rm, bool_decide_eq_false_2 by naive_solver; apply Hx).
    assert (forall ch', channels (remove_member (ToLower c) t c srv1).2 !! k = Some ch' ->
              cmodes ch' = cmodes ch0 /\ topic ch' = topic ch0) as Hch.
    { intros ch' Hk'. destruct (Rc _ _ Hk') as (ch1 & Hk1 & ? & ?). rewrite <- E1 in Hk1. by simplify_eq. }
    split; [intros n _; apply Hx'|intros ch' Hk'; by apply Hch|intros ch' Hk'; left; by apply Hch|].
    intros m1 m2 H1 H2. rewrite Hx' in H2. congruence.
  - intros m' Hn Hm. rewrite Rm in Hm. case_bool_decide; [done|]. rewrite Hx in Hm. congruence.
Qed.

(** Leaving changes one's own memberships only. *)
Record leaves (i : nat) (a b : Server) : Prop := {
  leaves_store : store b = store a;
  leaves_others : forall k n, n <> own_key a i -> member_of b k n = member_of a k n;
  leaves_own : forall k, member_of b k (own_key a i) = None \/ member_of b k (own_key a i) = member_of a k (own_key a i);
  leaves_channels : forall k ch', channels b !! k = Some ch' ->
    exists ch, channels a !! k = Some ch /\ cmodes ch' = cmodes ch /\ topic ch' = topic ch
}.

Lemma own_key_store a b i : store b = store a -> own_key b i = own_key a i.
Proof. intros E. unfold own_key, obj. by rewrite E. Qed.

#[local] Instance leaves_pre i : PreOrder (leaves i).
Proof.
  split; [intros a; split; eauto|]. intros a b c [A1 A2 A3 A4] [B1 B2 B3 B4].
  pose proof (own_key_store a b i A1) as Ek. split.
  - congruence.
  - intros k n Hn. rewrite B2, A2 by (rewrite ?Ek; done). done.
  - intros k. rewrite Ek in *. destruct (B3 k) as [->| ->]; [by left|apply A3].
  - intros k ch' Hk. destruct (B4 _ _ Hk) as (ch & Hk' & E1 & E2). destruct (A4 _ _ Hk') as (ch0 & Hk0 & E3 & E4).
    exists ch0. split_and!; congruence.
Qed.

Lemma leaves_core i a b : same_core a b -> leaves i a b.
Proof.
  intros Hc. pose proof Hc as (E1 & _ & E3 & _). split; [done|intros; by apply member_of_core|right; by apply member_of_core|].
  intros k ch' Hk. exists ch'. by rewrite E3.
Qed.

Lemma leaves_part_one i reason c : stable (leaves i) (part_one i reason c).
Proof.
  apply stable_get. intros srv. cbv zeta.
  destruct (Channels_Get srv c) as [ch|]; [|apply (stable_quiet _ (leaves_core i)); solve_quiet].
  if_step; [apply (stable_quiet _ (leaves_core i)); solve_quiet|].
  match goal with |- leaves i srv ((?m ≫= ?f) srv).2 => apply (wp_bind m f (fun _ => leaves i srv)) end.
  apply wp_quiet; [solve_quiet|]. intros _ srv1 Hc. pose proof Hc as (E1 & _ & E3 & _).
  destruct (remove_member_removed c (nick (obj srv i)) srv1) as [R1 R2 R3]. split.
  - congruence.
  - intros k n Hn. rewrite R2, bool_decide_eq_false_2 by naive_solver. by apply member_of_core.
  - intros k. rewrite R2. case_bool_decide; [by left|right]. by apply member_of_core.
  - intros k ch' Hk. destruct (R3 _ _ Hk) as (ch1 & Hk1 & ? & ?). exists ch1. by rewrite E3.
Qed.

Lemma leaves_lawful i srv srv' : leaves i srv srv' -> lawful i srv srv'.
Proof.
  intros [H1 H2 H3 H4] k ch Hk. assert (forall x, member_of srv k x = members ch !! x) as Hx
    by (intros x; unfold member_of; by rewrite Hk). split.
  - intros _. split.
    + intros n Hn. by rewrite H2, Hx.
    + intros ch' Hk'. destruct (H4 _ _ Hk') as (ch0 & ? & ? & ?). by simplify_eq.
    + intros ch' Hk'. left. destruct (H4 _ _ Hk') as (ch0 & ? & ? & ?). by simplify_eq.
    + intros m m' Hm Hm'. destruct (H3 k) as [E|E]; rewrite E in Hm'; [done|]. rewrite Hx in Hm'. congruence.
  - intros m Hn Hm. destruct (H3 k) as [E|E]; rewrite E in Hm; [done|]. rewrite Hx in Hm. congruence.
Qed.

Lemma lawful_part i msg srv : wp (handlePart i msg) (fun _ => lawful i srv) srv.
Proof.
  unfold handlePart. destruct (Params msg) as [|cs args]; [by apply wp_lawful_quiet; [solve_quiet|apply lawful_same]|].
  apply leaves_lawful. apply (stable_forM_ (leaves i)). intros c. apply leaves_part_one.
Qed.

(** ** JOIN *)

(** A channel before and after a session joined it, or did not. *)
Definition joined (i : nat) (s : Session) (ch ch' : Channel) : Prop :=
  cmodes ch' = cmodes ch /\ topic ch' = topic ch /\
  (members ch' = members ch \/
   members ch !! ToLower (nick s) = None /\ (exists key, join_refused ch s key = None) /\
   members ch' = <[ToLower (nick s) := {| mid := i; mprefix := if is_empty ch then str "@" else [] |}]> (members ch)).

Definition joins (i : nat) (a b : Server) : Prop :=
  store b = store a /\
  forall k ch, channels a !! k = Some ch -> exists ch', channels b !! k = Some ch' /\ joined i (obj a i) ch ch'.

Lemma joined_refl i s ch : joined i s ch ch.
Proof. split_and!; auto. Qed.

Lemma join_refused_ext ch ch' s key :
  cmodes ch' = cmodes ch -> members ch' = members ch -> join_refused ch' s key = join_refused ch s key.
Proof. intros Ec Em. unfold join_refused, HasMember. by rewrite Ec, Em. Qed.

Lemma joined_trans i s a b c : joined i s a b -> joined i s b c -> joined i s a c.
Proof.
  intros (A1 & A2 & A3) (B1 & B2 & B3). split_and!; [congruence..|].
  destruct A3 as [A3|(A3 & A4 & A5)].
  - destruct B3 as [B3|(B3 & [key B4] & B5)]; [left; congruence|right]. split_and!.
    + congruence.
    + exists key. by rewrite <- (join_refused_ext a b).
    + rewrite B5. unfold is_empty. by rewrite A3.
  - right. destruct B3 as [B3|(B3 & _)]; [split_and!; congruence|]. by rewrite A5, lookup_insert_eq in B3.
Qed.

#[local] Instance joins_pre i : PreOrder (joins i).
Proof.
  split; [intros a; split; [done|]; eauto using joined_refl|]. intros a b c [A1 A2] [B1 B2]. split; [congruence|].
  intros k ch Hk. destruct (A2 _ _ Hk) as (ch1 & Hk1 & J1). destruct (B2 _ _ Hk1) as (ch2 & Hk2 & J2).
  exists ch2. split; [done|]. unfold obj in J2. rewrite A1 in J2. by eapply joined_trans.
Qed.

Lemma joins_core i a b : same_core a b -> joins i a b.
Proof. intros (E1 & _ & E3 & _). split; [done|]. intros k ch Hk. exists ch. rewrite <- E3. auto using joined_refl. Qed.

Lemma joins_join_one i c key : stable (joins i) (join_one i c key).
Proof.
  intros srv. assert (wp (join_one i c key) (fun _ => joins i srv) srv); [|done]. unfold join_one.
  if_step; [apply wp_ret; reflexivity|]. if_step; [apply (stable_quiet _ (joins_core i)); solve_quiet|].
  apply wp_bind. unfold Channels_GetOrCreate, Channels_Get. apply wp_bind, wp_get.
  assert (forall A (m : M A) srv', quiet m -> joins i srv srv' -> wp m (fun _ => joins i srv) srv') as Hq.
  { intros A m srv' Hq Hj. unfold wp. etransitivity; [exact Hj|]. apply joins_core, Hq. }
  destruct (channels srv !! ToLower c) as [ch|] eqn:E.
  - apply wp_ret, wp_bind, wp_the.
    destruct (join_refused ch (obj srv i) key) as [[num why]|] eqn:Er; [by apply Hq; [solve_quiet|reflexivity]|].
    destruct (HasMember ch (nick (obj srv i))) eqn:Hm; [apply wp_ret; reflexivity|]. cbv zeta. apply wp_bind, wp_modify_channel, Hq; [solve_quiet|].
    split; [done|]. intros k ch0 Hk. cbn. destruct (decide (ToLower c = k)) as [<-|Hne].
    + rewrite lookup_alter_eq, Hk. simplify_eq. simpl. eexists. split; [done|]. split_and!; try done. right.
      split_and!; [|by exists key|done]. unfold HasMember in Hm. apply bool_decide_eq_false in Hm. by apply eq_None_not_Some.
    + rewrite lookup_alter_ne by done. exists ch0. auto using joined_refl.
  - apply wp_bind, wp_modify, wp_ret, wp_bind, wp_the. rewrite join_refused_new. if_step; cbv zeta.
    + apply wp_ret. split; [done|]. intros k ch0 Hk. cbn. exists ch0.
      rewrite lookup_insert_ne by (intros <-; congruence). auto using joined_refl.
    + apply wp_bind, wp_modify_channel, Hq; [solve_quiet|]. split; [done|]. intros k ch0 Hk. cbn. exists ch0.
      assert (ToLower c <> k) by (intros <-; congruence). rewrite lookup_alter_ne, lookup_insert_ne by done. auto using joined_refl.
Qed.

Lemma joins_lawful i srv srv' : wf_server srv -> joins i srv srv' -> lawful i srv srv'.
Proof.
  intros Hw [_ H] k ch Hk. destruct (H k ch Hk) as (ch' & Hk' & Ec & Et & Hm).
  assert (is_empty ch = false) as He.
  { destruct (wf_channels _ Hw _ _ Hk) as (_ & _ & Hne & _). unfold is_empty. apply Z.eqb_neq. intros Hz. apply Hne.
    apply map_size_empty_iff. lia. }
  split.
  - intros _. split; unfold member_of; rewrite Hk'; simpl; intros; simplify_eq; auto.
    + destruct Hm as [->|(_ & _ & ->)]; [done|]. by rewrite lookup_insert_ne.
    + destruct Hm as [Hm|(Hn & _)]; unfold own_key in *; congruence.
  - intros m Hn Hm'. unfold member_of in Hm'. rewrite Hk' in Hm'. simpl in Hm'.
    destruct Hm as [Hm|(_ & Hj & Hm)]; [congruence|]. rewrite Hm in Hm'. unfold own_key in Hm'.
    rewrite lookup_insert_eq, He in Hm'. by simplify_eq.
Qed.

Lemma lawful_join i msg srv : wf_server srv -> wp (handleJoin i msg) (fun _ => lawful i srv) srv.
Proof.
  intros Hw. unfold handleJoin. destruct (Params msg) as [|cs args]; [by apply wp_lawful_quiet; [solve_quiet|apply lawful_same]|].
  apply joins_lawful; [done|]. apply (stable_forM_ (joins i)). intros [n c]. apply joins_join_one.
Qed.

(** ** MODE *)

Lemma channel_change_absent n changes ch applied :
  members ch !! n = None -> members (fold_left channel_change changes (ch, applied)).1 !! n = None.
Proof.
  revert ch applied. induction changes as [|c changes IH]; intros ch applied H; [done|].
  cbn [fold_left]. unfold channel_change at 2. destruct (rune_in _ _).
  - destruct (applyMembershipMode ch c) as [ch'|] eqn:E; [|by apply IH]. apply IH. unfold applyMembershipMode in E.
    destruct (prefix_of_mode _); [|done]. destruct (seqb _ _); [done|].
    destruct (members ch !! ToLower (Arg c)) eqn:Em; [|done]. destruct (seqb _ (ordered_prefix _)); simplify_eq. cbn.
    rewrite lookup_insert_ne by (intros <-; congruence). done.
  - destruct (Apply _ _ _) as [ms more]. by apply IH.
Qed.

Lemma lawful_channel_mode i msg c srv : wp (handleChannelMode i msg c) (fun _ => lawful i srv) srv.
Proof.
  unfold handleChannelMode. apply wp_bind, wp_get. cbv zeta. unfold Channels_Get.
  destruct (channels srv !! ToLower c) as [ch|] eqn:E; [|by apply wp_lawful_quiet; [solve_quiet|apply lawful_same]].
  destruct (drop 1 (Params msg)) as [|modes args]; [by apply wp_lawful_quiet; [solve_quiet|apply lawful_same]|].
  match goal with |- wp (match ?q with _ => _ end) _ _ => destruct q end; [by apply wp_lawful_quiet; [solve_quiet|apply lawful_same]|].
  destruct (GetMembership ch _) as [m|] eqn:Em; [|by apply wp_lawful_quiet; [solve_quiet|apply lawful_same]].
  destruct (negb _ && negb _) eqn:Hop; [by apply wp_lawful_quiet; [solve_quiet|apply lawful_same]|].
  pose proof (channel_change_absent (own_key srv i) (ParseModeString modes args) ch []) as Habs.
  destruct (fold_left channel_change _ _) as [ch' applied]. apply wp_lawful_alter; [solve_quiet|].
  intros ch0 E0. simplify_eq. split.
  - intros Ho. unfold operator in Ho. rewrite Em in Ho. apply orb_false_iff in Ho as [Ho1 Ho2]. by rewrite Ho1, Ho2 in Hop.
  - intros m' Hn Hm. unfold member_of in Hm. cbn in Hm. rewrite lookup_alter_eq, E in Hm. simpl in Hm.
    specialize (Habs Hn). simpl in Habs. congruence.
Qed.

(** ** Every command *)

Lemma wp_stable_lawful {A} i (m : M A) srv : stable same_channels m -> wp m (fun _ => lawful i srv) srv.
Proof. intros H. apply lawful_same, H. Qed.

Create HintDb chans discriminated.
#[local] Hint Constants Opaque : chans.
#[local] Hint Resolve channels_handleNick channels_handleUser channels_handleCAP channels_handleAuthenticate channels_handleQuit
  channels_handleAway channels_handleMonitor channels_handleSetname channels_handleOper channels_handleKill : chans.
Ltac lawful_branch :=
  apply wp_stable_lawful; solve [eauto 2 with chans nocore | apply stable_quiet; [apply same_channels_core|solve [solve_quiet]]].

Lemma dispatch_lawful i msg srv : wf_server srv -> wp (dispatch i msg) (fun _ => lawful i srv) srv.
Proof.
  intros Hw. unfold dispatch. cbv zeta.
  if_step; [lawful_branch|]. if_step; [lawful_branch|]. destruct (seqb (ToUpper (Command msg)) (str "NICK")) eqn:En; [lawful_branch|].
  repeat (if_step; [lawful_branch|]). apply wp_bind, wp_the. if_step; [lawful_branch|].
  unfold dispatch_registered. rewrite En.
  repeat (if_step; [first [lawful_branch | lazymatch goal with
    | |- wp (handleJoin _ _) _ _ => by apply lawful_join
    | |- wp (handlePart _ _) _ _ => apply lawful_part
    | |- wp (handleTopic _ _) _ _ => apply lawful_topic
    | |- wp (handleKick _ _) _ _ => apply lawful_kick
    | |- wp (handlePrivmsg _ _ _) _ _ => apply lawful_privmsg
    | |- wp (handleMode _ _) _ _ => unfold handleMode; destruct (Params msg); [lawful_branch|];
        if_step; [apply lawful_channel_mode|apply wp_stable_lawful, channels_handleUserMode]
    end]|]).
  lawful_branch.
Qed.

(** C2. Only operators change a channel: whatever command a session runs, if it is
    neither operator of the channel nor of the server, then every other member keeps
    their membership and rank, its own rank does not rise, the modes stay, and the
    topic changes only if the session is on the channel and [+t] is not set. *)
Theorem channel_authority i msg srv k ch :
  wf_server srv -> channels srv !! k = Some ch -> operator srv i ch = false ->
  respects srv (dispatch i msg srv).2 i k ch.
Proof. intros Hw Hk Ho. by apply (dispatch_lawful i msg srv Hw k ch Hk). Qed.

End Authority.
