(* ===== verification/IrcSessions.v ===== *)
(** * What commands do to sessions, and what sessions are sent

    Operator status, the confinement of sessions that are not registered, the tags a
    client receives, and labelled responses. *)

From S2P Require Import Prelude GoStrings GoTime GoEncoding IrcMessage IrcMode IrcNames IrcConst IrcServer IrcHandlers IrcReason IrcInvariant IrcAuthority.

(** ** Server operators *)

Definition no_new_oper (a b : Server) : Prop := forall j, isOper (obj b j) = true -> isOper (obj a j) = true.
#[export] Instance no_new_oper_pre : PreOrder no_new_oper.
Proof. split; [by intros a j|]. intros a b c H1 H2 j Hj. auto. Qed.
Lemma no_new_oper_core a b : same_core a b -> no_new_oper a b.
Proof. intros Hc j. by rewrite (obj_core _ _ j Hc). Qed.

Lemma obj_update srv i f j :
  obj (with_store srv (alter f i (store srv))) j = if bool_decide (i = j /\ is_Some (store srv !! i)) then f (obj srv j) else obj srv j.
Proof.
  unfold obj. cbn. destruct (decide (i = j)) as [<-|Hne].
  - rewrite lookup_alter_eq. destruct (store srv !! i); simpl; case_bool_decide as H; try done.
    + by destruct H.
    + by destruct H as [_ [? ?]].
  - rewrite lookup_alter_ne by done. rewrite bool_decide_eq_false_2; [done|naive_solver].
Qed.

Lemma no_new_oper_update i f : (forall s, isOper (f s) = isOper s) -> stable no_new_oper (update i f).
Proof.
  intros Hf srv j. unfold update, modify. cbn [snd]. rewrite obj_update. case_bool_decide; [by rewrite Hf|done].
Qed.
Lemma no_new_oper_store m : (forall srv, store (m srv) = store srv) -> stable no_new_oper (modify m).
Proof. intros Hm srv j. unfold obj, modify. cbn [snd]. by rewrite Hm. Qed.

Ltac oper_step :=
  match goal with
  | |- stable _ (mbind _ _) => apply stable_bind; [apply _|..|intros ?]
  | |- stable _ (update _ _) => apply no_new_oper_update; intros ?; repeat case_match; reflexivity
  | |- stable _ (modify_channel _ _) => apply no_new_oper_store; reflexivity
  | |- stable _ (modify _) => apply no_new_oper_store; reflexivity
  | |- stable _ (when _ _) => apply stable_when; [apply _|]
  | |- stable _ (forM_ _ _) => apply stable_forM_; [apply _|intros ?]
  | |- stable _ (foldM _ _ _) => apply stable_foldM; [apply _|intros ? ?]
  | |- stable _ (match ?x with _ => _ end) => destruct x
  | |- stable _ (let _ := _ in _) => cbv zeta
  end.
Ltac solve_oper :=
  repeat first [ solve [apply stable_quiet; [apply no_new_oper_core|solve [solve_quiet]]] | oper_step ].

(** Decides comparisons of string literals. *)
Ltac seqb_literals :=
  repeat match goal with |- context [seqb (str ?a) (str ?b)] =>
    let r := eval vm_compute in (seqb (str a) (str b)) in change (seqb (str a) (str b)) with r end; cbv iota.

Section Sessions.
Context {HU : GoUnicode} {HI : IterOrder} {cfg : Config} {env : Env} {HB : Bcrypt}.

Lemma oper_tryRegister i : stable no_new_oper (tryRegister i).
Proof. unfold tryRegister, Registry_Add. solve_oper. Qed.
Lemma oper_login i a : stable no_new_oper (login i a).
Proof. unfold login. solve_oper. Qed.
Lemma oper_handleNick i msg : stable no_new_oper (handleNick i msg).
Proof. unfold handleNick. solve_oper. apply oper_tryRegister. Qed.
Lemma oper_handleUser i msg : stable no_new_oper (handleUser i msg).
Proof. unfold handleUser. solve_oper. apply oper_tryRegister. Qed.
Lemma oper_handleCAP i msg : stable no_new_oper (handleCAP i msg).
Proof. unfold handleCAP, enter_negotiation, saslFailure. solve_oper. apply oper_tryRegister. Qed.
Lemma oper_handleAuthenticate i msg : stable no_new_oper (handleAuthenticate i msg).
Proof. unfold handleAuthenticate, saslFailure, saslFail. solve_oper. apply oper_login. Qed.
Lemma oper_handleQuit i msg : stable no_new_oper (handleQuit i msg).
Proof. unfold handleQuit. solve_oper. Qed.
Lemma oper_remove_member k n c : stable no_new_oper (remove_member k n c).
Proof. unfold remove_member, Channels_Remove. solve_oper. Qed.
Lemma oper_handleJoin i msg : stable no_new_oper (handleJoin i msg).
Proof. unfold handleJoin, join_one, Channels_GetOrCreate. solve_oper. Qed.
Lemma oper_handlePart i msg : stable no_new_oper (handlePart i msg).
Proof. unfold handlePart, part_one. solve_oper. apply oper_remove_member. Qed.
Lemma oper_handleTopic i msg : stable no_new_oper (handleTopic i msg).
Proof. unfold handleTopic. solve_oper. Qed.
Lemma oper_handleKick i msg : stable no_new_oper (handleKick i msg).
Proof. unfold handleKick. solve_oper. apply oper_remove_member. Qed.
Lemma oper_handleMode i msg : stable no_new_oper (handleMode i msg).
Proof. unfold handleMode, handleChannelMode, handleUserMode. solve_oper. Qed.
Lemma oper_handlePrivmsg i msg b : stable no_new_oper (handlePrivmsg i msg b).
Proof. unfold handlePrivmsg, Session_appendHistory. solve_oper. Qed.
Lemma oper_handleNickRegistered i msg : stable no_new_oper (handleNickRegistered i msg).
Proof. unfold handleNickRegistered, Registry_Rename. solve_oper. Qed.
Lemma oper_handleAway i msg : stable no_new_oper (handleAway i msg).
Proof. unfold handleAway. solve_oper. Qed.
Lemma oper_handleMonitor i msg : stable no_new_oper (handleMonitor i msg).
Proof. unfold handleMonitor, need_monitor_params. solve_oper. Qed.
Lemma oper_handleSetname i msg : stable no_new_oper (handleSetname i msg).
Proof. unfold handleSetname. solve_oper. Qed.
Lemma oper_handleKill i msg : stable no_new_oper (handleKill i msg).
Proof. unfold handleKill. solve_oper. Qed.

Create HintDb opers discriminated.
#[local] Hint Constants Opaque : opers.
#[local] Hint Resolve oper_handleNick oper_handleUser oper_handleCAP oper_handleAuthenticate oper_handleQuit oper_handleJoin
  oper_handlePart oper_handleTopic oper_handleKick oper_handleMode oper_handlePrivmsg oper_handleNickRegistered oper_handleAway
  oper_handleMonitor oper_handleSetname oper_handleKill : opers.
Ltac oper_branch :=
  solve [eauto 2 with opers nocore | apply stable_quiet; [apply no_new_oper_core|solve [solve_quiet]]].

Lemma dispatch_no_new_oper i msg :
  seqb (ToUpper (Command msg)) (str "OPER") = false -> stable no_new_oper (dispatch i msg).
Proof.
  intros Ho. unfold dispatch. cbv zeta. repeat (if_step; [oper_branch|]).
  apply stable_bind; [apply _|oper_branch|intros s]. if_step; [oper_branch|]. unfold dispatch_registered. rewrite Ho.
  repeat (if_step; [oper_branch|]). oper_branch.
Qed.

(** A command whose parameters are the name and password of a configured operator. *)
Definition oper_credentials (msg : Message) : Prop :=
  exists name pass rest hash, Params msg = name :: pass :: rest /\ Opers !! name = Some hash /\ bcryptCheck hash pass = true.

(** C11. Operator status comes from OPER alone: a session that is a server operator
    after a command and was not before is the one that sent the command, and the
    command is OPER with the name of a configured operator and the matching password. *)
Theorem oper_authority i msg srv j :
  isOper (obj srv j) = false -> isOper (obj (dispatch i msg srv).2 j) = true ->
  j = i /\ ToUpper (Command msg) = str "OPER" /\
  oper_credentials msg.
Proof.
  intros Hn Ho. unfold oper_credentials. destruct (seqb_spec (ToUpper (Command msg)) (str "OPER")) as [E|Hne]; cycle 1.
  { apply (dispatch_no_new_oper i msg) in Ho; [congruence|by apply seqb_ne]. }
  revert Ho. unfold dispatch. rewrite E. cbv zeta. seqb_literals.
  change ((the i ≫= ?f) srv) with (f (obj srv i) srv). cbv beta.
  destruct (negb _); [intros Ho; apply (no_new_oper_core srv) in Ho; [congruence|apply quiet_SendNumeric]|].
  unfold dispatch_registered. seqb_literals. unfold handleOper.
  assert (forall n ps, isOper (obj (SendNumeric i n ps srv).2 j) = true -> False) as Hq.
  { intros n ps H. apply (no_new_oper_core srv) in H; [congruence|apply quiet_SendNumeric]. }
  destruct (Params msg) as [|name [|pass rest]]; [by intros ?%Hq..|].
  destruct (Opers !! name) as [hash|] eqn:Eo; [|by intros ?%Hq].
  unfold checkPassword. destruct (bcryptCheck hash pass) eqn:Eb; [|by intros ?%Hq]. intros Ho.
  split; [|split; [done|by exists name, pass, rest, hash]]. destruct (decide (j = i)) as [|Hne]; [done|].
  exfalso. revert Ho. apply not_true_iff_false.
  match goal with |- isOper (obj ((?m ≫= ?f) srv).2 j) = false =>
    apply (wp_bind m f (fun _ srv' => isOper (obj srv' j) = false)) end.
  apply wp_update, wp_quiet; [solve_quiet|]. intros _ srv2 Hc. rewrite <- (obj_core _ _ j Hc), obj_update.
  rewrite bool_decide_eq_false_2; [done|naive_solver].
Qed.

(** ** Sessions that are not registered *)

(** Nothing changed but the session itself, which may have entered the registry. *)
Record confined (i : nat) (a b : Server) : Prop := {
  confined_channels : channels b = channels a;
  confined_store : forall j, j <> i -> store b !! j = store a !! j;
  confined_kept : forall k j, sessions a !! k = Some j -> sessions b !! k = Some j;
  confined_new : forall k j, sessions b !! k = Some j -> sessions a !! k = Some j \/ j = i;
  confined_whowas : whowas b = whowas a
}.
#[local] Instance confined_pre i : PreOrder (confined i).
Proof.
  split; [intros a; split; auto|]. intros a b c [A1 A2 A3 A4 A5] [B1 B2 B3 B4 B5]. split; [congruence|..|congruence].
  - intros j Hj. rewrite B2 by done. by apply A2.
  - auto.
  - intros k j Hj. destruct (B4 _ _ Hj) as [Hj'|]; auto.
Qed.
Lemma confined_core i a b : same_core a b -> confined i a b.
Proof. intros (E1 & E2 & E3 & E4 & _). split; rewrite <- ?E1, <- ?E2, <- ?E3, <- ?E4; auto. Qed.
Lemma confined_update i f : stable (confined i) (update i f).
Proof. intros srv. split; cbn; auto. intros j Hj. by rewrite lookup_alter_ne. Qed.
Lemma confined_add i : stable (confined i) (Registry_Add i).
Proof.
  intros srv. unfold Registry_Add, mbind, M_bind, get, modify. destruct (sessions srv !! _) eqn:E; cbn; [reflexivity|].
  split; cbn; auto.
  - intros k j Hk. rewrite lookup_insert_ne by (intros <-; congruence). done.
  - intros k j [[_ ?]|[_ ?]]%lookup_insert_Some; auto.
Qed.

Ltac confined_step :=
  match goal with
  | |- stable _ (mbind _ _) => apply stable_bind; [apply _|..|intros ?]
  | |- stable _ (update _ _) => apply confined_update
  | |- stable _ (Registry_Add _) => apply confined_add
  | |- stable _ (when _ _) => apply stable_when; [apply _|]
  | |- stable _ (match ?x with _ => _ end) => destruct x
  | |- stable _ (let _ := _ in _) => cbv zeta
  end.
Ltac solve_confined :=
  repeat first [ solve [apply stable_quiet; [apply confined_core|solve [solve_quiet]]] | confined_step ].

Lemma confined_tryRegister i : stable (confined i) (tryRegister i).
Proof. unfold tryRegister. solve_confined. Qed.

(** C33. Before registration a session reaches nothing but itself: whatever it sends, the
    channels, every other session and the entries of the registry stay as they are; at
    most the session itself is entered in the registry. *)
Theorem unregistered_confined i msg srv :
  state (obj srv i) <> StateRegistered -> confined i srv (dispatch i msg srv).2.
Proof.
  intros Hs. assert (forall {A} (m : M A), stable (confined i) m -> confined i srv (m srv).2) as Hc by (intros A m H; apply H).
  unfold dispatch. cbv zeta.
  if_step; [apply Hc; unfold handleCAP, enter_negotiation, saslFailure; solve_confined; apply confined_tryRegister|].
  if_step; [apply Hc; solve_confined|].
  if_step; [apply Hc; unfold handleNick; solve_confined; apply confined_tryRegister|].
  if_step; [apply Hc; unfold handleUser; solve_confined; apply confined_tryRegister|].
  if_step; [apply Hc; unfold handleQuit; solve_confined|].
  if_step; [apply Hc; solve_confined|]. if_step; [apply Hc; solve_confined|].
  if_step; [apply Hc; unfold handleAuthenticate, saslFailure, saslFail, login; solve_confined|].
  change ((the i ≫= ?f) srv) with (f (obj srv i) srv). cbv beta.
  rewrite bool_decide_eq_false_2 by done. cbn [negb]. apply Hc. solve_confined.
Qed.

(** ** Tags *)

Lemma add_tag_get k v t k' :
  Tags_Get (add_tag k v t) k' = match Tags_Get t k' with Some x => Some x | None => if seqb k' k then Some v else None end.
Proof.
  unfold add_tag, Tags_Get. destruct t as [m|]; simpl.
  - destruct (m !! k) eqn:E; destruct (seqb_spec k' k) as [->|Hne]; rewrite ?E, ?lookup_insert_eq, ?lookup_insert_ne by done;
      try done; by destruct (m !! k').
  - rewrite lookup_empty. destruct (seqb_spec k' k) as [->|Hne]; [apply lookup_insert_eq|]. by rewrite lookup_insert_ne.
Qed.

Lemma Tags_Get_filter (P : bytes * bytes -> Prop) `{!forall x, Decision (P x)} (t : Tags) k v :
  Tags_Get (filter P <$> t) k = Some v <-> Tags_Get t k = Some v /\ P (k, v).
Proof. destruct t as [m|]; simpl; [apply map_lookup_filter_Some|naive_solver]. Qed.

(** Whether a session enabled the capability of a tag. *)
Definition negotiated (s : Session) (tag : bytes) : bool := capEnabled s (tag_cap tag).

(** A client gets exactly the tags it negotiated: in a message prepared for a
    session every tag belongs to a capability the session enabled, every tag of the
    original that does is kept with its value, the time is added for clients of
    server-time, and source, command and parameters are the original's. *)
Theorem prepare_tags srv s msg :
  let out := prepare srv s msg in
  (forall k v, Tags_Get (MTags out) k = Some v -> negotiated s k = true) /\
  (forall k v, Tags_Get (MTags msg) k = Some v -> negotiated s k = true -> Tags_Get (MTags out) k = Some v) /\
  (capEnabled s CapServerTime = true -> is_Some (Tags_Get (MTags out) (str "time"))) /\
  MPrefix out = MPrefix msg /\ Command out = Command msg /\ Params out = Params msg.
Proof.
  cbv zeta. unfold prepare, negotiated. if_step.
  - set (t1 := if capEnabled s CapServerTime then _ else _).
    set (t2 := match MPrefix msg with Some p => _ | None => t1 end).
    assert (forall k v, Tags_Get (MTags msg) k = Some v -> Tags_Get t1 k = Some v) as H1.
    { intros k v Hk. subst t1. if_step; [|done]. by rewrite add_tag_get, Hk. }
    assert (forall k v, Tags_Get t1 k = Some v -> Tags_Get t2 k = Some v) as H2.
    { intros k v Hk. subst t2. repeat case_match; try done. by rewrite add_tag_get, Hk. }
    clearbody t2. cbn [with_tags MTags MPrefix Command Params]. split_and!; try done.
    + intros k v [_ Hc]%Tags_Get_filter. done.
    + intros k v Hk Hc. apply Tags_Get_filter. auto.
    + intros Hc. assert (exists v, Tags_Get t1 (str "time") = Some v) as [v Hv].
      { subst t1. rewrite Hc, add_tag_get. destruct (Tags_Get _ _); eauto. }
      exists v. apply Tags_Get_filter. auto.
  - apply orb_false_iff in Heqb as [Heqb _]. apply orb_false_iff in Heqb as [Hsz Hst].
    apply negb_false_iff, Z.eqb_eq in Hsz. split_and!; try done; [|by rewrite Hst].
    intros k v Hk. destruct (MTags msg) as [m|]; [|done]. simpl in Hsz.
    assert (m = ∅) as -> by (apply map_size_empty_iff; lia). done.
Qed.
End Sessions.
