(* ===== verification/IrcSasl.v ===== *)
(** * SASL PLAIN between irc/client and irc/server

    The client's side of the exchange (client.go, [handleAuthenticate], and
    sasl/mechanism.go, [Plain]) against the server's handler: the response, cut into
    chunks of 400 characters, is put together and checked as it was meant. *)

From S2P Require Import Prelude GoStrings GoTime GoEncoding IrcMessage IrcMode IrcNames IrcConst IrcServer IrcHandlers IrcReason IrcInvariant IrcAuthority IrcSessions.

Record Plain := { Username : bytes; Password : bytes; AuthzID : bytes }.

Definition Plain_Next (p : Plain) : bytes := AuthzID p ++ [Byte.x00] ++ Username p ++ [Byte.x00] ++ Password p.

(** The loop that sends an encoded response. *)
Fixpoint send_chunks (fuel : nat) (encoded : bytes) : list bytes :=
  match fuel with
  | O => []
  | S fuel' =>
      if blen encoded >=? 400 then take 400 encoded :: send_chunks fuel' (drop 400 encoded)
      else if seqb encoded [] then [str "+"] else [encoded]
  end.

(** The parameters of the AUTHENTICATE lines that carry a response. *)
Definition client_chunks (resp : bytes) : list bytes :=
  let encoded := b64_encode resp in
  if seqb encoded [] then [str "+"] else send_chunks (S (length encoded)) encoded.

Section Agreement.
Context {HU : GoUnicode} {HI : IterOrder} {cfg : Config} {env : Env} {HB : Bcrypt}.

(** The server handling the lines one after the other. *)
Definition authenticate (i : nat) (chunks : list bytes) : M unit :=
  forM_ chunks (fun c => handleAuthenticate i (message None (str "AUTHENTICATE") [c])).

(** A session in the middle of the exchange. *)
Definition exchanging (srv : Server) (i : nat) (buffer : bytes) : Prop :=
  is_Some (store srv !! i) /\ capEnabled (obj srv i) CapSASL = true /\
  saslActive (obj srv i) = true /\ saslBuffer (obj srv i) = buffer.

(** The end of the exchange. *)
Definition finish (i : nat) (buffer : bytes) : M unit :=
  _ ← update i (fun s => set_saslBuffer [] (set_saslActive false s));
  match b64_decode buffer with
  | None => saslFail i
  | Some payload => match plain_account payload with None => saslFail i | Some a => login i a end
  end.

Lemma obj_update_self srv i f : is_Some (store srv !! i) -> obj (with_store srv (alter f i (store srv))) i = f (obj srv i).
Proof. intros Hi. rewrite obj_update. by rewrite bool_decide_eq_true_2. Qed.

Lemma handle_full_chunk srv i buffer chunk :
  exchanging srv i buffer -> blen chunk = 400 -> blen buffer + 400 <= maxSASLPayload ->
  exists srv', handleAuthenticate i (message None (str "AUTHENTICATE") [chunk]) srv = (tt, srv') /\
    exchanging srv' i (buffer ++ chunk) /\ account (obj srv' i) = account (obj srv i).
Proof.
  intros (Hi & Hc & Ha & Hb) Hl Hm. unfold handleAuthenticate. cbn [Params message].
  change ((the i ≫= ?f) srv) with (f (obj srv i) srv). cbv beta iota. rewrite Hc, Ha, Hb, Hl. cbn [negb]. cbv iota.
  rewrite (seqb_ne chunk (str "*")) by (intros ->; done). rewrite (seqb_ne chunk (str "+")) by (intros ->; done).
  replace (_ || _) with false by (unfold maxSASLPayload in *; lia). cbv zeta iota.
  eexists. split; [reflexivity|]. unfold update, modify. cbn [snd]. unfold exchanging.
  rewrite obj_update_self by done. cbn. split_and!; try done. by apply (update_running i i _ srv).
Qed.

Lemma handle_last_chunk srv i buffer chunk :
  exchanging srv i buffer -> 1 <= blen chunk < 400 -> chunk <> str "*" -> blen buffer + blen chunk <= maxSASLPayload ->
  handleAuthenticate i (message None (str "AUTHENTICATE") [chunk]) srv =
  finish i (if seqb chunk (str "+") then buffer else buffer ++ chunk) srv.
Proof.
  intros (Hi & Hc & Ha & Hb) Hl Hs Hm. unfold handleAuthenticate. cbn [Params message].
  change ((the i ≫= ?f) srv) with (f (obj srv i) srv). cbv beta iota. rewrite Hc, Ha, Hb. cbn [negb]. cbv iota.
  rewrite (seqb_ne chunk (str "*")) by done. replace (_ || _) with false by lia. cbv zeta iota.
  by replace (blen chunk =? 400) with false by lia.
Qed.

Lemma forM_one {A} (x : A) (f : A -> M unit) srv : (forM_ [x] f srv).2 = (f x srv).2.
Proof. cbn [forM_]. unfold mbind, M_bind. by destruct (f x srv) as [[] ?]. Qed.

(** Handling all the chunks comes to finishing with the whole text. *)
Lemma authenticate_chunks fuel srv i buffer encoded :
  exchanging srv i buffer -> (length encoded < fuel)%nat -> blen buffer + blen encoded <= maxSASLPayload ->
  blen buffer mod 400 = 0 -> blen encoded mod 4 = 0 ->
  exists srv', is_Some (store srv' !! i) /\ account (obj srv' i) = account (obj srv i) /\
    (authenticate i (send_chunks fuel encoded) srv).2 = (finish i (buffer ++ encoded) srv').2.
Proof.
  revert srv buffer encoded. induction fuel as [|fuel IH]; intros srv buffer encoded Hx Hf Hm Hb He; [lia|].
  cbn [send_chunks]. rewrite Z.geb_leb. destruct (Z.leb_spec 400 (blen encoded)) as [Hl|Hl].
  - assert (blen (take 400 encoded) = 400) as Ht by (unfold blen in *; rewrite length_take; lia).
    assert (blen (drop 400 encoded) = blen encoded - 400) as Hd by (unfold blen in *; rewrite length_drop; lia).
    destruct (handle_full_chunk srv i buffer (take 400 encoded)) as (srv1 & E & Hx1 & Ha1); [done|done|lia|].
    destruct (IH srv1 (buffer ++ take 400 encoded) (drop 400 encoded)) as (srv' & Hi & Ha & Ef); try done.
    + rewrite length_drop. unfold blen in Hl. lia.
    + unfold blen in *. rewrite length_app. lia.
    + unfold blen in *. rewrite length_app. dlia.
    + dlia.
    + exists srv'. split_and!; [done|congruence|]. rewrite <- app_assoc, take_drop in Ef. rewrite <- Ef.
      unfold authenticate at 1. cbn [forM_]. unfold mbind, M_bind. rewrite E. reflexivity.
  - exists srv. split; [by destruct Hx|]. split; [done|]. unfold authenticate. destruct (seqb_spec encoded []) as [->|Hne].
    + rewrite forM_one, (handle_last_chunk srv i buffer); try done.
      * by rewrite app_nil_r.
      * change (blen (str "+")) with 1. unfold maxSASLPayload, blen in *. simpl in Hm. dlia.
    + assert (4 <= blen encoded) as H4 by (unfold blen in *; destruct encoded; [done|]; cbn [length] in *; dlia).
      rewrite forM_one, (handle_last_chunk srv i buffer encoded); try done; [|lia|intros ->; done].
      rewrite (seqb_ne encoded (str "+")) by (intros ->; done). done.
Qed.

Lemma finish_account srv i payload :
  is_Some (store srv !! i) ->
  account (obj (finish i (b64_encode payload) srv).2 i) =
  match plain_account payload with Some a => AName a | None => account (obj srv i) end.
Proof.
  intros Hi. unfold finish. rewrite b64_decode_encode.
  match goal with |- account (obj ((?m ≫= ?f) srv).2 i) = ?r =>
    apply (wp_bind m f (fun _ srv' => account (obj srv' i) = r)) end.
  apply wp_update. pose proof (update_running i i (fun s => set_saslBuffer [] (set_saslActive false s)) srv Hi) as Hi1.
  pose proof (obj_update_self srv i (fun s => set_saslBuffer [] (set_saslActive false s)) Hi) as Eo.
  revert Hi1 Eo. generalize (with_store srv (alter (fun s => set_saslBuffer [] (set_saslActive false s)) i (store srv))).
  intros srv1 Hi1 Eo. destruct (plain_account payload) as [a|]; cycle 1.
  { apply wp_quiet; [unfold saslFail; solve_quiet|]. intros _ srv2 Hc. by rewrite <- (obj_core _ _ i Hc), Eo. }
  unfold login. apply wp_bind, wp_the, wp_bind, wp_update. pose proof (update_running i i (set_account (AName a)) srv1 Hi1) as Hi2.
  pose proof (obj_update_self srv1 i (set_account (AName a)) Hi1) as Eo2. revert Hi2 Eo2.
  generalize (with_store srv1 (alter (set_account (AName a)) i (store srv1))). intros srv2 Hi2 Eo2. cbv zeta.
  apply wp_bind, wp_quiet; [solve_quiet|]. intros _ srv3 Hc3. pose proof Hc3 as (Es3 & _). rewrite Es3 in Hi2.
  rewrite (obj_core _ _ i Hc3) in Eo2. apply wp_bind. apply wp_when; intros Hh.
  - apply wp_bind, wp_the, wp_bind, wp_update, wp_quiet; [solve_quiet|]. intros _ srv4 Hc4.
    apply wp_quiet; [solve_quiet|]. intros _ srv5 Hc5. rewrite <- (obj_core _ _ i Hc5), <- (obj_core _ _ i Hc4).
    rewrite obj_update_self by done. cbn. by rewrite Eo2.
  - apply wp_quiet; [solve_quiet|]. intros _ srv5 Hc5. by rewrite <- (obj_core _ _ i Hc5), Eo2.
Qed.

Lemma plain_account_of (p : Plain) :
  Byte.x00 ∉ Username p -> Byte.x00 ∉ Password p -> Byte.x00 ∉ AuthzID p -> Username p <> [] -> Password p <> [] ->
  AuthzID p = [] \/ EqualFold (AuthzID p) (Username p) = true ->
  plain_account (Plain_Next p) =
  match accounts !! ToLower (Username p) with
  | Some a => if bcryptCheck (PasswordHash a) (Password p) then Some a else None
  | None => None
  end.
Proof.
  intros Hu Hp Ha Hun Hpn Haz. unfold plain_account, Plain_Next.
  assert (Split (AuthzID p ++ [Byte.x00] ++ Username p ++ [Byte.x00] ++ Password p) Byte.x00 =
          [AuthzID p; Username p; Password p]) as ->
    by (cbn [app]; rewrite !Split_app by done; by rewrite Split_none).
  rewrite (seqb_ne (Username p) []), (seqb_ne (Password p) []) by done. cbn [orb].
  replace (negb (seqb (AuthzID p) []) && negb (EqualFold (AuthzID p) (Username p))) with false.
  - unfold checkPassword. destruct (accounts !! _); [done|]. by destruct (bcryptCheck _ _).
  - destruct Haz as [-> | ->]; [done|]. by rewrite andb_false_r.
Qed.

End Agreement.
