(* ===== verification/IrcClient.v ===== *)
(** * irc/client/client.go: the IRC client
    The handler table, the negotiation of capabilities, SASL and the read loop.  A SASL
    mechanism is an object behind an interface (class [Mechanism]); the configuration and
    the client hold the same object, so its state lives in the configuration and
    [saslMech] says whether the client's own reference is set.  A handler returns the
    client it leaves, or [None] when it panics; [out] records the messages handed to the
    writer.  Handlers the program registers itself are an argument, [user]. *)
From S2P Require Import Prelude GoStrings GoEncoding IrcMessage IrcConst IrcScram IrcSasl.

(** [strings.Cut(s, sep)] for a one-byte separator. *)
Definition Cut (s : bytes) (c : byte) : bytes * bytes :=
  match IndexByte s c with Some i => (take i s, drop (S i) s) | None => (s, []) end.

(* ------------------------------------------------------------------ *)
(** ** Mechanisms *)
(** [Mech_Reset] is the identity where the type has no [Reset]. *)
Class Mechanism (X : Type) := {
  Mech_Name : X -> bytes;
  Mech_Next : bytes -> X -> X * res unit (bytes * bool);
  Mech_Reset : X -> X
}.

Record External := { ExternalAuthzID : bytes }.
Definition External_Next (e : External) : bytes := ExternalAuthzID e.

(** The mechanisms of the package; SCRAM with the results of its reads of [crypto/rand]. *)
Inductive builtin :=
| BPlain (p : Plain)
| BExternal (e : External)
| BScram (s : SCRAM) (rand : list (option bytes)).

Definition builtin_Name (m : builtin) : bytes :=
  match m with BPlain _ => str "PLAIN" | BExternal _ => str "EXTERNAL" | BScram s _ => hashName s end.

Definition builtin_Next `{Crypto} (challenge : bytes) (m : builtin) : builtin * res unit (bytes * bool) :=
  match m with
  | BPlain p => (m, Ok (Plain_Next p, true))
  | BExternal e => (m, Ok (External_Next e, true))
  | BScram s rand =>
      let r := IrcScram.Next (default None (head rand)) challenge s in
      (BScram r.1 (tail rand), res_wrap (fun _ => tt) r.2)
  end.

Definition builtin_Reset (m : builtin) : builtin :=
  match m with BScram s rand => BScram (IrcScram.Reset s) rand | _ => m end.

#[export] Instance builtin_mechanism `{Crypto} : Mechanism builtin :=
  {| Mech_Name := builtin_Name; Mech_Next := builtin_Next; Mech_Reset := builtin_Reset |}.

(* ------------------------------------------------------------------ *)
(** ** Data *)
Record ClientConfig (X : Type) := {
  Addr : bytes;
  cfgNick : bytes;
  cfgUser : bytes;
  RealName : bytes;
  cfgPassword : bytes;
  TLS : bool;
  SASL : option X;
  RequestedCaps : list bytes;
  DisableDefaultCaps : bool;
  ReconnectDelay : Z;
  AutoReconnect : bool;
  ConnectTimeout : Z
}.
Arguments Addr {X}. Arguments cfgNick {X}. Arguments cfgUser {X}. Arguments RealName {X}. Arguments cfgPassword {X}.
Arguments TLS {X}. Arguments SASL {X}. Arguments RequestedCaps {X}. Arguments DisableDefaultCaps {X}.
Arguments ReconnectDelay {X}. Arguments AutoReconnect {X}. Arguments ConnectTimeout {X}.

Definition second : Z := 1000000000.

Definition setDefaults {X} (c : ClientConfig X) : ClientConfig X :=
  {| Addr := Addr c;
     cfgNick := if seqb (cfgNick c) [] then str "gopher" else cfgNick c;
     cfgUser := if seqb (cfgUser c) [] then str "gopher" else cfgUser c;
     RealName := if seqb (RealName c) [] then str "Gopher" else RealName c;
     cfgPassword := cfgPassword c; TLS := TLS c; SASL := SASL c; RequestedCaps := RequestedCaps c;
     DisableDefaultCaps := DisableDefaultCaps c;
     ReconnectDelay := if ReconnectDelay c <=? 0 then 10 * second else ReconnectDelay c;
     AutoReconnect := AutoReconnect c;
     ConnectTimeout := if ConnectTimeout c <=? 0 then 30 * second else ConnectTimeout c |}.

Inductive capPhase := capPhaseIdle | capPhaseLSSent | capPhaseREQSent | capPhaseSASL | capPhaseDone.
#[export] Instance capPhase_eq_dec : EqDecision capPhase.
Proof. solve_decision. Defined.

Record CAPState := { phase : capPhase; advertised : gmap bytes bytes; enabled : gset bytes; pending : list bytes }.

Definition newCAPState : CAPState := {| phase := capPhaseIdle; advertised := ∅; enabled := ∅; pending := [] |}.

Definition Enabled (cs : CAPState) (cap : bytes) : bool := bool_decide (cap ∈ enabled cs).
Definition Advertised (cs : CAPState) : gmap bytes bytes := advertised cs.

(** [HandlerFunc]: the methods the client installs, and the program's own functions. *)
Inductive HandlerFunc :=
| HPing | HCAP | HAuthenticate | HWelcome | HNickInUse | HSASLFail | HSASLSuccess | HNickChange | HUser (n : nat).

(** The map of a [Mux]; a nil map reads as an empty one. *)
Abbreviation Mux := (gmap bytes (list HandlerFunc)).

(** The [bufio.Writer]: nil, working, or over a connection that refuses writes. *)
Inductive Writer := WNil | WOk | WBroken.

Record Client (X : Type) := {
  cfg : ClientConfig X;
  mux : Mux;
  capState : CAPState;
  writer : Writer;
  nick : bytes;
  loggedIn : bool;
  saslMech : bool;
  saslBuffer : bytes;
  done : nat;
  closed : gset nat;
  out : list Message
}.
Arguments cfg {X}. Arguments mux {X}. Arguments capState {X}. Arguments writer {X}. Arguments nick {X}.
Arguments loggedIn {X}. Arguments saslMech {X}. Arguments saslBuffer {X}. Arguments done {X}. Arguments closed {X}.
Arguments out {X}.

Inductive client_err := ENotConnected | EWrite | EConnect (e : bytes) | EScan (e : bytes).

(* ------------------------------------------------------------------ *)
(** ** Field updates *)
Section Fields.
Context {X : Type}.
Implicit Types c : Client X.

Definition set_SASL (m : X) (g : ClientConfig X) : ClientConfig X :=
  {| Addr := Addr g; cfgNick := cfgNick g; cfgUser := cfgUser g; RealName := RealName g; cfgPassword := cfgPassword g;
     TLS := TLS g; SASL := Some m; RequestedCaps := RequestedCaps g; DisableDefaultCaps := DisableDefaultCaps g;
     ReconnectDelay := ReconnectDelay g; AutoReconnect := AutoReconnect g; ConnectTimeout := ConnectTimeout g |}.

Definition with_cfg c x : Client X :=
  {| cfg := x; mux := mux c; capState := capState c; writer := writer c; nick := nick c; loggedIn := loggedIn c;
     saslMech := saslMech c; saslBuffer := saslBuffer c; done := done c; closed := closed c; out := out c |}.
Definition with_mux c x : Client X :=
  {| cfg := cfg c; mux := x; capState := capState c; writer := writer c; nick := nick c; loggedIn := loggedIn c;
     saslMech := saslMech c; saslBuffer := saslBuffer c; done := done c; closed := closed c; out := out c |}.
Definition with_capState c x : Client X :=
  {| cfg := cfg c; mux := mux c; capState := x; writer := writer c; nick := nick c; loggedIn := loggedIn c;
     saslMech := saslMech c; saslBuffer := saslBuffer c; done := done c; closed := closed c; out := out c |}.
Definition with_writer c x : Client X :=
  {| cfg := cfg c; mux := mux c; capState := capState c; writer := x; nick := nick c; loggedIn := loggedIn c;
     saslMech := saslMech c; saslBuffer := saslBuffer c; done := done c; closed := closed c; out := out c |}.
Definition with_nick c n l : Client X :=
  {| cfg := cfg c; mux := mux c; capState := capState c; writer := writer c; nick := n; loggedIn := l;
     saslMech := saslMech c; saslBuffer := saslBuffer c; done := done c; closed := closed c; out := out c |}.
Definition with_sasl c m b : Client X :=
  {| cfg := cfg c; mux := mux c; capState := capState c; writer := writer c; nick := nick c; loggedIn := loggedIn c;
     saslMech := m; saslBuffer := b; done := done c; closed := closed c; out := out c |}.
Definition with_done c d cl : Client X :=
  {| cfg := cfg c; mux := mux c; capState := capState c; writer := writer c; nick := nick c; loggedIn := loggedIn c;
     saslMech := saslMech c; saslBuffer := saslBuffer c; done := d; closed := cl; out := out c |}.
Definition with_out c x : Client X :=
  {| cfg := cfg c; mux := mux c; capState := capState c; writer := writer c; nick := nick c; loggedIn := loggedIn c;
     saslMech := saslMech c; saslBuffer := saslBuffer c; done := done c; closed := closed c; out := x |}.

Definition set_phase p (cs : CAPState) : CAPState :=
  {| phase := p; advertised := advertised cs; enabled := enabled cs; pending := pending cs |}.
Definition set_advertised x (cs : CAPState) : CAPState :=
  {| phase := phase cs; advertised := x; enabled := enabled cs; pending := pending cs |}.
Definition set_enabled x (cs : CAPState) : CAPState :=
  {| phase := phase cs; advertised := advertised cs; enabled := x; pending := pending cs |}.
Definition set_pending x (cs : CAPState) : CAPState :=
  {| phase := phase cs; advertised := advertised cs; enabled := enabled cs; pending := x |}.
Definition on_cap (f : CAPState -> CAPState) c : Client X := with_capState c (f (capState c)).
End Fields.

(* ------------------------------------------------------------------ *)
(** ** Handler table *)
Section Table.
Context {HU : GoUnicode}.

Definition Mux_On (m : Mux) (command : bytes) (fn : HandlerFunc) : Mux :=
  let cmd := ToUpper command in <[cmd := default [] (m !! cmd) ++ [fn]]> m.

(** The functions [dispatch] calls, in order: copies of both lists are taken first. *)
Definition Mux_handlers (m : Mux) (command : bytes) : list HandlerFunc :=
  default [] (m !! command) ++ default [] (m !! str "*").

Definition installBuiltinHandlers (m : Mux) : Mux :=
  let m := Mux_On m (str "PING") HPing in
  let m := Mux_On m (str "CAP") HCAP in
  let m := Mux_On m (str "AUTHENTICATE") HAuthenticate in
  let m := Mux_On m (str "001") HWelcome in
  let m := Mux_On m (str "433") HNickInUse in
  let m := Mux_On m (str "902") HSASLFail in
  let m := Mux_On m (str "903") HSASLSuccess in
  let m := Mux_On m (str "904") HSASLFail in
  let m := Mux_On m (str "905") HSASLFail in
  let m := Mux_On m (str "906") HSASLFail in
  let m := Mux_On m (str "907") HSASLFail in
  Mux_On m (str "NICK") HNickChange.
End Table.

Section Operations.
Context {HU : GoUnicode} {X : Type} {HX : Mechanism X}.
Implicit Types c : Client X.

Definition New (g : ClientConfig X) : Client X :=
  let g := setDefaults g in
  {| cfg := g; mux := installBuiltinHandlers ∅; capState := newCAPState; writer := WNil; nick := cfgNick g;
     loggedIn := false; saslMech := false; saslBuffer := []; done := 0; closed := ∅; out := [] |}.

Definition On c (command : bytes) (fn : HandlerFunc) : Client X := with_mux c (Mux_On (mux c) command fn).

(* ------------------------------------------------------------------ *)
(** ** Sending *)
Definition Send c (msg : Message) : Client X * option client_err :=
  match writer c with
  | WNil => (c, Some ENotConnected)
  | WBroken => (c, Some EWrite)
  | WOk => (with_out c (out c ++ [msg]), None)
  end.

Definition Sendf c (cmd : bytes) (params : list bytes) : Client X * option client_err :=
  Send c {| MTags := None; MPrefix := None; Command := cmd; Params := params |}.

(** [_ = c.Sendf(...)]. *)
Definition sendf (cmd : bytes) (params : list bytes) c : Client X := (Sendf c cmd params).1.

Definition CAPEnabled c (cap : bytes) : bool := Enabled (capState c) cap.

(* ------------------------------------------------------------------ *)
(** ** Nicknames *)
Definition handlePing c (msg : Message) : Client X := sendf (str "PONG") (Params msg) c.

Definition handleNickChange c (msg : Message) : Client X :=
  match MPrefix msg, Params msg with
  | Some p, n :: _ => if seqb (Nick p) (nick c) then with_nick c n (loggedIn c) else c
  | _, _ => c
  end.

Definition handleNickInUse c : Client X := sendf (str "NICK") [nick c ++ str "_"] c.

Definition handleWelcome c (msg : Message) : Client X :=
  match Params msg with n :: _ => with_nick c n true | [] => c end.

(* ------------------------------------------------------------------ *)
(** ** Capabilities *)
Definition capEnd c : Client X := sendf (str "CAP") [CapEND] (on_cap (set_phase capPhaseDone) c).

Definition default_caps : list bytes :=
  [ CapServerTime; CapMessageTags; CapBatch; CapEchoMessage; CapMultiPrefix; CapAwayNotify; CapExtendedJoin; CapChghost;
    CapSetname; CapAccountTag; CapChatHistory; CapLabeledResponse; CapUserHostInNames; CapInviteNotify; CapAccountNotify;
    CapStandardReplies; CapExtendedMonitor ].

Definition desired (g : ClientConfig X) : list bytes :=
  (if DisableDefaultCaps g then [] else default_caps) ++
  (match SASL g with Some _ => [CapSASL] | None => [] end) ++ RequestedCaps g.

(** Whether the server offers a capability in a way the client can use; the name of a
    nil mechanism panics. *)
Definition offered c (cap : bytes) : option bool :=
  match advertised (capState c) !! cap with
  | None => Some false
  | Some value =>
      if seqb cap CapSASL && negb (seqb value []) then
        match SASL (cfg c) with
        | None => None
        | Some m => Some (existsb (fun mechanism => EqualFold mechanism (Mech_Name m)) (Split value ","%byte))
        end
      else Some true
  end.

Fixpoint want_loop c (seen : gset bytes) (want caps : list bytes) : option (list bytes) :=
  match caps with
  | [] => Some want
  | cap :: caps' =>
      if bool_decide (cap ∈ seen) then want_loop c seen want caps'
      else
        let seen := {[cap]} ∪ seen in
        if Enabled (capState c) cap then want_loop c seen want caps'
        else
          ok ← offered c cap;
          want_loop c seen (if ok : bool then want ++ [cap] else want) caps'
  end.

Definition capWantList c : option (list bytes) := want_loop c ∅ [] (desired (cfg c)).

(** A nil [cfg.SASL] would panic here. *)
Definition startSASL c : option (Client X) :=
  let c := if bool_decide (phase (capState c) = capPhaseDone) then c else on_cap (set_phase capPhaseSASL) c in
  match SASL (cfg c) with
  | None => None
  | Some m =>
      let m := Mech_Reset m in
      Some (sendf (str "AUTHENTICATE") [Mech_Name m] (with_sasl (with_cfg c (set_SASL m (cfg c))) true (saslBuffer c)))
  end.

Definition abortSASL c : Client X := with_sasl (sendf (str "AUTHENTICATE") [str "*"] c) false [].

(** The tokens of LS and NEW. *)
Definition advertise (adv : gmap bytes bytes) (capStr : bytes) : gmap bytes bytes :=
  fold_left (fun adv token => let '(k, v) := Cut token "="%byte in <[k := v]> adv) (Fields capStr) adv.

(** [msg.Params[i]] where it is there, [""] where it is not. *)
Definition param (msg : Message) (i : nat) : bytes := default [] (Params msg !! i).

Definition request (want : list bytes) c : Client X :=
  sendf (str "CAP") [CapREQ; Join want (str " ")] (on_cap (set_pending want) c).

Definition handleCAP_LS c (msg : Message) : option (Client X) :=
  let multiLine := bool_decide (Params msg !! 2%nat = Some (str "*")) in
  let capStr := if multiLine then param msg 3 else param msg 2 in
  let c := on_cap (fun cs => set_advertised (advertise (advertised cs) capStr) cs) c in
  if multiLine then Some c
  else
    let c := on_cap (fun cs => set_enabled ({[CapCapNotify]} ∪ enabled cs) cs) c in
    want ← capWantList c;
    match want with
    | [] => Some (capEnd c)
    | _ => Some (request want (on_cap (set_phase capPhaseREQSent) c))
    end.

(** One token of ACK; the flag says whether to start SASL. *)
Definition ack_token (sasl : bool) (st : gset bytes * bool) (cap : bytes) : gset bytes * bool :=
  let '(enabled, start) := st in
  if HasPrefix cap (str "-") then (enabled ∖ {[TrimPrefix cap (str "-")]}, start)
  else ({[cap]} ∪ enabled, start || (seqb cap CapSASL && negb (bool_decide (cap ∈ enabled)) && sasl)).

Definition handleCAP_ACK c (msg : Message) : option (Client X) :=
  let capStr := TrimPrefix (param msg 2) (str ":") in
  let '(en, start) :=
    fold_left (ack_token (bool_decide (is_Some (SASL (cfg c))))) (Fields capStr) (enabled (capState c), false) in
  let c := on_cap (fun cs => set_pending [] (set_enabled en cs)) c in
  match phase (capState c) with
  | capPhaseSASL => Some c
  | capPhaseDone => if start : bool then startSASL c else Some c
  | _ => if start : bool then startSASL c else Some (capEnd c)
  end.

Definition handleCAP_NAK c : Client X :=
  let c := on_cap (set_pending []) c in
  match phase (capState c) with
  | capPhaseDone | capPhaseSASL => c
  | _ => capEnd c
  end.

Definition handleCAP_NEW c (msg : Message) : option (Client X) :=
  let newCaps := map (fun token => (Cut token "="%byte).1) (Fields (param msg 2)) in
  let c := on_cap (fun cs => set_advertised (advertise (advertised cs) (param msg 2)) cs) c in
  wanted ← capWantList c;
  match filterb (fun cap => bool_decide (cap ∈ newCaps)) wanted with
  | [] => Some c
  | want => Some (request want c)
  end.

Definition handleCAP_DEL c (msg : Message) : Client X :=
  on_cap (fun cs => fold_left (fun cs cap => set_enabled (enabled cs ∖ {[cap]}) (set_advertised (delete cap (advertised cs)) cs))
                      (Fields (param msg 2)) cs) c.

Definition handleCAP c (msg : Message) : option (Client X) :=
  match Params msg with
  | _ :: sub :: _ =>
      let subCmd := ToUpper sub in
      if seqb subCmd CapLS then handleCAP_LS c msg
      else if seqb subCmd CapACK then handleCAP_ACK c msg
      else if seqb subCmd CapNAK then Some (handleCAP_NAK c)
      else if seqb subCmd CapNEW then handleCAP_NEW c msg
      else if seqb subCmd CapDEL then Some (handleCAP_DEL c msg)
      else Some c
  | _ => Some c
  end.

(* ------------------------------------------------------------------ *)
(** ** SASL *)
Definition handleAuthenticate c (msg : Message) : option (Client X) :=
  match (if saslMech c then SASL (cfg c) else None), Params msg with
  | None, _ | _, [] => Some c
  | Some m, chunk :: _ =>
      if blen chunk >? 400 then Some (abortSASL c)
      else
        let buffer := if seqb chunk (str "+") then saslBuffer c else saslBuffer c ++ chunk in
        if blen chunk =? 400 then Some (with_sasl c true buffer)
        else
          match (if seqb buffer [] then Some [] else b64_decode_std buffer) with
          | None => Some (abortSASL (with_sasl c true buffer))
          | Some challenge =>
              let '(m', r) := Mech_Next challenge m in
              let c := with_cfg (with_sasl c true []) (set_SASL m' (cfg c)) in
              match r with
              | Panic => None
              | Err _ => Some (abortSASL c)
              | Ok (resp, _) =>
                  Some (fold_left (fun c chunk => sendf (str "AUTHENTICATE") [chunk] c) (client_chunks resp) c)
              end
          end
  end.

Definition handleSASLSuccess c : Client X :=
  let c := with_sasl c false [] in
  if bool_decide (phase (capState c) = capPhaseDone) then c else capEnd c.

Definition handleSASLFail c : Client X :=
  let c := with_sasl c false [] in
  if bool_decide (phase (capState c) = capPhaseDone) then c else capEnd c.

(* ------------------------------------------------------------------ *)
(** ** The read loop *)
Section Loop.
Context (user : nat -> Client X -> Message -> option (Client X)).

Definition call (fn : HandlerFunc) c (msg : Message) : option (Client X) :=
  match fn with
  | HPing => Some (handlePing c msg)
  | HCAP => handleCAP c msg
  | HAuthenticate => handleAuthenticate c msg
  | HWelcome => Some (handleWelcome c msg)
  | HNickInUse => Some (handleNickInUse c)
  | HSASLFail => Some (handleSASLFail c)
  | HSASLSuccess => Some (handleSASLSuccess c)
  | HNickChange => Some (handleNickChange c msg)
  | HUser n => user n c msg
  end.

Fixpoint call_all (fns : list HandlerFunc) c (msg : Message) : option (Client X) :=
  match fns with
  | [] => Some c
  | fn :: fns' => c ← call fn c msg; call_all fns' c msg
  end.

Definition dispatch c (msg : Message) : option (Client X) := call_all (Mux_handlers (mux c) (Command msg)) c msg.

Definition handle_line c (line : bytes) : option (Client X) :=
  match Parse line with Ok msg => dispatch c msg | _ => Some c end.

Fixpoint handle_lines c (lines : list bytes) : option (Client X) :=
  match lines with [] => Some c | line :: lines' => c ← handle_line c line; handle_lines c lines' end.

(** [bufio.Scanner] over what is left to read: lines without their ends, and whether one
    did not fit the buffer.  Every line takes a byte at least, so the length is fuel. *)
Definition dropCR (line : bytes) : bytes :=
  match last line with Some x => if beqb x Byte.x0d then removelast line else line | None => line end.

Fixpoint scan_lines (fuel max : nat) (r : bytes) : list bytes * bool :=
  match fuel, r with
  | S fuel', _ :: _ =>
      match IndexByte (take max r) Byte.x0a with
      | Some i => let '(ls, e) := scan_lines fuel' max (drop (S i) r) in (dropCR (take i r) :: ls, e)
      | None => if Nat.ltb (length r) max then ([dropCR r], false) else ([], true)
      end
  | _, _ => ([], false)
  end.

Definition max_line : nat := Z.to_nat 16384.

(** [readLoop] over everything the connection delivers until it ends, with [readErr] the
    error it ended with if it was not the end of the stream. *)
Definition readLoop c (input : bytes) (readErr : option bytes) : option (Client X * option client_err) :=
  let '(lines, tooLong) := scan_lines (length input) max_line input in
  c ← handle_lines c lines;
  Some (with_done c (done c) ({[done c]} ∪ closed c),
        if tooLong : bool then Some (EScan (str "bufio.Scanner: token too long")) else EScan <$> readErr).

(** What [Connect] sets up on a new connection. *)
Definition connected c (w : Writer) : Client X :=
  with_done (with_sasl (with_nick (with_capState (with_writer c w) newCAPState) (nick c) false) false [])
            (S (done c)) (closed c).

(** [Connect] up to its read loop, on a connection whose writes work or do not. *)
Definition start c (works : bool) : Client X * option client_err :=
  let c := on_cap (set_phase capPhaseLSSent) (connected c (if works then WOk else WBroken)) in
  match Sendf c (str "CAP") [CapLS; str "302"] with
  | (c, Some e) => (with_writer c (match writer c with WOk => WBroken | w => w end), Some e)
  | (c, None) =>
      let c := if seqb (cfgPassword (cfg c)) [] then c else sendf (str "PASS") [cfgPassword (cfg c)] c in
      let c := sendf (str "NICK") [cfgNick (cfg c)] c in
      (sendf (str "USER") [cfgUser (cfg c); str "0"; str "*"; RealName (cfg c)] c, None)
  end.

(** [Connect]: [dial] is the outcome of dialling (an error, or whether writes work). *)
Definition Connect c (dial : bytes + bool) (input : bytes) (readErr : option bytes) :
  option (Client X * option client_err) :=
  match dial with
  | inl e => Some (c, Some (EConnect e))
  | inr works =>
      match start c works with
      | (c, Some e) => Some (c, Some e)
      | (c, None) => readLoop c input readErr
      end
  end.

Definition Disconnect c (msg : bytes) : Client X :=
  let c := if seqb msg [] then sendf (str "QUIT") [] c else sendf (str "QUIT") [msg] c in
  with_writer c (match writer c with WOk => WBroken | w => w end).
End Loop.

(** [Wait] of a caller that read the channel [d] out of the client returns. *)
Definition Wait_returns c (d : nat) : bool := bool_decide (d ∈ closed c).
End Operations.

(* ------------------------------------------------------------------ *)
(** ** Which capabilities are requested *)
Section Wanted.
Context {HU : GoUnicode} {X : Type} {HX : Mechanism X}.
Implicit Types c : Client X.

Local Ltac want_cases x cap :=
  rewrite ?not_elem_of_union, ?not_elem_of_singleton, ?elem_of_cons;
  destruct (decide (x = cap)) as [->|]; intuition congruence.

(** What the loop adds to the list it has. *)
Lemma want_loop_spec c seen want caps l :
  want_loop c seen want caps = Some l ->
  exists added, l = want ++ added /\ NoDup added /\
    forall cap, cap ∈ added <-> cap ∈ caps /\ cap ∉ seen /\ Enabled (capState c) cap = false /\ offered c cap = Some true.
Proof.
  revert seen want. induction caps as [|cap caps IH]; intros seen want; cbn [want_loop].
  - intros [= <-]. exists []. rewrite app_nil_r. split_and!; [done|constructor|]. intros cap. rewrite elem_of_nil. naive_solver.
  - case_bool_decide as Hs; [|destruct (Enabled (capState c) cap) eqn:He].
    + intros (added & -> & Hn & Ha)%IH. exists added. split_and!; [done..|]. intros x. rewrite Ha. want_cases x cap.
    + intros (added & -> & Hn & Ha)%IH. exists added. split_and!; [done..|]. intros x. rewrite Ha. want_cases x cap.
    + destruct (offered c cap) as [ok|] eqn:Ho; [|done]. cbn [mbind option_bind].
      intros (added & -> & Hn & Ha)%IH. destruct ok.
      * exists (cap :: added). rewrite <- app_assoc. split_and!; [done|constructor; [rewrite Ha, not_elem_of_union, not_elem_of_singleton; naive_solver|done]|].
        intros x. rewrite (elem_of_cons added), Ha. want_cases x cap.
      * exists added. split_and!; [done..|]. intros x. rewrite Ha. want_cases x cap.
Qed.

(** The client asks for the right capabilities: [capWantList] holds, without
    duplicates, exactly the capabilities that the configuration wants, that the server
    advertises (sasl with the configured mechanism among those it lists, when it lists
    any), and that are not enabled yet. *)
Theorem capWantList_exact c (want : list bytes) :
  capWantList c = Some want ->
  NoDup want /\
  forall cap, cap ∈ want <->
    cap ∈ desired (cfg c) /\ Enabled (capState c) cap = false /\
    exists value, advertised (capState c) !! cap = Some value /\
      (cap = CapSASL -> value = [] \/
         exists m mechanism, SASL (cfg c) = Some m /\ mechanism ∈ Split value ","%byte /\
           EqualFold mechanism (Mech_Name m) = true).
Proof.
  intros (added & -> & Hn & Ha)%want_loop_spec. split; [done|]. intros cap. cbn [app]. rewrite Ha.
  split.
  - intros (? & _ & ? & Ho). split_and!; [done..|]. unfold offered in Ho.
    destruct (advertised (capState c) !! cap) as [value|]; [|done]. exists value. split; [done|]. intros ->.
    destruct (seqb_spec value []) as [|Hv]; [by left|right]. rewrite seqb_refl in Ho. cbn [negb andb] in Ho.
    destruct (SASL (cfg c)) as [m|]; [|done]. injection Ho as Ho. apply existsb_exists in Ho as (mech & Hi & He).
    exists m, mech. split_and!; [done|by apply list_elem_of_In|done].
  - intros (? & ? & value & Hv & Hs). split_and!; [done|apply not_elem_of_empty|done|]. unfold offered. rewrite Hv.
    destruct (seqb_spec cap CapSASL) as [->|]; [|done]. cbn [andb].
    destruct (Hs eq_refl) as [->|(m & mech & -> & Hi & He)]; [done|]. case_match; [|done]. f_equal.
    apply existsb_exists. exists mech. split; [by apply list_elem_of_In|done].
Qed.

Lemma offered_panics c cap :
  offered c cap = None <-> cap = CapSASL /\ SASL (cfg c) = None /\ exists v, advertised (capState c) !! CapSASL = Some v /\ v <> [].
Proof.
  unfold offered. destruct (seqb_spec cap CapSASL) as [->|Hc]; cbn [andb].
  - destruct (advertised (capState c) !! CapSASL) as [v|]; [|split; [done|naive_solver]].
    destruct (seqb_spec v []) as [->|Hv]; cbn [negb]; [split; [done|naive_solver]|].
    destruct (SASL (cfg c)); split; naive_solver.
  - destruct (advertised (capState c) !! cap); split; naive_solver.
Qed.

Lemma want_loop_panics c seen want caps :
  want_loop c seen want caps = None <->
  CapSASL ∈ caps /\ CapSASL ∉ seen /\ Enabled (capState c) CapSASL = false /\ offered c CapSASL = None.
Proof.
  revert seen want. induction caps as [|cap caps IH]; intros seen want; cbn [want_loop]; [rewrite elem_of_nil; naive_solver|].
  case_bool_decide as Hs; [|destruct (Enabled (capState c) cap) eqn:He].
  - rewrite IH. want_cases CapSASL cap.
  - rewrite IH. want_cases CapSASL cap.
  - destruct (offered c cap) as [ok|] eqn:Ho; cbn [mbind option_bind].
    + rewrite IH. want_cases CapSASL cap.
    + destruct (proj1 (offered_panics c cap) Ho) as [-> _]. split; [|done]. intros _. split_and!; [left|done..].
Qed.

(** When computing the list dereferences a nil mechanism. *)
Lemma capWantList_panics c :
  capWantList c = None <->
  SASL (cfg c) = None /\ CapSASL ∈ desired (cfg c) /\ Enabled (capState c) CapSASL = false /\
  exists v, advertised (capState c) !! CapSASL = Some v /\ v <> [].
Proof. unfold capWantList. rewrite want_loop_panics, offered_panics. pose proof (not_elem_of_empty (C := gset bytes) CapSASL). intuition. Qed.
End Wanted.

(* ------------------------------------------------------------------ *)
(** ** What no handler of the client changes *)
Section Frame.
Context {HU : GoUnicode} {X : Type} {HX : Mechanism X}.
Implicit Types c : Client X.

Record frame c c' : Prop := {
  frame_mux : mux c' = mux c;
  frame_writer : writer c' = writer c;
  frame_done : done c' = done c;
  frame_closed : closed c' = closed c;
  frame_requested : RequestedCaps (cfg c') = RequestedCaps (cfg c);
  frame_defaults : DisableDefaultCaps (cfg c') = DisableDefaultCaps (cfg c);
  frame_sasl : SASL (cfg c') = None <-> SASL (cfg c) = None;
  frame_out : out c `prefix_of` out c'
}.

#[export] Instance frame_pre : PreOrder frame.
Proof.
  split.
  - by constructor.
  - intros a b d [? ? ? ? ? ? Hs ?] [? ? ? ? ? ? Hs' ?].
    constructor; try congruence; [by rewrite Hs', Hs|by etrans].
Qed.

Lemma frame_send cmd ps c : frame c (sendf cmd ps c).
Proof. unfold sendf, Sendf, Send. destruct (writer c) eqn:E; constructor; cbn; try done; by apply prefix_app_r. Qed.

Lemma frame_on_cap f c : frame c (on_cap f c).
Proof. by constructor. Qed.

Lemma frame_with_nick c n l : frame c (with_nick c n l).
Proof. by constructor. Qed.

Lemma frame_with_sasl c m b : frame c (with_sasl c m b).
Proof. by constructor. Qed.

Lemma frame_with_cfg c m : is_Some (SASL (cfg c)) -> frame c (with_cfg c (set_SASL m (cfg c))).
Proof. intros [x Hx]. constructor; cbn; try done. by rewrite Hx. Qed.
End Frame.

Create HintDb frame.
#[export] Hint Resolve frame_send frame_on_cap frame_with_nick frame_with_sasl : frame.

(** Peels the outermost update off the client that is reached. *)
Ltac frame_step :=
  match goal with
  | |- frame ?c ?c => reflexivity
  | |- frame _ (sendf _ _ _) => etransitivity; [|apply frame_send]
  | |- frame _ (on_cap _ _) => etransitivity; [|apply frame_on_cap]
  | |- frame _ (with_sasl _ _ _) => etransitivity; [|apply frame_with_sasl]
  | |- frame _ (with_nick _ _ _) => etransitivity; [|apply frame_with_nick]
  | |- frame _ (if _ then _ else _) => case_match
  | |- frame _ (match _ with _ => _ end) => case_match
  end.
Ltac solve_frame := repeat frame_step; try done.

Section Handled.
Context {HU : GoUnicode} {X : Type} {HX : Mechanism X}.
Implicit Types c : Client X.

Lemma frame_capEnd c : frame c (capEnd c).
Proof. unfold capEnd. solve_frame. Qed.

Lemma frame_request w c : frame c (request w c).
Proof. unfold request. solve_frame. Qed.

Lemma frame_abortSASL c : frame c (abortSASL c).
Proof. unfold abortSASL. solve_frame. Qed.

Lemma startSASL_frame c c' : startSASL c = Some c' -> frame c c'.
Proof.
  unfold startSASL. set (d := if bool_decide _ then c else _). assert (frame c d) as Hd by (subst d; solve_frame).
  destruct (SASL (cfg d)) as [m|] eqn:E; [|done]. intros [= <-]. repeat frame_step.
  etransitivity; [apply Hd|]. by apply frame_with_cfg.
Qed.

Lemma frame_chunks l c : frame c (fold_left (fun c chunk => sendf (str "AUTHENTICATE") [chunk] c) l c).
Proof. revert c. induction l as [|x l IH]; intros c; [reflexivity|]. cbn [fold_left]. etransitivity; [|apply IH]. solve_frame. Qed.

Lemma handleCAP_frame c msg c' : handleCAP c msg = Some c' -> frame c c'.
Proof.
  unfold handleCAP. destruct (Params msg) as [|t [|sub ps]]; try (intros [= <-]; reflexivity). cbv zeta.
  destruct (seqb _ CapLS).
  { unfold handleCAP_LS. case_match; [intros [= <-]; solve_frame|]. destruct (capWantList _) as [[|w ws]|]; [..|done];
      intros [= <-]; (etransitivity; [|apply frame_capEnd || apply frame_request]); solve_frame. }
  destruct (seqb _ CapACK).
  { unfold handleCAP_ACK. destruct (fold_left _ _ _) as [en start].
    set (d := on_cap _ c). assert (frame c d) as Hd by apply frame_on_cap.
    repeat case_match; try (intros [= <-]; done); try (intros [= <-]; etransitivity; [apply Hd|apply frame_capEnd]);
      intros Hs; (etransitivity; [apply Hd|by apply startSASL_frame]). }
  destruct (seqb _ CapNAK).
  { intros [= <-]. unfold handleCAP_NAK. repeat case_match; try (etransitivity; [|apply frame_capEnd]); solve_frame. }
  destruct (seqb _ CapNEW).
  { unfold handleCAP_NEW. destruct (capWantList _) as [l|]; [|done]. cbn [mbind option_bind].
    case_match; intros [= <-]; [|etransitivity; [|apply frame_request]]; solve_frame. }
  destruct (seqb _ CapDEL); intros [= <-]; [apply frame_on_cap|reflexivity].
Qed.

Lemma handleAuthenticate_frame c msg c' : handleAuthenticate c msg = Some c' -> frame c c'.
Proof.
  unfold handleAuthenticate. destruct (if saslMech c then SASL (cfg c) else None) as [m|] eqn:Em; [|intros [= <-]; reflexivity].
  destruct (Params msg) as [|chunk ps]; [intros [= <-]; reflexivity|].
  destruct (blen chunk >? 400); [intros [= <-]; apply frame_abortSASL|].
  destruct (blen chunk =? 400); [intros [= <-]; apply frame_with_sasl|].
  destruct (if seqb _ [] then _ else _) as [ch|]; [|intros [= <-]; etransitivity; [|apply frame_abortSASL]; solve_frame].
  destruct (Mech_Next ch m) as [m' r].
  assert (frame c (with_cfg (with_sasl c true []) (set_SASL m' (cfg c)))) as Hf.
  { etransitivity; [apply (frame_with_sasl c true [])|]. apply (frame_with_cfg (with_sasl c true [])).
    cbn. destruct (saslMech c); [by eexists|done]. }
  destruct r as [[resp d]| |]; [..|done]; intros [= <-]; (etransitivity; [apply Hf|apply frame_chunks || apply frame_abortSASL]).
Qed.

Definition is_builtin (fn : HandlerFunc) : bool := match fn with HUser _ => false | _ => true end.

Lemma call_frame user fn c msg c' : is_builtin fn = true -> call user fn c msg = Some c' -> frame c c'.
Proof.
  intros Hb. destruct fn; try done; cbn [call];
    try apply handleCAP_frame; try apply handleAuthenticate_frame; intros [= <-];
    unfold handlePing, handleWelcome, handleNickInUse, handleSASLFail, handleSASLSuccess, handleNickChange; repeat case_match;
    solve_frame; try (etransitivity; [|apply frame_capEnd]; solve_frame).
Qed.
End Handled.

(* ------------------------------------------------------------------ *)
(** ** Panics *)
Section Panics.
Context {HU : GoUnicode} {X : Type} {HX : Mechanism X}.
Implicit Types c : Client X.

(** A program that asks for sasl has given a mechanism. *)
Definition sasl_consistent c : Prop := SASL (cfg c) = None -> CapSASL ∉ RequestedCaps (cfg c).

Lemma frame_consistent c c' : frame c c' -> sasl_consistent c -> sasl_consistent c'.
Proof. intros F Hc Hs. rewrite (frame_requested _ _ F). by apply Hc, (frame_sasl _ _ F). Qed.

Lemma desired_sasl (g : ClientConfig X) : SASL g = None -> CapSASL ∈ desired g <-> CapSASL ∈ RequestedCaps g.
Proof.
  intros Hs. unfold desired. rewrite Hs. cbn [app]. rewrite elem_of_app. split; [intros [Hd|]|by right]; [|done].
  exfalso. destruct (DisableDefaultCaps g); [by apply elem_of_nil in Hd|].
  revert Hd. apply (bool_decide_eq_false_1 (CapSASL ∈ default_caps)). vm_compute. reflexivity.
Qed.

Lemma capWantList_total c : sasl_consistent c -> exists want, capWantList c = Some want.
Proof.
  intros Hc. destruct (capWantList c) as [w|] eqn:E; [by eexists|]. apply capWantList_panics in E as (Hs & Hd & _).
  by apply desired_sasl, Hc in Hd.
Qed.

Lemma startSASL_total c : is_Some (SASL (cfg c)) -> is_Some (startSASL c).
Proof. intros [m Hm]. unfold startSASL. case_bool_decide; cbn; rewrite Hm; by eexists. Qed.

Lemma ack_starts_configured b toks p : (fold_left (ack_token b) toks p).2 = true -> p.2 = true \/ b = true.
Proof.
  revert p. induction toks as [|t toks IH]; intros [en st]; cbn [fold_left]; [by left|].
  intros [H|H]%IH; [|by right]. revert H. unfold ack_token. destruct (HasPrefix t _); cbn; [by left|].
  rewrite orb_true_iff, andb_true_iff. intuition.
Qed.

Lemma handleCAP_total c msg : sasl_consistent c -> is_Some (handleCAP c msg).
Proof.
  intros Hc. unfold handleCAP. destruct (Params msg) as [|t [|sub ps]]; try by eexists. cbv zeta.
  destruct (seqb _ CapLS).
  { unfold handleCAP_LS. case_match; [by eexists|].
    edestruct capWantList_total as [[|w ws] ->]; [|by eexists..]. by eapply frame_consistent; [|exact Hc]; solve_frame. }
  destruct (seqb _ CapACK).
  { unfold handleCAP_ACK. destruct (fold_left _ _ _) as [en start] eqn:E.
    assert (start = true -> is_Some (startSASL (on_cap (fun cs => set_pending [] (set_enabled en cs)) c))) as Hs.
    { intros ->. apply startSASL_total. cbn. pose proof (ack_starts_configured (bool_decide (is_Some (SASL (cfg c))))
        (Fields (TrimPrefix (param msg 2) (str ":"))) (enabled (capState c), false)) as H. rewrite E in H.
      destruct (H eq_refl) as [|H']; [done|]. by apply bool_decide_eq_true in H'. }
    destruct (phase _), start; try (by eexists); by apply Hs. }
  destruct (seqb _ CapNAK); [by eexists|]. destruct (seqb _ CapNEW).
  { unfold handleCAP_NEW. edestruct capWantList_total as [w ->]; [|cbn; case_match; by eexists].
    by eapply frame_consistent; [|exact Hc]; solve_frame. }
  destruct (seqb _ CapDEL); by eexists.
Qed.

Lemma handleAuthenticate_total c msg :
  (forall ch (m : X), (Mech_Next ch m).2 <> Panic) -> is_Some (handleAuthenticate c msg).
Proof.
  intros Hm. unfold handleAuthenticate. destruct (if saslMech c then _ else _) as [m|]; [|by eexists].
  destruct (Params msg) as [|chunk ps]; [by eexists|]. destruct (blen chunk >? 400); [by eexists|].
  destruct (blen chunk =? 400); [by eexists|]. destruct (if seqb _ [] then _ else _) as [ch|]; [|by eexists].
  specialize (Hm ch m). destruct (Mech_Next ch m) as [m' [[resp d]| |]]; [by eexists..|done].
Qed.

Lemma call_total user fn c msg :
  is_builtin fn = true -> sasl_consistent c -> (forall ch (m : X), (Mech_Next ch m).2 <> Panic) ->
  exists c', call user fn c msg = Some c' /\ frame c c'.
Proof.
  intros Hb Hc Hm. assert (is_Some (call user fn c msg)) as [c' Hc'].
  { destruct fn; try done; try (by eexists); [by apply handleCAP_total|by apply handleAuthenticate_total]. }
  exists c'. split; [done|]. by eapply call_frame.
Qed.

End Panics.

(* ------------------------------------------------------------------ *)
(** ** The negotiation ends *)
Section Negotiation.
Context {HU : GoUnicode} {X : Type} {HX : Mechanism X} (user : nat -> Client X -> Message -> option (Client X)).
Implicit Types c : Client X.

Lemma handlers_CAP : Mux_handlers (installBuiltinHandlers ∅) (str "CAP") = [HCAP].
Proof. vm_compute. reflexivity. Qed.

Definition sasl_numerics : list bytes := [str "902"; str "903"; str "904"; str "905"; str "906"; str "907"].

Lemma handlers_sasl cmd :
  cmd ∈ sasl_numerics ->
  Mux_handlers (installBuiltinHandlers ∅) cmd = [HSASLFail] \/ Mux_handlers (installBuiltinHandlers ∅) cmd = [HSASLSuccess].
Proof. intros Hc. repeat (apply elem_of_cons in Hc as [->|Hc]; [(left + right); vm_compute; reflexivity|]). by apply elem_of_nil in Hc. Qed.

(** The subcommand of a CAP message. *)
Definition cap_reply (msg : Message) (sub : bytes) : Prop :=
  Command msg = str "CAP" /\ exists t s rest, Params msg = t :: s :: rest /\ ToUpper s = sub.

(** The answers to what the client is waiting for. *)
Definition awaited c (msg : Message) : Prop :=
  match phase (capState c) with
  | capPhaseLSSent => cap_reply msg CapLS /\ Params msg !! 2%nat <> Some (str "*")
  | capPhaseREQSent => cap_reply msg CapACK \/ cap_reply msg CapNAK
  | capPhaseSASL => Command msg ∈ sasl_numerics
  | _ => False
  end.

Definition rank (p : capPhase) : nat :=
  match p with capPhaseIdle => 4 | capPhaseLSSent => 3 | capPhaseREQSent => 2 | capPhaseSASL => 1 | capPhaseDone => 0 end.

Definition plain (cmd : bytes) (ps : list bytes) : Message :=
  {| MTags := None; MPrefix := None; Command := cmd; Params := ps |}.

(** What the client sent last, in each phase. *)
Definition has_asked c : Prop :=
  match phase (capState c) with
  | capPhaseREQSent => exists want, want <> [] /\ pending (capState c) = want /\
                         last (out c) = Some (plain (str "CAP") [CapREQ; Join want (str " ")])
  | capPhaseSASL => saslMech c = true /\ exists m, SASL (cfg c) = Some m /\
                      last (out c) = Some (plain (str "AUTHENTICATE") [Mech_Name m])
  | capPhaseDone => last (out c) = Some (plain (str "CAP") [CapEND])
  | _ => False
  end.

Lemma sendf_ok cmd ps c : writer c = WOk -> sendf cmd ps c = with_out c (out c ++ [plain cmd ps]).
Proof. intros Hw. unfold sendf, Sendf, Send. by rewrite Hw. Qed.

Lemma capEnd_asked c : writer c = WOk -> phase (capState (capEnd c)) = capPhaseDone /\ has_asked (capEnd c).
Proof. intros Hw. unfold capEnd. rewrite sendf_ok by done. split; [done|]. cbn. by rewrite last_snoc. Qed.

Lemma startSASL_asked c c' :
  writer c = WOk -> phase (capState c) <> capPhaseDone -> startSASL c = Some c' ->
  phase (capState c') = capPhaseSASL /\ has_asked c'.
Proof.
  intros Hw Hp. unfold startSASL. rewrite bool_decide_eq_false_2 by done. cbn. destruct (SASL (cfg c)) as [m|]; [|done].
  intros [= <-]. rewrite sendf_ok by done. cbn. split; [done|]. unfold has_asked. cbn. split; [done|].
  eexists. split; [done|]. by rewrite last_snoc.
Qed.

Lemma handleCAP_of msg sub c : cap_reply msg sub ->
  handleCAP c msg =
  if seqb sub CapLS then handleCAP_LS c msg
  else if seqb sub CapACK then handleCAP_ACK c msg
  else if seqb sub CapNAK then Some (handleCAP_NAK c)
  else if seqb sub CapNEW then handleCAP_NEW c msg
  else if seqb sub CapDEL then Some (handleCAP_DEL c msg)
  else Some c.
Proof. intros (_ & t & s & rest & E & <-). unfold handleCAP. by rewrite E. Qed.

Lemma handleCAP_moves c msg c' :
  writer c = WOk -> phase (capState c) <> capPhaseSASL -> awaited c msg -> handleCAP c msg = Some c' ->
  (rank (phase (capState c')) < rank (phase (capState c)))%nat /\ has_asked c'.
Proof.
  intros Hw Hs Ha. unfold awaited in Ha. destruct (phase (capState c)) eqn:Hp; try done.
  - destruct Ha as [Hr Hm]. rewrite (handleCAP_of _ _ _ Hr). cbn [seqb]. rewrite seqb_refl. unfold handleCAP_LS.
    rewrite bool_decide_eq_false_2 by done. destruct (capWantList _) as [[|w ws]|]; [..|done]; cbn [mbind option_bind]; intros [= <-].
    + edestruct capEnd_asked as [Hc Hd]; [|rewrite Hc; split; [cbn; lia|exact Hd]]. done.
    + unfold request. rewrite sendf_ok by done. cbn. split; [lia|]. unfold has_asked. cbn. exists (w :: ws).
      split_and!; [done..|]. by rewrite last_snoc.
  - destruct Ha as [Hr|Hr]; rewrite (handleCAP_of _ _ _ Hr); cbn [seqb].
    + change (seqb CapACK CapLS) with false. rewrite seqb_refl. unfold handleCAP_ACK.
      destruct (fold_left _ _ _) as [en start]. cbn. rewrite Hp. destruct start.
      * intros (Hc & Hd)%startSASL_asked; [rewrite Hc; split; [cbn; lia|done]|done|cbn; congruence].
      * intros [= <-]. edestruct capEnd_asked as [Hc Hd]; [|rewrite Hc; split; [cbn; lia|exact Hd]]. done.
    + change (seqb CapNAK CapLS) with false. change (seqb CapNAK CapACK) with false. rewrite seqb_refl.
      intros [= <-]. unfold handleCAP_NAK. cbn. rewrite Hp. edestruct capEnd_asked as [Hc Hd]; [|rewrite Hc; split; [cbn; lia|exact Hd]]. done.
Qed.

(** C28. The negotiation goes forward and ends: whatever the server answers to what the
    client is waiting for (the last line of LS; ACK or NAK; one of the SASL numerics), the
    client handles it and moves to a later phase, in which it has sent the request, the
    SASL start or, at the end, CAP END that belongs to it; after three answers at most
    the registration is free to finish. *)
Theorem negotiation_ends c msg :
  mux c = installBuiltinHandlers ∅ -> writer c = WOk -> sasl_consistent c -> awaited c msg ->
  exists c', dispatch user c msg = Some c' /\
    (rank (phase (capState c')) < rank (phase (capState c)))%nat /\ has_asked c'.
Proof.
  intros Hm Hw Hc Ha. unfold dispatch. rewrite Hm. destruct (decide (phase (capState c) = capPhaseSASL)) as [Hp|Hp].
  - unfold awaited in Ha. rewrite Hp in Ha.
    assert (exists c', (c' = handleSASLFail c \/ c' = handleSASLSuccess c) /\
              call_all user (Mux_handlers (installBuiltinHandlers ∅) (Command msg)) c msg = Some c') as (c' & Hc' & ->).
    { destruct (handlers_sasl _ Ha) as [->| ->]; cbn; eauto. }
    exists c'. split; [done|]. rewrite Hp.
    assert (c' = capEnd (with_sasl c false [])) as ->.
    { destruct Hc' as [->| ->]; unfold handleSASLFail, handleSASLSuccess; rewrite bool_decide_eq_false_2; cbn; congruence. }
    destruct (capEnd_asked (with_sasl c false [])) as [E Hd]; [done|]. rewrite E. split; [cbn; lia|done].
  - assert (Command msg = str "CAP") as ->.
    { unfold awaited, cap_reply in Ha. destruct (phase (capState c)); naive_solver. }
    rewrite handlers_CAP. cbn [call_all call]. destruct (handleCAP_total c msg Hc) as [c' Hc'].
    rewrite Hc'. cbn [mbind option_bind]. exists c'. split; [done|]. by eapply handleCAP_moves.
Qed.
End Negotiation.

(* ------------------------------------------------------------------ *)
(** ** SASL starts only when it was agreed *)
Section Agreed.
Context {HU : GoUnicode} {X : Type} {HX : Mechanism X} (user : nat -> Client X -> Message -> option (Client X)).
Implicit Types c : Client X.

(** The client has a SASL exchange under way or has said anything of one. *)
Definition speaks_sasl c : Prop := saslMech c = true \/ exists m, m ∈ out c /\ Command m = str "AUTHENTICATE".

(** A CAP ACK with sasl among its capabilities. *)
Definition acks_sasl (msg : Message) : Prop :=
  cap_reply msg CapACK /\ CapSASL ∈ Fields (TrimPrefix (param msg 2) (str ":")).

Lemma speaks_sendf cmd ps c : speaks_sasl (sendf cmd ps c) -> cmd <> str "AUTHENTICATE" -> speaks_sasl c.
Proof.
  intros H Hc. unfold sendf, Sendf, Send in H. destruct (writer c); [done| |done].
  destruct H as [H|(m & Hm & E)]; [by left|]. cbn in Hm. apply elem_of_app in Hm as [Hm|Hm%list_elem_of_singleton].
  - right. by exists m.
  - by subst.
Qed.

Lemma speaks_on_cap f c : speaks_sasl (on_cap f c) -> speaks_sasl c.
Proof. done. Qed.

Lemma speaks_reset c : speaks_sasl (with_sasl c false []) -> speaks_sasl c.
Proof. intros [H|H]; [discriminate H|by right]. Qed.

Lemma speaks_capEnd c : speaks_sasl (capEnd c) -> speaks_sasl c.
Proof. unfold capEnd. intros H. by apply speaks_sendf in H. Qed.

Lemma speaks_request w c : speaks_sasl (request w c) -> speaks_sasl c.
Proof. unfold request. intros H. by apply speaks_sendf in H. Qed.

Lemma ack_starts_sasl b toks p : (fold_left (ack_token b) toks p).2 = true -> p.2 = true \/ CapSASL ∈ toks.
Proof.
  revert p. induction toks as [|t toks IH]; intros [en st]; cbn [fold_left]; [by left|].
  intros [H|H]%IH; [|by right; right]. revert H. unfold ack_token. destruct (HasPrefix t _); cbn; [by left|].
  rewrite orb_true_iff, !andb_true_iff. intros [H|[[H _] _]]; [by left|right]. apply bool_decide_eq_true in H as ->. by left.
Qed.

Lemma handleCAP_speaks c msg c' :
  handleCAP c msg = Some c' -> Command msg = str "CAP" -> speaks_sasl c' -> speaks_sasl c \/ acks_sasl msg.
Proof.
  intros H Hcap. revert H. unfold handleCAP.
  destruct (Params msg) as [|t [|sub ps]] eqn:Ep; try (intros [= <-]; by left). cbv zeta.
  destruct (seqb_spec (ToUpper sub) CapLS).
  { unfold handleCAP_LS. case_match; [intros [= <-]; by left|]. destruct (capWantList _) as [[|w ws]|]; [..|done];
      intros [= <-]; [intros Hx%speaks_capEnd|intros Hx%speaks_request]; by left. }
  destruct (seqb_spec (ToUpper sub) CapACK) as [Hack|].
  { unfold handleCAP_ACK. destruct (fold_left _ _ _) as [en start] eqn:E. destruct start.
    - intros _ _. right. pose proof (ack_starts_sasl (bool_decide (is_Some (SASL (cfg c))))
        (Fields (TrimPrefix (param msg 2) (str ":"))) (enabled (capState c), false)) as H. rewrite E in H.
      destruct (H eq_refl) as [|H']; [done|]. split; [|done]. split; [done|]. by exists t, sub, ps.
    - intros H Hs. left. destruct (phase _); injection H as <-; try (apply speaks_capEnd in Hs); done. }
  destruct (seqb_spec (ToUpper sub) CapNAK).
  { intros [= <-]. unfold handleCAP_NAK. destruct (phase _); [intros Hx%speaks_capEnd..|by left|by left]; by left. }
  destruct (seqb_spec (ToUpper sub) CapNEW).
  { unfold handleCAP_NEW. destruct (capWantList _) as [l|]; [|done]. cbn [mbind option_bind].
    case_match; intros [= <-]; [by left|intros Hx%speaks_request; by left]. }
  destruct (seqb _ CapDEL); intros [= <-]; by left.
Qed.

(** Which of the client's handlers a command reaches. *)
Lemma builtin_handlers cmd fn : fn ∈ Mux_handlers (installBuiltinHandlers ∅) cmd -> is_builtin fn = true /\ (fn = HCAP -> cmd = str "CAP").
Proof.
  unfold Mux_handlers. assert (installBuiltinHandlers ∅ !! str "*" = None) as -> by (vm_compute; reflexivity).
  cbn [default]. rewrite app_nil_r. destruct (installBuiltinHandlers ∅ !! cmd) as [l|] eqn:E; [|by intros ?%elem_of_nil].
  apply elem_of_map_to_list in E. intros Hf.
  assert (forallb (fun kl => forallb (fun fn => is_builtin fn && match fn with HCAP => seqb kl.1 (str "CAP") | _ => true end) kl.2)
            (map_to_list (installBuiltinHandlers ∅)) = true) as Hall by (vm_compute; reflexivity).
  rewrite forallb_forall in Hall. apply list_elem_of_In, Hall in E. rewrite forallb_forall in E. apply list_elem_of_In, E in Hf.
  apply andb_true_iff in Hf as [Hb Hc]. split; [done|]. intros ->. by apply bool_decide_eq_true in Hc.
Qed.

Lemma call_speaks fn c msg c' :
  is_builtin fn = true -> (fn = HCAP -> Command msg = str "CAP") -> call user fn c msg = Some c' ->
  speaks_sasl c' -> speaks_sasl c \/ acks_sasl msg.
Proof.
  intros Hb Hc. destruct fn; try done; cbn [call].
  - intros [= <-] H. left. by apply speaks_sendf in H.
  - intros H. apply handleCAP_speaks; [done|by apply Hc].
  - intros H Hs. left. unfold handleAuthenticate in H. destruct (saslMech c) eqn:E; [by left|]. by injection H as <-.
  - intros [= <-]. unfold handleWelcome. case_match; by left.
  - intros [= <-] H. left. by apply speaks_sendf in H.
  - intros [= <-] H. left. apply speaks_reset. unfold handleSASLFail in H. case_bool_decide; [done|by apply speaks_capEnd].
  - intros [= <-] H. left. apply speaks_reset. unfold handleSASLSuccess in H. case_bool_decide; [done|by apply speaks_capEnd].
  - intros [= <-]. unfold handleNickChange. repeat case_match; by left.
Qed.

Fixpoint handle_messages c (msgs : list Message) : option (Client X) :=
  match msgs with [] => Some c | msg :: msgs' => c ← dispatch user c msg; handle_messages c msgs' end.

Lemma call_all_speaks fns c msg c' :
  Forall (fun fn => is_builtin fn = true /\ (fn = HCAP -> Command msg = str "CAP")) fns ->
  call_all user fns c msg = Some c' -> frame c c' /\ (speaks_sasl c' -> speaks_sasl c \/ acks_sasl msg).
Proof.
  intros Hf. revert c. induction Hf as [|fn fns [Hb Hc] Hf IH]; intros c; cbn [call_all].
  - intros [= <-]. split; [reflexivity|by left].
  - destruct (call user fn c msg) as [c1|] eqn:E; [|done]. cbn [mbind option_bind].
    intros [F H]%IH. split; [etransitivity; [by eapply call_frame|done]|].
    intros [Hs|]%H; [|by right]. by eapply call_speaks in E.
Qed.

(** The client says nothing of SASL before the server agreed to it: when it has sent
    an AUTHENTICATE line, be it to start, to answer with the credentials or to abort, or
    has an exchange under way, the server acknowledged the capability sasl before. *)
Theorem sasl_only_after_ack c (msgs : list Message) c' :
  mux c = installBuiltinHandlers ∅ -> ~ speaks_sasl c ->
  handle_messages c msgs = Some c' -> speaks_sasl c' -> Exists acks_sasl msgs.
Proof.
  intros Hm Hn. assert (speaks_sasl c -> False) as Hn' by done. clear Hn. revert c Hm Hn'.
  induction msgs as [|msg msgs IH]; intros c Hm Hn; cbn [handle_messages].
  - intros [= ->] Hs. by destruct (Hn Hs).
  - destruct (dispatch user c msg) as [c1|] eqn:E; [|done]. cbn [mbind option_bind]. intros H Hs.
    unfold dispatch in E. rewrite Hm in E.
    apply call_all_speaks in E as [F Ha]; [|apply Forall_forall; intros fn; apply builtin_handlers].
    destruct (decide (ToUpper (param msg 1) = CapACK /\ Command msg = str "CAP" /\ CapSASL ∈ Fields (TrimPrefix (param msg 2) (str ":"))
       /\ is_Some (Params msg !! 1%nat))) as [(H1 & H2 & H3 & [s H4])|Hno].
    + left. split; [|done]. split; [done|]. unfold param in H1. rewrite H4 in H1.
      destruct (Params msg) as [|t [|s' rest]]; [done..|]. injection H4 as ->. by exists t, s, rest.
    + right. apply (IH c1); [by rewrite (frame_mux _ _ F)| |done|done]. intros [Hc|Hc]%Ha; [by apply Hn|].
      apply Hno. destruct Hc as [(Hcmd & t & s & rest & Hps & Hsub) Hsasl]. unfold param in *. rewrite Hps in *. cbn. by eauto.
Qed.

(** A nickname that is taken: the client appends an underscore to the nickname it has,
    not to the one it tried, so however often the server refuses it sends the same line. *)
Theorem nick_in_use_repeats n c :
  writer c = WOk ->
  Nat.iter n handleNickInUse c = with_out c (out c ++ replicate n (plain (str "NICK") [nick c ++ str "_"])).
Proof.
  intros Hw. induction n as [|n IH].
  - cbn. rewrite app_nil_r. by destruct c.
  - cbn [Nat.iter nat_rect]. fold (Nat.iter n handleNickInUse c). rewrite IH. unfold handleNickInUse. rewrite sendf_ok by done.
    cbn. unfold with_out. cbn. by rewrite <- app_assoc, <- replicate_S_end.
Qed.
End Agreed.

(* ------------------------------------------------------------------ *)
(** ** Waiting for the end *)
Section Waiting.
Context {HU : GoUnicode} {X : Type} {HX : Mechanism X} (user : nat -> Client X -> Message -> option (Client X)).
Implicit Types c : Client X.

Lemma handle_lines_frame lines c c' :
  mux c = installBuiltinHandlers ∅ -> handle_lines user c lines = Some c' -> frame c c'.
Proof.
  revert c. induction lines as [|l lines IH]; intros c Hm; cbn [handle_lines]; [intros [= <-]; reflexivity|].
  unfold handle_line. destruct (Parse l) as [msg| |]; cbn [mbind option_bind]; [|by apply IH..].
  destruct (dispatch user c msg) as [c1|] eqn:E; [|done]. cbn [mbind option_bind]. unfold dispatch in E. rewrite Hm in E.
  apply call_all_speaks in E as [F _]; [|apply Forall_forall; intros fn; apply builtin_handlers].
  intros H. etransitivity; [exact F|]. apply IH; [by rewrite (frame_mux _ _ F)|done].
Qed.

Lemma readLoop_done c input e c' r :
  mux c = installBuiltinHandlers ∅ -> readLoop user c input e = Some (c', r) ->
  done c' = done c /\ closed c' = {[done c]} ∪ closed c.
Proof.
  intros Hm. unfold readLoop. destruct (scan_lines _ _ _) as [lines tl].
  destruct (handle_lines user c lines) as [c1|] eqn:E; [|done]. apply handle_lines_frame in E; [|done].
  cbn [mbind option_bind]. intros [= <- _]. cbn. by rewrite (frame_done _ _ E), (frame_closed _ _ E).
Qed.

(** [Wait] and [Connect]: when [Connect] returns after its connection ended, a [Wait]
    that started after [Connect] had set the client up returns too; one that started
    before [Connect] was called waits for a channel that [Connect] replaced, and is still
    blocked whatever [Connect] did. *)
Theorem wait_needs_connect c (dial : bytes + bool) (input : bytes) (e : option bytes) c' (r : option client_err) :
  mux c = installBuiltinHandlers ∅ -> done c ∉ closed c ->
  Connect user c dial input e = Some (c', r) ->
  Wait_returns c' (done c) = false /\ (dial = inr true -> Wait_returns c' (done c') = true).
Proof.
  intros Hm Hd. unfold Connect, start, Wait_returns. destruct dial as [err|works].
  { intros [= <- _]. split; [by apply bool_decide_eq_false_2|done]. }
  unfold Sendf, Send. cbn [writer on_cap with_capState connected with_done with_sasl with_nick with_writer].
  destruct works; [|intros [= <- _]; cbn; split; [by apply bool_decide_eq_false_2|done]].
  set (d := with_out _ _). intros (E1 & E2)%readLoop_done.
  2: { etransitivity; [|exact Hm]. unfold sendf, Sendf, Send. repeat (case_match; cbn; try done). }
  set (d3 := sendf (str "USER") _ _) in *. assert (frame d d3) as F by (subst d3; solve_frame).
  rewrite E1, E2, (frame_done _ _ F), (frame_closed _ _ F). cbn. split.
  - apply bool_decide_eq_false_2. rewrite elem_of_union, elem_of_singleton. intros [H|H]; [lia|done].
  - intros _. apply bool_decide_eq_true_2. rewrite elem_of_union, elem_of_singleton. by left.
Qed.
End Waiting.

(* ------------------------------------------------------------------ *)
(** ** Runs *)
#[local] Instance run_unicode : GoUnicode := ascii_only.
#[local] Instance run_crypto : Crypto := toy_crypto.

Definition no_user : nat -> Client builtin -> Message -> option (Client builtin) := fun _ c _ => Some c.

Definition config (m : option builtin) (requested : list bytes) : ClientConfig builtin :=
  {| Addr := str "irc.test:6697"; cfgNick := str "alice"; cfgUser := []; RealName := []; cfgPassword := []; TLS := true;
     SASL := m; RequestedCaps := requested; DisableDefaultCaps := false; ReconnectDelay := 0; AutoReconnect := false;
     ConnectTimeout := 0 |}.

Definition plain_client : Client builtin :=
  New (config (Some (BPlain {| Username := str "alice"; Password := str "sesame"; AuthzID := [] |})) []).

(** A client that has just sent CAP LS, NICK and USER. *)
Definition just_connected (c : Client builtin) : Client builtin :=
  match Connect no_user c (inr true) [] None with Some (c, _) => c | None => c end.

Lemma readLoop_nothing (c : Client builtin) :
  readLoop no_user c [] None = Some (with_done c (done c) ({[done c]} ∪ closed c), None).
Proof. reflexivity. Qed.

Lemma just_connected_eq c : Connect no_user c (inr true) [] None = Some (just_connected c, None).
Proof.
  unfold just_connected, Connect, start, Sendf at 1 2, Send.
  cbn [writer on_cap with_capState connected with_done with_sasl with_nick with_writer].
  by rewrite readLoop_nothing.
Qed.

Lemma just_connected_mux c : mux (just_connected c) = mux c.
Proof.
  unfold just_connected, Connect, start, Sendf at 1, Send.
  cbn [writer on_cap with_capState connected with_done with_sasl with_nick with_writer].
  rewrite readLoop_nothing. set (d := with_out _ _). set (d3 := sendf (str "USER") _ _).
  assert (frame d d3) as F by (subst d3; solve_frame). exact (frame_mux _ _ F).
Qed.

Definition after_lines (c : Client builtin) (lines : list bytes) : Client builtin := default c (handle_lines no_user c lines).

Definition advertised_client : Client builtin :=
  after_lines (just_connected plain_client) [str ":irc.test CAP * LS * :sasl=EXTERNAL,plain batch foo"].

Lemma capWantList_exact_witness :
  capWantList advertised_client = Some [CapBatch; CapSASL] /\ NoDup [CapBatch; CapSASL].
Proof.
  split; [vm_compute; reflexivity|]. apply (capWantList_exact advertised_client). vm_compute. reflexivity.
Defined.

Lemma toy_mechanisms_do_not_panic ch (m : builtin) : (Mech_Next ch m).2 <> Panic.
Proof.
  destruct m as [p|e|s rand]; cbn; [done..|]. pose proof (Next_step (default None (head rand)) ch s) as H.
  destruct (Next _ ch s) as [s' [[? ?]| |]]; [done..|]. by destruct H.
Qed.


Definition ls_message : Message := plain (str "CAP") [str "*"; str "LS"; str "batch sasl=PLAIN"].

Lemma negotiation_ends_witness :
  exists c', dispatch no_user (just_connected plain_client) ls_message = Some c' /\
    (rank (phase (capState c')) < 3)%nat /\ has_asked c'.
Proof.
  apply (negotiation_ends no_user (just_connected plain_client) ls_message).
  - apply just_connected_mux.
  - vm_compute. reflexivity.
  - intros H. vm_compute in H. discriminate H.
  - split; [|done]. split; [done|]. by exists (str "*"), (str "LS"), [str "batch sasl=PLAIN"].
Defined.

Lemma some_default {A} (o : option A) (d : A) :
  match o with Some _ => true | None => false end = true -> o = Some (default d o).
Proof. by destruct o. Qed.

Definition ack_message : Message := plain (str "CAP") [str "*"; str "ACK"; str "batch sasl"].
Definition prompt_message : Message := plain (str "AUTHENTICATE") [str "+"].

Lemma sasl_only_after_ack_witness : Exists acks_sasl [ls_message; ack_message; prompt_message].
Proof.
  apply (sasl_only_after_ack no_user (just_connected plain_client) [ls_message; ack_message; prompt_message]
           (default plain_client (handle_messages no_user (just_connected plain_client) [ls_message; ack_message; prompt_message]))).
  - apply just_connected_mux.
  - intros [H|(m & Hm & E)]; [vm_compute in H; discriminate H|]. revert E.
    assert (Forall (fun m => Command m <> str "AUTHENTICATE") (out (just_connected plain_client))) as Hf
      by (vm_compute; repeat constructor; discriminate).
    by apply (proj1 (Forall_forall _ _) Hf).
  - apply some_default. vm_compute. reflexivity.
  - left. vm_compute. reflexivity.
Defined.

Lemma wait_needs_connect_witness :
  Wait_returns (just_connected plain_client) 0 = false /\
  (inr true = inr true :> bytes + bool -> Wait_returns (just_connected plain_client) (done (just_connected plain_client)) = true).
Proof.
  apply (wait_needs_connect no_user plain_client (inr true) [] None (just_connected plain_client) None);
    [reflexivity|apply not_elem_of_empty|apply just_connected_eq].
Defined.

Lemma nick_in_use_repeats_witness :
  out (Nat.iter 2 handleNickInUse (just_connected plain_client)) =
  out (just_connected plain_client) ++ [plain (str "NICK") [str "alice_"]; plain (str "NICK") [str "alice_"]].
Proof. rewrite (nick_in_use_repeats 2 (just_connected plain_client)); vm_compute; reflexivity. Defined.

(** The lines a client wrote after a point. *)
Definition lines_since (c c' : Client builtin) : list (bytes * list bytes) :=
  map (fun m => (Command m, Params m)) (drop (length (out c)) (out c')).

(** A program that requests sasl without giving a mechanism panics at the server's list. *)
Lemma requested_sasl_panics :
  handle_line no_user (just_connected (New (config None [CapSASL]))) (str ":irc.test CAP * LS :sasl=PLAIN") = None.
Proof. vm_compute. reflexivity. Qed.

(** A client of SCRAM that is told 903 after its proof ends the negotiation as if the
    server had proved who it is: the mechanism has not seen, and never sees, the
    server's signature. *)
Lemma success_without_signature :
  let c := just_connected (New (config (Some (BScram toy_client [Some toy_nonce])) [])) in
  let c1 := after_lines c [str "CAP * LS sasl"; str "CAP * ACK sasl"; str "AUTHENTICATE +"; str "AUTHENTICATE " ++ b64_encode toy_first] in
  let c2 := after_lines c1 [str "903 alice :SASL authentication successful"] in
  phase (capState c1) = capPhaseSASL /\ lines_since c1 c2 = [(str "CAP", [str "END"])] /\
  match SASL (cfg c2) with Some (BScram s _) => serverSig s = serverSig toy_signed /\ state s = scramStateDone | _ => False end.
Proof. vm_compute. repeat split. Qed.

(** Two CAP LS lines, ACK, PLAIN and welcome: what the client writes. *)
Lemma whole_negotiation :
  let c := just_connected plain_client in
  lines_since c (after_lines c
    [ str "CAP * LS * :multi-prefix sasl=PLAIN"; str "CAP * LS :batch unknown"; str "CAP * ACK :batch multi-prefix sasl";
      str "AUTHENTICATE +"; str "903 alice :ok"; str "PING :1"; str "001 alice :Welcome" ]) =
  [ (str "CAP", [str "REQ"; str "batch multi-prefix sasl"]); (str "AUTHENTICATE", [str "PLAIN"]);
    (str "AUTHENTICATE", [str "AGFsaWNlAHNlc2FtZQ=="]); (str "CAP", [str "END"]); (str "PONG", [str "1"]) ].
Proof. vm_compute. reflexivity. Qed.
