(* ===== verification/IrcLink.v ===== *)
(** * irc/client against irc/server: the negotiation of capabilities
    The client's state machine and the server's handler of CAP, put together: what the
    server lists is what the client understands, and what the client requests is enabled
    on both sides. *)
From S2P Require Import Prelude GoStrings GoSort GoTime GoEncoding IrcMessage IrcMode IrcNames IrcConst IrcClient IrcServer IrcHandlers IrcReason IrcSasl.

(* ------------------------------------------------------------------ *)
(** ** What the server lists *)
(** A capability as the server lists it: its name is a word that cannot be taken for
    anything else, its value has no spaces. *)
Definition good_cap (k v : bytes) : Prop :=
  is_word k = true /\ "="%byte ∉ k /\ HasPrefix k (str "-") = false /\ HasPrefix k (str ":") = false /\
  HasPrefix k (str "*") = false /\ forallb word_char v = true.

#[export] Instance good_cap_dec k v : Decision (good_cap k v).
Proof. unfold good_cap. apply _. Defined.

Definition cap_token (kv : bytes * bytes) : bytes := if seqb kv.2 [] then kv.1 else kv.1 ++ str "=" ++ kv.2.

Definition insert_token (adv : gmap bytes bytes) (token : bytes) : gmap bytes bytes :=
  let '(k, v) := Cut token "="%byte in <[k := v]> adv.

Lemma Cut_token k v : good_cap k v -> Cut (cap_token (k, v)) "="%byte = (k, v).
Proof.
  intros (_ & Hk & _). unfold Cut, cap_token. cbn [fst snd]. destruct (seqb_spec v []) as [->|].
  - by rewrite (proj2 (IndexByte_None k _) Hk).
  - change (k ++ str "=" ++ v) with (k ++ "="%byte :: v). rewrite IndexByte_app by done.
    by rewrite take_app_length, drop_app_S.
Qed.

Lemma cap_token_word k v : good_cap k v -> is_word (cap_token (k, v)) = true.
Proof.
  intros (Hk & _ & _ & _ & _ & Hv). unfold cap_token. cbn [fst snd]. case_match; [done|].
  apply is_word_inv in Hk as [Hne Hc]. unfold is_word. rewrite seqb_ne by (by destruct k).
  rewrite !forallb_app, Hc, Hv. reflexivity.
Qed.

Lemma fold_tokens es adv :
  Forall (fun kv => good_cap kv.1 kv.2) es ->
  fold_left insert_token (map cap_token es) adv = fold_left (fun (t : gmap bytes bytes) kv => <[kv.1 := kv.2]> t) es adv.
Proof.
  intros Hg. revert adv. induction Hg as [|[k v] es Hk Hg IH]; intros adv; [done|]. cbn [map fold_left].
  unfold insert_token at 2. rewrite Cut_token by done. apply IH.
Qed.

(** Any listing of a map of capabilities, understood token by token, is the map. *)
Lemma tokens_map (m : gmap bytes bytes) tokens :
  map_Forall good_cap m -> tokens ≡ₚ map cap_token (map_to_list m) ->
  Forall (fun w => is_word w = true) tokens /\ fold_left insert_token tokens ∅ = m.
Proof.
  intros Hg Hp.
  assert (Forall (fun kv => good_cap kv.1 kv.2) (map_to_list m)) as Hl.
  { apply Forall_forall. intros [k v] Hk%elem_of_map_to_list. by apply Hg. }
  apply Permutation_map_inv in Hp as (es & -> & Hp). rewrite Hp in Hl. split.
  - apply Forall_fmap. eapply Forall_impl; [exact Hl|]. intros [k v]. apply cap_token_word.
  - rewrite fold_tokens by done. apply fold_insert_perm; [|done]. rewrite <- Hp. apply NoDup_fst_map_to_list.
Qed.

Lemma word_chars_Itoa z : forallb word_char (Itoa z) = true.
Proof.
  apply forallb_forall. intros c Hc%list_elem_of_In. apply Itoa_chars in Hc as [Hd| ->]; [|done].
  apply is_digit_spec in Hd. unfold word_char. rewrite andb_true_iff. split; [lia|].
  apply negb_true_iff. unfold is_space. cbn [existsb]. repeat (rewrite (proj2 (Z.eqb_neq _ _)) by lia). cbn [orb]. lia.
Qed.

Section Listing.
Context {HU : GoUnicode} {HI : IterOrder} {cfg : Config} {env : Env} {HB : Bcrypt}.

Lemma supportedCaps_good s : map_Forall good_cap (supportedCaps s).
Proof.
  unfold supportedCaps.
  set (base := list_to_map _). assert (map_Forall good_cap base) as Hb by (apply (bool_decide_unpack _); vm_compute; exact I).
  clearbody base. set (d := if secure s && _ then _ else _).
  assert (map_Forall good_cap d) as Hd.
  { subst d. case_match; [|done]. apply map_Forall_insert_2; [|done]. apply (bool_decide_unpack _). vm_compute. exact I. }
  clearbody d. assert (forall v, forallb word_char v = true -> good_cap CapSTS v) as Hs.
  { intros v Hv. split_and!; [reflexivity| |reflexivity..|done]. apply (bool_decide_unpack _). vm_compute. exact I. }
  destruct STS as [sts|]; [|done]. repeat case_match; try done; apply map_Forall_insert_2; try done; apply Hs;
    rewrite !forallb_app, word_chars_Itoa; reflexivity.
Qed.
End Listing.

(* ------------------------------------------------------------------ *)
(** ** What the server sends *)
Section Sending.
Context {HU : GoUnicode} {HI : IterOrder} {cfg : Config} {env : Env} {HB : Bcrypt}.

(** The messages of a session among those sent between two states. *)
Definition to_client (i : nat) (a b : Server) : list Message :=
  map snd (filterb (fun jm => bool_decide (jm.1 = i)) (drop (length (sent a)) (sent b))).

Lemma to_client_app i a b msgs : sent b = sent a ++ map (pair i) msgs -> to_client i a b = msgs.
Proof.
  intros E. unfold to_client. rewrite E, drop_app_length. clear E. induction msgs as [|m msgs IH]; [done|]. cbn.
  rewrite bool_decide_eq_true_2 by done. cbn. by f_equal.
Qed.

Lemma prepare_same srv s msg : Command (prepare srv s msg) = Command msg /\ Params (prepare srv s msg) = Params msg.
Proof. unfold prepare. by case_match. Qed.

Lemma Send_one i msg srv :
  response srv !! i = None -> seqb (Command msg) (str "TAGMSG") = false ->
  IrcServer.Send i msg srv = (tt, with_sent srv (sent srv ++ [(i, prepare srv (obj srv i) msg)])).
Proof.
  intros Hr Hc. unfold IrcServer.Send, Send_, mbind, M_bind, get, modify. rewrite Hc. cbn [andb]. by rewrite Hr.
Qed.

(** The parameters of the lines a list of capabilities takes. *)
Fixpoint cap_params (n sub : bytes) (lines : list (list bytes)) : list (list bytes) :=
  match lines with
  | [] => []
  | [g] => [[n; sub; Join g (str " ")]]
  | g :: rest => [n; sub; str "*"; Join g (str " ")] :: cap_params n sub rest
  end.

(** CAP lines for a session, with the given parameters. *)
Definition cap_lines (msgs : list Message) (ps : list (list bytes)) : Prop :=
  Forall (fun m => Command m = str "CAP") msgs /\ map Params msgs = ps.

Lemma sendCAP_sent i sub value srv :
  response srv !! i = None ->
  exists m, sendCAP i sub value srv = (tt, with_sent srv (sent srv ++ [(i, m)])) /\
    Command m = str "CAP" /\ Params m = [reply_nick (obj srv i); sub; value].
Proof.
  intros Hr. unfold sendCAP, the, mbind, M_bind, get, mret, M_ret. rewrite Send_one by done.
  eexists. split; [done|]. apply prepare_same.
Qed.

Lemma with_sent_sent srv a b : with_sent (with_sent srv a) b = with_sent srv b.
Proof. done. Qed.

Lemma send_cap_lines_sent i sub lines srv :
  response srv !! i = None -> lines <> [] ->
  exists msgs, send_cap_lines i sub lines srv = (tt, with_sent srv (sent srv ++ map (pair i) msgs)) /\
    cap_lines msgs (cap_params (reply_nick (obj srv i)) sub lines).
Proof.
  intros Hr Hne. revert srv Hr. induction lines as [|g lines IH]; [done|]. intros srv Hr. destruct lines as [|g' lines].
  - destruct (sendCAP_sent i sub (Join g (str " ")) srv Hr) as (m & E & Hc & Hp). exists [m]. split; [exact E|].
    split; [by constructor|]. cbn. by rewrite Hp.
  - cbn [send_cap_lines]. unfold the, mbind, M_bind, get, mret, M_ret. rewrite Send_one by done.
    set (m := prepare _ _ _). set (srv1 := with_sent _ _).
    destruct (IH ltac:(done) srv1 Hr) as (msgs & E & Hf & Hp). exists (m :: msgs). split.
    + change (send_cap_lines i sub (g' :: lines) srv1 = (tt, with_sent srv (sent srv ++ map (pair i) (m :: msgs)))).
      rewrite E. subst srv1. by rewrite with_sent_sent; cbn; rewrite <- app_assoc.
    + split; [constructor; [apply prepare_same|done]|]. cbn [map cap_params]. f_equal; [apply prepare_same|exact Hp].
Qed.
End Sending.

(* ------------------------------------------------------------------ *)
(** ** What the client makes of it *)
Section Receiving.
Context {HU : GoUnicode} {X : Type} {HX : Mechanism X} (user : nat -> Client X -> Message -> option (Client X)).
Implicit Types c : Client X.

Lemma dispatch_CAP c msg :
  mux c = installBuiltinHandlers ∅ -> Command msg = str "CAP" -> IrcClient.dispatch user c msg = IrcClient.handleCAP c msg.
Proof.
  intros Hm Hc. unfold IrcClient.dispatch. rewrite Hm, Hc, handlers_CAP. cbn [call_all call]. by destruct (IrcClient.handleCAP c msg).
Qed.

(** A client that has taken in a part of the list. *)
Definition learned c (tokens : list bytes) : Client X :=
  on_cap (fun cs => set_advertised (fold_left insert_token tokens (advertised cs)) cs) c.

Lemma advertise_words adv g : Forall (fun w => is_word w = true) g -> advertise adv (Join g (str " ")) = fold_left insert_token g adv.
Proof. intros Hg. unfold advertise. by rewrite Fields_Join. Qed.

Lemma ToUpper_LS : ToUpper CapLS = CapLS.
Proof. vm_compute. reflexivity. Qed.

Lemma learned_app c a b : learned (learned c a) b = learned c (a ++ b).
Proof. unfold learned, on_cap, with_capState, set_advertised. cbn. by rewrite fold_left_app. Qed.

(** After all the lines the client knows all the tokens and takes the last line's step. *)
Lemma client_learns n lines msgs c :
  mux c = installBuiltinHandlers ∅ -> lines <> [] ->
  Forall (Forall (fun w => is_word w = true)) lines -> (forall g, last lines = Some g -> Join g (str " ") <> str "*") ->
  cap_lines msgs (cap_params n CapLS lines) ->
  exists msg tokens, cap_reply msg CapLS /\ Params msg !! 2%nat <> Some (str "*") /\
    handle_messages user c msgs = handleCAP_LS (learned c tokens) msg /\
    fold_left insert_token tokens (advertised (capState c)) = advertised (capState (learned c tokens)) /\
    exists g, IrcClient.param msg 2 = Join g (str " ") /\ Forall (fun w => is_word w = true) g /\ tokens ++ g = concat lines.
Proof.
  revert msgs c. induction lines as [|g lines IH]; [done|]. intros msgs c Hm _ Hw Hlast [Hf Hp].
  apply Forall_cons in Hw as [Hg Hw]. destruct lines as [|g' lines].
  - cbn in Hp. destruct msgs as [|msg [|]]; [done| |done]. injection Hp as Hp. apply Forall_cons in Hf as [Hc _].
    exists msg, []. assert (cap_reply msg CapLS) as Hr by (split; [done|]; by exists n, CapLS, [Join g (str " ")]).
    split_and!; [done|rewrite Hp; cbn; intros [= E]; by apply (Hlast g)| |done|].
    + cbn [handle_messages]. rewrite dispatch_CAP by done. rewrite (handleCAP_of _ _ _ Hr). change (seqb CapLS CapLS) with true. cbv iota.
      replace (learned c []) with c by (by destruct c as [? ? []]). by destruct (handleCAP_LS c msg).
    + exists g. split_and!; [unfold IrcClient.param; by rewrite Hp|done|]. cbn. by rewrite app_nil_r.
  - cbn [cap_params] in Hp. destruct msgs as [|msg msgs]; [done|]. cbn [map] in Hp. injection Hp as Hp Hps.
    apply Forall_cons in Hf as [Hc Hf].
    destruct (IH msgs (learned c g) Hm ltac:(done) Hw Hlast (conj Hf Hps)) as (msg' & tokens & H1 & H2 & H3 & H4 & g2 & H5 & H6 & H7).
    exists msg', (g ++ tokens). rewrite learned_app in *. split_and!; [done..| | |].
    + cbn [handle_messages]. rewrite dispatch_CAP by done.
      assert (cap_reply msg CapLS) as Hr by (split; [done|]; by exists n, CapLS, [str "*"; Join g (str " ")]).
      rewrite (handleCAP_of _ _ _ Hr). change (seqb CapLS CapLS) with true. cbv iota. unfold handleCAP_LS at 1.
      rewrite Hp. rewrite bool_decide_eq_true_2 by done. cbn [mbind option_bind]. rewrite <- H3.
      unfold learned, on_cap, IrcClient.param. rewrite Hp. change (default [] _) with (Join g (str " ")).
      by rewrite advertise_words.
    + done.
    + exists g2. split_and!; [done..|]. cbn [concat]. by rewrite <- app_assoc, H7.
Qed.
End Receiving.

(* ------------------------------------------------------------------ *)
(** ** The negotiation *)
Section Agreement.
Context {HU : GoUnicode} {HI : IterOrder} {cfg : Config} {env : Env} {HB : Bcrypt}.

Definition ls_command : Message := plain (str "CAP") [CapLS; str "302"].
Definition req_command (want : list bytes) : Message := plain (str "CAP") [CapREQ; Join want (str " ")].

Lemma supportedCaps_nonempty s : supportedCaps s <> ∅.
Proof.
  assert (is_Some (supportedCaps s !! CapBatch)) as [v Hv]; [|intros E; by rewrite E, lookup_empty in Hv].
  unfold supportedCaps. set (base := list_to_map _).
  assert (is_Some (base !! CapBatch)) as Hb by (exists []; vm_compute; reflexivity). clearbody base.
  repeat case_match; rewrite ?lookup_insert_is_Some; repeat (right; split; [by vm_compute|]); done.
Qed.

Lemma Join_star g : Forall (fun w => is_word w = true) g -> Join g (str " ") = str "*" -> g = [str "*"].
Proof. intros Hg E. rewrite <- (Fields_Join g Hg), E. vm_compute. reflexivity. Qed.

Lemma token_not_star k v : good_cap k v -> cap_token (k, v) <> str "*".
Proof.
  intros (_ & _ & _ & _ & Hs & _) E. unfold cap_token in E. cbn [fst snd] in E. case_match.
  - by rewrite E in Hs.
  - destruct k as [|x k]; [done|]. injection E as -> E. by destruct k.
Qed.

(** The session after CAP LS 302. *)
Definition listed (s : Session) : Session :=
  set_caps ({[CapCapNotify]} ∪ caps s)
    (set_capVersion 302 (if bool_decide (state s = StateRegistered) then s else set_state StateCapNeg s)).

(** The server's answer: the capabilities of the session, over lines. *)
Lemma server_lists i srv :
  is_Some (store srv !! i) -> response srv !! i = None ->
  let srv1 := (IrcHandlers.handleCAP i ls_command srv).2 in
  obj srv1 i = listed (obj srv i) /\
  exists lines n, cap_lines (to_client i srv srv1) (cap_params n CapLS lines) /\ lines <> [] /\
    concat lines ≡ₚ map cap_token (map_to_list (supportedCaps (obj srv1 i))).
Proof.
  intros Hi Hr. unfold IrcHandlers.handleCAP. cbn [Params ls_command plain nth]. rewrite ToUpper_LS.
  change (seqb CapLS CapLS) with true. cbv iota zeta. change (Atoi (str "302")) with (302, @None num_err). cbv iota.
  change (302 >=? 302) with true. unfold when, enter_negotiation, update, modify, the, get, mbind, M_bind, mret, M_ret.
  set (srvA := with_store srv _). set (srvB := with_store srvA _).
  assert (obj srvB i = listed (obj srv i)) as EB.
  { subst srvB. rewrite obj_update_self by (subst srvA; cbn; destruct Hi as [s Hi]; rewrite lookup_alter_eq, Hi; by eexists).
    subst srvA. rewrite obj_update_self by done. unfold listed. by case_bool_decide. }
  set (parts := map _ (iter _)).
  assert (parts ≡ₚ map cap_token (map_to_list (supportedCaps (obj srvB i)))) as Hp.
  { subst parts. rewrite iter_perm. erewrite map_ext; [reflexivity|]. intros [k v]. unfold cap_token. cbn [fst snd].
    rewrite EB. change (capVersion (listed _)) with 302. change (302 >=? 302) with true. cbn [andb]. by destruct (seqb v []). }
  destruct (sort_strings parts) as [|x xs] eqn:Es.
  { exfalso. pose proof (sort_strings_perm parts) as Hq. rewrite Es, Hp in Hq. apply Permutation_nil_l in Hq.
    apply (supportedCaps_nonempty (obj srvB i)), map_to_list_empty_iff. by destruct (map_to_list _). }
  unfold sendCAPList.
  destruct (line_groups_spec (length (x :: xs)) 400 (x :: xs)) as [Hcat _]; [lia..|].
  destruct (send_cap_lines_sent i CapLS (groups 400 (x :: xs)) srvB) as (msgs & E & Hl); [done| |].
  { intros E. unfold groups in E. by rewrite E in Hcat. }
  rewrite E. cbn [snd]. split; [done|]. exists (groups 400 (x :: xs)), (reply_nick (obj srvB i)).
  rewrite (to_client_app i srv _ msgs) by done. split_and!; [done|intros E'; unfold groups in E'; by rewrite E' in Hcat|].
  unfold groups. rewrite Hcat, <- Es, sort_strings_perm. exact Hp.
Qed.

(** The names in a session's list, as they come back in a request. *)
Definition requestable (m : gmap bytes bytes) (want : list bytes) : Prop :=
  Forall (fun k => is_Some (m !! k) /\ k <> CapSTS) want.

Lemma requestable_words s want : requestable (supportedCaps s) want ->
  Forall (fun k => is_word k = true /\ HasPrefix k (str "-") = false /\ HasPrefix k (str ":") = false) want.
Proof.
  intros Hw. eapply Forall_impl; [exact Hw|]. intros k [[v Hv] _]. by apply supportedCaps_good in Hv as (? & _ & ? & ? & _).
Qed.

Lemma TrimPrefix_no s p : HasPrefix s p = false -> TrimPrefix s p = s.
Proof. intros E. unfold TrimPrefix. by rewrite E. Qed.

Lemma HasPrefix_Join want :
  want <> [] -> Forall (fun k => is_word k = true /\ HasPrefix k (str "-") = false /\ HasPrefix k (str ":") = false) want ->
  HasPrefix (Join want (str " ")) (str ":") = false.
Proof.
  intros Hne Hw. destruct want as [|k want]; [done|]. apply Forall_cons in Hw as [(Hk & _ & Hc) _].
  apply is_word_inv in Hk as [Hk _]. destruct want as [|k' want]; [done|]. cbn [Join]. change (str ":") with [":"%byte] in *.
  by rewrite HasPrefix_word.
Qed.

Lemma request_caps version want en :
  Forall (fun k => is_word k = true /\ HasPrefix k (str "-") = false /\ HasPrefix k (str ":") = false) want ->
  fold_left (request_cap version) want en = list_to_set want ∪ en.
Proof.
  intros Hw. revert en. induction Hw as [|k want (_ & Hk & _) Hw IH]; intros en; cbn [fold_left]; [set_solver|].
  rewrite IH. unfold request_cap. rewrite Hk, TrimPrefix_no by done. cbn. set_solver.
Qed.

(** The server grants what is on its list. *)
Lemma server_grants i srv want :
  is_Some (store srv !! i) -> response srv !! i = None -> want <> [] -> requestable (supportedCaps (obj srv i)) want ->
  let srv1 := (IrcHandlers.handleCAP i (req_command want) srv).2 in
  caps (obj srv1 i) = list_to_set want ∪ caps (obj srv i) /\
  exists n msg, to_client i srv srv1 = [msg] /\ Command msg = str "CAP" /\ Params msg = [n; CapACK; Join want (str " ")].
Proof.
  intros Hi Hr Hne Hw. pose proof (requestable_words _ _ Hw) as Hww.
  assert (Forall (fun w => is_word w = true) want) as Hws by (eapply Forall_impl; [exact Hww|]; naive_solver).
  unfold IrcHandlers.handleCAP. cbn [Params req_command plain nth].
  assert (ToUpper CapREQ = CapREQ) as -> by (vm_compute; reflexivity).
  change (seqb CapREQ CapLS) with false. change (seqb CapREQ CapLIST) with false. change (seqb CapREQ CapREQ) with true. cbv iota zeta.
  rewrite (TrimPrefix_no (Join want (str " "))) by (by apply HasPrefix_Join).
  rewrite (Fields_Join want Hws).
  unfold enter_negotiation, update, modify, the, get, mbind, M_bind, mret, M_ret.
  assert (existsb (fun c => bool_decide (supportedCaps (obj srv i) !! TrimPrefix c (str "-") = None) || seqb (TrimPrefix c (str "-")) CapSTS) want = false) as ->.
  { apply not_true_iff_false. intros (k & Hk & Hb)%existsb_exists. apply list_elem_of_In in Hk.
    destruct (proj1 (Forall_forall _ _) Hw k Hk) as [[v Hv] Hs]. destruct (proj1 (Forall_forall _ _) Hww k Hk) as (_ & Hd & _).
    rewrite TrimPrefix_no, Hv in Hb by done. rewrite seqb_ne in Hb by done. by rewrite bool_decide_eq_false_2 in Hb. }
  set (srvA := with_store srv _). set (srvB := with_store srvA _).
  destruct (sendCAP_sent i CapACK (Join want (str " ")) srvB Hr) as (m & E & Hc & Hp). rewrite E. cbn [snd]. split.
  - change (obj (with_sent srvB _) i) with (obj srvB i). subst srvB.
    rewrite obj_update_self by (subst srvA; cbn; destruct Hi as [s Hi]; rewrite lookup_alter_eq, Hi; by eexists).
    subst srvA. rewrite obj_update_self by done. cbn. rewrite request_caps by done. by case_bool_decide.
  - exists (reply_nick (obj srvB i)), m. split_and!; [|done..]. by apply (to_client_app i srv _ [m]).
Qed.

Context {X : Type} {HX : Mechanism X} (user : nat -> Client X -> Message -> option (Client X)).
Implicit Types c : Client X.

(** A client that has sent CAP LS and heard nothing yet. *)
Record awaiting_list c : Prop := {
  awaiting_mux : mux c = installBuiltinHandlers ∅;
  awaiting_writer : writer c = WOk;
  awaiting_consistent : sasl_consistent c;
  awaiting_advertised : advertised (capState c) = ∅;
  awaiting_enabled : enabled (capState c) = ∅
}.

(** What the client knows and does once it has the whole list. *)
Lemma client_lists c (msgs : list Message) (n : bytes) (lines : list (list bytes)) (m : gmap bytes bytes) :
  awaiting_list c -> map_Forall good_cap m -> lines <> [] -> cap_lines msgs (cap_params n CapLS lines) ->
  concat lines ≡ₚ map cap_token (map_to_list m) ->
  exists c1, handle_messages user c msgs = Some c1 /\
    advertised (capState c1) = m /\ enabled (capState c1) = {[CapCapNotify]} /\ frame c c1 /\
    (phase (capState c1) = capPhaseDone \/
     exists want, want <> [] /\ phase (capState c1) = capPhaseREQSent /\ last (out c1) = Some (req_command want) /\
       Forall (fun k => is_Some (m !! k) /\ k ∈ desired (IrcClient.cfg c)) want).
Proof.
  intros [Hmux Hwr Hcons Hadv Hen] Hg Hne Hl Hp. destruct (tokens_map m (concat lines) Hg Hp) as [Hwords Hmap].
  assert (Forall (Forall (fun w => is_word w = true)) lines) as Hw by (by apply Forall_concat).
  destruct (client_learns user n lines msgs c Hmux Hne Hw) as (msg & tokens & Hr & Hm2 & Hh & _ & g & Hg1 & Hg2 & Hg3); [|done|].
  { intros g Hlast E. apply last_Some_elem_of in Hlast as Hin. apply Join_star in E; [|by apply (proj1 (Forall_forall _ _) Hw)].
    subst g. assert (str "*" ∈ concat lines) as Hs.
    { apply list_elem_of_In, in_concat. exists [str "*"]. split; [by apply list_elem_of_In|by left]. }
    rewrite Hp in Hs. apply list_elem_of_fmap in Hs as ([k v] & E & Hk%elem_of_map_to_list). by eapply token_not_star; [apply Hg|]. }
  rewrite Hh. unfold handleCAP_LS. rewrite bool_decide_eq_false_2 by done.
  set (c0 := on_cap _ (on_cap _ (learned c tokens))).
  assert (advertised (capState c0) = m) as Ha.
  { cbn. rewrite Hg1, advertise_words, Hadv, <- fold_left_app, Hg3 by done. exact Hmap. }
  assert (enabled (capState c0) = {[CapCapNotify]}) as He by (cbn; rewrite Hen; set_solver).
  assert (frame c c0) as F by (unfold c0, learned; solve_frame).
  destruct (capWantList_total c0) as [want Hwant]; [by eapply frame_consistent|]. rewrite Hwant. cbn [mbind option_bind].
  assert (writer c0 = WOk) as Hw0 by done.
  destruct want as [|k want].
  - eexists. split; [done|]. unfold capEnd. rewrite sendf_ok by done. split_and!; [exact Ha|exact He| |by left].
    etransitivity; [exact F|]. rewrite <- sendf_ok by done. solve_frame.
  - eexists. split; [done|]. unfold request. rewrite sendf_ok by done. split_and!; [exact Ha|exact He| |right].
    + etransitivity; [exact F|]. rewrite <- sendf_ok by done. solve_frame.
    + exists (k :: want). split_and!; [done..|cbn; by rewrite last_snoc|].
      apply want_loop_spec in Hwant as (added & E & _ & Hspec). cbn [app] in E. subst added.
      apply Forall_forall. intros x (Hd & _ & _ & Ho)%Hspec. unfold offered in Ho. rewrite Ha in Ho.
      split; [by destruct (m !! x)|done].
Qed.

Lemma ack_enables b want en st :
  Forall (fun k => is_word k = true /\ HasPrefix k (str "-") = false /\ HasPrefix k (str ":") = false) want ->
  (fold_left (ack_token b) want (en, st)).1 = list_to_set want ∪ en.
Proof.
  intros Hw. revert en st. induction Hw as [|k want (_ & Hk & _) Hw IH]; intros en st; cbn [fold_left]; [cbn; set_solver|].
  unfold ack_token at 2. rewrite Hk. rewrite IH. cbn. set_solver.
Qed.

Lemma capEnd_caps c : enabled (capState (capEnd c)) = enabled (capState c) /\ advertised (capState (capEnd c)) = advertised (capState c).
Proof. unfold capEnd, sendf, IrcClient.Sendf, IrcClient.Send. cbn. by destruct (writer c). Qed.

Lemma startSASL_caps c c' : startSASL c = Some c' ->
  enabled (capState c') = enabled (capState c) /\ advertised (capState c') = advertised (capState c).
Proof.
  unfold startSASL. set (d := if bool_decide _ then c else _).
  assert (enabled (capState d) = enabled (capState c) /\ advertised (capState d) = advertised (capState c)) as [E1 E2]
    by (subst d; by case_bool_decide).
  clearbody d. destruct (SASL _); [|done]. intros [= <-]. unfold sendf, IrcClient.Sendf, IrcClient.Send. cbn. by destruct (writer d).
Qed.

(** The client takes an acknowledgement of its request for what it is. *)
Lemma client_acks c msg n want :
  mux c = installBuiltinHandlers ∅ -> sasl_consistent c -> want <> [] ->
  Forall (fun k => is_word k = true /\ HasPrefix k (str "-") = false /\ HasPrefix k (str ":") = false) want ->
  Command msg = str "CAP" -> Params msg = [n; CapACK; Join want (str " ")] ->
  exists c2, handle_messages user c [msg] = Some c2 /\ enabled (capState c2) = list_to_set want ∪ enabled (capState c).
Proof.
  intros Hm Hc Hne Hw Hcmd Hp. cbn [handle_messages]. rewrite dispatch_CAP by done.
  destruct (handleCAP_total c msg Hc) as [c2 E2]. rewrite E2. exists c2. split; [done|]. revert E2.
  assert (cap_reply msg CapACK) as Hr by (split; [done|]; exists n, CapACK, [Join want (str " ")]; split; [done|vm_compute; reflexivity]).
  rewrite (handleCAP_of _ _ _ Hr). change (seqb CapACK CapLS) with false. change (seqb CapACK CapACK) with true. cbv iota.
  unfold handleCAP_ACK, IrcClient.param. rewrite Hp. change (default [] _) with (Join want (str " ")).
  rewrite TrimPrefix_no by (by apply HasPrefix_Join). rewrite Fields_Join by (eapply Forall_impl; [exact Hw|]; naive_solver).
  pose proof (ack_enables (bool_decide (is_Some (SASL (IrcClient.cfg c)))) want (enabled (capState c)) false Hw) as Hen.
  destruct (fold_left _ _ _) as [en start]. cbn in Hen. subst en. cbn [phase capState on_cap with_capState set_pending set_enabled].
  destruct (phase (capState c)), start;
    first [ intros [= <-]; rewrite ?(proj1 (capEnd_caps _)); reflexivity
          | intros [E _]%startSASL_caps; rewrite E; reflexivity ].
Qed.

(** C13. Client and server agree on the capabilities.  A client that has sent CAP LS 302
    to a server learns from its answer, over however many lines, exactly the capabilities
    the server offers the session, with their values; it then either ends the negotiation
    or requests some of them, and the server grants that request: once the client has
    read the answer, the capabilities it counts as enabled are those the server has
    enabled for the session.  (Other commands of the session may be handled between the
    two, as NICK and USER are, as long as they leave its capabilities alone; the
    capability sts, which is not to be requested, is excepted.) *)
Theorem capabilities_agree i srv c :
  is_Some (store srv !! i) -> response srv !! i = None -> caps (obj srv i) = ∅ ->
  awaiting_list c -> CapSTS ∉ desired (IrcClient.cfg c) ->
  let srv1 := (IrcHandlers.handleCAP i ls_command srv).2 in
  exists c1, handle_messages user c (to_client i srv srv1) = Some c1 /\
    advertised (capState c1) = supportedCaps (obj srv1 i) /\
    enabled (capState c1) = caps (obj srv1 i) /\
    (phase (capState c1) = capPhaseDone \/
     exists want, phase (capState c1) = capPhaseREQSent /\ last (out c1) = Some (req_command want) /\
       forall srv2, is_Some (store srv2 !! i) -> response srv2 !! i = None ->
         caps (obj srv2 i) = caps (obj srv1 i) -> supportedCaps (obj srv2 i) = supportedCaps (obj srv1 i) ->
         let srv3 := (IrcHandlers.handleCAP i (req_command want) srv2).2 in
         exists c2, handle_messages user c1 (to_client i srv2 srv3) = Some c2 /\
           enabled (capState c2) = caps (obj srv3 i) /\ Forall (fun k => k ∈ caps (obj srv3 i)) want).
Proof.
  intros Hi Hr Hcaps Hc Hsts srv1.
  destruct (server_lists i srv Hi Hr) as (E1 & lines & n & Hl & Hne & Hp). fold srv1 in E1, Hl, Hp.
  destruct (client_lists c _ n lines _ Hc (supportedCaps_good _) Hne Hl Hp) as (c1 & Hh & Ha & He & F & Hcase).
  exists c1. split_and!; [done..| |].
  { rewrite He, E1. change (caps (listed (obj srv i))) with ({[CapCapNotify]} ∪ caps (obj srv i)). rewrite Hcaps. set_solver. }
  destruct Hcase as [|(want & Hw & Hph & Hlast & Hall)]; [by left|right]. exists want. split_and!; [done..|].
  intros srv2 Hi2 Hr2 Hc2 Hs2. cbv zeta.
  assert (requestable (supportedCaps (obj srv2 i)) want) as Hreq.
  { eapply Forall_impl; [exact Hall|]. intros k [Hk Hd]. rewrite Hs2. split; [done|]. intros ->. by apply Hsts. }
  destruct (server_grants i srv2 want Hi2 Hr2 Hw Hreq) as (E3 & n3 & msg & Hmsg & Hcmd & Hps).
  rewrite Hmsg.
  destruct (client_acks c1 msg n3 want) as (c2 & H2 & Hen); try done.
  { rewrite (frame_mux _ _ F). apply Hc. }
  { eapply frame_consistent; [exact F|apply Hc]. }
  { by eapply requestable_words. }
  exists c2. split_and!; [done| |].
  - rewrite Hen, E3, Hc2, E1, He. change (caps (listed (obj srv i))) with ({[CapCapNotify]} ∪ caps (obj srv i)). rewrite Hcaps. set_solver.
  - rewrite E3. apply Forall_forall. intros k Hk. apply elem_of_union_l. by apply elem_of_list_to_set.
Qed.
End Agreement.

(* ------------------------------------------------------------------ *)
(** ** A whole registration *)
#[local] Instance link_unicode : GoUnicode := ascii_only.
#[local] Instance link_iter : IterOrder := in_order.
#[local] Instance link_order : MapOrder := canonical_order.
#[local] Instance link_bcrypt : Bcrypt := {| bcryptCheck h p := seqb h p |}.
#[local] Instance link_crypto : IrcScram.Crypto := IrcScram.toy_crypto.
#[local] Instance link_cfg : Config := {|
  Name := str "irc.test"; Network := str "Test"; MOTD := []; Opers := ∅;
  accounts := {[str "alice" := {| AName := str "Alice"; PasswordHash := str "sesame"; AHost := [] |}]};
  dummyPasswordHash := str "-"; STS := Some {| STSPort := 6697; STSDuration := 0; STSPreload := true; STSHostnames := [] |} |}.
#[local] Instance link_env : Env := {| now := 1709296245250000000; zone _ := 0; rnd := str "ID1"; batch_rnd := str "ID2" |}.

(** A TLS connection to the server, and the client of it. *)
Definition link_server : Server := (connect 0 (str "host") true [] newServer).2.
Definition link_client : Client builtin := just_connected plain_client.

(** The two sides over the wire: the client's lines from the [k]-th on are handled one by
    one, each with the lines the server writes to the client in answer. *)
Fixpoint converse (fuel k : nat) (srv : Server) (c : Client builtin) : Server * Client builtin :=
  match fuel, out c !! k with
  | S fuel', Some msg =>
      let srv' := (IrcHandlers.handle_line 0 (Format msg) srv).2 in
      converse fuel' (S k) srv' (after_lines c (map Format (to_client 0 srv srv')))
  | _, _ => (srv, c)
  end.

Definition registered_pair : Server * Client builtin := converse 20 0 link_server link_client.

Lemma registration_run :
  let srv := registered_pair.1 in let c := registered_pair.2 in
  map (fun m => (Command m, nth 0 (Params m) [])) (out c) =
    [ (str "CAP", str "LS"); (str "NICK", str "alice"); (str "USER", str "gopher"); (str "CAP", str "REQ");
      (str "AUTHENTICATE", str "PLAIN"); (str "AUTHENTICATE", str "AGFsaWNlAHNlc2FtZQ=="); (str "CAP", str "END") ] /\
  phase (capState c) = capPhaseDone /\ loggedIn c = true /\ IrcClient.nick c = str "alice" /\
  state (obj srv 0) = StateRegistered /\ account (obj srv 0) = str "Alice" /\
  bool_decide (enabled (capState c) = caps (obj srv 0)) = true /\ capEnabled (obj srv 0) CapSASL = true.
Proof. split_and!; vm_compute; reflexivity. Qed.

Lemma link_client_awaiting : awaiting_list link_client.
Proof.
  constructor; [apply just_connected_mux|vm_compute; reflexivity| |vm_compute; reflexivity..].
  intros H. vm_compute in H. discriminate H.
Qed.

Lemma capabilities_agree_witness :
  let srv1 := (IrcHandlers.handleCAP 0 ls_command link_server).2 in
  exists c1, handle_messages no_user link_client (to_client 0 link_server srv1) = Some c1 /\
    advertised (capState c1) = supportedCaps (obj srv1 0) /\ enabled (capState c1) = caps (obj srv1 0).
Proof.
  destruct (capabilities_agree no_user 0 link_server link_client) as (c1 & H1 & H2 & H3 & _).
  - exists (obj link_server 0). vm_compute. reflexivity.
  - vm_compute. reflexivity.
  - vm_compute. reflexivity.
  - apply link_client_awaiting.
  - apply (bool_decide_eq_false_1 _). vm_compute. reflexivity.
  - exists c1. split_and!; assumption.
Defined.
