(* ===== verification/Bouncer.v ===== *)
(** * irc/bouncer/bouncer.go: the bouncer

    Networks keep one upstream client each (IrcClient.v) and relay between it and the
    downstream sessions attached to them; the history store (HistoryStore.v) is shared.
    Networks and sessions are objects: networks live in a list by position, sessions in a
    map by number, and references are those numbers.  An operation is a program of the
    monad [M] over the whole bouncer; [None] is a panic.  [sent] records, in order, the
    messages written to each session: the line on its connection is the [Format] of the
    message and CRLF.  Readings of the clock and of [rand.Text] are numbered and come from
    the class [World].  A map of capabilities to [bool], in which the code only stores
    [true], is the set of its keys. *)

From S2P Require Import Prelude GoStrings GoSort GoTime GoEncoding IrcMessage ChatHistory RingBuf HistoryStore IrcConst.
From S2P Require Import IrcScram IrcSasl IrcClient.

(* ------------------------------------------------------------------ *)
(** ** Configuration *)

Record UserConfig := { UName : bytes; UPassword : bytes }.

Record NetworkConfig := {
  NName : bytes; NServer : bytes; NTLS : bool; NNick : bytes; NUser : bytes; NRealName : bytes; NPassword : bytes;
  SASLUser : bytes; SASLPass : bytes; NChannels : list bytes; AutoConnect : bool
}.

Record HistoryConfig := { HBackend : bytes; HLimit : Z }.

Definition chatHistoryLimit : Z := 50.

Record Config := {
  Listen : bytes; TLSListen : bytes; TLSConfig : bool;
  Users : list UserConfig; Networks : list NetworkConfig; History : HistoryConfig
}.

(* ------------------------------------------------------------------ *)
(** ** State *)

Record ChannelState := { Topic : bytes; TopicBy : bytes; TopicAt : Time; Members : gmap bytes bytes }.

Record NetworkState := { SNick : bytes; Channels : gmap bytes ChannelState; Queries : gset bytes }.

(** SASL PLAIN as the mechanism of an upstream client. *)
#[export] Instance plain_mechanism : Mechanism Plain :=
  {| Mech_Name _ := str "PLAIN"; Mech_Next _ p := (p, Ok (Plain_Next p, true)); Mech_Reset p := p |}.

Record Network := {
  ncfg : NetworkConfig;
  client : option (Client Plain);
  nstate : NetworkState;
  downstreams : list nat
}.

(** The variables of [run] during registration. *)
Record Registration := {
  passUser : bytes; passNetwork : bytes; passPass : bytes; rnick : bytes; ruser : bytes; realname : bytes;
  rcaps : gset bytes; capDone : bool
}.

(** Where [run] is: its first loop, its second, or returned. *)
Inductive Phase := Registering | Relaying | Gone.
#[export] Instance Phase_eq_dec : EqDecision Phase.
Proof. solve_decision. Defined.

Record DownstreamSession := {
  dnetwork : option nat; dnick : bytes; duser : bytes; caps : gset bytes; capVersion : Z;
  dphase : Phase; dreg : Registration
}.

Record Bouncer (L : Type) := {
  nets : list Network;
  networks : gmap bytes nat;
  hist : MemoryStore L;
  sessions : gmap nat DownstreamSession;
  sent : list (nat * Message);
  ticks : nat;
  draws : nat
}.
Arguments nets {L}. Arguments networks {L}. Arguments hist {L}. Arguments sessions {L}. Arguments sent {L}.
Arguments ticks {L}. Arguments draws {L}.

(** The readings of [time.Now] and the results of [rand.Text], in order. *)
Class World := { clock : nat -> Time; random : nat -> bytes }.

(* ------------------------------------------------------------------ *)
(** ** Field updates *)

Definition with_members (cs : ChannelState) x : ChannelState :=
  {| Topic := Topic cs; TopicBy := TopicBy cs; TopicAt := TopicAt cs; Members := x |}.
Definition with_snick (st : NetworkState) x : NetworkState :=
  {| SNick := x; Channels := Channels st; Queries := Queries st |}.
Definition with_channels (st : NetworkState) x : NetworkState :=
  {| SNick := SNick st; Channels := x; Queries := Queries st |}.
Definition with_queries (st : NetworkState) x : NetworkState :=
  {| SNick := SNick st; Channels := Channels st; Queries := x |}.
Definition with_client (n : Network) x : Network :=
  {| ncfg := ncfg n; client := x; nstate := nstate n; downstreams := downstreams n |}.
Definition with_nstate (n : Network) x : Network :=
  {| ncfg := ncfg n; client := client n; nstate := x; downstreams := downstreams n |}.
Definition with_downstreams (n : Network) x : Network :=
  {| ncfg := ncfg n; client := client n; nstate := nstate n; downstreams := x |}.
Definition with_rcaps (r : Registration) c d : Registration :=
  {| passUser := passUser r; passNetwork := passNetwork r; passPass := passPass r; rnick := rnick r; ruser := ruser r;
     realname := realname r; rcaps := c; capDone := d |}.
Definition with_phase (ds : DownstreamSession) x : DownstreamSession :=
  {| dnetwork := dnetwork ds; dnick := dnick ds; duser := duser ds; caps := caps ds; capVersion := capVersion ds;
     dphase := x; dreg := dreg ds |}.
Definition with_reg (ds : DownstreamSession) x : DownstreamSession :=
  {| dnetwork := dnetwork ds; dnick := dnick ds; duser := duser ds; caps := caps ds; capVersion := capVersion ds;
     dphase := dphase ds; dreg := x |}.
Definition with_caps (ds : DownstreamSession) x : DownstreamSession :=
  {| dnetwork := dnetwork ds; dnick := dnick ds; duser := duser ds; caps := x; capVersion := capVersion ds;
     dphase := dphase ds; dreg := dreg ds |}.
Definition with_capVersion (ds : DownstreamSession) x : DownstreamSession :=
  {| dnetwork := dnetwork ds; dnick := dnick ds; duser := duser ds; caps := caps ds; capVersion := x;
     dphase := dphase ds; dreg := dreg ds |}.

Definition no_registration : Registration :=
  {| passUser := []; passNetwork := []; passPass := []; rnick := []; ruser := []; realname := []; rcaps := ∅; capDone := true |}.
Definition no_downstream : DownstreamSession :=
  {| dnetwork := None; dnick := []; duser := []; caps := ∅; capVersion := 0; dphase := Registering; dreg := no_registration |}.

Section Updates.
Context {L : Type}.
Implicit Types b : Bouncer L.

Definition with_nets b x : Bouncer L :=
  {| nets := x; networks := networks b; hist := hist b; sessions := sessions b; sent := sent b; ticks := ticks b; draws := draws b |}.
Definition with_hist b x : Bouncer L :=
  {| nets := nets b; networks := networks b; hist := x; sessions := sessions b; sent := sent b; ticks := ticks b; draws := draws b |}.
Definition with_sessions b x : Bouncer L :=
  {| nets := nets b; networks := networks b; hist := hist b; sessions := x; sent := sent b; ticks := ticks b; draws := draws b |}.
Definition with_sent b x : Bouncer L :=
  {| nets := nets b; networks := networks b; hist := hist b; sessions := sessions b; sent := x; ticks := ticks b; draws := draws b |}.
Definition with_ticks b x : Bouncer L :=
  {| nets := nets b; networks := networks b; hist := hist b; sessions := sessions b; sent := sent b; ticks := x; draws := draws b |}.
Definition with_draws b x : Bouncer L :=
  {| nets := nets b; networks := networks b; hist := hist b; sessions := sessions b; sent := sent b; ticks := ticks b; draws := x |}.
End Updates.

(* ------------------------------------------------------------------ *)
(** ** The monad *)

Definition M (L A : Type) : Type := Bouncer L -> option (A * Bouncer L).

Section Monad.
Context {L : Type}.
#[export] Instance M_ret : MRet (M L) := fun A a b => Some (a, b).
#[export] Instance M_bind : MBind (M L) := fun A B f m b => match m b with Some (a, b) => f a b | None => None end.
Definition get : M L (Bouncer L) := fun b => Some (b, b).
Definition modify (f : Bouncer L -> Bouncer L) : M L unit := fun b => Some (tt, f b).
(** A call that may panic. *)
Definition lift {A} (o : option A) : M L A := fun b => a ← o; Some (a, b).
Definition when (c : bool) (m : M L unit) : M L unit := if c then m else mret tt.
Fixpoint forM_ {A} (l : list A) (f : A -> M L unit) : M L unit :=
  match l with [] => mret tt | x :: l => f x ≫= fun _ => forM_ l f end.

(** A reference: a number that is not there stands for a nil pointer. *)
Definition network (k : nat) : M L Network := fun b => n ← nets b !! k; Some (n, b).
Definition session (i : nat) : M L DownstreamSession := fun b => ds ← sessions b !! i; Some (ds, b).
Definition update_network (k : nat) (f : Network -> Network) : M L unit := modify (fun b => with_nets b (alter f k (nets b))).
Definition update_session (i : nat) (f : DownstreamSession -> DownstreamSession) : M L unit :=
  modify (fun b => with_sessions b (alter f i (sessions b))).

(** Operations of the history store. *)
Context `{!BoundedLog Entry L} {HW : World}.
Definition append (net target : bytes) (t : Time) (msg : Message) : M L unit :=
  fun b => h ← Append (hist b) net target t msg; Some (tt, with_hist b h).
Definition query (net target : bytes) (q : Query_) : M L (list Entry) :=
  fun b => '(es, h) ← Query (hist b) net target q; Some (es, with_hist b h).
Definition now : M L Time := fun b => Some (clock (ticks b), with_ticks b (S (ticks b))).
Definition text : M L bytes := fun b => Some (random (draws b), with_draws b (S (draws b))).
End Monad.
Notation "m ;; k" := (m ≫= fun _ => k) (at level 100, k at level 200, right associativity, only parsing) : go_scope.
#[local] Open Scope go_scope.

(* ------------------------------------------------------------------ *)
(** ** Passwords and users *)

(** ["user/network:password"] or ["user:password"]. *)
Definition parseBouncerPass (pass : bytes) : bytes * bytes * bytes :=
  let second :=
    match IndexByte pass ":"%byte with
    | Some i => (take i pass, [], drop (S i) pass)
    | None => (pass, [], [])
    end in
  match IndexByte pass "/"%byte with
  | Some i =>
      let rest := drop (S i) pass in
      match IndexByte rest ":"%byte with
      | Some j => (take i pass, take j rest, drop (S j) rest)
      | None => second
      end
  | None => second
  end.

Definition authenticate `{GoUnicode} (g : Config) (username password : bytes) : bool :=
  match List.find (fun u => EqualFold (UName u) username) (Users g) with
  | Some u => seqb (UPassword u) password
  | None => false
  end.

(** The network, or the first of the map when no name is given. *)
Definition getNetwork `{GoUnicode} `{IterOrder} (ns : gmap bytes nat) (user netName : bytes) : option nat :=
  if negb (seqb netName []) then ns !! ToLower netName
  else match iter (map_to_list ns) with (_, k) :: _ => Some k | [] => None end.

(* ------------------------------------------------------------------ *)
(** ** What is written to a session *)

Definition message (p : option Prefix) (cmd : bytes) (params : list bytes) : Message :=
  {| MTags := None; MPrefix := p; Command := cmd; Params := params |}.
Definition server (name : bytes) : option Prefix := Some {| Nick := name; User := []; Host := [] |}.
Definition with_tags (m : Message) (t : Tags) : Message :=
  {| MTags := t; MPrefix := MPrefix m; Command := Command m; Params := Params m |}.
Definition with_params (m : Message) (ps : list bytes) : Message :=
  {| MTags := MTags m; MPrefix := MPrefix m; Command := Command m; Params := ps |}.

Definition cap (ds : DownstreamSession) (c : bytes) : bool := bool_decide (c ∈ caps ds).

Definition requiredCap (command : bytes) : option bytes :=
  if seqb command (str "ACCOUNT") then Some CapAccountNotify
  else if seqb command (str "AWAY") then Some CapAwayNotify
  else if seqb command (str "BATCH") then Some CapBatch
  else if seqb command (str "CHGHOST") then Some CapChghost
  else if seqb command (str "SETNAME") then Some CapSetname
  else None.

Definition tag_cap (tag : bytes) : bytes :=
  if seqb tag (str "time") then CapServerTime
  else if seqb tag (str "batch") then CapBatch
  else if seqb tag (str "account") then CapAccountTag
  else if seqb tag (str "label") then CapLabeledResponse
  else if seqb tag (str "draft/chathistory-end") then CapChatHistory
  else CapMessageTags.

(** The commands a session does not get, [nick] being its nickname upstream. *)
Definition withheld `{GoUnicode} (ds : DownstreamSession) (nick : bytes) (msg : Message) : bool :=
  (seqb (Command msg) (str "TAGMSG") && negb (cap ds CapMessageTags)) ||
  (match requiredCap (Command msg) with Some c => negb (cap ds c) | None => false end) ||
  (seqb (Command msg) (str "INVITE") &&
   match Params msg with p :: _ => negb (cap ds CapInviteNotify) && negb (EqualFold p nick) | [] => false end).

(** The message with the tags the session asked for; JOIN is cut to its channel. *)
Definition visible (ds : DownstreamSession) (msg : Message) : Message :=
  let out := with_tags msg (filter (fun kv => cap ds (tag_cap kv.1) = true) <$> MTags msg) in
  if seqb (Command out) (str "JOIN") && (blen (Params out) >? 1) && negb (cap ds CapExtendedJoin)
  then with_params out (take 1 (Params out)) else out.

Section Operations.
Context {L : Type} `{!BoundedLog Entry L} {HU : GoUnicode} {HI : IterOrder} {HW : World} (g : Config).
Abbreviation M := (M L).

(** The nickname [send] compares an INVITE with. *)
Definition own_nick (ds : DownstreamSession) : M bytes :=
  match dnetwork ds with
  | None => mret (dnick ds)
  | Some k => n ← network k; mret (if seqb (SNick (nstate n)) [] then dnick ds else SNick (nstate n))
  end.

Definition send (i : nat) (msg : Message) : M unit :=
  ds ← session i;
  nick ← own_nick ds;
  if withheld ds nick msg then mret tt
  else modify (fun b => with_sent b (sent b ++ [(i, visible ds msg)])).

Definition reply_nick (ds : DownstreamSession) : bytes := if seqb (dnick ds) [] then str "*" else dnick ds.

Definition sendNumeric (i : nat) (n : Z) (params : list bytes) : M unit :=
  ds ← session i;
  send i (message (server (Listen g)) (numeric_string n) (reply_nick ds :: params)).

(* ------------------------------------------------------------------ *)
(** ** Networks *)

Definition newNetwork (c : NetworkConfig) : Network :=
  {| ncfg := c; client := None; nstate := {| SNick := []; Channels := ∅; Queries := ∅ |}; downstreams := [] |}.

Definition attach (k i : nat) : M unit := update_network k (fun n => with_downstreams n (downstreams n ++ [i])).

Fixpoint remove_first (i : nat) (l : list nat) : list nat :=
  match l with [] => [] | x :: l => if bool_decide (x = i) then l else x :: remove_first i l end.
Definition detach (k i : nat) : M unit := update_network k (fun n => with_downstreams n (remove_first i (downstreams n))).

Definition fanOut (k : nat) (msg : Message) : M unit :=
  n ← network k;
  forM_ (downstreams n) (fun i => send i msg).

(** The state of the network after a message from upstream. *)
Definition track (st : NetworkState) (msg : Message) : NetworkState :=
  if seqb (Command msg) (str "JOIN") then
    match Params msg, MPrefix msg with
    | p :: _, Some pre =>
        let ch := ToLower p in
        let cs := default {| Topic := []; TopicBy := []; TopicAt := zero_time; Members := ∅ |} (Channels st !! ch) in
        with_channels st (<[ch := with_members cs (<[Nick pre := []]> (Members cs))]> (Channels st))
    | _, _ => st
    end
  else if seqb (Command msg) (str "PART") || seqb (Command msg) (str "QUIT") then
    match MPrefix msg with
    | Some pre => with_channels st ((fun cs => with_members cs (delete (Nick pre) (Members cs))) <$> Channels st)
    | None => st
    end
  else if seqb (Command msg) (str "NICK") then
    match MPrefix msg, Params msg with
    | Some pre, newNick :: _ =>
        let rename cs :=
          match Members cs !! Nick pre with
          | Some prefix => with_members cs (<[newNick := prefix]> (delete (Nick pre) (Members cs)))
          | None => cs
          end in
        let st := with_channels st (rename <$> Channels st) in
        if seqb (SNick st) (Nick pre) then with_snick st newNick else st
    | _, _ => st
    end
  else st.

(** Under which target a message is stored, if it is, and the conversations after it. *)
Definition history_target (st : NetworkState) (msg : Message) : option bytes * NetworkState :=
  if seqb (Command msg) (str "PRIVMSG") || seqb (Command msg) (str "NOTICE") then
    match Params msg with
    | p :: _ :: _ =>
        let target := ToLower p in
        if HasPrefix target (str "#") || HasPrefix target (str "&") then (Some target, st)
        else
          match MPrefix msg with
          | None => (None, st)
          | Some pre =>
              let '(target, store) :=
                if EqualFold target (SNick st) then (ToLower (Nick pre), false)
                else (target, EqualFold (Nick pre) (SNick st)) in
              if negb (seqb target []) then (Some target, with_queries st ({[target]} ∪ Queries st))
              else (if store : bool then Some target else None, st)
          end
    | _ => (None, st)
    end
  else (None, st).

(** The time a message is stored with. *)
Definition stored_time (t : Time) (msg : Message) : Time :=
  match Tags_Get (MTags msg) (str "time") with Some ts => default t (parse_rfc3339 ts) | None => t end.

(** The copy for the sessions: with a time if it had none. *)
Definition timed (t : Time) (msg : Message) : Message :=
  let tags := default ∅ (MTags msg) in
  with_tags msg (Some (if bool_decide (is_Some (tags !! str "time")) then tags
                       else <[str "time" := format_server_time t]> tags)).

Definition update_nstate (k : nat) (f : NetworkState -> NetworkState) : M unit :=
  update_network k (fun n => with_nstate n (f (nstate n))).

Definition store_message (k : nat) (msg : Message) : M unit :=
  n ← network k;
  let '(target, st) := history_target (nstate n) msg in
  update_nstate k (fun _ => st);;
  match target with
  | Some target => t ← now; append (NName (ncfg n)) target (stored_time t msg) msg
  | None => mret tt
  end.

Definition handleUpstream (k : nat) (msg : Message) : M unit :=
  if seqb (Command msg) (str "CAP") then mret tt
  else
    update_nstate k (fun st => track st msg);;
    store_message k msg;;
    t ← (if bool_decide (is_Some (Tags_Get (MTags msg) (str "time"))) then mret 0 else now);
    fanOut k (timed t msg).

(** The handler of 001: join the configured channels. *)
Definition handleWelcomed (k : nat) (msg : Message) : M unit :=
  match Params msg with p :: _ => update_nstate k (fun st => with_snick st p) | [] => mret tt end;;
  update_network k (fun n =>
    with_client n ((fun c => fold_left (fun c ch => sendf (str "JOIN") [ch] c) (NChannels (ncfg n)) c) <$> client n)).

(* ------------------------------------------------------------------ *)
(** ** The upstream connection *)

Definition upstreamCaps : list bytes :=
  [ CapServerTime; CapMessageTags; CapBatch; CapChatHistory; CapMultiPrefix; CapAwayNotify; CapExtendedJoin; CapSetname;
    CapInviteNotify ].

Definition upstream_config (c : NetworkConfig) : ClientConfig Plain :=
  {| Addr := NServer c; cfgNick := NNick c; cfgUser := NUser c; RealName := NRealName c; cfgPassword := NPassword c;
     TLS := NTLS c;
     SASL := if seqb (SASLUser c) [] then None
             else Some {| Username := SASLUser c; Password := SASLPass c; AuthzID := [] |};
     RequestedCaps := upstreamCaps; DisableDefaultCaps := true; ReconnectDelay := 15 * second; AutoReconnect := true;
     ConnectTimeout := 0 |}.

(** [connect] makes the client and registers its two handlers, numbered 0 and 1. *)
Definition connect (n : Network) : Network :=
  with_client n (Some (On (On (IrcClient.New (upstream_config (ncfg n))) (str "*") (HUser 0)) (str "001") (HUser 1))).

(** The loop of [connect], event by event: a dial that succeeds, a line, the end. *)
Definition update_client (k : nat) (f : Client Plain -> Client Plain) : M unit :=
  update_network k (fun n => with_client n (f <$> client n)).

Definition upstream_dialled (k : nat) (works : bool) : M unit := update_client k (fun c => (start c works).1).

Definition call_upstream (k : nat) (msg : Message) (fn : HandlerFunc) : M unit :=
  match fn with
  | HUser 0 => handleUpstream k msg
  | HUser _ => handleWelcomed k msg
  | _ =>
      n ← network k;
      match client n with
      | None => mret tt
      | Some c => c' ← lift (call (fun _ c _ => Some c) fn c msg); update_client k (fun _ => c')
      end
  end.

Definition upstream_message (k : nat) (msg : Message) : M unit :=
  n ← network k;
  match client n with
  | Some c => forM_ (Mux_handlers (mux c) (Command msg)) (call_upstream k msg)
  | None => mret tt
  end.

Definition upstream_line (k : nat) (line : bytes) : M unit :=
  match Parse line with Ok msg => upstream_message k msg | _ => mret tt end.

Definition upstream_ended (k : nat) : M unit :=
  update_client k (fun c => with_done c (done c) ({[done c]} ∪ closed c)).

(* ------------------------------------------------------------------ *)
(** ** Capabilities of a session *)

Definition supportedCaps : list bytes :=
  [ CapServerTime; CapMessageTags; CapBatch; CapChatHistory; CapMultiPrefix; CapAwayNotify; CapExtendedJoin; CapSetname;
    CapCapNotify; CapInviteNotify ].

Definition sendCAP (i : nat) (nick sub arg : bytes) : M unit :=
  send i (message (server (str "bouncer")) (str "CAP") [nick; sub; arg]).

(** One token of a request that is granted. *)
Definition grant (version : Z) (cs : gset bytes) (requested : bytes) : gset bytes :=
  let name := TrimPrefix requested (str "-") in
  if HasPrefix requested (str "-") then
    if negb (seqb name CapCapNotify) || (version <? 302) then cs ∖ {[name]} else cs
  else {[name]} ∪ cs.

(** The capabilities and [done] as the handler leaves them.  [cs] is the set of the
    session itself once it is registered; the messages sent here are written whatever
    the capabilities are. *)
Definition handleCAP (i : nat) (msg : Message) (cs : gset bytes) (done : bool) : M (gset bytes * bool) :=
  match Params msg with
  | [] => sendNumeric i ERR_INVALIDCAPCMD [str "*"; str "Invalid CAP command"];; mret (cs, done)
  | p :: ps =>
      let subCmd := ToUpper p in
      let arg := match ps with a :: _ => a | [] => [] end in
      ds ← session i;
      let nick := reply_nick ds in
      if seqb subCmd CapLS then
        let '(version, err) := Atoi arg in
        let v302 := negb (bool_decide (is_Some err)) && (302 <=? version) in
        when v302 (update_session i (fun ds => with_capVersion ds version));;
        sendCAP i nick CapLS (Join supportedCaps (str " "));;
        mret (if v302 then {[CapCapNotify]} ∪ cs else cs, false)
      else if seqb subCmd CapREQ then
        let arg := TrimPrefix arg (str ":") in
        if forallb (fun requested => bool_decide (TrimPrefix requested (str "-") ∈ supportedCaps)) (Fields arg) then
          sendCAP i nick CapACK arg;;
          mret (fold_left (grant (capVersion ds)) (Fields arg) cs, false)
        else
          sendCAP i nick CapNAK arg;;
          mret (cs, false)
      else if seqb subCmd CapLIST then
        sendCAP i nick CapLIST (Join (sort_strings (iter (elements cs))) (str " "));;
        mret (cs, done)
      else if seqb subCmd CapEND then mret (cs, true)
      else sendNumeric i ERR_INVALIDCAPCMD [subCmd; str "Invalid CAP command"];; mret (cs, done)
  end.

(* ------------------------------------------------------------------ *)
(** ** History *)

Definition sendChatHistoryFail (i : nat) (code context text : bytes) : M unit :=
  send i (message (server (str "bouncer")) (str "FAIL") [str "CHATHISTORY"; code; context; text]).

(** An entry of a batch; a session without the capability gets no batch. *)
Definition history_message (batchID : bytes) (e : ChatHistoryEntry) : Message :=
  let tags := <[str "time" := format_server_time (ETime e)]> (default ∅ (MTags (EMsg e))) in
  with_tags (EMsg e) (Some (if seqb batchID [] then tags else <[str "batch" := batchID]> tags)).

Definition sendHistoryBatch (i : nat) (batchType target : bytes) (entries : list ChatHistoryEntry) (complete : bool) : M unit :=
  ds ← session i;
  batchID ← (if cap ds CapBatch then
               id ← text;
               send i (with_tags (message (server (str "bouncer")) (str "BATCH")
                         ([str "+" ++ id; batchType] ++ (if seqb target [] then [] else [target])))
                       (Some (if complete then {[str "draft/chathistory-end" := []]} else ∅)));;
               mret id
             else mret []);
  forM_ entries (fun e => send i (history_message batchID e));;
  when (negb (seqb batchID [])) (send i (message (server (str "bouncer")) (str "BATCH") [str "-" ++ batchID])).

Definition sendHistory (i : nat) (target : bytes) (entries : list ChatHistoryEntry) (complete : bool) : M unit :=
  sendHistoryBatch i (str "chathistory") target entries complete.

Definition history_entry (e : Entry) : ChatHistoryEntry := {| ETime := Time_ e; EMsg := Msg e |}.

(** [history.Query{Limit: n}]. *)
Definition limit_query (n : Z) : Query_ := {| Before := None; After := None; Around := None; AfterMsgID := []; Limit := n |}.

Definition targets_time (p : bytes) : option Time :=
  match parse_server_time (TrimPrefix p (str "timestamp=")) with
  | Some t => if HasPrefix p (str "timestamp=") then Some t else None
  | None => None
  end.

Definition newer_first (a b : ChatHistoryEntry) : Prop := ETime b <= ETime a.
#[local] Instance newer_first_dec : RelDecision newer_first.
Proof. intros a b. unfold newer_first. apply _. Defined.

(** The entry of a conversation whose last message is inside the window. *)
Definition target_entry (first second : Time) (name : bytes) (entries : list Entry) : list ChatHistoryEntry :=
  match entries with
  | [] => []
  | latest :: _ =>
      if time_after (Time_ latest) first && time_before (Time_ latest) second
      then [ {| ETime := Time_ latest;
                EMsg := message None (str "CHATHISTORY") [str "TARGETS"; name; format_server_time (Time_ latest)] |} ]
      else []
  end.

Fixpoint collect_targets (net : bytes) (first second : Time) (names : list bytes) : M (list ChatHistoryEntry) :=
  match names with
  | [] => mret []
  | name :: names =>
      es ← query net name (limit_query 1);
      ts ← collect_targets net first second names;
      mret (target_entry first second name es ++ ts)
  end.

Definition handleChatHistoryTargets (i : nat) (msg : Message) : M unit :=
  ds ← session i;
  match dnetwork ds with
  | None => sendChatHistoryFail i (str "INVALID_PARAMS") (Param msg 0) (str "Invalid parameters")
  | Some k =>
      if negb (blen (Params msg) =? 4)
      then sendChatHistoryFail i (str "INVALID_PARAMS") (Param msg 0) (str "Invalid parameters")
      else
        match targets_time (Param msg 1), targets_time (Param msg 2), Atoi (Param msg 3) with
        | None, _, _ | _, None, _ => sendChatHistoryFail i (str "INVALID_PARAMS") (Param msg 0) (str "Invalid timestamp")
        | Some first, Some second, (limit, err) =>
            if bool_decide (is_Some err) || (limit <=? 0)
            then sendChatHistoryFail i (str "INVALID_PARAMS") (Param msg 0) (str "Invalid limit")
            else
              let '(first, second) := if time_after first second then (second, first) else (first, second) in
              n ← network k;
              let names := iter (map_to_list (Channels (nstate n))).*1 ++ iter (elements (Queries (nstate n))) in
              targets ← collect_targets (NName (ncfg n)) first second names;
              let targets := merge_sort newer_first targets in
              sendHistoryBatch i (str "draft/chathistory-targets") [] (take (Z.to_nat limit) targets) (blen targets <=? limit)
        end
  end.

(** The largest [int]; [Panic] cannot happen, the number of selectors being checked. *)
Definition handleChatHistory (i : nat) (msg : Message) : M unit :=
  ds ← session i;
  let subcommand := ToUpper (Param msg 0) in
  if negb (cap ds CapChatHistory) then sendNumeric i ERR_UNKNOWNCOMMAND [str "CHATHISTORY"; str "Unknown command"]
  else if seqb subcommand (str "TARGETS") then handleChatHistoryTargets i msg
  else if negb (blen (Params msg) =? (if seqb subcommand (str "BETWEEN") then 5 else 4))
  then sendChatHistoryFail i (str "INVALID_PARAMS") (Param msg 0) (str "Invalid parameters")
  else
    let target := ToLower (Param msg 1) in
    let '(limit, err) := Atoi (Trailing msg) in
    if bool_decide (is_Some err) || (limit <=? 0)
    then sendChatHistoryFail i (str "INVALID_PARAMS") (Param msg 0) (str "Invalid limit")
    else
      match dnetwork ds with
      | None => sendChatHistoryFail i (str "INVALID_TARGET") (Param msg 0) (str "Messages could not be retrieved")
      | Some k =>
          n ← network k;
          if bool_decide (is_Some (Channels (nstate n) !! target)) || bool_decide (target ∈ Queries (nstate n)) then
            stored ← query (NName (ncfg n)) target (limit_query (2 ^ 63 - 1));
            let selectors := take (length (Params msg) - 3) (drop 2 (Params msg)) in
            match SelectChatHistory (map history_entry stored) subcommand selectors (Z.min limit chatHistoryLimit) with
            | Ok (entries, complete) => sendHistory i target entries complete
            | Err e =>
                sendChatHistoryFail i
                  (if Contains (hist_err_text e) (str "unsupported") then str "INVALID_MSGREFTYPE" else str "INVALID_PARAMS")
                  (Param msg 0) (hist_err_text e)
            | Panic => lift None
            end
          else sendChatHistoryFail i (str "INVALID_TARGET") (Param msg 0) (str "Messages could not be retrieved")
      end.

(* ------------------------------------------------------------------ *)
(** ** Registration and relay *)

(** The replay of one channel. *)
Definition replay_channel (i k : nat) (chanName : bytes) (cs : ChannelState) : M unit :=
  ds ← session i;
  send i (message (Some {| Nick := dnick ds; User := duser ds; Host := str "bouncer" |}) (str "JOIN") [chanName]);;
  (if seqb (Topic cs) [] then sendNumeric i RPL_NOTOPIC [chanName; str "No topic is set"]
   else sendNumeric i RPL_TOPIC [chanName; Topic cs]);;
  let names := map (fun '(nick, prefix) => prefix ++ nick) (iter (map_to_list (Members cs))) in
  when (blen names >? 0) (sendNumeric i RPL_NAMREPLY [str "="; chanName; Join names (str " ")]);;
  sendNumeric i RPL_ENDOFNAMES [chanName; str "End of /NAMES list"];;
  when (negb (cap ds CapChatHistory))
    (n ← network k;
     stored ← query (NName (ncfg n)) chanName (limit_query chatHistoryLimit);
     sendHistory i chanName (map history_entry stored) true).

Definition replayState (i k : nat) : M unit :=
  n ← network k;
  forM_ (iter (map_to_list (Channels (nstate n)))) (fun '(chanName, cs) => replay_channel i k chanName cs).

(** [run] returns: the session leaves its network. *)
Definition leave (i : nat) : M unit :=
  ds ← session i;
  match dnetwork ds with Some k => detach k i | None => mret tt end;;
  update_session i (fun ds => with_phase ds Gone).

Definition registration_command (i : nat) (r : Registration) (msg : Message) : M Registration :=
  if seqb (Command msg) (str "CAP") then
    '(cs, d) ← handleCAP i msg (rcaps r) (capDone r);
    mret (with_rcaps r cs d)
  else if seqb (Command msg) (str "PASS") then
    match Params msg with
    | p :: _ =>
        let '(u, n, pw) := parseBouncerPass p in
        mret {| passUser := u; passNetwork := n; passPass := pw; rnick := rnick r; ruser := ruser r; realname := realname r;
                rcaps := rcaps r; capDone := capDone r |}
    | [] => mret r
    end
  else if seqb (Command msg) (str "NICK") then
    match Params msg with
    | p :: _ =>
        mret {| passUser := passUser r; passNetwork := passNetwork r; passPass := passPass r; rnick := p; ruser := ruser r;
                realname := realname r; rcaps := rcaps r; capDone := capDone r |}
    | [] => mret r
    end
  else if seqb (Command msg) (str "USER") then
    match Params msg with
    | u :: _ :: _ :: real :: _ =>
        mret {| passUser := passUser r; passNetwork := passNetwork r; passPass := passPass r; rnick := rnick r; ruser := u;
                realname := real; rcaps := rcaps r; capDone := capDone r |}
    | _ => mret r
    end
  else mret r.

Definition access_denied : bytes := str "Access denied: invalid credentials".

(** The session of a registered client on the network [k]. *)
Definition registered (k : nat) (r : Registration) (ds : DownstreamSession) : DownstreamSession :=
  {| dnetwork := Some k; dnick := rnick r; duser := ruser r; caps := rcaps r; capVersion := capVersion ds;
     dphase := Relaying; dreg := dreg ds |}.

Definition welcome (i : nat) (r : Registration) : M unit :=
  let serverName := str "bouncer." ++ passNetwork r ++ str ".local" in
  send i (message (server serverName) (str "001") [rnick r; str "Welcome to the bouncer, " ++ rnick r ++ str "!"]);;
  send i (message (server serverName) (str "002") [rnick r; str "Your host is go-irc bouncer"]);;
  sendNumeric i RPL_ISUPPORT [str "CHATHISTORY=50"; str "MSGREFTYPES=timestamp,msgid"; str "are supported by this server"];;
  send i (message (server serverName) (str "376") [rnick r; str "End of /MOTD command."]).

Definition try_register (i : nat) (r : Registration) : M unit :=
  if negb (seqb (rnick r) []) && negb (seqb (ruser r) []) && capDone r then
    if negb (authenticate g (passUser r) (passPass r)) then
      send i (message None (str "ERROR") [access_denied]);;
      leave i
    else
      b ← get;
      match getNetwork (networks b) (passUser r) (passNetwork r) with
      | None =>
          send i (message None (str "ERROR") [str "No such network: " ++ passNetwork r]);;
          leave i
      | Some k =>
          update_session i (registered k r);;
          attach k i;;
          welcome i r;;
          replayState i k
      end
  else mret tt.

(** The first loop of [run], one line; a line that is too long or malformed is skipped. *)
Definition register_line (i : nat) (line : bytes) : M unit :=
  if InputTooLong line then sendNumeric i ERR_INPUTTOOLONG [str "Input line was too long"]
  else
    match Parse line with
    | Ok msg =>
        ds ← session i;
        r ← registration_command i (dreg ds) msg;
        update_session i (fun ds => with_reg ds r);;
        try_register i r
    | _ => mret tt
    end.

(** The tags a session may send upstream. *)
Definition client_tags (ds : DownstreamSession) (msg : Message) : tagmap :=
  if cap ds CapMessageTags then filter (fun kv => HasPrefix kv.1 (str "+") = true) (default ∅ (MTags msg)) else ∅.

Definition relay (i : nat) (msg : Message) : M unit :=
  ds ← session i;
  match dnetwork ds with
  | None => mret tt
  | Some k => update_client k (fun c => (Send c (with_tags msg (Some (client_tags ds msg)))).1)
  end.

(** The second loop of [run], one line. *)
Definition relay_line (i : nat) (line : bytes) : M unit :=
  if InputTooLong line then sendNumeric i ERR_INPUTTOOLONG [str "Input line was too long"]
  else
    match Parse line with
    | Ok msg =>
        if seqb (Command msg) (str "CAP") then
          ds ← session i;
          '(cs, _) ← handleCAP i msg (caps ds) true;
          update_session i (fun ds => with_caps ds cs)
        else if seqb (Command msg) (str "CHATHISTORY") then handleChatHistory i msg
        else relay i msg
    | _ => mret tt
    end.

Definition run_line (i : nat) (line : bytes) : M unit :=
  ds ← session i;
  match dphase ds with
  | Registering => register_line i line
  | Relaying => relay_line i line
  | Gone => mret tt
  end.

(** [run] over all that a connection delivers, when nothing happens in between. *)
Definition run (i : nat) (input : bytes) : M unit :=
  forM_ (scan_lines (length input) max_line input).1 (run_line i);;
  ds ← session i;
  if bool_decide (dphase ds = Gone) then mret tt else leave i.

(* ------------------------------------------------------------------ *)
(** ** The bouncer *)

Definition add_network (b : Bouncer L) (c : NetworkConfig) : Bouncer L :=
  let n := newNetwork c in
  {| nets := nets b ++ [if AutoConnect c then connect n else n];
     networks := <[ToLower (NName c) := length (nets b)]> (networks b);
     hist := hist b; sessions := sessions b; sent := sent b; ticks := ticks b; draws := draws b |}.

Definition New : Bouncer L :=
  fold_left add_network (Networks g)
    {| nets := []; networks := ∅; hist := NewMemoryStore (HLimit (History g)); sessions := ∅; sent := []; ticks := 0; draws := 0 |}.

(** [acceptLoop]: a new connection. *)
Definition accept (i : nat) : M unit := modify (fun b => with_sessions b (<[i := no_downstream]> (sessions b))).

(** What happens to a bouncer, one event at a time. *)
Inductive event :=
| EAccept (i : nat)
| ELine (i : nat) (line : bytes)
| EClose (i : nat)
| EDialled (k : nat) (works : bool)
| EUpstream (k : nat) (line : bytes)
| EEnded (k : nat).

Definition handle (e : event) : M unit :=
  match e with
  | EAccept i => accept i
  | ELine i line => run_line i line
  | EClose i => leave i
  | EDialled k works => upstream_dialled k works
  | EUpstream k line => upstream_line k line
  | EEnded k => upstream_ended k
  end.

(** The events that can happen: on connections and networks that exist. *)
Definition possible (e : event) (b : Bouncer L) : Prop :=
  match e with
  | EAccept i => sessions b !! i = None
  | ELine i _ | EClose i => exists ds, sessions b !! i = Some ds /\ dphase ds <> Gone
  | EDialled k _ | EUpstream k _ | EEnded k => exists n, nets b !! k = Some n /\ is_Some (client n)
  end.

Inductive step : Bouncer L -> Bouncer L -> Prop :=
| step_event e b b' : possible e b -> handle e b = Some (tt, b') -> step b b'.
End Operations.
