(* ===== verification/BouncerRelay.v ===== *)
(** * The bouncer's relay

    What holds of every bouncer that can be reached: sessions attached to a network are
    the authenticated ones that chose it, a message from upstream reaches exactly those,
    a line of a session reaches at most its own network, and the history is an archive
    of all that came from upstream.  Programs of [M] are reasoned about with [wp], which
    includes that they do not panic; [talks] is the fragment of programs that only write
    to one session. *)

From S2P Require Import Prelude GoStrings GoSort GoTime GoEncoding IrcMessage ChatHistory RingBuf HistoryStore IrcConst.
From S2P Require Import IrcScram IrcSasl IrcClient Bouncer.
#[local] Open Scope go_scope.

(* ------------------------------------------------------------------ *)
(** ** Weakest preconditions *)

Section Wp.
Context {L : Type}.
Implicit Types b : Bouncer L.

Definition wp {A} (m : M L A) (Q : A -> Bouncer L -> Prop) b : Prop :=
  match m b with Some (a, b') => Q a b' | None => False end.

Lemma bwp_bind {A B} (m : M L A) (f : A -> M L B) Q b : wp m (fun a b' => wp (f a) Q b') b -> wp (m ≫= f) Q b.
Proof. unfold wp, mbind, M_bind. by destruct (m b) as [[]|]. Qed.
Lemma bwp_ret {A} (x : A) (Q : A -> Bouncer L -> Prop) b : Q x b -> wp (mret x) Q b.
Proof. done. Qed.
Lemma bwp_mono {A} (m : M L A) (Q Q' : A -> Bouncer L -> Prop) b : wp m Q b -> (forall x b', Q x b' -> Q' x b') -> wp m Q' b.
Proof. unfold wp. destruct (m b) as [[]|]; eauto. Qed.
Lemma wp_forM {A} (I : list A -> Bouncer L -> Prop) (l : list A) (f : A -> M L unit) b :
  I l b -> (forall x l' b, I (x :: l') b -> x ∈ l -> wp (f x) (fun _ => I l') b) -> wp (forM_ l f) (fun _ => I []) b.
Proof.
  revert b. induction l as [|x l IH]; intros b Hb Hf; [done|]. cbn [forM_]. apply bwp_bind.
  eapply bwp_mono; [apply Hf; [done|by left]|]. intros [] b' Hb'. apply IH; [done|].
  intros y l' b0 H0 Hy. apply Hf; [done|by right].
Qed.
Lemma wp_exact {A} (m : M L A) x b b' (Q : A -> Bouncer L -> Prop) : m b = Some (x, b') -> Q x b' -> wp m Q b.
Proof. unfold wp. by intros ->. Qed.
Lemma wp_total (m : M L unit) Q b : wp m Q b -> exists b', m b = Some (tt, b') /\ Q tt b'.
Proof. unfold wp. destruct (m b) as [[[] b']|]; [|done]. eauto. Qed.
End Wp.

(* ------------------------------------------------------------------ *)
(** ** Programs that only write to a session *)

Section Talk.
Context {L : Type} `{!BoundedLog Entry L} {HU : GoUnicode} {HI : IterOrder} {HW : World} (g : Config).
Context (keep : nat) (a : archive).
Implicit Types (b : Bouncer L) (ds : DownstreamSession) (msg : Message).

(** The nickname of a session upstream. *)
Definition nick_of b ds : bytes :=
  match dnetwork ds with
  | None => dnick ds
  | Some k => match nets b !! k with
              | Some n => if seqb (SNick (nstate n)) [] then dnick ds else SNick (nstate n)
              | None => []
              end
  end.

(** What [send] adds to the output. *)
Definition delivery b i ds msg : list (nat * Message) :=
  if withheld ds (nick_of b ds) msg then [] else [(i, visible ds msg)].

Definition linked b ds : Prop := match dnetwork ds with Some k => is_Some (nets b !! k) | None => True end.

Lemma send_eq b i ds msg :
  sessions b !! i = Some ds -> linked b ds ->
  send i msg b = Some (tt, with_sent b (sent b ++ delivery b i ds msg)).
Proof.
  intros Hi Hl. unfold send, session, mbind, M_bind. rewrite Hi. cbn [mbind option_bind].
  assert (own_nick ds b = Some (nick_of b ds, b)) as ->.
  { unfold own_nick, nick_of, linked, network, mbind, M_bind in *. destruct (dnetwork ds) as [k|]; [|done].
    destruct Hl as [n Hn]. by rewrite Hn. }
  unfold delivery. destruct (withheld ds (nick_of b ds) msg); [|done]. rewrite app_nil_r. by destruct b.
Qed.

(** Networks have names that the keys of the history keep apart. *)
Definition names_ok b : Prop := forall k n, nets b !! k = Some n -> Byte.x00 ∉ NName (ncfg n).

Record talk_pre (i : nat) ds b : Prop := {
  tp_session : sessions b !! i = Some ds;
  tp_linked : linked b ds;
  tp_names : names_ok b;
  tp_hist : refines keep a (hist b)
}.

Record says (i : nat) b b' : Prop := {
  says_nets : nets b' = nets b;
  says_networks : networks b' = networks b;
  says_sessions : sessions b' = sessions b;
  says_ticks : ticks b' = ticks b;
  says_sent : exists ms, sent b' = sent b ++ (pair i <$> ms);
  says_hist : refines keep a (hist b) -> refines keep a (hist b')
}.

#[export] Instance says_pre i : PreOrder (says i).
Proof.
  split.
  - intros b. split; try done. exists []. by rewrite app_nil_r.
  - intros b1 b2 b3 [????[m1 E1]?] [????[m2 E2]?]. split; try congruence; [|tauto].
    exists (m1 ++ m2). rewrite E2, E1, fmap_app. by rewrite (assoc_L (++)).
Qed.

Lemma says_talk_pre i ds b b' : says i b b' -> talk_pre i ds b -> talk_pre i ds b'.
Proof.
  intros [En ? Es ???] [Hs Hl Hn Hh]. split; [by rewrite Es| | |tauto].
  - unfold linked in *. by rewrite En.
  - unfold names_ok. by rewrite En.
Qed.

Definition talks (i : nat) ds {A} (m : M L A) : Prop := forall b, talk_pre i ds b -> wp m (fun _ => says i b) b.

Lemma talks_bind i ds {A B} (m : M L A) (f : A -> M L B) : talks i ds m -> (forall x, talks i ds (f x)) -> talks i ds (m ≫= f).
Proof.
  intros Hm Hf b Hb. apply bwp_bind. refine (bwp_mono _ _ _ _ (Hm b Hb) _). intros x b1 H1.
  refine (bwp_mono _ _ _ _ (Hf x b1 (says_talk_pre _ _ _ _ H1 Hb)) _). intros _ b2 H2. by transitivity b1.
Qed.
Lemma talks_ret i ds {A} (x : A) : talks i ds (mret x : M L A).
Proof. intros b _. by apply bwp_ret. Qed.
Lemma talks_if i ds {A} (c : bool) (m m' : M L A) : talks i ds m -> talks i ds m' -> talks i ds (if c then m else m').
Proof. by destruct c. Qed.
Lemma talks_when i ds (c : bool) (m : M L unit) : talks i ds m -> talks i ds (when c m).
Proof. intros H. unfold when. destruct c; [done|apply talks_ret]. Qed.
Lemma talks_forM i ds {A} (l : list A) (f : A -> M L unit) : (forall x, talks i ds (f x)) -> talks i ds (forM_ l f).
Proof. intros Hf. induction l as [|x l IH]; [apply talks_ret|]. by apply talks_bind. Qed.

Lemma talks_session i ds {B} (f : DownstreamSession -> M L B) : talks i ds (f ds) -> talks i ds (session i ≫= f).
Proof.
  intros Hf b Hb. apply bwp_bind. unfold wp at 1, session. rewrite (tp_session _ _ _ Hb). by apply Hf.
Qed.
Lemma talks_network i ds k {B} (f : Network -> M L B) :
  dnetwork ds = Some k -> (forall n, Byte.x00 ∉ NName (ncfg n) -> talks i ds (f n)) -> talks i ds (network k ≫= f).
Proof.
  intros Hk Hf b Hb. apply bwp_bind. pose proof (tp_linked _ _ _ Hb) as Hl. unfold linked in Hl. rewrite Hk in Hl.
  destruct Hl as [n Hn]. unfold wp at 1, network. rewrite Hn. apply Hf; [|done]. by eapply (tp_names _ _ _ Hb).
Qed.
Lemma talks_send i ds msg : talks i ds (send i msg).
Proof.
  intros b Hb. eapply wp_exact; [by eapply send_eq; destruct Hb|]. split; try done.
  unfold delivery. case_match; [exists []|eexists [_]]; by rewrite ?app_nil_r.
Qed.
Lemma talks_text i ds : talks i ds text.
Proof. intros b _. eapply wp_exact; [done|]. split; try done. exists []. by rewrite app_nil_r. Qed.
Lemma talks_query i ds net target q : Byte.x00 ∉ net -> talks i ds (query net target q).
Proof.
  intros Hn b Hb. destruct (Query_refines keep a (hist b) net target q (tp_hist _ _ _ Hb) Hn) as (h & Eh & Hh).
  unfold wp, query. rewrite Eh. split; try done. exists []. by rewrite app_nil_r.
Qed.
End Talk.

Create HintDb talks.
#[export] Hint Resolve talks_ret talks_when talks_if talks_forM talks_session talks_send talks_text talks_query : talks.
(** [talks] follows the structure of a program. *)
Ltac talk :=
  repeat match goal with
  | |- forall _, _ => intros ?
  | |- talks _ _ _ _ (session _ ≫= _) => apply talks_session
  | |- talks _ _ _ _ (network _ ≫= _) => apply talks_network; [assumption|]
  | |- talks _ _ _ _ (_ ≫= _) => apply talks_bind
  | |- talks _ _ _ _ (if _ then _ else _) => apply talks_if
  | |- talks _ _ _ _ (when _ _) => apply talks_when
  | |- talks _ _ _ _ (forM_ _ _) => apply talks_forM
  | |- talks _ _ _ _ (match ?x with _ => _ end) => destruct x eqn:?
  | _ => solve [eauto with talks]
  end.

Section Handlers.
Context {L : Type} `{!BoundedLog Entry L} {HU : GoUnicode} {HI : IterOrder} {HW : World} (g : Config).
Context (keep : nat) (a : archive) (upper_idem : forall s, ToUpper (ToUpper s) = ToUpper s).
Abbreviation talks := (talks (L := L) keep a).

Lemma talks_numeric i ds n ps : talks i ds (sendNumeric g i n ps).
Proof. unfold sendNumeric. talk. Qed.
Lemma talks_fail i ds code context text : talks i ds (sendChatHistoryFail i code context text).
Proof. unfold sendChatHistoryFail. talk. Qed.
Lemma talks_batch i ds ty target es complete : talks i ds (sendHistoryBatch i ty target es complete).
Proof. unfold sendHistoryBatch. talk. Qed.
Lemma talks_history i ds target es complete : talks i ds (sendHistory i target es complete).
Proof. apply talks_batch. Qed.
Lemma talks_targets i ds net first second names : Byte.x00 ∉ net -> talks i ds (collect_targets net first second names).
Proof. intros Hn. induction names as [|name names IH]; cbn [collect_targets]; talk. Qed.
#[local] Hint Resolve talks_numeric talks_fail talks_batch talks_history talks_targets : talks.

Lemma talks_handleChatHistoryTargets i ds msg : talks i ds (handleChatHistoryTargets i msg).
Proof.
  unfold handleChatHistoryTargets. talk.
Qed.
#[local] Hint Resolve talks_handleChatHistoryTargets : talks.

Lemma talks_handleChatHistory i ds msg : talks i ds (handleChatHistory g i msg).
Proof.
  unfold handleChatHistory. apply talks_session. destruct (cap ds CapChatHistory); cbn [negb]; [|talk].
  destruct (seqb (ToUpper (Param msg 0)) (str "TARGETS")); [talk|].
  destruct (Z.eqb_spec (blen (Params msg)) (if seqb (ToUpper (Param msg 0)) (str "BETWEEN") then 5 else 4)) as [Hl|];
    cbn [negb]; [|talk]. destruct (Atoi (Trailing msg)) as [limit err]. talk. exfalso.
  match goal with H : SelectChatHistory _ _ _ _ = Panic |- _ => revert H end.
  apply SelectChatHistory_no_panic. rewrite upper_idem. intros E. rewrite E, seqb_refl in Hl.
  unfold blen in Hl. rewrite length_take, length_drop. lia.
Qed.

Lemma talks_replay_channel i ds k name cs : dnetwork ds = Some k -> talks i ds (replay_channel g i k name cs).
Proof. intros Hk. unfold replay_channel. talk. Qed.
#[local] Hint Resolve talks_replay_channel : talks.
Lemma talks_replayState i ds k : dnetwork ds = Some k -> talks i ds (replayState g i k).
Proof. intros Hk. unfold replayState. talk. Qed.
Lemma talks_welcome i ds r : talks i ds (welcome g i r).
Proof. unfold welcome. talk. Qed.
End Handlers.
#[export] Hint Resolve talks_numeric talks_fail talks_batch talks_history talks_targets talks_handleChatHistory
  talks_replayState talks_welcome : talks.

(* ------------------------------------------------------------------ *)
(** ** The invariant *)

(** What [connect] registers. *)
Definition upstream_mux `{GoUnicode} : Mux :=
  Mux_On (Mux_On (installBuiltinHandlers ∅) (str "*") (HUser 0)) (str "001") (HUser 1).

Lemma upstream_handlers `{GoUnicode} cmd :
  cmd <> str "*" ->
  exists fns, Mux_handlers upstream_mux cmd = fns ++ [HUser 0] /\ Forall (fun fn => fn = HUser 1 \/ is_builtin fn = true) fns /\
    (cmd = str "INVITE" \/ cmd = str "PRIVMSG" \/ cmd = str "NOTICE" -> fns = []).
Proof.
  intros Hc. exists (default [] (upstream_mux !! cmd)). split; [|split].
  - unfold Mux_handlers. f_equal.
  - assert (map_Forall (fun k fns => k = str "*" \/ Forall (fun fn => fn = HUser 1 \/ is_builtin fn = true) fns) upstream_mux) as Hm.
    { unfold upstream_mux, installBuiltinHandlers, Mux_On. repeat apply map_Forall_insert_2; try apply map_Forall_empty.
      all: vm_compute; auto 10. }
    destruct (upstream_mux !! cmd) as [fns|] eqn:E; [|constructor]. destruct (Hm _ _ E); [done|assumption].
  - intros [->|[->| ->]]; reflexivity.
Qed.

Section Invariant.
Context {L : Type} `{!BoundedLog Entry L} {HU : GoUnicode} {HI : IterOrder} {HW : World} (g : Config).
Implicit Types (b : Bouncer L) (ds : DownstreamSession) (n : Network) (a : archive) (msg : Message).

(** How many messages of a target the history keeps. *)
Definition keep : nat := Z.to_nat (if HLimit (History g) <=? 0 then defaultLimit else HLimit (History g)).

Definition supported : gset bytes := list_to_set supportedCaps.

(** A session that relays has given the password of a user and has a network. *)
Record session_ok (nnets : nat) ds : Prop := {
  so_caps : caps ds ⊆ supported;
  so_rcaps : rcaps (dreg ds) ⊆ supported;
  so_phase :
    match dphase ds with
    | Registering => dnetwork ds = None
    | Relaying => authenticate g (passUser (dreg ds)) (passPass (dreg ds)) = true /\
                  exists k, dnetwork ds = Some k /\ (k < nnets)%nat
    | Gone => True
    end
}.

Definition attached b (k i : nat) : Prop :=
  exists ds, sessions b !! i = Some ds /\ dphase ds = Relaying /\ dnetwork ds = Some k.

Definition client_ok n : Prop := forall c, client n = Some c -> mux c = upstream_mux /\ sasl_consistent c.

(** The sessions a network sends to are those that relay for it. *)
Record net_ok b (k : nat) n : Prop := {
  no_cfg : ncfg n ∈ Networks g;
  no_nodup : NoDup (downstreams n);
  no_attached : forall i, i ∈ downstreams n <-> attached b k i;
  no_client : client_ok n
}.

Record wf a b : Prop := {
  wf_nets : forall k n, nets b !! k = Some n -> net_ok b k n;
  wf_networks : forall name k, networks b !! name = Some k -> (k < length (nets b))%nat;
  wf_sessions : forall i ds, sessions b !! i = Some ds -> session_ok (length (nets b)) ds;
  wf_hist : refines keep a (hist b)
}.

Lemma wf_same a a' b b' :
  wf a b -> nets b' = nets b -> networks b' = networks b -> sessions b' = sessions b -> refines keep a' (hist b') -> wf a' b'.
Proof.
  intros [Hn Hm Hs Hh] En Em Es Hr. split; [|by rewrite En, Em|by rewrite En, Es|done].
  intros k n. rewrite En. intros Hk. destruct (Hn k n Hk). split; try done. unfold attached. by rewrite Es.
Qed.

Lemma wf_says a i b b' : says keep a i b b' -> wf a b -> wf a b'.
Proof. intros [??????] Hw. eapply wf_same; eauto using wf_hist. Qed.

(** A network changes, but not in what the invariant reads. *)
Lemma wf_network a a' b b' k f :
  wf a b -> nets b' = alter f k (nets b) -> networks b' = networks b -> sessions b' = sessions b -> refines keep a' (hist b') ->
  (forall n, nets b !! k = Some n -> ncfg (f n) = ncfg n /\ downstreams (f n) = downstreams n /\ client_ok (f n)) ->
  wf a' b'.
Proof.
  intros [Hn Hm Hs Hh] En Em Es Hr Hf.
  split; [|by rewrite En, Em, length_alter|by rewrite En, Es, length_alter|done].
  intros k' n. rewrite En. destruct (decide (k' = k)) as [->|Hk].
  - rewrite list_lookup_alter_eq. destruct (nets b !! k) as [n0|] eqn:E; [|done]. intros [= <-].
    destruct (Hn k n0 E), (Hf n0 eq_refl) as (E1 & E2 & H3).
    split; rewrite ?E1, ?E2; try done. unfold attached. by rewrite Es.
  - rewrite list_lookup_alter_ne by done. intros E. destruct (Hn k' n E). split; try done. unfold attached. by rewrite Es.
Qed.

(** A session changes, but neither its phase nor its network. *)
Lemma wf_session a b i ds ds' :
  wf a b -> sessions b !! i = Some ds -> dphase ds' = dphase ds -> dnetwork ds' = dnetwork ds ->
  session_ok (length (nets b)) ds' -> wf a (with_sessions b (<[i := ds']> (sessions b))).
Proof.
  intros [Hn Hm Hs Hh] Hi Ep En Ho. split; try done.
  - intros k n Hk. destruct (Hn k n Hk) as [?? Ha ?]. split; try done. intros j. rewrite Ha. unfold attached.
    cbn [sessions with_sessions]. destruct (decide (j = i)) as [->|].
    + rewrite lookup_insert_eq, Hi. split; intros (d & [= <-] & ? & ?); eexists; repeat split; congruence.
    + by rewrite lookup_insert_ne.
  - intros j d. cbn [sessions with_sessions nets]. rewrite lookup_insert_Some. intros [[<- <-]|[? ?]]; eauto.
Qed.

Context (names : Forall (fun c => Byte.x00 ∉ NName c) (Networks g)).

Lemma wf_names_ok a b : wf a b -> names_ok b.
Proof. intros Hw k n Hk. exact (proj1 (Forall_forall _ _) names _ (no_cfg _ _ _ (wf_nets _ _ Hw k n Hk))). Qed.

Lemma wf_talk_pre a b i ds : wf a b -> sessions b !! i = Some ds -> dphase ds <> Gone -> talk_pre keep a i ds b.
Proof.
  intros Hw Hi Hp. split; [done| |by eapply wf_names_ok|by apply wf_hist]. unfold linked.
  pose proof (so_phase _ _ (wf_sessions _ _ Hw i ds Hi)) as Ho. destruct (dphase ds); [by rewrite Ho| |done].
  destruct Ho as (_ & k & -> & Hk). by apply lookup_lt_is_Some.
Qed.

Lemma New_wf : wf ∅ (New g).
Proof.
  unfold New.
  assert (forall cs b, (forall c, c ∈ cs -> c ∈ Networks g) -> wf ∅ b -> sessions b = ∅ -> wf ∅ (fold_left add_network cs b)) as H.
  { induction cs as [|c cs IH]; intros b Hc Hb Hs; [done|]. cbn [fold_left]. apply IH; [set_solver| |done].
    destruct Hb as [Hn Hm _ Hh]. split; cbn [add_network nets networks sessions hist]; [| |by rewrite Hs|done].
    - intros k n. rewrite lookup_app_Some. intros [Hk|[_ Hk]].
      + destruct (Hn k n Hk). by split.
      + apply list_lookup_singleton_Some in Hk as [_ <-].
        assert (forall k i, ~ attached (add_network b c) k i) as Ha.
        { intros ?? (d & Hd & _). cbn [add_network sessions] in Hd. by rewrite Hs in Hd. }
        split; [destruct (AutoConnect c); set_solver|destruct (AutoConnect c); constructor| |].
        * intros i. split; [|by intros []%Ha]. destruct (AutoConnect c); by intros []%elem_of_nil.
        * intros cl. destruct (AutoConnect c); [|done]. intros [= <-]. split; [reflexivity|]. intros _. vm_compute. set_solver.
    - intros name k. rewrite length_app, lookup_insert_Some. cbn [length]. intros [[_ <-]|[_ Hk%Hm]]; lia. }
  apply H; [done| |done]. split; try done. apply refines_new.
Qed.
End Invariant.

(* ------------------------------------------------------------------ *)
(** ** Messages from upstream *)

Section Upstream.
Context {L : Type} `{!BoundedLog Entry L} {HU : GoUnicode} {HI : IterOrder} {HW : World} (g : Config).
Context (names : Forall (fun c => Byte.x00 ∉ NName c) (Networks g)).
Implicit Types (b : Bouncer L) (ds : DownstreamSession) (n : Network) (a : archive) (msg : Message).
Abbreviation wf := (wf g).

Definition archive_add (r : option (bytes * bytes * Entry)) a : archive :=
  match r with Some (net, target, e) => <[(net, target) := archived a net target ++ [e]]> a | None => a end.

(** What a message from upstream adds to the history. *)
Definition recorded b n msg : option (bytes * bytes * Entry) :=
  target ← (history_target (nstate n) msg).1;
  Some (NName (ncfg n), target, {| Time_ := stored_time (clock (ticks b)) msg; Msg := msg |}).

(** The time that is put on a message without one. *)
Definition relay_time b n msg : Time :=
  if bool_decide (is_Some (Tags_Get (MTags msg) (str "time"))) then 0
  else match (history_target (nstate n) msg).1 with Some _ => clock (S (ticks b)) | None => clock (ticks b) end.

Definition deliver_to b msg (i : nat) : list (nat * Message) :=
  match sessions b !! i with Some ds => delivery b i ds msg | None => [] end.

Lemma fanOut_eq a b k n msg :
  wf a b -> nets b !! k = Some n ->
  fanOut k msg b = Some (tt, with_sent b (sent b ++ flat_map (deliver_to b msg) (downstreams n))).
Proof.
  intros Hw Hk. unfold fanOut, mbind, M_bind, network. rewrite Hk. cbn [mbind option_bind].
  assert (forall i, i ∈ downstreams n -> attached b k i) as Hd by (intros i; apply (wf_nets _ _ _ Hw k n Hk)).
  assert (is_Some (nets b !! k)) as Hn by eauto. clear Hw Hk. revert b Hd Hn.
  induction (downstreams n) as [|i l IH]; intros b Hd Hn; cbn [forM_ flat_map].
  { rewrite app_nil_r. by destruct b. }
  destruct (Hd i) as (ds & Hi & _ & Hkd); [by left|]. unfold mbind, M_bind, deliver_to at 1. rewrite Hi.
  rewrite (send_eq b i ds) by (done || (unfold linked; by rewrite Hkd)).
  rewrite IH; [cbn [with_sent sent]; by rewrite <- (assoc_L (++))| |done].
  intros j Hj. apply Hd. by right.
Qed.

Lemma track_snick st msg : Command msg <> str "NICK" -> SNick (track st msg) = SNick st.
Proof. intros H. unfold track. rewrite (seqb_ne _ _ H). repeat case_match; done. Qed.
Lemma history_target_snick st msg : SNick (history_target st msg).2 = SNick st.
Proof. unfold history_target. repeat case_match; naive_solver. Qed.
Lemma history_target_command st msg t :
  (history_target st msg).1 = Some t -> Command msg = str "PRIVMSG" \/ Command msg = str "NOTICE".
Proof.
  unfold history_target. destruct (seqb_spec (Command msg) (str "PRIVMSG")), (seqb_spec (Command msg) (str "NOTICE")); cbn [orb]; auto. done.
Qed.
Lemma track_message st msg : Command msg = str "PRIVMSG" \/ Command msg = str "NOTICE" -> track st msg = st.
Proof. by intros [E|E]; unfold track; rewrite E. Qed.

(** [withheld] reads the nickname for an INVITE only. *)
Lemma withheld_nick ds (u v : bytes) msg : (Command msg = str "INVITE" -> u = v) -> withheld ds u msg = withheld ds v msg.
Proof.
  intros H. unfold withheld. destruct (seqb_spec (Command msg) (str "INVITE")) as [E|]; [by rewrite H|done].
Qed.

(** Two bouncers that deliver the same. *)
Lemma deliver_to_same b b' msg i :
  sessions b' = sessions b -> (Command msg = str "INVITE" -> forall ds, nick_of b' ds = nick_of b ds) ->
  deliver_to b' msg i = deliver_to b msg i.
Proof.
  intros Es Hn. unfold deliver_to, delivery. rewrite Es. destruct (sessions b !! i) as [ds|]; [|done].
  rewrite (withheld_nick ds (nick_of b' ds) (nick_of b ds)); [done|]. intros E. by apply Hn.
Qed.

Lemma list_alter_twice {A} (f h : A -> A) k (l : list A) : alter (fun x => f (h x)) k l = alter f k (alter h k l).
Proof. revert k. induction l as [|x l IH]; intros [|k]; cbn; try done. f_equal. apply IH. Qed.

(** The time the sessions see does not change the command. *)
Lemma timed_command t msg : Command (timed t msg) = Command msg.
Proof. done. Qed.

Lemma archive_add_refines a b net target e :
  refines (keep g) a (hist b) -> Byte.x00 ∉ net ->
  exists h, Append (hist b) net target (Time_ e) (Msg e) = Some h /\ refines (keep g) (archive_add (Some (net, target, e)) a) h.
Proof. intros Hr Hn. destruct e. by apply Append_refines. Qed.

(** After [update_nstate] of one network. *)
Lemma wf_nstate a b k (f : NetworkState -> NetworkState) :
  wf a b -> wf a (with_nets b (alter (fun n => with_nstate n (f (nstate n))) k (nets b))).
Proof.
  intros Hw. eapply (wf_network g a a b _ k); [done|done|done|done|apply Hw|]. intros n Hk. split; [done|]. split; [done|].
  intros c Hc. by apply (no_client _ _ _ _ (wf_nets _ _ _ Hw k n Hk)).
Qed.

(** What a handler of upstream messages leaves of the bouncer. *)
Definition same_but_state (k : nat) b b' : Prop :=
  sessions b' = sessions b /\ networks b' = networks b /\
  exists f, nets b' = alter (fun n => with_nstate n (f (nstate n))) k (nets b).

Lemma store_message_spec a b k n msg :
  wf a b -> nets b !! k = Some n ->
  wp (store_message k msg) (fun _ b' =>
    wf (archive_add (recorded b n msg) a) b' /\ same_but_state k b b' /\ sent b' = sent b /\
    ticks b' = (if (history_target (nstate n) msg).1 then S (ticks b) else ticks b) /\
    (forall ds, nick_of b' ds = nick_of b ds)) b.
Proof.
  intros Hw Hk. unfold store_message. apply bwp_bind. eapply wp_exact; [unfold network; by rewrite Hk|].
  pose proof (history_target_snick (nstate n) msg) as Hnick. unfold recorded.
  destruct (history_target (nstate n) msg) as [target st]; cbn [fst snd] in *.
  apply bwp_bind. eapply wp_exact; [reflexivity|]. set (b1 := with_nets b _).
  assert (wf a b1) as Hw1 by (by apply (wf_nstate a b k (fun _ => st))).
  assert (same_but_state k b b1) as Hs1 by (split; [done|]; split; [done|]; by exists (fun _ => st)).
  assert (forall ds, nick_of b1 ds = nick_of b ds) as Hn1.
  { intros ds. unfold nick_of. destruct (dnetwork ds) as [k'|]; [|done]. cbn [b1 with_nets nets].
    rewrite list_lookup_alter. case_decide; [|done]. subst k'. rewrite Hk. cbn. by rewrite Hnick. }
  destruct target as [target|]; [|by apply bwp_ret]. apply bwp_bind. eapply wp_exact; [reflexivity|]. cbn [mbind option_bind].
  set (e := {| Time_ := _; Msg := _ |}).
  destruct (archive_add_refines a b (NName (ncfg n)) target e (wf_hist _ _ _ Hw) (wf_names_ok g names a b Hw k n Hk)) as (h & Eh & Hh).
  unfold wp, append. cbn [with_ticks hist b1 with_nets]. subst e. change (ticks b1) with (ticks b).
  cbn [Time_ Msg] in Eh. rewrite Eh. cbn [mbind option_bind]. split; [|done].
  by eapply (wf_same g a _ b1).
Qed.

Lemma handleUpstream_spec a b k n msg :
  wf a b -> nets b !! k = Some n ->
  wp (handleUpstream k msg) (fun _ b' =>
    wf (archive_add (recorded b n msg) a) b' /\ same_but_state k b b' /\
    sent b' = sent b ++ (if seqb (Command msg) (str "CAP") then []
                         else flat_map (deliver_to b (timed (relay_time b n msg) msg)) (downstreams n))) b.
Proof.
  intros Hw Hk. unfold handleUpstream. destruct (seqb_spec (Command msg) (str "CAP")) as [E|_].
  { apply bwp_ret. unfold recorded, history_target. rewrite E. cbn. split; [done|]. rewrite app_nil_r. split; [|done].
    split; [done|]. split; [done|]. exists id. symmetry. apply list_alter_id. by intros []. }
  apply bwp_bind. eapply wp_exact; [reflexivity|]. set (b1 := with_nets b _).
  assert (wf a b1) as Hw1 by (by apply (wf_nstate a b k)).
  set (n1 := with_nstate n (track (nstate n) msg)).
  assert (nets b1 !! k = Some n1) as Hk1 by (cbn [b1 with_nets nets]; by rewrite list_lookup_alter_eq, Hk).
  assert (recorded b1 n1 msg = recorded b n msg /\ (history_target (nstate n1) msg).1 = (history_target (nstate n) msg).1) as [Er Et].
  { unfold recorded. change (ticks b1) with (ticks b). change (ncfg n1) with (ncfg n).
    enough ((history_target (nstate n1) msg).1 = (history_target (nstate n) msg).1) as -> by done.
    destruct (history_target (nstate n) msg).1 as [t|] eqn:E1.
    - rewrite <- E1. cbn [n1 nstate with_nstate]. by rewrite track_message by (by eapply history_target_command).
    - destruct (history_target (nstate n1) msg).1 as [t|] eqn:E2; [|done]. exfalso. revert E1. rewrite <- (track_message (nstate n) msg).
      + unfold n1 in E2. cbn [nstate with_nstate] in E2. by rewrite E2.
      + by eapply history_target_command. }
  assert (forall ds, Command msg = str "INVITE" -> nick_of b1 ds = nick_of b ds) as Hn1.
  { intros ds E. unfold nick_of. destruct (dnetwork ds) as [k'|]; [|done]. cbn [b1 with_nets nets].
    rewrite list_lookup_alter. case_decide; [|done]. subst k'. rewrite Hk. cbn. by rewrite track_snick by (by rewrite E). }
  apply bwp_bind. eapply bwp_mono; [by apply (store_message_spec a b1 k n1)|].
  intros [] b2 (Hw2 & (Es & Em & f & En) & Hsent & Htk & Hnk). rewrite Er in Hw2. rewrite Et in Htk.
  assert (exists b3, (if bool_decide (is_Some (Tags_Get (MTags msg) (str "time"))) then mret 0 else now) b2
            = Some (relay_time b n msg, b3) /\ nets b3 = nets b2 /\ networks b3 = networks b2 /\ sessions b3 = sessions b2 /\
            sent b3 = sent b2 /\ hist b3 = hist b2) as (b3 & E3 & En3 & Em3 & Es3 & Ese3 & Eh3).
  { unfold relay_time. destruct (bool_decide _); [by exists b2|]. unfold now. rewrite Htk.
    exists (with_ticks b2 (S (if (history_target (nstate n) msg).1 then S (ticks b1) else ticks b1))).
    by destruct (history_target (nstate n) msg).1. }
  apply bwp_bind. eapply wp_exact; [exact E3|].
  assert (wf (archive_add (recorded b n msg) a) b3) as Hw3 by (eapply wf_same; eauto; rewrite Eh3; apply Hw2).
  eapply wp_exact.
  { eapply fanOut_eq; [exact Hw3|]. by rewrite En3, En, list_lookup_alter_eq, Hk1. }
  split; [by eapply wf_same; [exact Hw3|..]; try done; apply Hw3|]. split; [|].
  - split; [by cbn; rewrite Es3, Es|]. split; [by cbn; rewrite Em3, Em|]. exists (fun st => f (track st msg)).
    cbn [with_sent nets]. rewrite En3, En. cbn [b1 with_nets nets]. by rewrite <- list_alter_twice.
  - cbn [with_sent sent]. rewrite Ese3, Hsent. f_equal. cbn [downstreams with_nstate n1]. apply flat_map_ext. intros i.
    apply deliver_to_same; [by rewrite Es3, Es|]. cbn. intros E ds. rewrite <- (Hn1 ds E), <- (Hnk ds). unfold nick_of. by rewrite En3.
Qed.

(** What a handler that comes before [handleUpstream] leaves of the bouncer. *)
Definition prepared (k : nat) b b' : Prop :=
  sessions b' = sessions b /\ networks b' = networks b /\ sent b' = sent b /\ ticks b' = ticks b /\
  exists f, nets b' = alter f k (nets b) /\ forall n, ncfg (f n) = ncfg n /\ downstreams (f n) = downstreams n.

#[export] Instance prepared_pre k : PreOrder (prepared k).
Proof.
  split.
  - intros b. do 4 (split; [done|]). exists id. split; [|done].
    symmetry. apply list_alter_id. by intros [].
  - intros b1 b2 b3 (E1 & E2 & E3 & E4 & f & E5 & Hf) (D1 & D2 & D3 & D4 & h & D5 & Hh).
    do 4 (split; [congruence|]). exists (fun n => h (f n)). rewrite D5, E5. split; [symmetry; apply list_alter_twice|].
    intros n. destruct (Hf n), (Hh (f n)). split; congruence.
Qed.

Lemma frame_joins (chs : list bytes) (c : Client Plain) : frame c (fold_left (fun c ch => sendf (str "JOIN") [ch] c) chs c).
Proof. revert c. induction chs as [|ch chs IH]; intros c; [reflexivity|]. cbn. etransitivity; [|apply IH]. apply frame_send. Qed.

(** A change of the client of a network that the client's own operations make. *)
Lemma wf_client a b k (f : Network -> Network) :
  wf a b ->
  (forall n, nets b !! k = Some n -> ncfg (f n) = ncfg n /\ downstreams (f n) = downstreams n /\
     forall c', client (f n) = Some c' -> exists c, client n = Some c /\ mux c' = mux c /\ (sasl_consistent c -> sasl_consistent c')) ->
  wf a (with_nets b (alter f k (nets b))).
Proof.
  intros Hw Hf. eapply (wf_network g a a b _ k); [done|done|done|done|apply Hw|].
  intros n Hk. destruct (Hf n Hk) as (E1 & E2 & Hc). split; [done|]. split; [done|]. intros c' E'.
  destruct (Hc c' E') as (c & E & Em & Hs). destruct (no_client _ _ _ _ (wf_nets _ _ _ Hw k n Hk) c E) as [??].
  split; [congruence|auto].
Qed.

Lemma call_upstream_prepared a b k n msg fn :
  wf a b -> nets b !! k = Some n -> fn = HUser 1 \/ is_builtin fn = true ->
  wp (call_upstream k msg fn) (fun _ b' => wf a b' /\ prepared k b b') b.
Proof.
  intros Hw Hk Hfn.
  assert (forall f, (forall n, ncfg (f n) = ncfg n /\ downstreams (f n) = downstreams n) ->
            prepared k b (with_nets b (alter f k (nets b)))) as Hp.
  { intros f Hf. do 4 (split; [done|]). by exists f. }
  destruct (is_builtin fn) eqn:Hb.
  - assert (call_upstream k msg fn = (n ← network k; match client n with
      | None => mret tt
      | Some c => c' ← lift (call (fun _ c _ => Some c) fn c msg); update_client k (fun _ => c')
      end)) as -> by (by destruct fn).
    apply bwp_bind. eapply wp_exact; [unfold network; by rewrite Hk|].
    destruct (client n) as [c|] eqn:Ec; [|by apply bwp_ret].
    destruct (no_client _ _ _ _ (wf_nets _ _ _ Hw k n Hk) c Ec) as [Hm Hs].
    destruct (call_total (fun _ c _ => Some c) fn c msg Hb Hs) as (c' & Hc' & Hf); [done|]. rewrite Hc'.
    apply bwp_bind. eapply wp_exact; [done|]. eapply wp_exact; [done|]. split; [|by apply Hp].
    apply wf_client; [done|]. intros n' Hk'. rewrite Hk in Hk'. injection Hk' as <-. split; [done|]. split; [done|].
    intros c1 E1. cbn in E1. rewrite Ec in E1. injection E1 as <-. exists c. split; [done|].
    split; [by apply frame_mux|]. intros _. by eapply frame_consistent.
  - destruct Hfn as [->|]; [|done]. cbn [call_upstream]. unfold handleWelcomed. apply bwp_bind.
    assert (forall b1, wf a b1 -> prepared k b b1 -> wp (update_network k (fun n =>
      with_client n ((fun c => fold_left (fun c ch => sendf (str "JOIN") [ch] c) (NChannels (ncfg n)) c) <$> client n)))
      (fun _ b' => wf a b' /\ prepared k b b') b1) as Hj.
    { intros b1 Hw1 Hp1. eapply wp_exact; [done|]. split.
      - apply wf_client; [done|]. intros n1 _. split; [done|]. split; [done|]. intros c' E. cbn in E.
        destruct (client n1) as [c|]; [|done]. injection E as <-. exists c. split; [done|].
        pose proof (frame_joins (NChannels (ncfg n1)) c) as Hf. split; [by apply frame_mux|]. by apply frame_consistent.
      - transitivity b1; [done|]. do 4 (split; [done|]). by eexists. }
    destruct (Params msg) as [|p ps]; [apply bwp_ret; by apply Hj|].
    eapply wp_exact; [done|]. apply Hj; [by apply (wf_nstate a b k (fun st => with_snick st p))|by apply Hp].
Qed.

Lemma prepared_network k b b' n :
  prepared k b b' -> nets b !! k = Some n ->
  exists n', nets b' !! k = Some n' /\ ncfg n' = ncfg n /\ downstreams n' = downstreams n.
Proof. intros (_ & _ & _ & _ & f & E & Hf) Hk. exists (f n). rewrite E, list_lookup_alter_eq, Hk. by split. Qed.

Lemma wp_prepare a b k n msg fns :
  wf a b -> nets b !! k = Some n -> Forall (fun fn => fn = HUser 1 \/ is_builtin fn = true) fns ->
  wp (forM_ fns (call_upstream k msg)) (fun _ b' => wf a b' /\ prepared k b b') b.
Proof.
  intros Hw Hk Hf. apply (wp_forM (fun _ b' => wf a b' /\ prepared k b b')); [by split|].
  intros fn rest b1 (Hw1 & Hp1) Hin. destruct (prepared_network _ _ _ _ Hp1 Hk) as (n1 & Hk1 & _).
  refine (bwp_mono _ _ _ _ (call_upstream_prepared a b1 k n1 msg fn Hw1 Hk1 _) _).
  - by eapply (proj1 (Forall_forall _ _) Hf).
  - intros [] b2 [Hw2 Hp2]. split; [done|]. by transitivity b1.
Qed.

Lemma wp_forM_app {A} (l l' : list A) (f : A -> M L unit) Q b :
  wp (forM_ l f) (fun _ => wp (forM_ l' f) Q) b -> wp (forM_ (l ++ l') f) Q b.
Proof.
  revert b. induction l as [|x l IH]; intros b H; [exact H|]. cbn [forM_ app] in *. apply bwp_bind.
  unfold wp at 1, mbind, M_bind in H. unfold wp. destruct (f x b) as [[[] b1]|]; [|done]. by apply IH.
Qed.

(** A message from upstream is recorded, and goes once to the sessions of its network
    and to no other. *)
Lemma upstream_message_spec a b k n msg :
  wf a b -> nets b !! k = Some n -> is_Some (client n) -> Command msg <> str "*" ->
  wp (upstream_message k msg) (fun _ b' =>
    wf (archive_add (recorded b n msg) a) b' /\ sessions b' = sessions b /\ networks b' = networks b /\
    sent b' = sent b ++ (if seqb (Command msg) (str "CAP") then []
                         else flat_map (deliver_to b (timed (relay_time b n msg) msg)) (downstreams n))) b.
Proof.
  intros Hw Hk [c Hc] Hs. unfold upstream_message. apply bwp_bind. eapply wp_exact; [unfold network; by rewrite Hk|]. rewrite Hc.
  rewrite (proj1 (no_client _ _ _ _ (wf_nets _ _ _ Hw k n Hk) c Hc)).
  destruct (upstream_handlers (Command msg) Hs) as (fns & -> & Hf & Hnil). apply wp_forM_app.
  destruct (decide (fns = [])) as [->|Hne].
  { apply bwp_bind. eapply bwp_mono; [by apply (handleUpstream_spec a b k n)|]. intros [] b' (? & (? & ? & _) & ?). by apply bwp_ret. }
  eapply bwp_mono; [by apply (wp_prepare a b k n)|]. intros [] b1 [Hw1 Hp1].
  destruct (prepared_network _ _ _ _ Hp1 Hk) as (n1 & Hk1 & En1 & Ed1). destruct Hp1 as (Es1 & Em1 & Ese1 & Et1 & _).
  apply bwp_bind. eapply bwp_mono; [by apply (handleUpstream_spec a b1 k n1)|]. intros [] b' (Hw' & (Es & Em & _) & Ese). apply bwp_ret.
  assert (forall st, (history_target st msg).1 = None) as Hnone.
  { intros st. destruct (history_target st msg).1 as [t|] eqn:E; [|done]. destruct Hne. apply Hnil. right. by eapply history_target_command. }
  unfold recorded, relay_time in *. rewrite !Hnone in *. rewrite Et1, Ed1 in *. split; [done|]. split; [congruence|]. split; [congruence|].
  rewrite Ese, Ese1. f_equal. case_match; [done|]. apply flat_map_ext. intros i. apply deliver_to_same; [done|].
  cbn. intros E. destruct Hne. apply Hnil. by left.
Qed.
End Upstream.
