(* ===== verification/BouncerSessions.v ===== *)
(** * The bouncer's sessions

    What a line of a downstream session does, registration included, and the theorems
    about the bouncer as a whole: its invariant, who receives what, what a session can
    reach and what the history replays; then runs by evaluation. *)

From S2P Require Import Prelude GoStrings GoSort GoTime GoEncoding IrcMessage ChatHistory RingBuf HistoryStore IrcConst.
From S2P Require Import IrcScram IrcSasl IrcClient Bouncer BouncerRelay.
#[local] Open Scope go_scope.

Lemma alter_insert_Some `{Countable K} {A} (m : gmap K A) i x (f : A -> A) : m !! i = Some x -> alter f i m = <[i := f x]> m.
Proof. intros Hi. apply map_eq. intros j. destruct (decide (j = i)) as [->|]; by simplify_map_eq. Qed.

Lemma elem_of_remove_first i l j : NoDup l -> j ∈ remove_first i l <-> j ∈ l /\ j <> i.
Proof.
  induction 1 as [|x l Hx _ IH]; cbn [remove_first]; [set_solver|]. case_bool_decide; [|rewrite elem_of_cons, IH]; set_solver.
Qed.
Lemma NoDup_remove_first i l : NoDup l -> NoDup (remove_first i l).
Proof.
  induction 1 as [|x l Hx Hl IH]; cbn [remove_first]; [constructor|]. case_bool_decide; [done|].
  constructor; [|done]. by rewrite elem_of_remove_first by done; intros [].
Qed.

(* ------------------------------------------------------------------ *)
(** ** What a session changes *)

Section Aside.
Context {L : Type}.
Implicit Types b : Bouncer L.

(** A network, but for whether the session [i] is attached. *)
Definition beside (i : nat) (n n' : Network) : Prop :=
  ncfg n' = ncfg n /\ nstate n' = nstate n /\ client n' = client n /\
  forall j, j <> i -> j ∈ downstreams n' <-> j ∈ downstreams n.

(** The session [i] has been served and nobody else has noticed. *)
Record aside (i : nat) b b' : Prop := {
  as_networks : networks b' = networks b;
  as_nets : Forall2 (beside i) (nets b) (nets b');
  as_sessions : forall j, j <> i -> sessions b' !! j = sessions b !! j;
  as_ticks : ticks b' = ticks b;
  as_sent : exists ms, sent b' = sent b ++ (pair i <$> ms)
}.

#[export] Instance beside_pre i : PreOrder (beside i).
Proof.
  split; [by intros n|]. intros n1 n2 n3 (?&?&?&D1) (?&?&?&D2). do 3 (split; [congruence|]).
  intros j Hj. by rewrite D2, D1.
Qed.
#[export] Instance aside_pre i : PreOrder (aside i).
Proof.
  split.
  - intros b. split; try done. exists []. by rewrite app_nil_r.
  - intros b1 b2 b3 [???? [m1 E1]] [???? [m2 E2]]. split; try congruence.
    + by transitivity (nets b2).
    + intros j Hj. transitivity (sessions b2 !! j); auto.
    + exists (m1 ++ m2). rewrite E2, E1, fmap_app. by rewrite (assoc_L (++)).
Qed.

Lemma says_aside `{!BoundedLog Entry L} keep a i b b' : says keep a i b b' -> aside i b b'.
Proof. intros [En ? Es ???]. split; try done; [by rewrite En|by rewrite Es]. Qed.

Lemma aside_session i ds b : aside i b (with_sessions b (<[i := ds]> (sessions b))).
Proof.
  split; try done; [|exists []; by rewrite app_nil_r]. intros j Hj. cbn [sessions with_sessions]. by rewrite lookup_insert_ne.
Qed.

Lemma aside_downstreams i k (f : list nat -> list nat) b :
  (forall n j, nets b !! k = Some n -> j <> i -> j ∈ f (downstreams n) <-> j ∈ downstreams n) ->
  aside i b (with_nets b (alter (fun n => with_downstreams n (f (downstreams n))) k (nets b))).
Proof.
  intros Hf. split; try done; [|exists []; by rewrite app_nil_r]. apply Forall2_same_length_lookup. cbn [nets with_nets].
  rewrite length_alter. split; [done|]. intros k' n n' Hn. rewrite list_lookup_alter. case_decide as E.
  - subst k'. rewrite Hn. intros [= <-]. repeat split; intros; eapply Hf; eauto.
  - rewrite Hn. by intros [= <-].
Qed.
End Aside.

(* ------------------------------------------------------------------ *)
(** ** Lines of a session *)

Section Lines.
Context {L : Type} `{!BoundedLog Entry L} {HU : GoUnicode} {HI : IterOrder} {HW : World} (g : Config).
Context (names : Forall (fun c => Byte.x00 ∉ NName c) (Networks g)) (upper_idem : forall s, ToUpper (ToUpper s) = ToUpper s).
Implicit Types (b : Bouncer L) (ds : DownstreamSession) (n : Network) (a : archive) (msg : Message).
Abbreviation wf := (wf g).
Abbreviation talks a := (talks (L := L) (keep g) a).
Abbreviation says a := (says (L := L) (keep g) a).

(** A session that only talks. *)
Lemma wp_talks {A} a b i ds (m : M L A) :
  wf a b -> sessions b !! i = Some ds -> dphase ds <> Gone -> talks a i ds m -> wp m (fun _ b' => wf a b' /\ says a i b b') b.
Proof.
  intros Hw Hi Hp Hm. refine (bwp_mono _ _ _ _ (Hm b _) _); [by eapply wf_talk_pre|].
  intros x b' Hs. split; [by eapply wf_says|done].
Qed.

(** The bouncer in which the session [i] has announced the version [v]. *)
Definition versioned (i : nat) ds (v : Z) b : Bouncer L := with_sessions b (<[i := with_capVersion ds v]> (sessions b)).

Lemma versioned_same i ds b : sessions b !! i = Some ds -> versioned i ds (capVersion ds) b = b.
Proof.
  intros Hi. unfold versioned. replace (with_capVersion ds (capVersion ds)) with ds by (by destruct ds).
  rewrite insert_id by done. by destruct b.
Qed.

Lemma versioned_wf a b i ds v : wf a b -> sessions b !! i = Some ds -> wf a (versioned i ds v b).
Proof. intros Hw Hi. eapply wf_session; eauto. by destruct (wf_sessions _ _ _ Hw i ds Hi). Qed.

(** A reply and then a result. *)
Lemma wp_reply {A} a b i ds (m : M L unit) (x : A) (P : A -> Prop) :
  wf a b -> sessions b !! i = Some ds -> dphase ds <> Gone -> talks a i ds m -> P x ->
  wp (m ;; mret x) (fun r b' => P r /\ exists v, says a i (versioned i ds v b) b') b.
Proof.
  intros Hw Hi Hp Hm Hx. apply bwp_bind. eapply bwp_mono; [by eapply wp_talks|]. intros _ b' [_ Hs]. apply bwp_ret. split; [done|].
  exists (capVersion ds). by rewrite versioned_same.
Qed.

Lemma grant_supported v cs toks :
  forallb (fun requested => bool_decide (TrimPrefix requested (str "-") ∈ supportedCaps)) toks = true ->
  cs ⊆ supported -> fold_left (grant v) toks cs ⊆ supported.
Proof.
  revert cs. induction toks as [|t toks IH]; intros cs; cbn [forallb fold_left]; [done|].
  rewrite andb_true_iff, bool_decide_eq_true. intros [Ht Hf] Hc. apply IH; [done|]. unfold grant.
  assert (TrimPrefix t (str "-") ∈ supported) by (unfold supported; by apply elem_of_list_to_set).
  repeat case_match; set_solver.
Qed.

Lemma handleCAP_spec a b i ds msg cs d :
  wf a b -> sessions b !! i = Some ds -> dphase ds <> Gone -> cs ⊆ supported ->
  wp (handleCAP g i msg cs d) (fun r b' => r.1 ⊆ supported /\ exists v, says a i (versioned i ds v b) b') b.
Proof.
  intros Hw Hi Hp Hc. unfold handleCAP. destruct (Params msg) as [|p ps]; [by eapply wp_reply; eauto with talks|].
  apply bwp_bind. eapply wp_exact; [unfold session; by rewrite Hi|].
  destruct (seqb (ToUpper p) CapLS).
  { destruct (Atoi _) as [version err]. destruct (negb (bool_decide (is_Some err)) && (302 <=? version)); cbn [when].
    - apply bwp_bind. eapply wp_exact; [reflexivity|]. rewrite (alter_insert_Some _ _ _ _ Hi).
      fold (versioned i ds version b). apply bwp_bind.
      eapply bwp_mono; [eapply (wp_talks a _ i (with_capVersion ds version)); [by apply versioned_wf| |done|apply talks_send]|].
      { unfold versioned. cbn [sessions with_sessions]. apply lookup_insert_eq. }
      intros _ b' [_ Hs]. apply bwp_ret. split; [|by exists version]. cbn [fst]. apply union_subseteq. split; [|done].
      apply singleton_subseteq_l. vm_compute. done.
    - apply bwp_bind, bwp_ret. eapply wp_reply; eauto with talks. }
  destruct (seqb (ToUpper p) CapREQ).
  { destruct (forallb _ _) eqn:Hf; eapply wp_reply; eauto; [apply talks_send|by apply grant_supported|apply talks_send]. }
  destruct (seqb (ToUpper p) CapLIST); [eapply wp_reply; eauto; apply talks_send|].
  destruct (seqb (ToUpper p) CapEND); [|eapply wp_reply; eauto with talks].
  apply bwp_ret. split; [done|]. exists (capVersion ds). by rewrite versioned_same.
Qed.

(** The session of a bouncer in which [i] announced a version. *)
Lemma versioned_lookup i ds v b : sessions (versioned i ds v b) !! i = Some (with_capVersion ds v).
Proof. apply lookup_insert_eq. Qed.

Lemma says_versioned a i ds v b b' :
  wf a b -> sessions b !! i = Some ds -> says a i (versioned i ds v b) b' ->
  wf a b' /\ sessions b' !! i = Some (with_capVersion ds v) /\ aside i b b'.
Proof.
  intros Hw Hi Hs. split; [eapply wf_says; [done|by apply versioned_wf]|]. split.
  - rewrite (says_sessions _ _ _ _ _ Hs). apply versioned_lookup.
  - transitivity (versioned i ds v b); [apply aside_session|by eapply says_aside].
Qed.

(** Replacing a session by one that is not attached. *)
Lemma attached_gone b b1 i ds' k j :
  dphase ds' = Gone -> attached (with_sessions b1 (<[i := ds']> (sessions b))) k j <-> attached b k j /\ j <> i.
Proof.
  intros Hg. unfold attached. cbn [sessions with_sessions]. destruct (decide (j = i)) as [->|Hj].
  - rewrite lookup_insert_eq. split; [intros (d & [= <-] & ? & _); congruence|tauto].
  - rewrite lookup_insert_ne by done. tauto.
Qed.

Lemma leave_spec a b i ds :
  wf a b -> sessions b !! i = Some ds -> dphase ds <> Gone ->
  wp (leave i) (fun _ b' => wf a b' /\ aside i b b' /\ exists ds', sessions b' !! i = Some ds' /\ dphase ds' = Gone) b.
Proof.
  intros Hw Hi Hp. pose proof (wf_sessions _ _ _ Hw i ds Hi) as [Hc Hr Ho].
  unfold leave. apply bwp_bind. eapply wp_exact; [unfold session; by rewrite Hi|]. apply bwp_bind.
  set (f := fun n => with_downstreams n (remove_first i (downstreams n))).
  set (b1 := match dnetwork ds with Some k => with_nets b (alter f k (nets b)) | None => b end).
  assert (match dnetwork ds with Some k => detach k i | None => mret tt end b = Some (tt, b1)) as E1
    by (unfold b1; by destruct (dnetwork ds)).
  eapply wp_exact; [exact E1|]. eapply wp_exact; [reflexivity|].
  assert (sessions b1 = sessions b /\ networks b1 = networks b /\ hist b1 = hist b /\ length (nets b1) = length (nets b)) as (Es1 & Em1 & Eh1 & El1).
  { unfold b1. destruct (dnetwork ds); cbn; by rewrite ?length_alter. }
  rewrite Es1, (alter_insert_Some _ _ _ _ Hi). split; [|split].
  - split; cbn [nets networks sessions hist with_sessions]; rewrite ?Em1, ?Eh1, ?El1; [|apply Hw| |apply Hw].
    + intros k' n' Hn'. destruct (decide (dnetwork ds = Some k')) as [E|E].
      * unfold b1 in Hn'. rewrite E in Hn'. cbn [nets with_nets] in Hn'. rewrite list_lookup_alter_eq in Hn'.
        destruct (nets b !! k') as [n|] eqn:Hn; [|done]. injection Hn' as <-. destruct (wf_nets _ _ _ Hw k' n Hn) as [? Hd Ha ?].
        split; [done|by apply NoDup_remove_first| |done]. intros j. rewrite attached_gone by done. rewrite <- Ha.
        by apply elem_of_remove_first.
      * assert (nets b !! k' = Some n') as Hn.
        { revert Hn'. unfold b1. destruct (dnetwork ds) as [k|]; [|done]. cbn [nets with_nets].
          by rewrite list_lookup_alter_ne by congruence. }
        destruct (wf_nets _ _ _ Hw k' n' Hn) as [? Hd Ha ?]. split; try done. intros j. rewrite attached_gone by done.
        rewrite Ha. split; [|tauto]. intros H. split; [done|]. intros ->. destruct H as (d & Hd' & _ & Hk). congruence.
    + intros j d. rewrite lookup_insert_Some. intros [[<- <-]|[_ Hj]]; [by split|by eapply wf_sessions].
  - transitivity b1; [|rewrite <- Es1; apply aside_session]. unfold b1. destruct (dnetwork ds) as [k|]; [|done].
    apply aside_downstreams. intros n j Hn Hj. rewrite elem_of_remove_first; [|by eapply wf_nets]. tauto.
  - eexists. split; [apply lookup_insert_eq|done].
Qed.

(** The session [i] becomes one that relays for the network [k]. *)
Definition admitted (i k : nat) r ds b : Bouncer L :=
  let b := with_sessions b (<[i := registered k r ds]> (sessions b)) in
  with_nets b (alter (fun n => with_downstreams n (downstreams n ++ [i])) k (nets b)).

Lemma admitted_wf a b i k r ds :
  wf a b -> sessions b !! i = Some ds -> dphase ds = Registering -> dreg ds = r -> (k < length (nets b))%nat ->
  authenticate g (passUser r) (passPass r) = true -> wf a (admitted i k r ds b).
Proof.
  intros Hw Hi Hp Er Hk Ha. pose proof (wf_sessions _ _ _ Hw i ds Hi) as [Hc Hr Ho]. rewrite Hp in Ho.
  assert (forall k' j, attached (admitted i k r ds b) k' j <-> attached b k' j \/ (j = i /\ k' = k)) as Hat.
  { intros k' j. unfold attached. cbn [admitted sessions with_nets with_sessions]. destruct (decide (j = i)) as [->|Hj].
    - rewrite lookup_insert_eq, Hi. split.
      + intros (d & [= <-] & _ & [= ->]). by right.
      + intros [(d & [= <-] & ? & _)|[_ ->]]; [congruence|]. by eexists.
    - rewrite lookup_insert_ne by done. naive_solver. }
  assert (forall k', ~ attached b k' i) as Hni by (intros k' (d & Hd & ? & _); congruence).
  split; cbn [admitted nets networks sessions hist with_nets with_sessions]; rewrite ?length_alter; [|apply Hw| |apply Hw].
  - intros k' n' Hn'. rewrite list_lookup_alter in Hn'. case_decide as E.
    + subst k'. destruct (nets b !! k) as [n|] eqn:Hn; [|done]. injection Hn' as <-. destruct (wf_nets _ _ _ Hw k n Hn) as [? Hd Hda ?].
      split; [done| | |done].
      * cbn. apply NoDup_app. split; [done|]. split; [|apply NoDup_singleton]. intros j Hj ->%list_elem_of_singleton.
        apply Hda in Hj. by eapply Hni.
      * intros j. rewrite Hat. cbn. rewrite elem_of_app, list_elem_of_singleton, Hda. tauto.
    + destruct (wf_nets _ _ _ Hw k' n' Hn') as [? Hd Hda ?]. split; try done. intros j. rewrite Hat, Hda. naive_solver.
  - intros j d. rewrite lookup_insert_Some. intros [[<- <-]|[_ Hj]]; [|by eapply wf_sessions].
    subst r. split; [done|done|]. cbn. split; [done|]. by exists k.
Qed.

Lemma admitted_aside i k r ds b : aside i b (admitted i k r ds b).
Proof.
  etransitivity; [apply (aside_session i (registered k r ds))|]. apply (aside_downstreams i k (fun l => l ++ [i])).
  intros n j _ Hj. rewrite elem_of_app, list_elem_of_singleton. tauto.
Qed.

Lemma getNetwork_valid a b user name k : wf a b -> getNetwork (networks b) user name = Some k -> (k < length (nets b))%nat.
Proof.
  intros Hw. unfold getNetwork. case_match; [apply Hw|].
  destruct (iter (map_to_list (networks b))) as [|[nm k'] l] eqn:E; [done|]. intros [= ->].
  apply (wf_networks _ _ _ Hw nm). apply elem_of_map_to_list. rewrite <- (iter_perm (map_to_list (networks b))), E. by left.
Qed.

(** A session that is told why and let go. *)
Lemma refuse_spec a b i ds msg :
  wf a b -> sessions b !! i = Some ds -> dphase ds <> Gone -> wp (send i msg ;; leave i) (fun _ b' => wf a b' /\ aside i b b') b.
Proof.
  intros Hw Hi Hp. apply bwp_bind. eapply bwp_mono; [eapply wp_talks; eauto; apply talks_send|]. intros _ b1 [Hw1 Hs1].
  eapply bwp_mono; [eapply (leave_spec a b1 i ds); [done|by rewrite (says_sessions _ _ _ _ _ Hs1)|done]|].
  intros [] b2 (Hw2 & Ha2 & _). split; [done|]. transitivity b1; [by eapply says_aside|done].
Qed.

Lemma try_register_spec a b i ds r :
  wf a b -> sessions b !! i = Some ds -> dphase ds = Registering -> dreg ds = r ->
  wp (try_register g i r) (fun _ b' => wf a b' /\ aside i b b') b.
Proof.
  intros Hw Hi Hp Er. assert (dphase ds <> Gone) as Hng by congruence. unfold try_register. destruct (_ && _ && _); [|by apply bwp_ret].
  destruct (authenticate g (passUser r) (passPass r)) eqn:Ha; cbn [negb]; [|by eapply refuse_spec].
  apply bwp_bind. eapply wp_exact; [reflexivity|].
  destruct (getNetwork (networks b) (passUser r) (passNetwork r)) as [k|] eqn:Ek; [|by eapply refuse_spec].
  do 2 (apply bwp_bind; eapply wp_exact; [reflexivity|]). cbn [with_sessions sessions nets]. rewrite (alter_insert_Some _ _ _ _ Hi).
  fold (admitted i k r ds b).
  assert (wf a (admitted i k r ds b)) as Hw1 by (eapply admitted_wf; eauto using getNetwork_valid).
  eapply bwp_mono; [eapply (wp_talks a _ i (registered k r ds)); [done|apply lookup_insert_eq|done|]|].
  - apply talks_bind; [by apply talks_welcome|]. intros _. by apply talks_replayState.
  - intros _ b' [Hw' Hs']. split; [done|]. transitivity (admitted i k r ds b); [apply admitted_aside|by eapply says_aside].
Qed.

Lemma registration_command_spec a b i ds msg :
  wf a b -> sessions b !! i = Some ds -> dphase ds <> Gone ->
  wp (registration_command g i (dreg ds) msg)
     (fun r b' => rcaps r ⊆ supported /\ exists v, says a i (versioned i ds v b) b') b.
Proof.
  intros Hw Hi Hp. pose proof (so_rcaps _ _ _ (wf_sessions _ _ _ Hw i ds Hi)) as Hr. unfold registration_command.
  destruct (seqb (Command msg) (str "CAP")).
  { apply bwp_bind. eapply bwp_mono; [by eapply handleCAP_spec|]. intros [cs d] b' [Hc Hs]. by apply bwp_ret. }
  assert (forall r, rcaps r = rcaps (dreg ds) -> wp (mret r : M L Registration)
            (fun r b' => rcaps r ⊆ supported /\ exists v, says a i (versioned i ds v b) b') b) as Hret.
  { intros r E. apply bwp_ret. split; [by rewrite E|]. exists (capVersion ds). by rewrite versioned_same. }
  repeat case_match; by apply Hret.
Qed.

Lemma register_line_spec a b i ds line :
  wf a b -> sessions b !! i = Some ds -> dphase ds = Registering ->
  wp (register_line g i line) (fun _ b' => wf a b' /\ aside i b b') b.
Proof.
  intros Hw Hi Hp. assert (dphase ds <> Gone) as Hng by congruence. unfold register_line. destruct (InputTooLong line).
  { eapply bwp_mono; [eapply wp_talks; eauto with talks|]. intros _ b' [? ?]. split; [done|by eapply says_aside]. }
  destruct (Parse line) as [msg| |]; [|by apply bwp_ret..].
  apply bwp_bind. eapply wp_exact; [unfold session; by rewrite Hi|]. apply bwp_bind.
  eapply bwp_mono; [by eapply registration_command_spec|]. intros r b1 [Hr [v Hs1]].
  destruct (says_versioned a i ds v b b1 Hw Hi Hs1) as (Hw1 & Hi1 & Ha1).
  apply bwp_bind. eapply wp_exact; [reflexivity|]. rewrite (alter_insert_Some _ _ _ _ Hi1).
  eapply bwp_mono; [eapply try_register_spec; [|apply lookup_insert_eq|done|done]|].
  - eapply wf_session; eauto. destruct (wf_sessions _ _ _ Hw1 i _ Hi1) as [? _ Ho]. split; [done|done|]. revert Ho. cbn. by rewrite Hp.
  - intros _ b' [? Ha']. split; [done|]. transitivity b1; [done|]. etransitivity; [apply aside_session|done].
Qed.

(** What a session that relays makes of a line: a message for the upstream server of its
    network, with the tags that clients may send. *)
Definition relayed ds (line : bytes) : option Message :=
  if InputTooLong line then None
  else match Parse line with
       | Ok msg => if seqb (Command msg) (str "CAP") || seqb (Command msg) (str "CHATHISTORY") then None
                   else Some (with_tags msg (Some (client_tags ds msg)))
       | _ => None
       end.

Lemma relay_line_spec a b i k ds line :
  wf a b -> sessions b !! i = Some ds -> dphase ds = Relaying -> dnetwork ds = Some k ->
  wp (relay_line g i line) (fun _ b' => wf a b' /\
    match relayed ds line with
    | Some m => b' = with_nets b (alter (fun n => with_client n ((fun c => (Send c m).1) <$> client n)) k (nets b))
    | None => aside i b b'
    end) b.
Proof.
  intros Hw Hi Hp Hk. assert (dphase ds <> Gone) as Hng by congruence. unfold relay_line, relayed. destruct (InputTooLong line).
  { eapply bwp_mono; [eapply wp_talks; eauto with talks|]. intros _ b' [? ?]. split; [done|by eapply says_aside]. }
  destruct (Parse line) as [msg| |]; [|by apply bwp_ret..]. destruct (seqb (Command msg) (str "CAP")); cbn [orb].
  { apply bwp_bind. eapply wp_exact; [unfold session; by rewrite Hi|]. apply bwp_bind. eapply bwp_mono.
    { eapply handleCAP_spec; eauto. apply (wf_sessions _ _ _ Hw i ds Hi). }
    intros [cs d] b1 [Hc [v Hs1]]. destruct (says_versioned a i ds v b b1 Hw Hi Hs1) as (Hw1 & Hi1 & Ha1).
    eapply wp_exact; [reflexivity|]. rewrite (alter_insert_Some _ _ _ _ Hi1). split.
    - eapply wf_session; eauto. by destruct (wf_sessions _ _ _ Hw1 i _ Hi1).
    - transitivity b1; [done|apply aside_session]. }
  destruct (seqb (Command msg) (str "CHATHISTORY")).
  { eapply bwp_mono; [eapply wp_talks; eauto with talks|]. intros _ b' [? ?]. split; [done|by eapply says_aside]. }
  unfold relay. apply bwp_bind. eapply wp_exact; [unfold session; by rewrite Hi|]. rewrite Hk. eapply wp_exact; [reflexivity|].
  split; [|done]. apply wf_client; [done|]. intros n _. split; [done|]. split; [done|]. intros c' E. cbn in E.
  destruct (client n) as [c|]; [|done]. injection E as <-. exists c. unfold Send. by destruct (writer c).
Qed.
End Lines.

(* ------------------------------------------------------------------ *)
(** ** Reachable bouncers *)

Section Reachable.
Context {L : Type} `{!BoundedLog Entry L} {HU : GoUnicode} {HI : IterOrder} {HW : World} (g : Config).
Implicit Types (b : Bouncer L) (ds : DownstreamSession) (n : Network) (a : archive) (msg : Message).
Abbreviation wf := (wf g).

(** The archive after an event: messages from upstream are added to it. *)
Definition archive_event (e : event) b a : archive :=
  match e with
  | EUpstream k line =>
      match Parse line, nets b !! k with
      | Ok msg, Some n => archive_add (recorded b n msg) a
      | _, _ => a
      end
  | _ => a
  end.

(** The bouncers that can be reached, with all that came from upstream for each target. *)
Inductive reachable : archive -> Bouncer L -> Prop :=
| reach_new : reachable ∅ (New g)
| reach_step e a b b' : reachable a b -> possible e b -> handle g e b = Some (tt, b') -> reachable (archive_event e b a) b'.

(** What was written to a session. *)
Definition sent_to (i : nat) b : list Message := (filter (fun p => p.1 = i) (sent b)).*2.

Definition relays_for (k : nat) ds : bool := bool_decide (dphase ds = Relaying /\ dnetwork ds = Some k).

Context (names : Forall (fun c => Byte.x00 ∉ NName c) (Networks g)) (upper_idem : forall s, ToUpper (ToUpper s) = ToUpper s).

Lemma upstream_event_spec a b k n line :
  wf a b -> nets b !! k = Some n -> is_Some (client n) ->
  wp (upstream_line k line) (fun _ b' => wf (archive_event (EUpstream k line) b a) b') b.
Proof.
  intros Hw Hk Hc. unfold upstream_line, archive_event. rewrite Hk. destruct (Parse line) as [msg| |]; [|by apply bwp_ret..].
  destruct (decide (Command msg = str "*")) as [E|E].
  2: { eapply bwp_mono; [by eapply upstream_message_spec|]. by intros [] b' (? & _). }
  destruct Hc as [c Hc]. unfold upstream_message. apply bwp_bind. eapply wp_exact; [unfold network; by rewrite Hk|]. rewrite Hc, E.
  rewrite (proj1 (no_client _ _ _ _ (wf_nets _ _ _ Hw k n Hk) c Hc)).
  change (Mux_handlers upstream_mux (str "*")) with [HUser 0; HUser 0].
  assert (forall b n, recorded b n msg = None) as Hr by (intros; unfold recorded, history_target; by rewrite E).
  rewrite Hr. cbn [forM_ call_upstream archive_add]. apply bwp_bind. eapply bwp_mono; [by eapply (handleUpstream_spec g names a b k n)|].
  intros [] b1 (Hw1 & (_ & _ & f & En) & _). rewrite Hr in Hw1. apply bwp_bind. eapply bwp_mono.
  { eapply (handleUpstream_spec g names a b1 k _ _ Hw1). by rewrite En, list_lookup_alter_eq, Hk. }
  intros [] b2 (Hw2 & _). apply bwp_ret. by rewrite Hr in Hw2.
Qed.

(** An event on the client alone. *)
Lemma client_event_spec a b k (f : Client Plain -> Client Plain) :
  wf a b -> (forall c, mux (f c) = mux c /\ (sasl_consistent c -> sasl_consistent (f c))) ->
  wp (update_client k f) (fun _ b' => wf a b') b.
Proof.
  intros Hw Hf. eapply wp_exact; [reflexivity|]. apply wf_client; [done|]. intros n _. split; [done|]. split; [done|].
  intros c' E. cbn in E. destruct (client n) as [c|]; [|done]. injection E as <-. exists c. by split; [|apply Hf].
Qed.

Lemma start_frame (c : Client Plain) works : mux (start c works).1 = mux c /\ (sasl_consistent c -> sasl_consistent (start c works).1).
Proof.
  assert (exists d, frame d (start c works).1 /\ mux d = mux c /\ cfg d = cfg c) as (d & F & Em & Ec).
  { unfold start, Sendf at 1, Send. destruct works; cbn [writer on_cap with_capState connected with_done with_sasl with_nick with_writer fst].
    - eexists (with_out _ _). split; [solve_frame|]. by split.
    - eexists. split; [reflexivity|]. by split. }
  split; [by rewrite (frame_mux _ _ F)|]. intros Hc. eapply frame_consistent; [exact F|]. unfold sasl_consistent in *. by rewrite Ec.
Qed.

Lemma handle_spec e a b : wf a b -> possible e b -> wp (handle g e) (fun _ b' => wf (archive_event e b a) b') b.
Proof.
  intros Hw Hp. destruct e as [i|i line|i|k works|k line|k]; cbn [handle archive_event possible] in *.
  - eapply wp_exact; [reflexivity|]. destruct Hw as [Hn Hm Hs Hh]. split; cbn [nets networks sessions hist with_sessions]; try done.
    + intros k n Hk. destruct (Hn k n Hk) as [?? Ha ?]. split; try done. intros j. rewrite Ha. unfold attached.
      cbn [sessions with_sessions]. destruct (decide (j = i)) as [->|]; [|by rewrite lookup_insert_ne].
      rewrite lookup_insert_eq, Hp. split; [by intros (? & [=] & _)|by intros (d & [= <-] & [=] & _)].
    + intros j d. rewrite lookup_insert_Some. intros [[_ <-]|[_ Hj]]; [|by eapply Hs]. split; [|set_solver|done]. apply empty_subseteq.
  - destruct Hp as (ds & Hi & Hg). unfold run_line. apply bwp_bind. eapply wp_exact; [unfold session; by rewrite Hi|].
    pose proof (so_phase _ _ _ (wf_sessions _ _ _ Hw i ds Hi)) as Ho. destruct (dphase ds) eqn:Ep; [| |done].
    + eapply bwp_mono; [by eapply register_line_spec|]. by intros _ b' [? _].
    + destruct Ho as (_ & k & Hk & _). eapply bwp_mono; [by eapply relay_line_spec|]. by intros _ b' [? _].
  - destruct Hp as (ds & Hi & Hg). eapply bwp_mono; [by eapply leave_spec|]. by intros _ b' [? _].
  - apply client_event_spec; [done|]. intros c. apply start_frame.
  - destruct Hp as (n & Hk & Hc). by apply (upstream_event_spec a b k n).
  - apply client_event_spec; [done|]. by intros c.
Qed.

Lemma reachable_wf a b : reachable a b -> wf a b.
Proof.
  induction 1 as [|e a b b' _ IH Hp He]; [by apply New_wf|].
  destruct (wp_total _ _ _ (handle_spec e a b IH Hp)) as (b1 & E1 & Hw1). rewrite He in E1. by injection E1 as <-.
Qed.
End Reachable.

(* ------------------------------------------------------------------ *)
(** ** Theorems *)

Section Theorems.
Context {L : Type} `{!BoundedLog Entry L} {HU : GoUnicode} {HI : IterOrder} {HW : World} (g : Config).
Context (names : Forall (fun c => Byte.x00 ∉ NName c) (Networks g)) (upper_idem : forall s, ToUpper (ToUpper s) = ToUpper s).
Implicit Types (b : Bouncer L) (ds : DownstreamSession) (n : Network) (a : archive) (msg : Message).


Lemma deliver_to_filter i j b msg :
  filter (fun p : nat * Message => p.1 = i) (deliver_to b msg j) = if decide (j = i) then deliver_to b msg i else [].
Proof.
  destruct (decide (j = i)) as [->|]; unfold deliver_to, delivery; repeat case_match; try done;
    rewrite filter_cons; case_decide; try done.
Qed.

Lemma sent_to_deliveries i ids b msg :
  NoDup ids ->
  (filter (fun p : nat * Message => p.1 = i) (flat_map (deliver_to b msg) ids)).*2 =
  if bool_decide (i ∈ ids) then (deliver_to b msg i).*2 else [].
Proof.
  induction 1 as [|j ids Hj _ IH]; cbn [flat_map]; [done|].
  rewrite filter_app, fmap_app, IH, deliver_to_filter. destruct (decide (j = i)) as [->|Hne].
  - rewrite (bool_decide_eq_false_2 (i ∈ ids)) by done. rewrite bool_decide_eq_true_2 by (by left). by rewrite app_nil_r.
  - cbn [fmap list_fmap app]. by rewrite (bool_decide_ext (i ∈ j :: ids) (i ∈ ids)) by set_solver.
Qed.


(** What a session sees of a message: a tag when it has the tag's capability. *)
Lemma visible_tag ds msg tag v :
  Tags_Get (MTags (visible ds msg)) tag = Some v <-> Tags_Get (MTags msg) tag = Some v /\ cap ds (tag_cap tag) = true.
Proof.
  unfold visible. assert (forall m, MTags (if (seqb (Command m) (str "JOIN") && (blen (Params m) >? 1) && negb (cap ds CapExtendedJoin))
    then with_params m (take 1 (Params m)) else m) = MTags m) as -> by (intros m; by destruct (_ && _ && _)).
  cbn [with_tags MTags]. destruct (MTags msg) as [t|]; cbn; [|naive_solver]. by rewrite map_lookup_filter_Some.
Qed.

(** C16. What a session can reach: a line of it is handled, and touches no other session, no
    state and no history of a network; it is either answered to the session alone, or it
    is the one message that the client of the session's own network sends upstream, with
    the tags of clients only, and that only once the session has registered. *)
Theorem session_confined a b i ds line :
  reachable g a b -> sessions b !! i = Some ds -> dphase ds <> Gone ->
  exists b', handle g (ELine i line) b = Some (tt, b') /\ wf g a b' /\
    match dphase ds, relayed ds line, dnetwork ds with
    | Relaying, Some m, Some k =>
        b' = with_nets b (alter (fun n => with_client n ((fun c => (Send c m).1) <$> client n)) k (nets b))
    | _, _, _ => aside i b b'
    end.
Proof.
  intros Hr Hi Hg. apply reachable_wf in Hr; [|done..]. cbn [handle]. unfold run_line, mbind at 1, M_bind, session. rewrite Hi.
  cbn [mbind option_bind]. pose proof (so_phase _ _ _ (wf_sessions _ _ _ Hr i ds Hi)) as Ho. destruct (dphase ds) eqn:Ep; [| |done].
  - destruct (wp_total _ _ _ (register_line_spec g names upper_idem a b i ds line Hr Hi Ep)) as (b' & E & Hw & Ha). by exists b'.
  - destruct Ho as (_ & k & Hk & _). rewrite Hk.
    destruct (wp_total _ _ _ (relay_line_spec g names upper_idem a b i k ds line Hr Hi Ep Hk)) as (b' & E & Hw & Ha).
    exists b'. split; [done|]. split; [done|]. by destruct (relayed ds line).
Qed.
End Theorems.
