(* ===== verification/BouncerReplay.v ===== *)
(** * What the bouncer replays

    A client that registers is shown the channels of its network and, when it does not
    page through the history itself, the newest messages of each: [replay_is_archive] says
    that these are exactly the newest of all that came from upstream.  Then runs by
    evaluation: witnesses, and behaviours that differ from what the code sets out to do. *)

From S2P Require Import Prelude GoStrings GoSort GoTime GoEncoding IrcMessage ChatHistory RingBuf HistoryStore IrcConst.
From S2P Require Import IrcScram IrcSasl IrcClient Bouncer BouncerRelay BouncerSessions.
#[local] Open Scope go_scope.

Lemma query_newest k all : 0 < k -> query_entries (limit_query k) all = last_n (Z.to_nat k) all.
Proof.
  intros Hk. unfold query_entries, query_start, last_n. cbn [limit_query Limit AfterMsgID].
  destruct (Z.leb_spec k 0); [lia|]. rewrite seqb_refl. cbn [negb]. rewrite drop_0.
  assert (filterb (in_window (limit_query k)) all = all) as -> by (induction all as [|e all IH]; cbn; [done|by f_equal]).
  unfold blen. destruct (Z.gtb_spec (Z.of_nat (length all)) k).
  - f_equal. lia.
  - replace (length all - Z.to_nat k)%nat with 0%nat by lia. by rewrite drop_0.
Qed.

Section Replay.
Context {L : Type} `{!BoundedLog Entry L} {HU : GoUnicode} {HI : IterOrder} {HW : World} (g : Config).
Implicit Types (b : Bouncer L) (ds : DownstreamSession) (n : Network) (a : archive) (msg : Message).

(** What a session is shown of a channel. *)
Definition numeric ds (num : Z) (ps : list bytes) : Message :=
  message (server (Listen g)) (numeric_string num) (reply_nick ds :: ps).

Definition channel_intro ds (ch : bytes) (cs : ChannelState) : list Message :=
  [ message (Some {| Nick := dnick ds; User := duser ds; Host := str "bouncer" |}) (str "JOIN") [ch];
    if seqb (Topic cs) [] then numeric ds RPL_NOTOPIC [ch; str "No topic is set"] else numeric ds RPL_TOPIC [ch; Topic cs] ] ++
  (let names := map (fun '(nick, prefix) => prefix ++ nick) (iter (map_to_list (Members cs))) in
   if blen names >? 0 then [numeric ds RPL_NAMREPLY [str "="; ch; Join names (str " ")]] else []) ++
  [numeric ds RPL_ENDOFNAMES [ch; str "End of /NAMES list"]].

(** Messages of a channel, in a batch for a session that has the capability. *)
Definition history_block ds (id ch : bytes) (past : list Entry) : list Message :=
  if cap ds CapBatch then
    with_tags (message (server (str "bouncer")) (str "BATCH")
                ([str "+" ++ id; str "chathistory"] ++ (if seqb ch [] then [] else [ch])))
              (Some {[str "draft/chathistory-end" := []]}) ::
    map (fun e => history_message id (history_entry e)) past ++
    (if seqb id [] then [] else [message (server (str "bouncer")) (str "BATCH") [str "-" ++ id]])
  else map (fun e => history_message [] (history_entry e)) past.

(** What is shown of a channel, given the history of its network. *)
Definition replayed ds (id : bytes) (past : bytes -> list Entry) (c : bytes * ChannelState) : list Message :=
  channel_intro ds c.1 c.2 ++ (if cap ds CapChatHistory then [] else history_block ds id c.1 (past c.1)).

(** Writing messages that are not withheld. *)
Definition tell (i : nat) ds (ms : list Message) b : Bouncer L :=
  with_sent b (sent b ++ ((fun m => (i, visible ds m)) <$> ms)).

Lemma tell_tell i ds ms ms' b : tell i ds ms' (tell i ds ms b) = tell i ds (ms ++ ms') b.
Proof. unfold tell. cbn [with_sent sent]. rewrite fmap_app. by rewrite (assoc_L (++)). Qed.

Definition open_ ds msg : Prop := forall nick, withheld ds nick msg = false.

Lemma send_tell b i ds msg :
  sessions b !! i = Some ds -> linked b ds -> open_ ds msg -> send i msg b = Some (tt, tell i ds [msg] b).
Proof. intros Hi Hl Ho. rewrite (send_eq b i ds) by done. unfold delivery. by rewrite Ho. Qed.

Lemma forM_tell {A} b i ds (f : A -> Message) es :
  sessions b !! i = Some ds -> linked b ds -> (forall e, e ∈ es -> open_ ds (f e)) ->
  forM_ es (fun e => send i (f e)) b = Some (tt, tell i ds (map f es) b).
Proof.
  revert b. induction es as [|e es IH]; intros b Hi Hl Ho; cbn [forM_ map].
  - unfold tell. cbn. rewrite app_nil_r. by destruct b.
  - unfold mbind, M_bind. rewrite (send_tell b i ds) by (done || (apply Ho; by left)).
    rewrite IH; [by rewrite tell_tell|done|done|]. intros e' He. apply Ho. by right.
Qed.

Lemma open_plain ds msg :
  forallb (fun c => negb (seqb (Command msg) c))
    [str "TAGMSG"; str "ACCOUNT"; str "AWAY"; str "BATCH"; str "CHGHOST"; str "SETNAME"; str "INVITE"] = true -> open_ ds msg.
Proof.
  cbn [forallb]. rewrite !andb_true_iff, !negb_true_iff. intros (E1 & E2 & E3 & E4 & E5 & E6 & E7 & _) nick.
  unfold withheld, requiredCap. by rewrite E1, E2, E3, E4, E5, E6, E7.
Qed.

(** Stored messages are ones that every session may see. *)
Definition plain_archive a : Prop :=
  forall net t e, e ∈ archived a net t -> Command (Msg e) = str "PRIVMSG" \/ Command (Msg e) = str "NOTICE".

Lemma reachable_plain a b : reachable g a b -> plain_archive a.
Proof.
  induction 1 as [|e a b b' _ IH _ _]; [intros net t e; unfold archived; rewrite lookup_empty; by intros []%elem_of_nil|].
  destruct e as [| | | |k line|]; try done. cbn [archive_event]. destruct (Parse line) as [msg| |]; try done.
  destruct (nets b !! k) as [n|]; [|done]. unfold recorded. destruct (history_target (nstate n) msg).1 as [target|] eqn:E; [|done].
  cbn. intros net t e. unfold archived at 1. destruct (decide ((net, t) = (NName (ncfg n), target))) as [[= -> ->]|Hne].
  - rewrite lookup_insert_eq. cbn. rewrite elem_of_app, list_elem_of_singleton. intros [?| ->]; [by eapply IH|].
    by eapply history_target_command.
  - rewrite lookup_insert_ne by done. apply IH.
Qed.

Lemma open_history ds id e : Command (Msg e) = str "PRIVMSG" \/ Command (Msg e) = str "NOTICE" -> open_ ds (history_message id (history_entry e)).
Proof. intros [E|E]; apply open_plain; unfold history_message, history_entry; cbn [with_tags Command EMsg]; by rewrite E. Qed.

Lemma open_batch ds p ps t : cap ds CapBatch = true -> open_ ds (with_tags (message p (str "BATCH") ps) t).
Proof. intros Hc nick. transitivity (negb (cap ds CapBatch) || false); [reflexivity|]. by rewrite Hc. Qed.

Definition drawn ds b : Bouncer L := if cap ds CapBatch then with_draws b (S (draws b)) else b.

Lemma sendHistory_eq b i ds ch past :
  sessions b !! i = Some ds -> linked b ds ->
  (forall e, e ∈ past -> Command (Msg e) = str "PRIVMSG" \/ Command (Msg e) = str "NOTICE") ->
  sendHistory i ch (map history_entry past) true b = Some (tt, tell i ds (history_block ds (random (draws b)) ch past) (drawn ds b)).
Proof.
  intros Hi Hl Hp. unfold sendHistory, sendHistoryBatch, history_block, drawn, mbind, M_bind, session. rewrite Hi. cbn [mbind option_bind].
  destruct (cap ds CapBatch) eqn:Hc.
  - unfold text. set (id := random (draws b)).
    set (b1 := with_draws b (S (draws b))).
    assert (sessions b1 !! i = Some ds) as Hi1 by done. assert (linked b1 ds) as Hl1 by done. clearbody b1.
    rewrite (send_tell b1 i ds) by (done || by apply open_batch). cbn [mret M_ret].
    rewrite (forM_tell _ i ds); [|done|done|intros e (x & -> & Hx)%list_elem_of_fmap; by apply open_history, Hp].
    rewrite tell_tell. cbn [app]. rewrite map_map. unfold when. destruct (seqb id []); cbn [negb].
    + by rewrite app_nil_r.
    + rewrite (send_tell _ i ds); [by rewrite tell_tell|done|done|]. by apply (open_batch ds _ _ None).
  - cbn [mret M_ret]. rewrite (forM_tell _ i ds); [|done|done|intros e (x & -> & Hx)%list_elem_of_fmap; by apply open_history, Hp].
    by rewrite map_map.
Qed.

Context (names : Forall (fun c => Byte.x00 ∉ NName c) (Networks g)).

(** What a session is shown of a channel is the newest of the archive. *)
Definition past a n (ch : bytes) : list Entry :=
  last_n (Z.to_nat chatHistoryLimit) (last_n (keep g) (archived a (NName (ncfg n)) ch)).

(** The bouncer is as before, but for the output and what a query may create. *)
Definition told a (i : nat) ds (ms : list Message) b b' : Prop :=
  nets b' = nets b /\ networks b' = networks b /\ sessions b' = sessions b /\ refines (keep g) a (hist b') /\
  sent b' = sent b ++ ((fun m => (i, visible ds m)) <$> ms).

Lemma elem_of_last_n {A} k (l : list A) x : x ∈ last_n k l -> x ∈ l.
Proof. unfold last_n. intros H. rewrite <- (take_drop (length l - k) l). apply elem_of_app. by right. Qed.

Lemma replay_channel_spec a b i k n ds c :
  wf g a b -> plain_archive a -> sessions b !! i = Some ds -> dnetwork ds = Some k -> nets b !! k = Some n ->
  wp (replay_channel g i k c.1 c.2) (fun _ b' =>
    told a i ds (replayed ds (random (draws b)) (past a n) c) b b' /\
    draws b' = (if negb (cap ds CapChatHistory) && cap ds CapBatch then S (draws b) else draws b)) b.
Proof.
  intros Hw Hpl Hi Hk Hn. destruct c as [ch cs]. cbn [fst snd] in *.
  assert (linked b ds) as Hl by (unfold linked; rewrite Hk; eauto).
  assert (forall ms, sessions (tell i ds ms b) !! i = Some ds /\ linked (tell i ds ms b) ds) as Ht by done.
  unfold replay_channel. apply bwp_bind. eapply wp_exact; [unfold session; by rewrite Hi|].
  apply bwp_bind. eapply wp_exact; [apply send_tell; [done|done|by apply open_plain]|].
  assert (forall ms num ps, num ∈ [RPL_NOTOPIC; RPL_TOPIC; RPL_NAMREPLY; RPL_ENDOFNAMES] ->
    sendNumeric g i num ps (tell i ds ms b) = Some (tt, tell i ds (ms ++ [numeric ds num ps]) b)) as Hnum.
  { intros ms num ps Hin. unfold sendNumeric, mbind, M_bind, session. destruct (Ht ms) as [Hs1 Hl1]. rewrite Hs1. cbn [mbind option_bind].
    rewrite (send_tell _ i ds); [by rewrite tell_tell|done|done|]. apply open_plain.
    repeat (apply elem_of_cons in Hin as [->|Hin]; [reflexivity|]). by apply elem_of_nil in Hin. }
  apply bwp_bind. eapply wp_exact.
  { instantiate (1 := tell i ds (take 2 (channel_intro ds ch cs)) b). unfold channel_intro.
    destruct (seqb (Topic cs) []); (rewrite Hnum by set_solver); reflexivity. }
  cbn zeta. apply bwp_bind. eapply wp_exact.
  { instantiate (1 := tell i ds (removelast (channel_intro ds ch cs)) b). unfold channel_intro, when. cbn zeta.
    destruct (blen _ >? 0); [|reflexivity]. rewrite Hnum by set_solver. reflexivity. }
  apply bwp_bind. eapply wp_exact; [apply Hnum; set_solver|].
  assert (removelast (channel_intro ds ch cs) ++ [numeric ds RPL_ENDOFNAMES [ch; str "End of /NAMES list"]] = channel_intro ds ch cs) as ->.
  { unfold channel_intro. cbn zeta. by destruct (blen _ >? 0). }
  set (b1 := tell i ds (channel_intro ds ch cs) b). unfold replayed. cbn [fst snd].
  destruct (cap ds CapChatHistory); cbn [negb when andb].
  { apply bwp_ret. rewrite app_nil_r. split; [|done]. do 3 (split; [done|]). split; [apply Hw|done]. }
  apply bwp_bind. eapply wp_exact; [unfold network, b1; cbn [tell with_sent nets]; by rewrite Hn|].
  apply bwp_bind.
  destruct (Query_refines (keep g) a (hist b) (NName (ncfg n)) ch (limit_query chatHistoryLimit) (wf_hist _ _ _ Hw)
              (wf_names_ok g names a b Hw k n Hn)) as (h & Eh & Hh).
  eapply wp_exact; [unfold query, b1; cbn [tell with_sent hist]; rewrite Eh; reflexivity|]. rewrite query_newest by done.
  fold (past a n ch). set (b2 := with_hist b1 h).
  eapply wp_exact.
  { apply (sendHistory_eq b2 i ds); [done|done|]. intros e He. apply (Hpl (NName (ncfg n)) ch).
    by eapply elem_of_last_n, elem_of_last_n. }
  split; [|unfold drawn; by destruct (cap ds CapBatch)].
  change (draws b2) with (draws b). unfold told, drawn. rewrite fmap_app, (assoc_L (++)).
  by destruct (cap ds CapBatch).
Qed.

Lemma replayed_id ds id id' past c :
  negb (cap ds CapChatHistory) && cap ds CapBatch = false -> replayed ds id past c = replayed ds id' past c.
Proof. unfold replayed, history_block. by destruct (cap ds CapChatHistory), (cap ds CapBatch). Qed.

Lemma replay_channels_spec a i k n ds cs : forall b (id : nat -> bytes),
  wf g a b -> plain_archive a -> sessions b !! i = Some ds -> dnetwork ds = Some k -> nets b !! k = Some n ->
  (negb (cap ds CapChatHistory) && cap ds CapBatch = true -> forall j, id j = random (draws b + j)) ->
  wp (forM_ cs (fun '(ch, st) => replay_channel g i k ch st)) (fun _ =>
    told a i ds (concat (imap (fun j c => replayed ds (id j) (past a n) c) cs)) b) b.
Proof.
  induction cs as [|[ch st] cs IH]; intros b id Hw Hpl Hi Hk Hn Hid; cbn [forM_ imap concat].
  { apply bwp_ret. do 3 (split; [done|]). split; [apply Hw|]. by rewrite app_nil_r. }
  apply bwp_bind. eapply bwp_mono; [by apply (replay_channel_spec a b i k n ds (ch, st))|].
  intros [] b1 [(En & Em & Es & Hh & Ese) Ed].
  assert (wf g a b1) as Hw1 by (by eapply wf_same).
  eapply bwp_mono; [apply (IH b1 (fun j => id (S j))); [done|done|by rewrite Es|done|by rewrite En|]|].
  - intros Hc j. rewrite Hid by done. rewrite Ed, Hc. f_equal. lia.
  - intros [] b2 (En2 & Em2 & Es2 & Hh2 & Ese2). do 3 (split; [congruence|]). split; [done|].
    rewrite Ese2, Ese, fmap_app, (assoc_L (++)). do 3 f_equal.
    destruct (negb (cap ds CapChatHistory) && cap ds CapBatch) eqn:Hc; [|by apply replayed_id].
    by rewrite Hid, Nat.add_0_r.
Qed.

Lemma sent_to_told i j ds ms (l : list (nat * Message)) :
  (filter (fun p : nat * Message => p.1 = j) (l ++ ((fun m => (i, visible ds m)) <$> ms))).*2 =
  (filter (fun p => p.1 = j) l).*2 ++ (if decide (i = j) then map (visible ds) ms else []).
Proof.
  rewrite filter_app, fmap_app. f_equal. induction ms as [|m ms IH]; [by destruct (decide _)|].
  rewrite fmap_cons, filter_cons. cbn [fst]. revert IH. destruct (decide (i = j)); intros IH; by rewrite ?fmap_cons, IH.
Qed.

End Replay.

(* ------------------------------------------------------------------ *)
(** ** Runs *)

Section Runs.
Context {L : Type} `{!BoundedLog Entry L} {HU : GoUnicode} {HI : IterOrder} {HW : World} (g : Config).
Implicit Types b : Bouncer L.

Definition possibleb (e : event) b : bool :=
  match e with
  | EAccept i => bool_decide (sessions b !! i = None)
  | ELine i _ | EClose i => match sessions b !! i with Some ds => negb (bool_decide (dphase ds = Gone)) | None => false end
  | EDialled k _ | EUpstream k _ | EEnded k => match nets b !! k with Some n => bool_decide (is_Some (client n)) | None => false end
  end.

Lemma possibleb_spec e b : possibleb e b = true -> possible e b.
Proof.
  destruct e as [i|i line|i|k works|k line|k]; cbn [possibleb possible]; rewrite ?bool_decide_eq_true; try done;
    (case_match; [|done]); rewrite ?negb_true_iff, ?bool_decide_eq_false, ?bool_decide_eq_true; eauto.
Qed.

(** A sequence of events, each of which must be possible. *)
Fixpoint go (es : list event) (s : archive * Bouncer L) : option (archive * Bouncer L) :=
  match es with
  | [] => Some s
  | e :: es =>
      if possibleb e s.2 then
        match handle g e s.2 with Some (_, b) => go es (archive_event e s.2 s.1, b) | None => None end
      else None
  end.

Lemma go_reachable es s s' : go es s = Some s' -> reachable g s.1 s.2 -> reachable g s'.1 s'.2.
Proof.
  revert s. induction es as [|e es IH]; intros s; cbn [go]; [by intros [= ->]|].
  destruct (possibleb e s.2) eqn:Hp; [|done]. destruct (handle g e s.2) as [[[] b]|] eqn:He; [|done]. intros Hg Hr.
  apply (IH _ Hg). cbn [fst snd]. eapply reach_step; [done|by apply possibleb_spec|done].
Qed.
End Runs.

#[local] Instance demo_unicode : GoUnicode := ascii_only.
#[local] Instance demo_iter : IterOrder := in_order.
#[local] Instance demo_world : World :=
  {| clock k := Z.of_nat k * 1000000000; random k := str "batch" ++ Itoa (Z.of_nat k) |}.
#[local] Instance demo_log : BoundedLog Entry (RingBuf Entry) := RingBuf_BoundedLog no_entry.

Lemma demo_upper s : ToUpper (ToUpper s) = ToUpper s.
Proof.
  assert (forall s, ToUpper s = map ascii_upper s) as H by (intros t; unfold ToUpper; by destruct (is_ascii t)).
  rewrite !H, map_map. apply map_ext, ascii_upper_idem.
Qed.

Definition demo_network (name : bytes) : NetworkConfig :=
  {| NName := name; NServer := str "irc.test:6697"; NTLS := true; NNick := str "bob"; NUser := str "bob"; NRealName := str "Bob";
     NPassword := []; SASLUser := []; SASLPass := []; NChannels := [str "#go"]; AutoConnect := true |}.
Definition demo_config : Config :=
  {| Listen := str "bnc.test"; TLSListen := []; TLSConfig := false;
     Users := [{| UName := str "bob"; UPassword := str "sesame" |}; {| UName := str "eve"; UPassword := str "$2a$10$abc" |}];
     Networks := [demo_network (str "One"); demo_network (str "Two")];
     History := {| HBackend := str "memory"; HLimit := 2 |} |}.

Lemma demo_names : Forall (fun c => Byte.x00 ∉ NName c) (Networks demo_config).
Proof. apply (bool_decide_unpack _). vm_compute. exact I. Qed.

Definition start_ : archive * Bouncer (RingBuf Entry) := (∅, New demo_config).
Definition after (es : list event) : archive * Bouncer (RingBuf Entry) := default start_ (go demo_config es start_).

Lemma after_reachable es :
  (match go demo_config es start_ with Some _ => true | None => false end) = true ->
  reachable demo_config (after es).1 (after es).2.
Proof.
  unfold after. destruct (go demo_config es start_) as [s|] eqn:E; [|done]. intros _. eapply go_reachable; [exact E|]. constructor.
Qed.

(** The first network is connected, its channel joined and written to. *)
Definition upstream_up : list event :=
  [ EDialled 0 true; EUpstream 0 (str ":s 001 bob :Welcome"); EUpstream 0 (str ":bob!b@h JOIN #Go"); EUpstream 0 (str ":al!a@h JOIN #go");
    EUpstream 0 (str "@time=2024-03-01T12:30:45.250Z :al!a@h PRIVMSG #GO :one"); EUpstream 0 (str "@time=2024-03-01T12:30:46Z :al!a@h PRIVMSG #go :two");
    EUpstream 0 (str "@time=2024-03-01T12:30:47Z :al!a@h PRIVMSG #go :three") ].

Definition sign_on (i : nat) (pass : bytes) (caps : bytes) : list event :=
  [ EAccept i; ELine i (str "CAP LS 302"); ELine i (str "CAP REQ :" ++ caps); ELine i (str "PASS " ++ pass); ELine i (str "NICK bobby");
    ELine i (str "USER b 0 * :Bob"); ELine i (str "CAP END") ].

(** Two sessions on the first network and one on the second. *)
Definition demo_events : list event :=
  upstream_up ++ sign_on 1 (str "bob/one:sesame") (str "server-time batch") ++ sign_on 2 (str "bob/one:sesame") (str "message-tags") ++
  sign_on 3 (str "bob/two:sesame") (str "server-time").

Lemma demo_ok : reachable demo_config (after demo_events).1 (after demo_events).2.
Proof. apply after_reachable. vm_compute. reflexivity. Qed.


(** An entry that evaluation finds. *)
Lemma there {A} (o : option A) : (match o with Some _ => true | None => false end) = true -> exists x, o = Some x.
Proof. destruct o; [eauto|done]. Qed.

(** Reading off what a session was sent. *)
Lemma one_more {A} (l l' : list A) (o : option DownstreamSession) (p : DownstreamSession -> bool) (f : DownstreamSession -> A) :
  l' = l ++ match o with Some ds => if p ds then [f ds] else [] | None => [] end ->
  (match o with Some ds => p ds | None => false end) = true -> length l' = S (length l).
Proof. intros ->. destruct o as [ds|]; [|done]. destruct (p ds); [|done]. intros _. rewrite length_app. cbn. lia. Qed.
Lemma none_more {A} (l l' : list A) (o : option DownstreamSession) (p : DownstreamSession -> bool) (f : DownstreamSession -> A) :
  l' = l ++ match o with Some ds => if p ds then [f ds] else [] | None => [] end ->
  (match o with Some ds => p ds | None => false end) = false -> l' = l.
Proof. intros ->. destruct o as [ds|]; [destruct (p ds)|]; intros; try done; by rewrite app_nil_r. Qed.

Definition demo_line : bytes := str "@+x=1;msgid=m4 :al!a@h PRIVMSG #go :four".

Definition demo_message : Message :=
  {| MTags := Some {[ str "+x" := str "1"; str "msgid" := str "m4" ]}; MPrefix := Some {| Nick := str "al"; User := str "a"; Host := str "h" |};
     Command := str "PRIVMSG"; Params := [str "#go"; str "four"] |}.


Definition client_line : bytes := str "@+x=1;y=2 PRIVMSG #go :hi".
Definition client_message : Message :=
  {| MTags := Some {[ str "+x" := str "1" ]}; MPrefix := None; Command := str "PRIVMSG"; Params := [str "#go"; str "hi"] |}.

Lemma session_confined_witness :
  exists ds b', sessions (after demo_events).2 !! 2%nat = Some ds /\
    handle demo_config (ELine 2 client_line) (after demo_events).2 = Some (tt, b') /\
    b' = with_nets (after demo_events).2
      (alter (fun n => with_client n ((fun c => (Send c client_message).1) <$> client n)) 0%nat (nets (after demo_events).2)).
Proof.
  destruct (there (sessions (after demo_events).2 !! 2%nat)) as [ds Es]; [vm_compute; reflexivity|]. exists ds.
  assert ((match sessions (after demo_events).2 !! 2%nat with
           | Some ds => bool_decide (dphase ds = Relaying) && bool_decide (dnetwork ds = Some 0%nat) | None => false end) = true) as Hd
    by (vm_compute; reflexivity).
  assert ((match sessions (after demo_events).2 !! 2%nat with Some ds => relayed ds client_line | None => None end) = Some client_message) as Hl
    by (vm_compute; reflexivity).
  rewrite Es in Hd, Hl. apply andb_true_iff in Hd as [Hp%bool_decide_eq_true_1 Hk%bool_decide_eq_true_1].
  destruct (session_confined demo_config demo_names demo_upper _ _ 2 ds client_line demo_ok Es) as (b' & E & _ & H).
  - rewrite Hp. discriminate.
  - exists b'. split; [exact Es|]. split; [exact E|]. rewrite Hp, Hk, Hl in H. exact H.
Defined.


(* ------------------------------------------------------------------ *)
(** ** Passwords *)

(** What a client puts into PASS is read as it was meant: with a network when the user
    name has no slash and the network no colon, without one when the user name has
    neither and no colon follows a slash of the password. *)
Theorem pass_roundtrip (user network password : bytes) :
  "/"%byte ∉ user ->
  (":"%byte ∉ network -> parseBouncerPass (user ++ str "/" ++ network ++ str ":" ++ password) = (user, network, password)) /\
  (":"%byte ∉ user -> "/"%byte ∉ password -> parseBouncerPass (user ++ str ":" ++ password) = (user, [], password)).
Proof.
  intros Hu. unfold parseBouncerPass. change (str "/") with ["/"%byte]. change (str ":") with [":"%byte]. cbn [app]. split.
  - intros Hn. rewrite (IndexByte_app user "/"%byte) by done. rewrite take_app_length, drop_app_S by done.
    rewrite (IndexByte_app network ":"%byte) by done. by rewrite take_app_length, drop_app_S.
  - intros Hc Hp. rewrite (proj2 (IndexByte_None _ "/"%byte)).
    + rewrite (IndexByte_app user ":"%byte) by done. by rewrite take_app_length, drop_app_S.
    + rewrite elem_of_app, elem_of_cons. intros [?|[?|?]]; done.
Qed.

(** A password with a slash and a colon is read as another user, a network and a shorter
    password. *)
Lemma pass_misread : parseBouncerPass (str "bob:a/b:c") = (str "bob:a", str "b", str "c").
Proof. reflexivity. Qed.

(** A password given as a bcrypt hash is compared as text: the hash itself is what lets a
    client in. *)
Lemma hash_is_the_password : authenticate demo_config (str "eve") (str "$2a$10$abc") = true.
Proof. reflexivity. Qed.

(* ------------------------------------------------------------------ *)
(** ** Behaviours that differ from what the code sets out to do *)

(** The topics of channels are never learnt, so that a replay always says that no topic
    is set. *)
Definition no_topics `{GoUnicode} (st : NetworkState) : Prop := forall ch cs, Channels st !! ch = Some cs -> Topic cs = [].

Theorem track_no_topics `{GoUnicode} st msg : no_topics st -> no_topics (track st msg).
Proof.
  intros Hn. assert (forall f : ChannelState -> ChannelState, (forall cs, Topic (f cs) = Topic cs) ->
    no_topics (with_channels st (f <$> Channels st))) as Hf.
  { intros f Hf ch cs. cbn [Channels with_channels]. rewrite lookup_fmap_Some. intros (x & <- & Hx). rewrite Hf. by eapply Hn. }
  unfold track. destruct (seqb _ (str "JOIN")).
  { destruct (Params msg) as [|p ps], (MPrefix msg) as [pre|]; try done. intros ch cs. cbn [Channels with_channels].
    rewrite lookup_insert_Some. intros [[_ <-]|[_ ?]]; [|by eapply Hn]. cbn [with_members Topic].
    destruct (Channels st !! ToLower p) eqn:E; [by eapply Hn|done]. }
  destruct (_ || _); [destruct (MPrefix msg); [by apply Hf|done]|]. destruct (seqb _ (str "NICK")); [|done].
  destruct (MPrefix msg) as [pre|]; [|done]. destruct (Params msg) as [|p ps]; [done|].
  assert (no_topics (with_channels st ((fun cs => match Members cs !! Nick pre with
    | Some prefix => with_members cs (<[p := prefix]> (delete (Nick pre) (Members cs))) | None => cs end) <$> Channels st))) as Hr
    by (apply Hf; intros cs; by case_match).
  by destruct (seqb _ (Nick pre)).
Qed.

(** Leaving one channel takes the nickname out of all of them. *)
Lemma part_leaves_every_channel :
  (fun n => (fun cs => map_to_list (Members cs)) <$> Channels (nstate n) !! str "#rust") <$>
    nets (after (upstream_up ++ [EUpstream 0 (str ":al!a@h JOIN #rust"); EUpstream 0 (str ":al!a@h PART #go")])).2 !! 0%nat = Some (Some []).
Proof. vm_compute. reflexivity. Qed.

(** A channel that the bouncer itself has left is still shown as joined. *)
Lemma left_channel_replayed :
  let b := (after (upstream_up ++ [EUpstream 0 (str ":bob!b@h PART #go")] ++ sign_on 1 (str "bob/one:sesame") (str "batch"))).2 in
  existsb (fun m => seqb (Command m) (str "JOIN")) (sent_to 1 b) = true.
Proof. vm_compute. reflexivity. Qed.

(** QUIT of a client is sent upstream, which ends the connection that is to persist. *)
Lemma quit_goes_upstream :
  (fun n => (fun c => Command <$> last (out c)) <$> client n) <$>
    nets (after (demo_events ++ [ELine 2 (str "QUIT :bye")])).2 !! 0%nat = Some (Some (Some (str "QUIT"))).
Proof. vm_compute. reflexivity. Qed.

(** A session is attached before the history is replayed: a message that comes in between
    is sent to it twice. *)
Lemma shown_twice :
  let line := str ":al!a@h PRIVMSG #go :now" in
  let r := {| passUser := str "bob"; passNetwork := str "one"; passPass := str "sesame"; rnick := str "bobby"; ruser := str "b";
              realname := []; rcaps := ∅; capDone := true |} in
  let b := (after (upstream_up ++ [EAccept 1])).2 in
  option_map (fun p => length (filter (fun m => Trailing m = str "now") (sent_to 1 p.2)))
    ((update_session 1 (registered 0 r) ;; attach 0 1 ;; upstream_line 0 line ;; welcome demo_config 1 r ;; replayState demo_config 1 0) b) = Some 2%nat.
Proof. vm_compute. reflexivity. Qed.
