(* ===== verification/IrcConfig.v ===== *)
(** * irc/config/config.go, irc/cmd/ircd, irc/cmd/ircb: configuration

    Validation and defaults of the configuration file, the configurations that the two
    programs make of it, and what the server makes of its own ([setDefaults], [New],
    [validateConfig] of irc/server/server.go).  Reading the file, decoding TOML, loading
    a key pair and bcrypt are parameters. *)

From S2P Require Import Prelude GoStrings IrcMessage IrcScram IrcSasl IrcClient Bouncer IrcServer.

(* ------------------------------------------------------------------ *)
(** ** The file *)

Record OperConfig := { OName : bytes; OPassword : bytes; OHost : bytes }.
Record AccountConfig := { ACName : bytes; ACPassword : bytes; ACHost : bytes }.
Record STSBlock := { Port : Z; Duration : Z; Preload : bool; Hostnames : list bytes }.

Record ServerConfig := {
  SName : bytes; SNetwork : bytes; SListen : bytes; STLSListen : bytes; TLSCertFile : bytes; TLSKeyFile : bytes; SMOTD : bytes;
  MaxClients : Z; SPassword : bytes; PingInterval : Z; PingTimeout : Z;
  SOpers : list OperConfig; SAccounts : list AccountConfig; SCaps : list bytes; SSTS : option STSBlock
}.

Record UserBlock := { UBName : bytes; UBPassword : bytes }.
Record NetworkBlock := {
  NBName : bytes; NBServer : bytes; NBTLS : bool; NBNick : bytes; NBUser : bytes; NBRealName : bytes; NBPassword : bytes;
  NBSASLUser : bytes; NBSASLPass : bytes; SASLMech : bytes; NBChannels : list bytes; NBAutoConnect : bool
}.
Record HistoryBlock := { Backend : bytes; DSN : bytes; HBLimit : Z }.

Record BouncerConfig := {
  BListen : bytes; BTLSListen : bytes; TLSCert : bytes; TLSKey : bytes;
  BUsers : list UserBlock; BNetworks : list NetworkBlock; BHistory : HistoryBlock
}.

Record FileConfig := { FServer : option ServerConfig; FBouncer : option BouncerConfig }.

(** [bcrypt.Cost] and [bcrypt.GenerateFromPassword]; a hash has a cost of at least
    [bcrypt.MinCost], 4, and the cost that was asked for. *)
Class BcryptCost := {
  bcryptCost : bytes -> option Z;
  bcryptGenerate : bytes -> Z -> option bytes;
  bcryptCost_min : forall h c, bcryptCost h = Some c -> 4 <= c;
  bcryptGenerate_cost : forall p c h, 4 <= c -> bcryptGenerate p c = Some h -> bcryptCost h = Some c
}.
Definition bcryptDefaultCost : Z := 10.

Inductive config_err :=
| ENoSection | ETLSPair | EAccountName (name : bytes) | EDuplicate (name : bytes) | EHash (name : bytes) | ECost
| EHost (name : bytes) | ESTSPolicy | ESTSTLS | ESASLPair (name : bytes) | ESASLTLS (name : bytes) | ESASLMech (name mech : bytes).

(** A nil pointer. *)
Definition is_nil {A} (o : option A) : bool := match o with None => true | Some _ => false end.

Section Config.
Context {HU : GoUnicode} {HB : BcryptCost}.

Definition account_name_bad (name : bytes) : bool :=
  seqb name [] || seqb name (str "*") || ContainsAny name (str " " ++ [Byte.x00; Byte.x0d; Byte.x0a] ++ str ",:!").

Fixpoint validate_accounts (seen : gset bytes) (passwordCost : Z) (accounts : list AccountConfig) : option config_err :=
  match accounts with
  | [] => None
  | account :: rest =>
      let key := ToLower (ACName account) in
      if account_name_bad (ACName account) then Some (EAccountName (ACName account))
      else if bool_decide (key ∈ seen) then Some (EDuplicate (ACName account))
      else
        match bcryptCost (ACPassword account) with
        | None => Some (EHash (ACName account))
        | Some cost =>
            if negb (passwordCost <? 0) && negb (cost =? passwordCost) then Some ECost
            else if (253 <? blen (ACHost account)) || ContainsAny (ACHost account) (str " " ++ [Byte.x00; Byte.x0d; Byte.x0a] ++ str "!@:")
            then Some (EHost (ACName account))
            else validate_accounts ({[key]} ∪ seen) (if passwordCost <? 0 then cost else passwordCost) rest
        end
  end.

Definition sts_policy_bad (port duration : Z) (preload : bool) : bool :=
  (port <? 1) || (65535 <? port) || (duration <? 0) || (preload && (duration =? 0)).

Definition validate_server (s : ServerConfig) : option config_err :=
  if negb (Bool.eqb (seqb (TLSCertFile s) []) (seqb (TLSKeyFile s) [])) then Some ETLSPair
  else
    match validate_accounts ∅ (-1) (SAccounts s) with
    | Some e => Some e
    | None =>
        match SSTS s with
        | None => None
        | Some sts =>
            if sts_policy_bad (Port sts) (Duration sts) (Preload sts) then Some ESTSPolicy
            else if seqb (STLSListen s) [] || seqb (TLSCertFile s) [] || (blen (Hostnames sts) =? 0) then Some ESTSTLS
            else None
        end
    end.

Fixpoint validate_networks (ns : list NetworkBlock) : option config_err :=
  match ns with
  | [] => None
  | n :: rest =>
      if negb (Bool.eqb (seqb (NBSASLUser n) []) (seqb (NBSASLPass n) [])) then Some (ESASLPair (NBName n))
      else if negb (seqb (NBSASLUser n) []) && negb (NBTLS n) then Some (ESASLTLS (NBName n))
      else if negb (seqb (SASLMech n) []) && negb (EqualFold (SASLMech n) (str "PLAIN")) then Some (ESASLMech (NBName n) (SASLMech n))
      else validate_networks rest
  end.

Definition validate (c : FileConfig) : option config_err :=
  match FServer c, FBouncer c with
  | None, None => Some ENoSection
  | _, _ =>
      match (match FServer c with Some s => validate_server s | None => None end) with
      | Some e => Some e
      | None => match FBouncer c with Some b => validate_networks (BNetworks b) | None => None end
      end
  end.

Definition or_default (s d : bytes) : bytes := if seqb s [] then d else s.

Definition server_defaults (s : ServerConfig) : ServerConfig :=
  {| SName := or_default (SName s) (str "irc.local"); SNetwork := or_default (SNetwork s) (str "LocalNet");
     SListen := or_default (SListen s) (str ":6667"); STLSListen := STLSListen s; TLSCertFile := TLSCertFile s;
     TLSKeyFile := TLSKeyFile s; SMOTD := SMOTD s; MaxClients := MaxClients s; SPassword := SPassword s;
     PingInterval := if PingInterval s =? 0 then 90 * second else PingInterval s;
     PingTimeout := if PingTimeout s =? 0 then 30 * second else PingTimeout s;
     SOpers := SOpers s; SAccounts := SAccounts s; SCaps := SCaps s; SSTS := SSTS s |}.

Definition network_defaults (n : NetworkBlock) : NetworkBlock :=
  {| NBName := NBName n; NBServer := NBServer n; NBTLS := NBTLS n; NBNick := or_default (NBNick n) (str "gopher");
     NBUser := or_default (NBUser n) (str "gopher"); NBRealName := or_default (NBRealName n) (str "Gopher via go-irc bouncer");
     NBPassword := NBPassword n; NBSASLUser := NBSASLUser n; NBSASLPass := NBSASLPass n; SASLMech := SASLMech n;
     NBChannels := NBChannels n; NBAutoConnect := NBAutoConnect n |}.

Definition bouncer_defaults (b : BouncerConfig) : BouncerConfig :=
  {| BListen := or_default (BListen b) (str ":6668"); BTLSListen := BTLSListen b; TLSCert := TLSCert b; TLSKey := TLSKey b;
     BUsers := BUsers b; BNetworks := map network_defaults (BNetworks b);
     BHistory := {| Backend := or_default (Backend (BHistory b)) (str "memory"); DSN := DSN (BHistory b);
                    HBLimit := if HBLimit (BHistory b) =? 0 then 500 else HBLimit (BHistory b) |} |}.

Definition applyDefaults (c : FileConfig) : FileConfig :=
  {| FServer := server_defaults <$> FServer c; FBouncer := bouncer_defaults <$> FBouncer c |}.

(** Errors as [os.IsNotExist] sees them: those of package [os], and those that
    [fmt.Errorf] wraps around others, which it does not look into. *)
Inductive go_error := EOs (notExist : bool) | EToml | EConfig (e : config_err) | EWrap (what : bytes) (e : go_error).
Definition IsNotExist (e : go_error) : bool := match e with EOs b => b | _ => false end.

(** [file] is the result of [os.ReadFile], [decode] is [toml.Decode]. *)
Definition Load (file : bool + bytes) (decode : bytes -> option FileConfig) : go_error + FileConfig :=
  match file with
  | inl notExist => inl (EWrap (str "read") (EOs notExist))
  | inr data =>
      match decode data with
      | None => inl (EWrap (str "parse") EToml)
      | Some cfg =>
          match validate cfg with
          | Some e => inl (EWrap (str "validate") (EConfig e))
          | None => inr (applyDefaults cfg)
          end
      end
  end.

(* ------------------------------------------------------------------ *)
(** ** The server and its configuration

    [TLSConfig] holds the certificate, of a type that is not looked into. *)

Record SrvConfig (Cert : Type) := {
  CName : bytes; CNetwork : bytes; CListen : bytes; CTLSListen : bytes; CTLSConfig : option Cert; CMOTD : bytes;
  CMaxClients : Z; CPassword : bytes; COpers : gmap bytes bytes; CAccounts : gmap bytes IrcServer.Account;
  CSTS : option IrcServer.STSConfig; CCaps : list bytes; CPingInterval : Z; CPingTimeout : Z
}.
#[global] Arguments CName {Cert}. #[global] Arguments CNetwork {Cert}. #[global] Arguments CListen {Cert}.
#[global] Arguments CTLSListen {Cert}. #[global] Arguments CTLSConfig {Cert}. #[global] Arguments CMOTD {Cert}.
#[global] Arguments CMaxClients {Cert}. #[global] Arguments CPassword {Cert}. #[global] Arguments COpers {Cert}.
#[global] Arguments CAccounts {Cert}. #[global] Arguments CSTS {Cert}. #[global] Arguments CCaps {Cert}.
#[global] Arguments CPingInterval {Cert}. #[global] Arguments CPingTimeout {Cert}.

(** The fields of [Server] that [New] fills in. *)
Record Srv (Cert : Type) := {
  srv_cfg : SrvConfig Cert; srv_accounts : gmap bytes IrcServer.Account; srv_dummy : bytes
}.
#[global] Arguments srv_cfg {Cert}. #[global] Arguments srv_accounts {Cert}. #[global] Arguments srv_dummy {Cert}.

Section Server.
Context {HI : IterOrder} {Cert : Type}.

Definition setDefaults (c : SrvConfig Cert) : SrvConfig Cert :=
  {| CName := or_default (CName c) (str "irc.local"); CNetwork := or_default (CNetwork c) (str "LocalNet");
     CListen := or_default (CListen c) (str ":6667"); CTLSListen := CTLSListen c; CTLSConfig := CTLSConfig c; CMOTD := CMOTD c;
     CMaxClients := CMaxClients c; CPassword := CPassword c; COpers := COpers c; CAccounts := CAccounts c; CSTS := CSTS c;
     CCaps := CCaps c;
     CPingInterval := if CPingInterval c <=? 0 then 90 * second else CPingInterval c;
     CPingTimeout := if CPingTimeout c <=? 0 then 30 * second else CPingTimeout c |}.

(** One turn of the loop of [New]: the account under its lower-case name, and the cost of
    the last hash that has one. *)
Definition add_account (st : gmap bytes IrcServer.Account * Z) (e : bytes * IrcServer.Account) : gmap bytes IrcServer.Account * Z :=
  let '(accounts, passwordCost) := st in
  let '(name, account) := e in
  let account :=
    if seqb (IrcServer.AName account) []
    then {| IrcServer.AName := name; IrcServer.PasswordHash := IrcServer.PasswordHash account; IrcServer.AHost := IrcServer.AHost account |}
    else account in
  (<[ToLower name := account]> accounts,
   match bcryptCost (IrcServer.PasswordHash account) with Some cost => cost | None => passwordCost end).

Definition New (cfg : SrvConfig Cert) : Srv Cert :=
  let cfg := setDefaults cfg in
  let '(accounts, passwordCost) := fold_left add_account (iter (map_to_list (CAccounts cfg))) (∅, bcryptDefaultCost) in
  {| srv_cfg := cfg; srv_accounts := accounts;
     srv_dummy := if 0 <? Z.of_nat (size accounts) then default [] (bcryptGenerate (str "invalid") passwordCost) else [] |}.

(** The part of it that the handlers read (IrcHandlers.v). *)
Definition handler_config (srv : Srv Cert) : IrcServer.Config :=
  {| IrcServer.Name := CName (srv_cfg srv); IrcServer.Network := CNetwork (srv_cfg srv); IrcServer.MOTD := CMOTD (srv_cfg srv);
     IrcServer.Opers := COpers (srv_cfg srv); IrcServer.accounts := srv_accounts srv;
     IrcServer.dummyPasswordHash := srv_dummy srv; IrcServer.STS := CSTS (srv_cfg srv) |}.

Inductive srv_err := ESTLSListen | ESHash (name : bytes) | ESCost | ESSTSPolicy | ESSTSTLS | ESListen (addr : bytes) | ESTLS (addr : bytes).

Fixpoint check_costs (passwordCost : Z) (l : list (bytes * IrcServer.Account)) : option srv_err :=
  match l with
  | [] => None
  | (name, account) :: rest =>
      match bcryptCost (IrcServer.PasswordHash account) with
      | None => Some (ESHash name)
      | Some cost =>
          if passwordCost <? 0 then check_costs cost rest
          else if negb (cost =? passwordCost) then Some ESCost
          else check_costs passwordCost rest
      end
  end.

Definition validateConfig (srv : Srv Cert) : option srv_err :=
  let cfg := srv_cfg srv in
  if negb (seqb (CTLSListen cfg) []) && is_nil (CTLSConfig cfg) then Some ESTLSListen
  else
    match check_costs (-1) (iter (map_to_list (srv_accounts srv))) with
    | Some e => Some e
    | None =>
        match CSTS cfg with
        | None => None
        | Some sts =>
            if sts_policy_bad (IrcServer.STSPort sts) (IrcServer.STSDuration sts) (IrcServer.STSPreload sts) then Some ESSTSPolicy
            else if seqb (CTLSListen cfg) [] || is_nil (CTLSConfig cfg) || (blen (IrcServer.STSHostnames sts) =? 0)
            then Some ESSTSTLS
            else None
        end
    end.

(** [ListenAndServe] up to the accept loops: the addresses it accepts connections on and
    whether those are secure.  [listen] and [tls_listen] tell which addresses can be bound;
    when the second cannot, the first listener is closed again. *)
Definition ListenAndServe (listen : bytes -> bool) (tls_listen : bytes -> Cert -> bool) (srv : Srv Cert) : srv_err + list (bytes * bool) :=
  match validateConfig srv with
  | Some e => inl e
  | None =>
      let cfg := srv_cfg srv in
      if negb (listen (CListen cfg)) then inl (ESListen (CListen cfg))
      else
        match CTLSConfig cfg with
        | Some c =>
            if negb (seqb (CTLSListen cfg) [])
            then if tls_listen (CTLSListen cfg) c then inr [(CListen cfg, false); (CTLSListen cfg, true)] else inl (ESTLS (CTLSListen cfg))
            else inr [(CListen cfg, false)]
        | None => inr [(CListen cfg, false)]
        end
  end.

(** [ListenRandom]: the address it asks for. *)
Definition ListenRandom (listen : bytes -> bool) (srv : Srv Cert) : srv_err + bytes :=
  match validateConfig srv with
  | Some e => inl e
  | None =>
      let addr := or_default (CListen (srv_cfg srv)) (str "127.0.0.1:0") in
      if listen addr then inr addr else inl (ESListen addr)
  end.

(* ------------------------------------------------------------------ *)
(** ** irc/cmd/ircd *)

(** What a program does: print its version, stop with status 1, or serve. *)
Inductive outcome (A : Type) := ShowVersion | Exit1 | Serve (a : A).
#[global] Arguments ShowVersion {A}. #[global] Arguments Exit1 {A}. #[global] Arguments Serve {A}.

Definition file_account (a : AccountConfig) : IrcServer.Account :=
  {| IrcServer.AName := ACName a; IrcServer.PasswordHash := ACPassword a; IrcServer.AHost := ACHost a |}.

Definition ircd_accounts (l : list AccountConfig) : gmap bytes IrcServer.Account :=
  fold_left (fun m a => <[ACName a := file_account a]> m) l ∅.
Definition ircd_opers (l : list OperConfig) : gmap bytes bytes :=
  fold_left (fun m o => <[OName o := OPassword o]> m) l ∅.

Definition runWithDefaults : SrvConfig Cert :=
  {| CName := str "irc.local"; CNetwork := str "LocalNet"; CListen := str ":6667"; CTLSListen := []; CTLSConfig := None;
     CMOTD := str "Welcome to go-irc!"; CMaxClients := 0; CPassword := []; COpers := ∅; CAccounts := ∅; CSTS := None; CCaps := [];
     CPingInterval := 0; CPingTimeout := 0 |}.

(** [load_pair] is [tls.LoadX509KeyPair]. *)
Definition ircd_config (load_pair : bytes -> bytes -> option Cert) (sc : ServerConfig) : option (SrvConfig Cert) :=
  tlsConfig ← (if seqb (TLSCertFile sc) [] then Some None else Some <$> load_pair (TLSCertFile sc) (TLSKeyFile sc));
  Some {| CName := SName sc; CNetwork := SNetwork sc; CListen := SListen sc; CTLSListen := STLSListen sc; CTLSConfig := tlsConfig;
          CMOTD := SMOTD sc; CMaxClients := MaxClients sc; CPassword := SPassword sc; COpers := ircd_opers (SOpers sc);
          CAccounts := ircd_accounts (SAccounts sc);
          CSTS := (fun t => {| IrcServer.STSPort := Port t; IrcServer.STSDuration := Duration t; IrcServer.STSPreload := Preload t;
                               IrcServer.STSHostnames := Hostnames t |}) <$> SSTS sc;
          CCaps := SCaps sc; CPingInterval := PingInterval sc; CPingTimeout := PingTimeout sc |}.

Definition ircd_main (showVer : bool) (loaded : go_error + FileConfig) (load_pair : bytes -> bytes -> option Cert) : outcome (Srv Cert) :=
  if showVer then ShowVersion
  else
    match loaded with
    | inl e => if IsNotExist e then Serve (New runWithDefaults) else Exit1
    | inr cfg =>
        match FServer cfg with
        | None => Exit1
        | Some sc => match ircd_config load_pair sc with Some c => Serve (New c) | None => Exit1 end
        end
    end.
End Server.

(* ------------------------------------------------------------------ *)
(** ** irc/cmd/ircb *)

Definition ircb_network (n : NetworkBlock) : Bouncer.NetworkConfig :=
  {| NName := NBName n; NServer := NBServer n; NTLS := NBTLS n; NNick := NBNick n; NUser := NBUser n; NRealName := NBRealName n;
     NPassword := NBPassword n; SASLUser := NBSASLUser n; SASLPass := NBSASLPass n; NChannels := NBChannels n;
     AutoConnect := NBAutoConnect n |}.

Definition ircb_config (bc : BouncerConfig) : Bouncer.Config :=
  {| Listen := BListen bc; TLSListen := []; TLSConfig := false;
     Users := map (fun u => {| UName := UBName u; UPassword := UBPassword u |}) (BUsers bc);
     Networks := map ircb_network (BNetworks bc);
     History := {| HBackend := Backend (BHistory bc); HLimit := HBLimit (BHistory bc) |} |}.

(** [ListenAndServe] of the bouncer (irc/bouncer/bouncer.go) up to the accept loops, as for
    the server above; [None] is an error. *)
Definition bouncer_listens (listen tls_listen : bytes -> bool) (g : Bouncer.Config) : option (list (bytes * bool)) :=
  if negb (listen (Listen g)) then None
  else if negb (seqb (TLSListen g) []) && TLSConfig g
  then if tls_listen (TLSListen g) then Some [(Listen g, false); (TLSListen g, true)] else None
  else Some [(Listen g, false)].

Definition ircb_main (showVer : bool) (loaded : go_error + FileConfig) : outcome Bouncer.Config :=
  if showVer then ShowVersion
  else match loaded with
       | inl _ => Exit1
       | inr cfg => match FBouncer cfg with Some bc => Serve (ircb_config bc) | None => Exit1 end
       end.
End Config.

(* ------------------------------------------------------------------ *)
(** ** What validation gives *)

Section Validation.
Context {HU : GoUnicode} {HB : BcryptCost} {HI : IterOrder} {Cert : Type}.

Notation key a := (ToLower (ACName a)).

Lemma validate_accounts_ok l : forall seen pc,
  validate_accounts seen pc l = None ->
  NoDup ((fun a => key a) <$> l) /\ (forall a, a ∈ l -> key a ∉ seen /\ ACName a <> []) /\
  exists c, 0 <= c /\ (0 <= pc -> c = pc) /\ Forall (fun a => bcryptCost (ACPassword a) = Some c) l.
Proof.
  induction l as [|a l IH]; intros seen pc; cbn [validate_accounts].
  { intros _. split; [constructor|]. split; [set_solver|]. exists (Z.max 0 pc). split; [lia|]. split; [lia|constructor]. }
  destruct (account_name_bad (ACName a)) eqn:En; [done|]. case_bool_decide as Hs; [done|].
  destruct (bcryptCost (ACPassword a)) as [cost|] eqn:Ec; [|done]. pose proof (bcryptCost_min _ _ Ec) as Hc.
  destruct (negb (pc <? 0) && negb (cost =? pc)) eqn:Eq; [done|]. destruct ((253 <? _) || _); [done|].
  intros (Hnd & Hin & c & Hc0 & Hcp & Hl)%IH.
  assert (0 <= pc -> cost = pc) as Hpc by (intros; destruct (Z.ltb_spec pc 0), (Z.eqb_spec cost pc); [lia|lia|done|done]).
  assert (c = cost) as -> by (destruct (Z.ltb_spec pc 0); rewrite Hcp; [done|lia|rewrite Hpc; lia|lia]).
  split; [|split].
  - cbn. constructor; [|done]. intros (b & Hb1 & Hb2)%list_elem_of_fmap. destruct (Hin b Hb2) as [Hk _]. set_solver.
  - intros b [->|Hb]%elem_of_cons; [|destruct (Hin b Hb); set_solver]. split; [done|].
    intros E0. by rewrite E0 in En.
  - exists cost. split; [lia|]. split; [done|]. by constructor.
Qed.

Lemma check_costs_ok c l : forall pc,
  (0 <= pc -> pc = c) -> Forall (fun e : bytes * IrcServer.Account => bcryptCost (IrcServer.PasswordHash e.2) = Some c) l ->
  check_costs pc l = None.
Proof.
  induction l as [|[name a] l IH]; intros pc Hp; [done|]. intros [E Hl]%Forall_cons. cbn in E. cbn [check_costs]. rewrite E.
  destruct (Z.ltb_spec pc 0); [by apply IH|]. rewrite (Hp ltac:(lia)), Z.eqb_refl. by apply IH.
Qed.

(** The loop of [New] fills the map and keeps a cost. *)
Lemma add_accounts_map l : forall m pc,
  (fold_left add_account l (m, pc)).1 =
  fold_left (fun m e => <[ToLower e.1 := if seqb (IrcServer.AName e.2) [] then
    {| IrcServer.AName := e.1; IrcServer.PasswordHash := IrcServer.PasswordHash e.2; IrcServer.AHost := IrcServer.AHost e.2 |} else e.2]> m) l m.
Proof. induction l as [|[n a] l IH]; intros m pc; cbn; [done|]. apply IH. Qed.

Lemma add_accounts_cost c l : Forall (fun e : bytes * IrcServer.Account => bcryptCost (IrcServer.PasswordHash e.2) = Some c) l ->
  forall m pc, l <> [] -> (fold_left add_account l (m, pc)).2 = c.
Proof.
  induction 1 as [|[n a] l E Hl IH]; intros m pc Hne; [done|]. cbn in *.
  assert (bcryptCost (IrcServer.PasswordHash (if seqb (IrcServer.AName a) [] then
    {| IrcServer.AName := n; IrcServer.PasswordHash := IrcServer.PasswordHash a; IrcServer.AHost := IrcServer.AHost a |} else a)) = Some c)
    as -> by (by destruct (seqb _ _)).
  destruct l; [done|]. by apply IH.
Qed.

Lemma ircd_accounts_list l : NoDup (ACName <$> l) ->
  map_to_list (ircd_accounts l) ≡ₚ (fun a => (ACName a, file_account a)) <$> l.
Proof.
  intros Hnd. apply NoDup_Permutation; [apply NoDup_map_to_list| |].
  - apply (NoDup_fmap_1 fst). by rewrite <- list_fmap_compose.
  - intros [k v]. rewrite elem_of_map_to_list. unfold ircd_accounts. rewrite fold_insert_lookup by done.
    split; [intros [(a & Ha & <- & <-)|[_ ?]]; [apply list_elem_of_fmap; by exists a|done]|].
    intros (a & [= -> ->] & Ha)%list_elem_of_fmap. left. by exists a.
Qed.

Lemma setDefaults_accounts (c : SrvConfig Cert) : CAccounts (setDefaults c) = CAccounts c.
Proof. done. Qed.

Section Loaded.
Context (load_pair : bytes -> bytes -> option Cert) (sc : ServerConfig) (c : SrvConfig Cert).
Hypothesis Hv : validate_server sc = None.
Hypothesis Hc : ircd_config load_pair sc = Some c.

Lemma loaded_accounts_ok : validate_accounts ∅ (-1) (SAccounts sc) = None.
Proof. unfold validate_server in Hv. destruct (negb _); [done|]. by destruct (validate_accounts _ _ _). Qed.

Lemma loaded_accounts : CAccounts c = ircd_accounts (SAccounts sc).
Proof. unfold ircd_config in Hc. destruct (if seqb _ _ then _ else _); [|done]. by simplify_eq/=. Qed.

(** What [New] walks. *)
Lemma loaded_walk : iter (map_to_list (CAccounts c)) ≡ₚ (fun a => (ACName a, file_account a)) <$> SAccounts sc.
Proof.
  rewrite iter_perm, loaded_accounts. apply ircd_accounts_list. destruct (validate_accounts_ok _ _ _ loaded_accounts_ok) as [Hnd _].
  apply (NoDup_fmap_1 ToLower). by rewrite <- list_fmap_compose.
Qed.

Lemma loaded_lookup k acc : srv_accounts (New c) !! k = Some acc <-> exists a, a ∈ SAccounts sc /\ key a = k /\ file_account a = acc.
Proof.
  destruct (validate_accounts_ok _ _ _ loaded_accounts_ok) as (Hnd & Hin & _).
  unfold New. rewrite setDefaults_accounts.
  pose proof (add_accounts_map (iter (map_to_list (CAccounts c))) ∅ bcryptDefaultCost) as Hm.
  destruct (fold_left _ _ _) as [m pc]. cbn in Hm |- *. subst m.
  assert (NoDup ((fun e : bytes * IrcServer.Account => ToLower e.1) <$> iter (map_to_list (CAccounts c)))) as Hnd'.
  { rewrite loaded_walk, <- list_fmap_compose. done. }
  rewrite (fold_insert_lookup (fun e : bytes * IrcServer.Account => ToLower e.1)) by done.
  split.
  - intros [(e & He & <- & <-)|[_ ?]]; [|done]. rewrite loaded_walk in He. apply list_elem_of_fmap in He as (a & -> & Ha).
    exists a. split; [done|]. split; [done|]. cbn. destruct (seqb_spec (ACName a) []) as [E|]; [|done]. by destruct (Hin a Ha).
  - intros (a & Ha & <- & <-). left. exists (ACName a, file_account a). split; [rewrite loaded_walk; by apply (list_elem_of_fmap_2 (fun a => (ACName a, file_account a)))|].
    split; [done|]. cbn. destruct (seqb_spec (ACName a) []) as [E|]; [|done]. by destruct (Hin a Ha).
Qed.

(** All hashes have one cost, and so has the one that is tried for a name without account. *)
Lemma loaded_costs : exists cost, 0 <= cost /\
  forall k acc, srv_accounts (New c) !! k = Some acc -> bcryptCost (IrcServer.PasswordHash acc) = Some cost.
Proof.
  destruct (validate_accounts_ok _ _ _ loaded_accounts_ok) as (_ & _ & cost & H0 & _ & Hf). exists cost. split; [done|].
  intros k acc (a & Ha & _ & <-)%loaded_lookup. by apply (proj1 (Forall_forall _ _) Hf).
Qed.

Lemma loaded_dummy k acc cost :
  srv_accounts (New c) !! k = Some acc -> bcryptCost (IrcServer.PasswordHash acc) = Some cost ->
  srv_dummy (New c) = default [] (bcryptGenerate (str "invalid") cost).
Proof.
  intros Hk Hcost. destruct (validate_accounts_ok _ _ _ loaded_accounts_ok) as (_ & _ & cost' & _ & _ & Hf).
  pose proof (proj1 (loaded_lookup _ _) Hk) as (a & Ha & _ & <-). pose proof (proj1 (Forall_forall _ _) Hf _ Ha) as E.
  cbn in Hcost. assert (cost' = cost) as -> by congruence. revert Hk. unfold New. rewrite setDefaults_accounts.
  pose proof (add_accounts_cost cost (iter (map_to_list (CAccounts c)))) as Hpc.
  specialize (Hpc ltac:(rewrite loaded_walk; by apply Forall_fmap) ∅ bcryptDefaultCost).
  destruct (fold_left _ _ _) as [m pc]. cbn in *. intros Hk. rewrite Hpc.
  - destruct (Z.ltb_spec 0 (Z.of_nat (size m))) as [|Hs]; [done|]. assert (m = ∅) as -> by (apply map_size_empty_inv; lia). done.
  - intros Hl. pose proof loaded_walk as Hw. rewrite Hl in Hw. apply Permutation_nil_l in Hw. by destruct (SAccounts sc); [set_solver|].
Qed.

Lemma loaded_validate : validateConfig (New c) = if negb (seqb (STLSListen sc) []) && seqb (TLSCertFile sc) [] then Some ESTLSListen else None.
Proof.
  destruct loaded_costs as (cost & H0 & Hcost).
  assert (CTLSListen (srv_cfg (New c)) = STLSListen sc /\ is_nil (CTLSConfig (srv_cfg (New c))) = seqb (TLSCertFile sc) [] /\
    CSTS (srv_cfg (New c)) = (fun t => {| IrcServer.STSPort := Port t; IrcServer.STSDuration := Duration t; IrcServer.STSPreload := Preload t;
                               IrcServer.STSHostnames := Hostnames t |}) <$> SSTS sc) as (E1 & E2 & E3).
  { unfold New. destruct (fold_left _ _ _) as [m pc]. cbn. unfold ircd_config in Hc.
    destruct (seqb (TLSCertFile sc) []); [by simplify_eq/=|]. destruct (load_pair _ _); by simplify_eq/=. }
  unfold validateConfig. rewrite E1, E2, E3, (check_costs_ok cost); [|lia|].
  2: { rewrite iter_perm. apply Forall_forall. intros [k acc] He%elem_of_map_to_list. by eapply Hcost. }
  unfold validate_server in Hv. destruct (negb (Bool.eqb _ _)); [done|]. destruct (validate_accounts _ _ _); [done|].
  destruct (SSTS sc) as [t|]; cbn; [|done]. destruct (sts_policy_bad _ _ _); [done|].
  destruct (seqb (STLSListen sc) []), (seqb (TLSCertFile sc) []); cbn in *; [done|done|done|]. by destruct (blen (Hostnames t) =? 0).
Qed.
End Loaded.

Lemma Load_valid file decode cfg : Load file decode = inr cfg -> exists cfg0, validate cfg0 = None /\ cfg = applyDefaults cfg0.
Proof.
  unfold Load. destruct file as [|data]; [done|]. destruct (decode data) as [cfg0|]; [|done].
  destruct (validate cfg0) eqn:E; [done|]. intros [= <-]. by exists cfg0.
Qed.

(** The defaults change nothing that validation looks at. *)
Lemma validate_defaults s : validate_server (server_defaults s) = validate_server s.
Proof. done. Qed.

Lemma Load_server file decode cfg sc : Load file decode = inr cfg -> FServer cfg = Some sc -> validate_server sc = None.
Proof.
  intros (cfg0 & Hv & ->)%Load_valid Hs. cbn in Hs. unfold validate in Hv. destruct (FServer cfg0) as [s|]; [|done].
  cbn in Hs. simplify_eq. rewrite validate_defaults. by destruct (validate_server s).
Qed.

Lemma Load_networks file decode cfg bc : Load file decode = inr cfg -> FBouncer cfg = Some bc -> validate_networks (BNetworks bc) = None.
Proof.
  intros (cfg0 & Hv & ->)%Load_valid Hs. cbn in Hs. unfold validate in Hv. destruct (FBouncer cfg0) as [b|]; [|done].
  cbn in Hs. simplify_eq. cbn.
  assert (validate_networks (BNetworks b) = None) as Hn.
  { destruct (FServer cfg0) as [s|]; [|done]. by destruct (validate_server s). }
  clear Hv. revert Hn. induction (BNetworks b) as [|n l IH]; [done|]. cbn [validate_networks map]. cbn.
  destruct (negb _); [done|]. destruct (_ && _); [done|]. destruct (_ && _); [done|]. exact IH.
Qed.

Lemma validate_networks_tls ns n : validate_networks ns = None -> n ∈ ns ->
  NBSASLUser n <> [] -> NBTLS n = true /\ NBSASLPass n <> [].
Proof.
  intros Hv Hin Hu. induction Hin as [n ns|n m ns _ IH]; cbn [validate_networks] in Hv.
  - destruct (seqb_spec (NBSASLUser n) []); [done|]. destruct (seqb_spec (NBSASLPass n) []), (NBTLS n); done.
  - destruct (negb _); [done|]. destruct (_ && _); [done|]. destruct (_ && _); [done|]. by apply IH.
Qed.

(** C23. The server that ircd makes of a file that loads: its own validation refuses it
    only for a TLS address without a certificate; its accounts are exactly those of the
    file, each under its lower-case name; and the hash that is checked when a name has no
    account costs as much as every hash of an account, so that a refused login takes as
    long for a name that exists as for one that does not. *)
Theorem ircd_serves_the_file file decode load_pair cfg sc (srv : Srv Cert) :
  Load file decode = inr cfg -> FServer cfg = Some sc -> ircd_main false (inr cfg) load_pair = Serve srv ->
  validateConfig srv = (if negb (seqb (STLSListen sc) []) && seqb (TLSCertFile sc) [] then Some ESTLSListen else None) /\
  (forall k acc, @IrcServer.accounts (handler_config srv) !! k = Some acc <->
    exists a, a ∈ SAccounts sc /\ ToLower (ACName a) = k /\
      acc = {| IrcServer.AName := ACName a; IrcServer.PasswordHash := ACPassword a; IrcServer.AHost := ACHost a |}) /\
  (forall k acc cost h, @IrcServer.accounts (handler_config srv) !! k = Some acc ->
    bcryptCost (IrcServer.PasswordHash acc) = Some cost -> bcryptGenerate (str "invalid") cost = Some h ->
    bcryptCost (@IrcServer.dummyPasswordHash (handler_config srv)) = Some cost).
Proof.
  intros Hl Hs. pose proof (Load_server _ _ _ _ Hl Hs) as Hv. unfold ircd_main. rewrite Hs.
  destruct (ircd_config load_pair sc) as [c|] eqn:Hc; [|done]. intros [= <-].
  split; [by apply (loaded_validate load_pair)|]. split.
  - intros k acc. cbn. rewrite (loaded_lookup load_pair sc) by done.
    split; intros (a & ? & ? & E); exists a; split; try done; by split.
  - intros k acc cost h Hk Hcost Hg. cbn. rewrite (loaded_dummy load_pair sc c Hv Hc k acc cost), Hg by done.
    apply (bcryptGenerate_cost (str "invalid")); [|done]. by apply bcryptCost_min in Hcost.
Qed.

(** A bouncer that ircb makes of a file that loads sends a password by SASL PLAIN only
    over TLS, and never an empty name or password. *)
Theorem ircb_sasl_over_tls file decode cfg g n p :
  Load file decode = inr cfg -> ircb_main false (inr cfg) = Serve g -> n ∈ Networks g -> SASL (upstream_config n) = Some p ->
  TLS (upstream_config n) = true /\ Username p <> [] /\ Password p <> [].
Proof.
  intros Hl. unfold ircb_main. destruct (FBouncer cfg) as [bc|] eqn:Eb; [|done]. intros [= <-]. cbn [Networks ircb_config].
  intros (nb & -> & Hin)%list_elem_of_fmap. pose proof (Load_networks _ _ _ _ Hl Eb) as Hv. cbn.
  destruct (seqb_spec (NBSASLUser nb) []) as [|Hu]; [done|]. intros [= <-]. cbn.
  destruct (validate_networks_tls _ _ Hv Hin Hu). done.
Qed.

(** A file that cannot be loaded stops ircd, a missing one too: [Load] wraps the error,
    which [os.IsNotExist] does not unwrap, so that the built-in defaults are never used. *)
Lemma load_error_exits file decode load_pair e :
  Load file decode = inl e -> ircd_main false (inl e) load_pair = @Exit1 (Srv Cert).
Proof.
  unfold Load. destruct file as [|data]; [by intros [= <-]|]. destruct (decode data); [|by intros [= <-]].
  destruct (validate _); [by intros [= <-]|done].
Qed.

(** [ListenRandom] never takes its own default: [New] has filled in an address. *)
Lemma random_port_unreachable listen (c : SrvConfig Cert) a :
  ListenRandom listen (New c) = inr a -> a = or_default (CListen c) (str ":6667").
Proof.
  unfold ListenRandom. destruct (validateConfig _); [done|].
  assert (CListen (srv_cfg (New c)) = or_default (CListen c) (str ":6667")) as -> by (unfold New; by destruct (fold_left _ _ _)).
  assert (forall s d e, d <> [] -> or_default (or_default s d) e = or_default s d) as Hd.
  { intros s d e Hd. unfold or_default. destruct (seqb_spec s []); [by destruct (seqb_spec d [])|]. by destruct (seqb_spec s []). }
  rewrite Hd by done. by destruct (listen _); intros; simplify_eq.
Qed.

(** The program for the bouncer passes on none of the three TLS settings of its section:
    it listens in plain text only. *)
Lemma ircb_ignores_tls listen tls_listen bc l : bouncer_listens listen tls_listen (ircb_config bc) = Some l -> l = [(BListen bc, false)].
Proof. unfold bouncer_listens. destruct (listen _); cbn [negb Listen TLSListen ircb_config seqb andb]; [by intros [= <-]|intros [=]]. Qed.
End Validation.

(* ------------------------------------------------------------------ *)
(** ** A file *)

#[local] Instance demo_unicode : GoUnicode := ascii_only.
#[local] Instance demo_iter : IterOrder := in_order.

Definition demo_hash (h : bytes) : option Z := if HasPrefix h (str "$2a$10$") then Some 10 else None.
Definition demo_generate (p : bytes) (c : Z) : option bytes := if c =? 10 then Some (str "$2a$10$" ++ p) else None.

Lemma demo_generate_cost p c h : 4 <= c -> demo_generate p c = Some h -> demo_hash h = Some c.
Proof. unfold demo_generate. intros _. destruct (Z.eqb_spec c 10) as [->|]; [|done]. intros E. apply Some_inj in E as <-. unfold demo_hash. by rewrite HasPrefix_app. Qed.
Lemma demo_hash_min h c : demo_hash h = Some c -> 4 <= c.
Proof. unfold demo_hash. destruct (HasPrefix _ _); [intros; simplify_eq; lia|done]. Qed.

#[local] Instance demo_cost : BcryptCost :=
  {| bcryptCost := demo_hash; bcryptGenerate := demo_generate; bcryptCost_min := demo_hash_min; bcryptGenerate_cost := demo_generate_cost |}.

Definition demo_server : ServerConfig :=
  {| SName := []; SNetwork := str "TestNet"; SListen := []; STLSListen := str ":6697"; TLSCertFile := str "cert.pem";
     TLSKeyFile := str "key.pem"; SMOTD := []; MaxClients := 0; SPassword := []; PingInterval := 0; PingTimeout := 0; SOpers := [];
     SAccounts := [{| ACName := str "Alice"; ACPassword := str "$2a$10$a"; ACHost := [] |}; {| ACName := str "bob"; ACPassword := str "$2a$10$b"; ACHost := [] |}];
     SCaps := []; SSTS := Some {| Port := 6697; Duration := 0; Preload := false; Hostnames := [str "irc.test"] |} |}.
Definition demo_bouncer : BouncerConfig :=
  {| BListen := []; BTLSListen := str ":6698"; TLSCert := []; TLSKey := []; BUsers := [];
     BNetworks := [{| NBName := str "net"; NBServer := str "irc.test:6697"; NBTLS := true; NBNick := []; NBUser := []; NBRealName := [];
                      NBPassword := []; NBSASLUser := str "bob"; NBSASLPass := str "sesame"; SASLMech := str "plain"; NBChannels := [];
                      NBAutoConnect := true |}];
     BHistory := {| Backend := []; DSN := []; HBLimit := 0 |} |}.
Definition demo_decode (_ : bytes) : option FileConfig := Some {| FServer := Some demo_server; FBouncer := Some demo_bouncer |}.

Definition demo_cfg : FileConfig := {| FServer := Some (server_defaults demo_server); FBouncer := Some (bouncer_defaults demo_bouncer) |}.
Definition demo_srv : Srv unit :=
  match ircd_main false (inr demo_cfg) (fun _ _ => Some tt) with Serve s => s | _ => New runWithDefaults end.

Lemma ircd_serves_the_file_witness :
  validateConfig demo_srv = None /\
  IrcServer.AName <$> @IrcServer.accounts (handler_config demo_srv) !! str "alice" = Some (str "Alice") /\
  bcryptCost (@IrcServer.dummyPasswordHash (handler_config demo_srv)) = Some 10.
Proof.
  destruct (ircd_serves_the_file (inr []) demo_decode (fun _ _ => Some tt) demo_cfg (server_defaults demo_server) demo_srv) as (H1 & H2 & H3);
    [vm_compute; reflexivity|reflexivity|vm_compute; reflexivity|].
  split; [rewrite H1; reflexivity|]. split.
  - rewrite (proj2 (H2 (str "alice") {| IrcServer.AName := str "Alice"; IrcServer.PasswordHash := str "$2a$10$a"; IrcServer.AHost := [] |})); [|eexists; split; [apply elem_of_cons; left; reflexivity|split; [vm_compute; reflexivity|reflexivity]]].
    reflexivity.
  - apply (H3 (str "bob") {| IrcServer.AName := str "bob"; IrcServer.PasswordHash := str "$2a$10$b"; IrcServer.AHost := [] |} 10 (str "$2a$10$invalid"));
      vm_compute; reflexivity.
Defined.

Lemma ircb_sasl_over_tls_witness :
  exists n p, n ∈ Networks (ircb_config (bouncer_defaults demo_bouncer)) /\ SASL (upstream_config n) = Some p /\
    TLS (upstream_config n) = true /\ Username p <> [] /\ Password p <> [].
Proof.
  eexists _, {| Username := str "bob"; Password := str "sesame"; AuthzID := [] |}.
  split; [apply elem_of_cons; left; reflexivity|]. split; [vm_compute; reflexivity|].
  apply (ircb_sasl_over_tls (inr []) demo_decode demo_cfg (ircb_config (bouncer_defaults demo_bouncer)));
    [vm_compute; reflexivity|reflexivity|apply elem_of_cons; left; reflexivity|vm_compute; reflexivity].
Defined.
