(* ===== verification/IrcWriter.v ===== *)
(** * irc/server/server.go: the output of a session

    Lines for a client are queued by whoever sends to it and written by one goroutine,
    [writerLoop]; [flush] waits until what was queued before it is written.  The parts run
    concurrently: an event is the longest run of one of them that no other can observe
    (what happens under [writeMu], one operation on a channel, one write to the
    connection).  [possible] says when an event can happen and [handle] what it does;
    [None] is a panic, which closing a closed channel is. *)

From S2P Require Import Prelude GoStrings.

Definition maxQueuedOutput : Z := Z.shiftl 16 20.

(** A channel [done] is a number. *)
Record outbound := { line : bytes; done : option nat }.

(** Where [writerLoop] is: in its select, in its inner loop, at an item, or returned
    ([writerDone] is closed). *)
Inductive Loop := Selecting | Draining | Writing (item : outbound) | Returned.
#[export] Instance outbound_eq_dec : EqDecision outbound.
Proof. solve_decision. Defined.
#[export] Instance Loop_eq_dec : EqDecision Loop.
Proof. solve_decision. Defined.

(** The fields of a session that this concerns.  [wakers] counts the callers of [enqueue]
    between its two halves.  The last three are not in the code: the channels made by
    [flush], the lines that [enqueue] took, and for a channel that it took, the lines that
    it had taken before. *)
Record Writer := {
  writeQueue : list outbound;
  writeBytes : Z;
  writeWake : bool;
  stopWriter : bool;
  connClosed : bool;
  closedChans : gset nat;
  wakers : nat;
  loop : Loop;
  out : bytes;
  chans : gset nat;
  taken : list bytes;
  marks : gmap nat (list bytes)
}.

Definition newWriter : Writer :=
  {| writeQueue := []; writeBytes := 0; writeWake := false; stopWriter := false; connClosed := false; closedChans := ∅;
     wakers := 0; loop := Selecting; out := []; chans := ∅; taken := []; marks := ∅ |}.

Definition with_loop (w : Writer) x : Writer :=
  {| writeQueue := writeQueue w; writeBytes := writeBytes w; writeWake := writeWake w; stopWriter := stopWriter w; connClosed := connClosed w;
     closedChans := closedChans w; wakers := wakers w; loop := x; out := out w; chans := chans w; taken := taken w; marks := marks w |}.
Definition with_wake (w : Writer) x n : Writer :=
  {| writeQueue := writeQueue w; writeBytes := writeBytes w; writeWake := x; stopWriter := stopWriter w; connClosed := connClosed w;
     closedChans := closedChans w; wakers := n; loop := loop w; out := out w; chans := chans w; taken := taken w; marks := marks w |}.
Definition with_conn (w : Writer) o c : Writer :=
  {| writeQueue := writeQueue w; writeBytes := writeBytes w; writeWake := writeWake w; stopWriter := stopWriter w; connClosed := c;
     closedChans := closedChans w; wakers := wakers w; loop := loop w; out := o; chans := chans w; taken := taken w; marks := marks w |}.
Definition with_queue (w : Writer) q n : Writer :=
  {| writeQueue := q; writeBytes := n; writeWake := writeWake w; stopWriter := stopWriter w; connClosed := connClosed w;
     closedChans := closedChans w; wakers := wakers w; loop := loop w; out := out w; chans := chans w; taken := taken w; marks := marks w |}.
Definition with_chans (w : Writer) x : Writer :=
  {| writeQueue := writeQueue w; writeBytes := writeBytes w; writeWake := writeWake w; stopWriter := stopWriter w; connClosed := connClosed w;
     closedChans := x; wakers := wakers w; loop := loop w; out := out w; chans := chans w; taken := taken w; marks := marks w |}.
Definition with_stop (w : Writer) : Writer :=
  {| writeQueue := writeQueue w; writeBytes := writeBytes w; writeWake := writeWake w; stopWriter := true; connClosed := connClosed w;
     closedChans := closedChans w; wakers := wakers w; loop := loop w; out := out w; chans := chans w; taken := taken w; marks := marks w |}.
Definition with_made (w : Writer) x : Writer :=
  {| writeQueue := writeQueue w; writeBytes := writeBytes w; writeWake := writeWake w; stopWriter := stopWriter w; connClosed := connClosed w;
     closedChans := closedChans w; wakers := wakers w; loop := loop w; out := out w; chans := x; taken := taken w; marks := marks w |}.
Definition with_taken (w : Writer) x m : Writer :=
  {| writeQueue := writeQueue w; writeBytes := writeBytes w; writeWake := writeWake w; stopWriter := stopWriter w; connClosed := connClosed w;
     closedChans := closedChans w; wakers := wakers w; loop := loop w; out := out w; chans := chans w; taken := x; marks := m |}.

(** [if item.done != nil { close(item.done) }] *)
Definition close_done (w : Writer) (item : outbound) : option Writer :=
  match done item with
  | None => Some w
  | Some d => if bool_decide (d ∈ closedChans w) then None else Some (with_chans w ({[d]} ∪ closedChans w))
  end.

(** [enqueue] up to the end of the critical section, and with it the refusal of an item
    that would not fit. *)
Definition enqueue (item : outbound) (w : Writer) : option Writer :=
  if writeBytes w + blen (line item) >? maxQueuedOutput
  then w ← close_done w item; Some (with_conn w (out w) true)
  else
    let w := with_queue w (writeQueue w ++ [item]) (writeBytes w + blen (line item)) in
    let w := with_taken w (taken w ++ [line item]) (match done item with Some d => <[d := taken w]> (marks w) | None => marks w end) in
    Some (with_wake w (writeWake w) (S (wakers w))).

(** The select at the end of [enqueue]: the channel holds one token. *)
Definition wake (w : Writer) : Writer := with_wake w true (pred (wakers w)).

(** [flush] up to its select: a new channel and an item with it. *)
Definition flush (d : nat) (w : Writer) : option Writer :=
  enqueue {| line := []; done := Some d |} (with_made w ({[d]} ∪ chans w)).

(** Its select: either channel is closed. *)
Definition flushed (d : nat) (w : Writer) : bool := bool_decide (d ∈ closedChans w) || bool_decide (loop w = Returned).

(** One turn of the inner loop under the lock. *)
Definition next (w : Writer) : Writer :=
  match writeQueue w with
  | [] => with_loop w Selecting
  | item :: q => with_loop (with_queue w q (writeBytes w - blen (line item))) (Writing item)
  end.

(** The rest of the turn.  [failed] is [None] for a write that succeeds and the number of
    bytes that left for one that does not; the latter ends the loop. *)
Definition write (item : outbound) (failed : option nat) (w : Writer) : option Writer :=
  match line item, failed with
  | [], _ => w ← close_done w item; Some (with_loop w Draining)
  | _, None => w ← close_done (with_conn w (out w ++ line item) (connClosed w)) item; Some (with_loop w Draining)
  | _, Some k => Some (with_loop (with_conn w (out w ++ take k (line item)) true) Returned)
  end.

Inductive event :=
| ESend (l : bytes) | EFlush (d : nat) | EWaker
| EWake | EStop | ENext | EWrite (failed : option nat)
| ESignal | EClose.

(** A line is not empty; a channel is new; [stopWriter] is closed once, by [handleSession];
    a write to a closed connection fails and writes nothing. *)
Definition possible (e : event) (w : Writer) : Prop :=
  match e with
  | ESend l => l <> []
  | EFlush d => d ∉ chans w
  | EWaker => wakers w <> 0%nat
  | EWake => loop w = Selecting /\ writeWake w = true
  | EStop => loop w = Selecting /\ stopWriter w = true
  | ENext => loop w = Draining
  | EWrite failed => exists item, loop w = Writing item /\ (connClosed w = true -> line item <> [] -> failed = Some 0%nat)
  | ESignal => stopWriter w = false
  | EClose => True
  end.

Definition handle (e : event) (w : Writer) : option Writer :=
  match e with
  | ESend l => enqueue {| line := l; done := None |} w
  | EFlush d => flush d w
  | EWaker => Some (wake w)
  | EWake => Some (with_loop (with_wake w false (wakers w)) Draining)
  | EStop => Some (with_loop w Returned)
  | ENext => Some (next w)
  | EWrite failed => match loop w with Writing item => write item failed w | _ => Some w end
  | ESignal => Some (with_stop w)
  | EClose => Some (with_conn w (out w) true)
  end.

Inductive reachable : Writer -> Prop :=
| reach_new : reachable newWriter
| reach_step w e w' : reachable w -> possible e w -> handle e w = Some w' -> reachable w'.

(* ------------------------------------------------------------------ *)
(** ** The invariant *)

(** The items that have been taken and not finished, the next one first. *)
Definition items (w : Writer) : list outbound := (match loop w with Writing item => [item] | _ => [] end) ++ writeQueue w.
Definition lines (l : list outbound) : bytes := concat (line <$> l).

#[local] Arguments lines : simpl never.
#[local] Arguments items : simpl never.

Record wf (w : Writer) : Prop := {
  wf_bytes : writeBytes w = blen (lines (writeQueue w));
  wf_bound : writeBytes w <= maxQueuedOutput;
  wf_order : loop w <> Returned -> concat (taken w) = out w ++ lines (items w);
  wf_prefix : out w `prefix_of` concat (taken w);
  wf_wake : loop w = Selecting -> writeQueue w <> [] -> writeWake w = true \/ wakers w <> 0%nat;
  wf_nodup : NoDup (omap done (items w));
  wf_pending d : d ∈ omap done (items w) -> d ∈ chans w /\ d ∉ closedChans w;
  wf_closed : closedChans w ⊆ chans w;
  wf_chans d : d ∈ chans w -> d ∈ closedChans w \/ d ∈ omap done (items w) \/ loop w = Returned;
  wf_marks pre item post d t : loop w <> Returned -> items w = pre ++ item :: post -> done item = Some d -> marks w !! d = Some t ->
    concat t = out w ++ lines pre;
  wf_marked d t : marks w !! d = Some t -> d ∈ closedChans w -> concat t `prefix_of` out w;
  wf_kinds item : item ∈ items w -> done item <> None -> line item = []
}.

Lemma lines_app l l' : lines (l ++ l') = lines l ++ lines l'.
Proof. unfold lines. by rewrite fmap_app, concat_app. Qed.
Lemma lines_nil : lines [] = [].
Proof. done. Qed.
Lemma lines_cons i l : lines (i :: l) = line i ++ lines l.
Proof. done. Qed.

Lemma wf_new : wf newWriter.
Proof. split; cbn; try done; try set_solver; try (constructor; fail). Qed.

(** An item is never finished twice. *)
Lemma close_done_ok w item :
  (forall d, done item = Some d -> d ∉ closedChans w) ->
  close_done w item = Some (with_chans w (list_to_set (option_list (done item)) ∪ closedChans w)).
Proof.
  intros H. unfold close_done. destruct (done item) as [d|]; cbn.
  - rewrite bool_decide_false by (by apply H). do 2 f_equal. set_solver.
  - assert (∅ ∪ closedChans w = closedChans w) as -> by set_solver. by destruct w.
Qed.

Lemma last_or_nil {A} (l : list A) : l = [] \/ exists l' x, l = l' ++ [x].
Proof. induction l as [|x l _] using rev_ind; [by left|right; by exists l, x]. Qed.

(** The item of a line, or that of a new channel. *)
Definition fresh (w : Writer) (item : outbound) : Prop :=
  match done item with None => True | Some d => d ∉ chans w /\ line item = [] end.

(** An item that would not fit is a line: nothing but the connection changes. *)
Lemma wf_refused w item :
  wf w -> fresh w item -> writeBytes w + blen (line item) > maxQueuedOutput ->
  exists w', (w0 ← close_done (with_made w (list_to_set (option_list (done item)) ∪ chans w)) item; Some (with_conn w0 (out w0) true)) = Some w' /\ wf w'.
Proof.
  intros Hw Hf Hb. unfold fresh in Hf. destruct (done item) as [d|] eqn:Ed.
  { destruct Hf as [_ El]. assert (blen (line item) = 0) by (by rewrite El). pose proof (wf_bound w Hw). lia. }
  unfold close_done. rewrite Ed. eexists. split; [reflexivity|]. cbn.
  replace (∅ ∪ chans w) with (chans w) by set_solver. destruct Hw. by split.
Qed.

Lemma wf_enqueue w item :
  wf w -> fresh w item ->
  exists w', enqueue item (with_made w (list_to_set (option_list (done item)) ∪ chans w)) = Some w' /\ wf w'.
Proof.
  intros Hw Hf. unfold enqueue. cbn [writeBytes with_made]. destruct (writeBytes w + blen (line item) >? maxQueuedOutput) eqn:Eb.
  - apply wf_refused; [done|done|lia].
  - eexists. split; [reflexivity|]. cbn.
    assert (blen (lines (writeQueue w ++ [item])) = writeBytes w + blen (line item)) as Hlen.
    { rewrite lines_app, lines_cons, lines_nil, app_nil_r, (wf_bytes w Hw). unfold blen. rewrite length_app. lia. }
    set (w' := with_wake _ _ _).
    assert (items w' = items w ++ [item]) as Hi by (unfold items; cbn; by rewrite app_assoc).
    assert (omap done (items w') = omap done (items w) ++ option_list (done item)) as Hd.
    { rewrite Hi, omap_app. cbn. by destruct (done item). }
    assert (forall d, done item = Some d -> d ∉ chans w) as Hn.
    { intros d E. unfold fresh in Hf. rewrite E in Hf. by destruct Hf. }
    split; cbn; rewrite ?Hd, ?Hi.
    + by rewrite Hlen.
    + lia.
    + intros Hl. rewrite concat_app, (wf_order w Hw Hl), lines_app, lines_cons, lines_nil. cbn. by rewrite !app_nil_r, app_assoc.
    + etrans; [apply (wf_prefix w Hw)|]. rewrite concat_app. by apply prefix_app_r.
    + auto.
    + apply NoDup_app. split; [apply (wf_nodup w Hw)|]. split; [|destruct (done item); cbn; [apply NoDup_singleton|constructor]].
      intros d Hin. destruct (wf_pending w Hw d Hin). destruct (done item) as [d'|] eqn:E; cbn; [|set_solver].
      intros ->%list_elem_of_singleton. by apply (Hn d').
    + intros d [Hin|Hin]%elem_of_app; [destruct (wf_pending w Hw d Hin); set_solver|].
      destruct (done item) as [d'|] eqn:E; [|set_solver]. apply list_elem_of_singleton in Hin as ->.
      split; [set_solver|]. intros Hc. apply (Hn d' eq_refl). by apply (wf_closed w Hw).
    + pose proof (wf_closed w Hw). set_solver.
    + intros d [Hin|Hin]%elem_of_union; [right; left; set_solver|]. pose proof (wf_chans w Hw d Hin). set_solver.
    + intros pre it post d t Hl E Hd' Ht.
      destruct (last_or_nil post) as [->|(post' & l & ->)].
      * apply app_inj_tail in E as [<- <-]. rewrite Hd', lookup_insert_eq in Ht. simplify_eq. by apply wf_order.
      * rewrite app_comm_cons, app_assoc in E. apply app_inj_tail in E as [E <-].
        assert (d ∈ chans w) as Hin.
        { apply (wf_pending w Hw). rewrite E, list_elem_of_omap. exists it. set_solver. }
        apply (wf_marks w Hw _ _ _ _ _ Hl E Hd'). destruct (done item) as [d'|] eqn:Ei; [|done].
        rewrite lookup_insert_ne in Ht; [done|]. intros ->. by apply (Hn d).
    + intros d t Ht Hc. apply (wf_marked w Hw d); [|done]. destruct (done item) as [d'|] eqn:Ei; [|done].
      rewrite lookup_insert_ne in Ht; [done|]. intros ->. apply (Hn d eq_refl). by apply (wf_closed w Hw).
    + intros it [Hin|Hin]%elem_of_app Hd'; [by apply (wf_kinds w Hw)|]. apply list_elem_of_singleton in Hin as ->.
      unfold fresh in Hf. by destruct (done item); [destruct Hf|].
Qed.

(** An event that changes neither the items nor what has left. *)
Lemma wf_quiet w w' :
  wf w -> writeQueue w' = writeQueue w -> writeBytes w' = writeBytes w -> items w' = items w -> out w' = out w ->
  closedChans w' = closedChans w -> chans w' = chans w -> taken w' = taken w -> marks w' = marks w ->
  (loop w = Returned -> loop w' = Returned) ->
  (loop w' = Selecting -> writeQueue w <> [] -> writeWake w' = true \/ wakers w' <> 0%nat) ->
  wf w'.
Proof.
  intros [] E1 E2 E3 E4 E5 E6 E7 E8 E9 E10. split; rewrite ?E1, ?E2, ?E3, ?E4, ?E5, ?E6, ?E7, ?E8; try done; auto; try naive_solver.
Qed.

Lemma wf_next w : wf w -> loop w = Draining -> wf (next w).
Proof.
  intros Hw Hl. unfold next. destruct (writeQueue w) as [|item q] eqn:Eq.
  - apply (wf_quiet w); try done; [unfold items; cbn; by rewrite Hl|]. cbn. by rewrite Hl.
  - set (w' := with_loop _ _). assert (items w' = items w) as Hi by (unfold items; cbn; by rewrite Hl, Eq).
    destruct Hw as [Hb Hm Ho Hp Hk Hn Hpe Hc Hch Hma Hmd Hki]. rewrite Eq, lines_cons in Hb.
    split; rewrite ?Hi; try done; cbn.
    + unfold blen in *. rewrite length_app in Hb. lia.
    + unfold blen in *. lia.
    + intros _. apply Ho. by rewrite Hl.
    + intros d [?|[?|?]]%Hch; [by left|by right; left|]. by rewrite Hl in *.
    + intros pre it post d t _. apply Hma. by rewrite Hl.
Qed.

(** The end of an item. *)
Lemma wf_finish w item c :
  wf w -> loop w = Writing item ->
  exists w', (w0 ← close_done (with_conn w (out w ++ line item) c) item; Some (with_loop w0 Draining)) = Some w' /\ wf w'.
Proof.
  intros Hw Hl.
  assert (items w = item :: writeQueue w) as Hi by (unfold items; by rewrite Hl).
  assert (forall d, done item = Some d -> d ∉ closedChans w /\ d ∉ omap done (writeQueue w)) as Hn.
  { intros d E. destruct (wf_pending w Hw d) as [_ ?]; [rewrite Hi; cbn; rewrite E; set_solver|]. split; [done|].
    pose proof (wf_nodup w Hw) as Hnd. rewrite Hi in Hnd. cbn in Hnd. rewrite E in Hnd. by apply NoDup_cons in Hnd as [? _]. }
  rewrite close_done_ok by (intros d E; by apply Hn). eexists. split; [reflexivity|].
  set (w' := with_loop _ _). assert (items w' = writeQueue w) as Hi' by done.
  assert (done item <> None -> line item = []) as Hd by (apply (wf_kinds w Hw); rewrite Hi; set_solver).
  destruct Hw as [Hb Hm Ho Hp Hk Hnd Hpe Hc Hch Hma Hmd Hki]. rewrite Hi in *. specialize (Ho ltac:(by rewrite Hl)).
  assert (forall d, d ∈ omap done (writeQueue w) -> d ∈ omap done (item :: writeQueue w)) as Hsub.
  { intros d Hin. cbn. destruct (done item); set_solver. }
  split; rewrite ?Hi'; try done; cbn.
  - intros _. rewrite Ho, lines_cons. by rewrite app_assoc.
  - rewrite Ho, lines_cons, app_assoc. by apply prefix_app_r.
  - cbn in Hnd. destruct (done item); [by apply NoDup_cons in Hnd as [_ ?]|done].
  - intros d Hin. destruct (Hpe d (Hsub d Hin)). split; [done|]. destruct (done item) as [d'|] eqn:E; cbn; [|set_solver].
    destruct (Hn d' eq_refl). set_solver.
  - assert (forall d, done item = Some d -> d ∈ chans w) as Hdc.
    { intros d E. apply Hpe. cbn. rewrite E. set_solver. }
    destruct (done item) as [d'|]; cbn; set_solver.
  - intros d Hin. destruct (Hch d Hin) as [?|[Hp'|?]]; [left; set_solver| |by rewrite Hl in *].
    cbn in Hp'. destruct (done item) as [d'|]; [|by right; left]. apply elem_of_cons in Hp' as [->|?]; [left; set_solver|by right; left].
  - intros pre it post d t _ E Hdi Ht.
    rewrite (Hma (item :: pre) it post d t); [by rewrite lines_cons, app_assoc|by rewrite Hl|by rewrite E|done|done].
  - intros d t Ht Hin. destruct (decide (d ∈ closedChans w)) as [Hcl|Hcl]; [etrans; [by apply (Hmd d)|by apply prefix_app_r]|].
    destruct (done item) as [d'|] eqn:E; cbn in Hin; [|set_solver]. assert (d = d') as -> by set_solver.
    rewrite (Hma [] item (writeQueue w) d' t); [|by rewrite Hl|done|done|done]. rewrite Hd by done. by rewrite lines_nil.
  - intros it Hin. apply Hki. set_solver.
Qed.

Lemma wf_write w item failed :
  wf w -> loop w = Writing item -> exists w', write item failed w = Some w' /\ wf w'.
Proof.
  intros Hw Hl. unfold write. destruct (line item) as [|b l] eqn:El.
  - destruct (wf_finish w item (connClosed w) Hw Hl) as (w' & E & Hw'). rewrite El, app_nil_r in E.
    exists w'. split; [|done]. rewrite <- E. by destruct w.
  - rewrite <- El. destruct failed as [k|]; [|by apply wf_finish]. eexists. split; [reflexivity|].
    assert (items w = item :: writeQueue w) as Hi by (unfold items; by rewrite Hl).
    assert (done item = None) as Hd.
    { destruct (done item) eqn:E; [|done]. rewrite (wf_kinds w Hw item) in El; [done|rewrite Hi; set_solver|by rewrite E]. }
    set (w' := with_loop _ _). assert (items w' = writeQueue w) as Hi' by done.
    destruct Hw as [Hb Hm Ho Hp Hk Hnd Hpe Hc Hch Hma Hmd Hki]. rewrite Hi in *. specialize (Ho ltac:(by rewrite Hl)).
    cbn in Hnd, Hpe, Hch. rewrite Hd in Hnd, Hpe, Hch. rewrite lines_cons in Ho.
    split; rewrite ?Hi'; try done; cbn.
    + rewrite Ho. apply prefix_app. apply prefix_app_r. apply prefix_take.
    + intros d [?|[?|?]]%Hch; auto.
    + intros d t Ht Hin. etrans; [by apply (Hmd d)|by apply prefix_app_r].
    + intros it Hin. apply Hki. set_solver.
Qed.

Lemma writer_wf_handle w e : wf w -> possible e w -> exists w', handle e w = Some w' /\ wf w'.
Proof.
  intros Hw Hp. destruct e as [l|d| | | | |failed| |]; cbn in *.
  - destruct (wf_enqueue w {| line := l; done := None |} Hw) as (w' & E & Hw'); [done|]. exists w'. split; [|done]. rewrite <- E. cbn.
    replace (∅ ∪ chans w) with (chans w) by set_solver. by destruct w.
  - destruct (wf_enqueue w {| line := []; done := Some d |} Hw) as (w' & E & Hw'); [by split|]. exists w'. split; [|done]. rewrite <- E.
    unfold flush. do 2 f_equal. cbn. set_solver.
  - eexists. split; [reflexivity|]. apply (wf_quiet w); try done. cbn. auto.
  - destruct Hp as [Hl Hk]. eexists. split; [reflexivity|]. apply (wf_quiet w); try done; [unfold items; cbn; by rewrite Hl|by rewrite Hl].
  - destruct Hp as [Hl Hk]. eexists. split; [reflexivity|]. apply (wf_quiet w); try done. unfold items. cbn. by rewrite Hl.
  - eexists. split; [reflexivity|]. by apply wf_next.
  - destruct Hp as (item & Hl & _). rewrite Hl. by apply wf_write.
  - eexists. split; [reflexivity|]. apply (wf_quiet w); try done. exact (wf_wake w Hw).
  - eexists. split; [reflexivity|]. apply (wf_quiet w); try done. exact (wf_wake w Hw).
Qed.

Lemma writer_wf w : reachable w -> wf w.
Proof.
  induction 1 as [|w e w' _ IH Hp E]; [apply wf_new|]. destruct (writer_wf_handle w e IH Hp) as (w'' & E' & Hw'). by simplify_eq.
Qed.

(* ------------------------------------------------------------------ *)
(** ** What the output promises *)

Inductive steps : Writer -> Writer -> Prop :=
| steps_refl w : steps w w
| steps_step w w1 e w' : steps w w1 -> possible e w1 -> handle e w1 = Some w' -> steps w w'.

Lemma steps_reachable w w' : reachable w -> steps w w' -> reachable w'.
Proof. intros Hr. induction 1 as [|w w1 e w' _ IH Hp E]; [done|]. by eapply reach_step; [apply IH| |]. Qed.

(** How an event changes what is remembered: channels stay closed, the loop stays ended,
    and the mark of a channel is not overwritten. *)
Lemma close_done_shape w item w' : close_done w item = Some w' ->
  loop w' = loop w /\ marks w' = marks w /\ chans w' = chans w /\ closedChans w ⊆ closedChans w' /\ taken w' = taken w.
Proof.
  unfold close_done. destruct (done item) as [d|]; [|by intros [= <-]]. case_bool_decide; [done|]. intros [= <-]. cbn.
  repeat split; set_solver.
Qed.

Lemma enqueue_shape item w w' : enqueue item w = Some w' ->
  loop w' = loop w /\ chans w' = chans w /\ closedChans w ⊆ closedChans w' /\
  (forall d t, done item <> Some d -> marks w !! d = Some t -> marks w' !! d = Some t).
Proof.
  unfold enqueue. destruct (_ >? _).
  - destruct (close_done w item) as [w1|] eqn:E; [|done]. intros [= <-]. apply close_done_shape in E as (H1 & H2 & H3 & H4 & H5). cbn.
    repeat split; try done. intros d t _. by rewrite H2.
  - intros [= <-]. cbn. repeat split; try done. intros d t Hd Ht. destruct (done item) as [d'|]; [|done].
    rewrite lookup_insert_ne; [done|]. intros ->. done.
Qed.

Lemma handle_shape w e w' : possible e w -> handle e w = Some w' ->
  (loop w = Returned -> loop w' = Returned) /\ chans w ⊆ chans w' /\ closedChans w ⊆ closedChans w' /\
  (forall d t, d ∈ chans w -> marks w !! d = Some t -> marks w' !! d = Some t).
Proof.
  intros Hp He. destruct e as [l|d| | | | |failed| |]; cbn in *.
  1: apply enqueue_shape in He as (H1 & H2 & H3 & H4); rewrite H1, H2; repeat split; try done; intros d t _; by apply H4.
  1: { apply enqueue_shape in He as (H1 & H2 & H3 & H4). cbn in *. rewrite H1, H2. repeat split; [done|set_solver|done|].
       intros d' t Hd'. apply H4. by intros [= ->]. }
  all: try (simplify_eq; cbn; repeat split; naive_solver).
  - destruct Hp as [Hl _]. simplify_eq. cbn. by rewrite Hl.
  - simplify_eq. unfold next. by destruct (writeQueue w); rewrite Hp.
  - destruct Hp as (item & Hl & _). rewrite Hl in *. unfold write in He. split; [done|].
    destruct (line item); [|destruct failed].
    + destruct (close_done w item) as [w1|] eqn:E; [|done]. apply close_done_shape in E as (_ & H2 & H3 & H4 & _). simplify_eq/=.
      rewrite H2, H3. by repeat split.
    + by simplify_eq/=.
    + destruct (close_done _ item) as [w1|] eqn:E; [|done]. apply close_done_shape in E as (_ & H2 & H3 & H4 & _). simplify_eq/=.
      rewrite H2, H3. by repeat split.
Qed.

Lemma steps_mark w w' d t : steps w w' -> d ∈ chans w -> marks w !! d = Some t -> d ∈ chans w' /\ marks w' !! d = Some t.
Proof.
  induction 1 as [|w w1 e w' _ IH Hp E]; [done|]. intros Hd Ht. destruct (IH Hd Ht) as [Hd1 Ht1].
  destruct (handle_shape _ _ _ Hp E) as (_ & Hc & _ & Hm). split; [set_solver|]. by apply Hm.
Qed.

Lemma flush_mark w d : wf w -> d ∉ chans w -> exists w1, flush d w = Some w1 /\ d ∈ chans w1 /\ marks w1 !! d = Some (taken w).
Proof.
  intros Hw Hd. unfold flush, enqueue. cbn. destruct (writeBytes w + blen [] >? maxQueuedOutput) eqn:Eb.
  { pose proof (wf_bound w Hw). change (blen (@nil byte)) with 0 in Eb. lia. }
  eexists. split; [reflexivity|]. cbn. split; [set_solver|]. by rewrite lookup_insert_eq.
Qed.

(** The goroutines involved left to themselves: the callers of [enqueue] finish, then the
    loop runs.  [c] decides what Go or the network would: which ready case the select
    takes, and whether a write works. *)
Definition turn (c : bool * option nat) (w : Writer) : option event :=
  match wakers w with
  | S _ => Some EWaker
  | O =>
      match loop w with
      | Selecting =>
          if stopWriter w && (c.1 || negb (writeWake w)) then Some EStop
          else if writeWake w then Some EWake else None
      | Draining => Some ENext
      | Writing _ => Some (EWrite (if connClosed w then Some 0%nat else c.2))
      | Returned => None
      end
  end.

Fixpoint run (cs : list (bool * option nat)) (w : Writer) : option Writer :=
  match cs with
  | [] => Some w
  | c :: cs => match turn c w with Some e => w ← handle e w; run cs w | None => Some w end
  end.

Lemma turn_possible c w e : turn c w = Some e -> possible e w.
Proof.
  unfold turn. destruct (wakers w) eqn:Ew; [|intros [= <-]; cbn; lia]. destruct (loop w) eqn:El; cbn.
  - destruct (stopWriter w) eqn:Es, (writeWake w) eqn:Ek, c.1; cbn; intros; by simplify_eq/=.
  - by intros [= <-].
  - intros [= <-]. cbn. eexists. split; [done|]. by intros ->.
  - done.
Qed.

(** What is left to do before the queue is empty. *)
Definition todo (w : Writer) : nat :=
  wakers w + match loop w with
             | Selecting => match writeQueue w with [] => 0 | _ => 2 * length (writeQueue w) + 2 end
             | Draining => 2 * length (writeQueue w) + 1
             | Writing _ => 2 * length (writeQueue w) + 2
             | Returned => 0
             end.

Lemma turn_progress c w d : wf w -> d ∈ chans w -> flushed d w = false ->
  exists e w', turn c w = Some e /\ handle e w = Some w' /\ (todo w' < todo w)%nat.
Proof.
  unfold flushed. intros Hw Hd [Hc Hl]%orb_false_iff. apply bool_decide_eq_false in Hc, Hl.
  unfold turn, todo. destruct (wakers w) eqn:Ew; [|eexists _, _; repeat split; cbn; rewrite Ew; cbn; lia].
  destruct (loop w) as [| |item|] eqn:El; [| | |done].
  - assert (writeQueue w <> []) as Hq.
    { intros Hq. destruct (wf_chans w Hw d Hd) as [?|[Hin|?]]; [done| |congruence]. unfold items in Hin. rewrite El, Hq in Hin. set_solver. }
    destruct (wf_wake w Hw El Hq) as [Hk|Hk]; [|done]. rewrite Hk.
    destruct (stopWriter w && (c.1 || negb true)); eexists _, _; (split; [reflexivity|]); (split; [reflexivity|]); cbn; rewrite Ew;
      destruct (writeQueue w); cbn; try done; lia.
  - eexists _, _. split; [reflexivity|]. split; [reflexivity|]. unfold next. destruct (writeQueue w) eqn:Eq; cbn; rewrite ?Ew, ?Eq; cbn; lia.
  - eexists (EWrite _). cbn. rewrite El. destruct (wf_write w item (if connClosed w then Some 0%nat else c.2) Hw El) as (w' & E & _).
    exists w'. split; [reflexivity|]. split; [done|]. unfold write in E.
    assert (forall w0 w1, wakers w0 = 0%nat -> writeQueue w0 = writeQueue w -> close_done w0 item = Some w1 ->
      wakers w1 = 0%nat /\ writeQueue w1 = writeQueue w) as Hs.
    { intros w0 w1 H1 H2. unfold close_done. destruct (done item); [case_bool_decide; [done|]|]; intros [= <-]; by split. }
    destruct (line item) as [|]; [|destruct (if connClosed w then _ else _)].
    + destruct (close_done w item) as [w1|] eqn:E1; [|done]. destruct (Hs _ _ Ew eq_refl E1) as [H1 H2]. simplify_eq/=. rewrite H1, H2. lia.
    + simplify_eq/=. lia.
    + destruct (close_done _ item) as [w1|] eqn:E1; [|done]. destruct (Hs (with_conn w _ _) _ Ew eq_refl E1) as [H1 H2]. simplify_eq/=. rewrite H1, H2. lia.
Qed.

Lemma flushed_run cs d : forall w, wf w -> flushed d w = true -> exists w', run cs w = Some w' /\ flushed d w' = true.
Proof.
  induction cs as [|c cs IH]; intros w Hw Hf; cbn; [by exists w|]. destruct (turn c w) as [e|] eqn:Et; [|by exists w].
  apply turn_possible in Et as Hp. destruct (writer_wf_handle w e Hw Hp) as (w' & E & Hw'). rewrite E. cbn. apply IH; [done|].
  destruct (handle_shape _ _ _ Hp E) as (H1 & _ & H2 & _). unfold flushed in *.
  apply orb_true_iff in Hf as [Hf%bool_decide_eq_true|Hf%bool_decide_eq_true]; apply orb_true_iff.
  - left. apply bool_decide_eq_true. set_solver.
  - right. apply bool_decide_eq_true. auto.
Qed.

Lemma run_flushes cs d : forall w, wf w -> d ∈ chans w -> (todo w <= length cs)%nat ->
  exists w', run cs w = Some w' /\ flushed d w' = true.
Proof.
  induction cs as [|c cs IH]; intros w Hw Hd Hm; (destruct (flushed d w) eqn:Ef; [by apply flushed_run|]);
    destruct (turn_progress (false, None) w d Hw Hd Ef) as (e & w' & _ & _ & Ht0); [cbn in Hm; lia|].
  clear e w' Ht0. destruct (turn_progress c w d Hw Hd Ef) as (e & w' & Et & E & Ht). cbn. rewrite Et, E. cbn.
  apply turn_possible in Et. destruct (writer_wf_handle w e Hw Et) as (w'' & E' & Hw'). simplify_eq.
  destruct (handle_shape _ _ _ Et E) as (_ & Hs & _). apply IH; [done|set_solver|cbn in Hm; lia].
Qed.

(** C22. The queue of a session.  In every state that its goroutines can reach: no event
    panics; the bytes counted are those queued and never more than [maxQueuedOutput]; the
    client has received a prefix of the lines accepted for it, in their order, and while
    the writer runs the rest is at hand; and the writer never sleeps on a queue that is
    not empty unless its wake-up is on the way. *)
Theorem output_queue w : reachable w ->
  (forall e, possible e w -> handle e w <> None) /\
  writeBytes w = blen (concat (line <$> writeQueue w)) /\ writeBytes w <= maxQueuedOutput /\
  out w `prefix_of` concat (taken w) /\
  (loop w <> Returned -> concat (taken w) = out w ++ lines (items w)) /\
  (loop w = Selecting -> writeQueue w <> [] -> writeWake w = true \/ wakers w <> 0%nat).
Proof.
  intros Hw%writer_wf. split; [|split; [apply (wf_bytes w Hw)|]].
  - intros e Hp. by destruct (writer_wf_handle w e Hw Hp) as (w' & -> & _).
  - split; [apply (wf_bound w Hw)|]. split; [apply (wf_prefix w Hw)|]. split; [apply (wf_order w Hw)|apply (wf_wake w Hw)].
Qed.

(** What [flush] is for: when its channel is closed, every line accepted before it has
    been written to the connection. *)
Theorem flush_waits_for_output w w1 w2 d :
  reachable w -> possible (EFlush d) w -> handle (EFlush d) w = Some w1 -> steps w1 w2 -> d ∈ closedChans w2 ->
  concat (taken w) `prefix_of` out w2.
Proof.
  intros Hr Hp He Hs Hc. destruct (flush_mark w d (writer_wf w Hr) Hp) as (w1' & E & Hd & Ht). cbn in He. simplify_eq.
  destruct (steps_mark _ _ _ _ Hs Hd Ht) as [_ Ht2].
  assert (reachable w2) as Hr2 by (eapply steps_reachable; [|done]; by eapply reach_step).
  by apply (wf_marked w2 (writer_wf w2 Hr2) d).
Qed.

(** [flush] always returns: whatever the select chooses and whether or not the writes
    work, its channel or [writerDone] is closed after so many steps of the goroutines
    involved as the queue needs. *)
Theorem flush_returns w w1 d cs :
  reachable w -> possible (EFlush d) w -> handle (EFlush d) w = Some w1 ->
  (wakers w1 + 2 * length (writeQueue w1) + 2 <= length cs)%nat ->
  exists w2, run cs w1 = Some w2 /\ flushed d w2 = true.
Proof.
  intros Hr Hp He Hn. destruct (flush_mark w d (writer_wf w Hr) Hp) as (w1' & E & Hd & _). cbn in He. simplify_eq.
  apply run_flushes; [apply writer_wf; by eapply reach_step|done|].
  unfold todo. destruct (loop w1); try lia. destruct (writeQueue w1); cbn in *; lia.
Qed.

(* ------------------------------------------------------------------ *)
(** ** A run: two lines, a flush, and the writer *)

Definition possibleb (e : event) (w : Writer) : bool :=
  match e with
  | ESend l => negb (seqb l [])
  | EFlush d => bool_decide (d ∉ chans w)
  | EWaker => bool_decide (wakers w <> 0%nat)
  | EWake => bool_decide (loop w = Selecting) && writeWake w
  | EStop => bool_decide (loop w = Selecting) && stopWriter w
  | ENext => bool_decide (loop w = Draining)
  | EWrite failed => match loop w with Writing item => negb (connClosed w) || seqb (line item) [] || bool_decide (failed = Some 0%nat) | _ => false end
  | ESignal => negb (stopWriter w)
  | EClose => true
  end.

Lemma possibleb_sound e w : possibleb e w = true -> possible e w.
Proof.
  destruct e as [l|d| | | | |failed| |]; cbn; try (intros H; by apply bool_decide_eq_true in H).
  - by destruct (seqb_spec l []).
  - intros [?%bool_decide_eq_true ?]%andb_true_iff. done.
  - intros [?%bool_decide_eq_true ?]%andb_true_iff. done.
  - destruct (loop w) as [| |item|]; try done. intros H. exists item. split; [done|]. intros Hc Hl. rewrite Hc in H. cbn in H.
    destruct (seqb_spec (line item) []); [done|]. by apply bool_decide_eq_true in H.
  - by destruct (stopWriter w).
  - done.
Qed.

Fixpoint go (es : list event) (w : Writer) : option Writer :=
  match es with [] => Some w | e :: es => if possibleb e w then w ← handle e w; go es w else None end.

Lemma writer_go_steps es w0 : forall w w', steps w0 w -> go es w = Some w' -> steps w0 w'.
Proof.
  induction es as [|e es IH]; intros w w' Hs; cbn; [by intros [= <-]|]. destruct (possibleb e w) eqn:Ep; [|done].
  destruct (handle e w) as [w1|] eqn:E; [|done]. cbn. apply IH. eapply steps_step; [done|by apply possibleb_sound|done].
Qed.

Lemma writer_go_reachable es w : go es newWriter = Some w -> reachable w.
Proof. intros E. apply (steps_reachable newWriter); [constructor|]. eapply writer_go_steps; [constructor|done]. Qed.

Definition two_lines : Writer := default newWriter (go [ESend (str "a"); EWaker; ESend (str "b")] newWriter).
Definition flush_sent : Writer := default newWriter (go [EFlush 0] two_lines).
Definition drained : Writer :=
  default newWriter (go [EWaker; EWaker; EWake; ENext; EWrite None; ENext; EWrite None; ENext; EWrite None] flush_sent).

Lemma two_lines_reachable : reachable two_lines.
Proof. by apply (writer_go_reachable [ESend (str "a"); EWaker; ESend (str "b")]). Qed.

Lemma output_queue_witness : concat (taken two_lines) = out two_lines ++ lines (items two_lines).
Proof. apply (output_queue two_lines two_lines_reachable). discriminate. Defined.

Lemma flush_waits_for_output_witness : str "ab" `prefix_of` out drained.
Proof.
  apply (flush_waits_for_output two_lines flush_sent drained 0); [exact two_lines_reachable|by apply possibleb_sound|vm_compute; reflexivity| |].
  - apply (writer_go_steps [EWaker; EWaker; EWake; ENext; EWrite None; ENext; EWrite None; ENext; EWrite None] flush_sent flush_sent); [constructor|vm_compute; reflexivity].
  - apply (bool_decide_eq_true_1 (0%nat ∈ closedChans drained)). vm_compute. reflexivity.
Defined.

Lemma flush_returns_witness : exists w2, run (replicate 12 (false, Some 0%nat)) flush_sent = Some w2 /\ flushed 0 w2 = true.
Proof.
  apply (flush_returns two_lines flush_sent 0); [exact two_lines_reachable|by apply possibleb_sound|vm_compute; reflexivity|vm_compute; lia].
Defined.

(** Without a flush the end of a session loses lines: [handleSession] signals the writer
    to stop, and the select may prefer that to the wake-up that is also ready. *)
Lemma stop_drops_lines : exists w, reachable w /\ loop w = Returned /\ out w = [] /\ taken w = [str "a"] /\ connClosed w = false.
Proof.
  exists (default newWriter (go [ESend (str "a"); EWaker; ESignal; EStop] newWriter)).
  split; [by apply (writer_go_reachable [ESend (str "a"); EWaker; ESignal; EStop])|]. by vm_compute.
Qed.
