(* ===== verification/IrcOutput.v ===== *)
(** * irc/server: the goroutines that send, and the output of all sessions

    [handleSession] runs on a goroutine per session, and a command handled on one sends to
    any of the others.  What such a goroutine does to the outputs of sessions is a list of
    actions; [writerMu] is held from the first line of one [Send] or [sendPrepared] to its
    last.  The actions of the goroutines and the events of the writers (IrcWriter.v)
    interleave in any order. *)

From S2P Require Import Prelude GoStrings IrcWriter.

Inductive action :=
| APut (j : nat) (ls : list bytes)   (* [Send], [sendPrepared]: not yet at [writerMu.Lock] *)
| AEnq (j : nat) (ls : list bytes)   (* the lines still to be queued under the lock *)
| AFlush (j : nat)
| AWait (j d : nat)                  (* in the select of [flush] *)
| AClose (j : nat)                   (* [conn.Close] *)
| AStop (j : nat)                    (* [close(s.stopWriter)] *)
| AJoin (j : nat).                   (* [<-s.writerDone] *)
#[export] Instance action_eq_dec : EqDecision action.
Proof. solve_decision. Defined.

(** One [Send] or [sendPrepared]: by which goroutine, to which session, what. *)
Definition group : Type := nat * (nat * list bytes).

(** The first three are the state.  [over] are the sessions whose [handleSession] has left
    its loop.  [given] and [log] are not in the code: all groups of the goroutines in the
    order in which they came up, and in the order in which they took the lock. *)
Record Output := {
  writers : gmap nat Writer;
  writerMu : gmap nat nat;
  tasks : gmap nat (list action);
  over : gset nat;
  given : list group;
  log : list group
}.

Definition newOutput : Output := {| writers := ∅; writerMu := ∅; tasks := ∅; over := ∅; given := []; log := [] |}.

Definition writer (o : Output) (j : nat) : Writer := default newWriter (writers o !! j).
Definition task (o : Output) (t : nat) : list action := default [] (tasks o !! t).

Definition set_writer (j : nat) (w : Writer) (o : Output) : Output :=
  {| writers := <[j := w]> (writers o); writerMu := writerMu o; tasks := tasks o; over := over o; given := given o; log := log o |}.
Definition set_task (t : nat) (acts : list action) (o : Output) : Output :=
  {| writers := writers o; writerMu := writerMu o; tasks := <[t := acts]> (tasks o); over := over o; given := given o; log := log o |}.
Definition set_mu (mu : gmap nat nat) (o : Output) : Output :=
  {| writers := writers o; writerMu := mu; tasks := tasks o; over := over o; given := given o; log := log o |}.
Definition set_log (l : list group) (o : Output) : Output :=
  {| writers := writers o; writerMu := writerMu o; tasks := tasks o; over := over o; given := given o; log := l |}.
Definition set_given (l : list group) (o : Output) : Output :=
  {| writers := writers o; writerMu := writerMu o; tasks := tasks o; over := over o; given := l; log := log o |}.
Definition set_over (x : gset nat) (o : Output) : Output :=
  {| writers := writers o; writerMu := writerMu o; tasks := tasks o; over := x; given := given o; log := log o |}.

(** An event of the writer of [j]. *)
Definition write_event (j : nat) (e : event) (o : Output) : option Output :=
  w ← handle e (writer o j); Some (set_writer j w o).

(** The next action of goroutine [t]; [d] is the channel that [make] returns.  [None] is a
    panic. *)
Definition act (t d : nat) (o : Output) : option Output :=
  match task o t with
  | [] => Some o
  | APut j ls :: rest => Some (set_mu (<[j := t]> (writerMu o)) (set_log (log o ++ [(t, (j, ls))]) (set_task t (AEnq j ls :: rest) o)))
  | AEnq j [] :: rest => Some (set_mu (delete j (writerMu o)) (set_task t rest o))
  | AEnq j (l :: ls) :: rest => write_event j (ESend l) (set_task t (AEnq j ls :: rest) o)
  | AFlush j :: rest => write_event j (EFlush d) (set_task t (AWait j d :: rest) o)
  | AWait _ _ :: rest => Some (set_task t rest o)
  | AClose j :: rest => write_event j EClose (set_task t rest o)
  | AStop j :: rest => if stopWriter (writer o j) then None else write_event j ESignal (set_task t rest o)
  | AJoin _ :: rest => Some (set_task t rest o)
  end.

(** It does not block. *)
Definition ready (t d : nat) (o : Output) : bool :=
  match task o t with
  | [] => false
  | APut j _ :: _ => bool_decide (writerMu o !! j = None)
  | AFlush j :: _ => bool_decide (d ∉ chans (writer o j))
  | AWait j d' :: _ => flushed d' (writer o j)
  | AJoin j :: _ => bool_decide (loop (writer o j) = Returned)
  | _ => true
  end.

(** The groups that a goroutine has yet to begin. *)
Definition groups_of (t : nat) (acts : list action) : list group :=
  omap (fun a => match a with APut j ls => Some (t, (j, ls)) | _ => None end) acts.

(** A goroutine gets to a new command, or to the end of its session. *)
Definition spawn (t : nat) (acts : list action) (o : Output) : Output :=
  set_given (given o ++ groups_of t acts) (set_task t acts o).
Definition ending (t : nat) : list action := [AStop t; AJoin t; AClose t].
Definition leave (t : nat) (acts : list action) (o : Output) : Output :=
  spawn t (acts ++ ending t) (set_over ({[t]} ∪ over o) o).

(** What the handlers do: send lines, which are not empty, flush, and close. *)
Definition plain (a : action) : bool :=
  match a with
  | APut _ ls => forallb (fun l => negb (seqb l [])) ls
  | AFlush _ | AClose _ => true
  | _ => false
  end.

(** The events of [enqueue]'s second half and of [writerLoop]. *)
Definition loops (e : event) : bool :=
  match e with EWaker | EWake | EStop | ENext | EWrite _ => true | _ => false end.

(** What happens of itself. *)
Inductive istep (o : Output) : Output -> Prop :=
| istep_act t d o' : ready t d o = true -> act t d o = Some o' -> istep o o'
| istep_loop j e o' : loops e = true -> possible e (writer o j) -> write_event j e o = Some o' -> istep o o'.

Inductive ostep (o : Output) : Output -> Prop :=
| ostep_spawn t acts : task o t = [] -> t ∉ over o -> forallb plain acts = true -> ostep o (spawn t acts o)
| ostep_leave t acts : task o t = [] -> t ∉ over o -> forallb plain acts = true -> ostep o (leave t acts o)
| ostep_istep o' : istep o o' -> ostep o o'.

Definition oreachable : Output -> Prop := rtc ostep newOutput.

(* ------------------------------------------------------------------ *)
(** ** One writer *)

Definition put_of (e : event) : list bytes := match e with ESend l => [l] | _ => [] end.

(** The lines [put] have been given to [enqueue]: what left is a prefix of them, and none
    was refused while the connection was open. *)
Record streams (put : list bytes) (w : Writer) : Prop := {
  streams_wf : wf w;
  streams_out : out w `prefix_of` concat put;
  streams_taken : connClosed w = false -> concat (taken w) = concat put;
  streams_end : loop w = Returned -> connClosed w = true \/ stopWriter w = true
}.

(** What an event does to the fields this is about. *)
Record effect (e : event) (w w' : Writer) : Prop := {
  effect_closed : connClosed w = true -> connClosed w' = true /\ out w' = out w;
  effect_taken : connClosed w' = false -> concat (taken w') = concat (taken w) ++ concat (put_of e);
  effect_out : (forall f, e <> EWrite f) -> out w' = out w;
  effect_written : (exists f, e = EWrite f) -> taken w' = taken w;
  effect_stop : stopWriter w' = match e with ESignal => true | _ => stopWriter w end;
  effect_end : loop w' = Returned -> loop w = Returned \/ connClosed w' = true \/ stopWriter w' = true
}.

Lemma close_done_effect w item w' : close_done w item = Some w' ->
  connClosed w' = connClosed w /\ out w' = out w /\ taken w' = taken w /\ stopWriter w' = stopWriter w /\ loop w' = loop w.
Proof. unfold close_done. destruct (done item); [case_bool_decide; [done|]|]; intros [= <-]; by cbn. Qed.

Lemma enqueue_effect w item w' : enqueue item w = Some w' ->
  out w' = out w /\ stopWriter w' = stopWriter w /\ loop w' = loop w /\
  ((connClosed w' = true /\ taken w' = taken w) \/ (connClosed w' = connClosed w /\ taken w' = taken w ++ [line item])).
Proof.
  unfold enqueue. destruct (_ >? _); [|intros [= <-]; cbn; by auto 10].
  destruct (close_done w item) as [w1|] eqn:E; [|done]. apply close_done_effect in E as (H1 & H2 & H3 & H4 & H5).
  intros [= <-]. cbn. by auto 10.
Qed.

Ltac effects :=
  split; cbn; try done; try (intros; by rewrite app_nil_r); try (intros; by rewrite concat_app);
  try (by intros [? ?]); try (let H := fresh in intros H; by destruct (H _ eq_refl)); try (intros; destruct_and?; by auto).

Lemma write_effect w item f w' :
  write item f w = Some w' -> (connClosed w = true -> line item <> [] -> f = Some 0%nat) -> effect (EWrite f) w w'.
Proof.
  intros Hw Hf. unfold write in Hw. destruct (line item) as [|b l] eqn:El; [|destruct f as [k|]].
  - destruct (close_done w item) as [w1|] eqn:E; [|done]. apply close_done_effect in E as (H1 & H2 & H3 & H4 & H5). simplify_eq/=.
    effects. all: rewrite ?H1, ?H2, ?H3, ?H4; try done. intros _. by rewrite app_nil_r.
  - simplify_eq/=. effects. intros Hc. specialize (Hf Hc ltac:(done)). simplify_eq/=.
    by rewrite app_nil_r.
  - destruct (close_done _ item) as [w1|] eqn:E; [|done]. apply close_done_effect in E as (H1 & H2 & H3 & H4 & H5). simplify_eq/=.
    destruct (connClosed w) eqn:Ec; [by specialize (Hf eq_refl ltac:(done))|].
    effects. all: cbn in *; rewrite ?H1, ?H2, ?H3, ?H4, ?Ec; try done; rewrite ?app_nil_r; naive_solver.
Qed.

Lemma handle_effect e w w' : possible e w -> handle e w = Some w' -> effect e w w'.
Proof.
  intros Hp He. destruct e as [l|d| | | | |f| |]; cbn in *.
  1, 2: apply enqueue_effect in He as (H1 & H2 & H3 & [[H4 H5]|[H4 H5]]); cbn in *; effects;
    rewrite ?H1, ?H2, ?H3, ?H4, ?H5; try done; intros; rewrite ?concat_app; try done; naive_solver.
  5: { destruct Hp as (item & Hl & Hf). rewrite Hl in He. by apply write_effect in He. }
  all: simplify_eq; try (by effects).
  unfold next. by destruct (writeQueue w); effects.
Qed.

Lemma streams_new : streams [] newWriter.
Proof. split; [apply wf_new|done..]. Qed.

Lemma streams_event put e w w' :
  streams put w -> possible e w -> handle e w = Some w' -> streams (put ++ put_of e) w'.
Proof.
  intros [Hw Ho Ht Hr] Hp He. destruct (handle_effect e w w' Hp He) as [E1 E2 E3 E4 E5 E6].
  destruct (writer_wf_handle w e Hw Hp) as (w'' & He' & Hw'). assert (w'' = w') as -> by congruence.
  assert (concat put `prefix_of` concat (put ++ put_of e)) as Hpre by (rewrite concat_app; by apply prefix_app_r).
  assert (connClosed w = true -> connClosed w' = true) as Hmono by (intros H; by apply E1).
  split; [done| | |].
  - destruct (connClosed w) eqn:Ec; [destruct (E1 eq_refl) as [_ ->]; by etrans|].
    assert ((forall f, e <> EWrite f) \/ exists f, e = EWrite f) as [Hn|[f ->]].
    { destruct e; try (left; by intros). right. by eexists. }
    + rewrite (E3 Hn). by etrans.
    + etrans; [|apply Hpre]. rewrite <- Ht by done. rewrite <- (E4 ltac:(by eexists)). apply wf_prefix, Hw'.
  - intros Hc. assert (connClosed w = false) as Hc0 by (destruct (connClosed w); [by rewrite Hmono in Hc|done]).
    rewrite (E2 Hc), (Ht Hc0), concat_app. done.
  - intros Hl. destruct (E6 Hl) as [Hl0|]; [|done]. destruct (Hr Hl0) as [|Hs]; [auto|right]. rewrite E5. by destruct e.
Qed.

(* ------------------------------------------------------------------ *)
(** ** One action *)

(** What an action leaves to do, what it tells a writer, and what it does to the locks. *)
Definition after (a : action) (d : nat) : list action :=
  match a with
  | APut j ls | AEnq j (_ :: ls) => [AEnq j ls]
  | AFlush j => [AWait j d]
  | _ => []
  end.
Definition event_of (a : action) (d : nat) : option (nat * event) :=
  match a with
  | AEnq j (l :: _) => Some (j, ESend l)
  | AFlush j => Some (j, EFlush d)
  | AClose j => Some (j, EClose)
  | AStop j => Some (j, ESignal)
  | _ => None
  end.
Definition locking (t : nat) (a : action) (mu : gmap nat nat) : gmap nat nat :=
  match a with APut j _ => <[j := t]> mu | AEnq j [] => delete j mu | _ => mu end.

Lemma task_set_task t acts o k : task (set_task t acts o) k = if decide (k = t) then acts else task o k.
Proof. unfold task. cbn. case_decide as E; [subst; by rewrite lookup_insert_eq|by rewrite lookup_insert_ne by congruence]. Qed.

Lemma writer_set_writer j w o k : writer (set_writer j w o) k = if decide (k = j) then w else writer o k.
Proof. unfold writer. cbn. case_decide as E; [subst; by rewrite lookup_insert_eq|by rewrite lookup_insert_ne by congruence]. Qed.

(** The writers after an event of one of them. *)
Definition moved (ev : option (nat * event)) (o o' : Output) : Prop :=
  forall j, match ev with
            | Some (k, e) => if decide (j = k) then handle e (writer o j) = Some (writer o' j) else writer o' j = writer o j
            | None => writer o' j = writer o j
            end.

Lemma write_event_spec j e o o' : write_event j e o = Some o' ->
  moved (Some (j, e)) o o' /\ writerMu o' = writerMu o /\ tasks o' = tasks o /\ over o' = over o /\ given o' = given o /\ log o' = log o.
Proof.
  unfold write_event. destruct (handle e (writer o j)) as [w|] eqn:E; [|done]. intros [= <-]. split; [|done].
  intros k. rewrite writer_set_writer. by case_decide; subst.
Qed.

Record acted (t d : nat) (a : action) (rest : list action) (o o' : Output) : Prop := {
  acted_was : task o t = a :: rest;
  acted_task k : task o' k = if decide (k = t) then after a d ++ rest else task o k;
  acted_over : over o' = over o;
  acted_given : given o' = given o;
  acted_log : log o' = log o ++ groups_of t [a];
  acted_mu : writerMu o' = locking t a (writerMu o);
  acted_writers : moved (event_of a d) o o'
}.

Lemma act_acted t d o o' : act t d o = Some o' -> ready t d o = true ->
  exists a rest, acted t d a rest o o' /\ (forall j, a = AStop j -> stopWriter (writer o j) = false).
Proof.
  unfold act, ready. destruct (task o t) as [|a rest] eqn:Et; [done|]. intros Ha Hr. exists a, rest.
  assert (forall ev, event_of a d = Some ev -> write_event ev.1 ev.2 (set_task t (after a d ++ rest) o) = Some o' ->
    (forall j, a = AStop j -> stopWriter (writer o j) = false) ->
    acted t d a rest o o' /\ (forall j, a = AStop j -> stopWriter (writer o j) = false)) as Hev.
  { intros [j e] Ee Hw Hs. apply write_event_spec in Hw as (H1 & H2 & H3 & H4 & H5 & H6). cbn [fst snd] in H1.
    split; [|done]. split; try done.
    - intros k. rewrite <- task_set_task. unfold task. by rewrite H3.
    - rewrite H6. destruct a as [| ? [|]| | | | |]; cbn in *; by rewrite ?app_nil_r.
    - rewrite H2. by destruct a as [| ? [|]| | | | |].
    - by rewrite Ee. }
  destruct a as [j ls|j [|l ls]|j|j d'|j|j|j]; cbn in *; try (by eapply Hev); simplify_eq.
  1, 2, 3, 5: split; [|done]; split; try done; first [intros k; apply task_set_task|cbn; by rewrite ?app_nil_r].
  destruct (stopWriter (writer o j)) eqn:Es; [done|]. apply (Hev (j, ESignal)); [done|done|]. by intros ? [= <-].
Qed.

(* ------------------------------------------------------------------ *)
(** ** The invariant *)

Definition lines_to (j : nat) (l : list group) : list bytes :=
  concat (omap (fun g : group => if decide (g.2.1 = j) then Some g.2.2 else None) l).
Definition by_task (t : nat) (l : list group) : list group := filter (fun g => g.1 = t) l.

(** The lines that the holder of the lock of [j] has still to queue. *)
Definition remaining (o : Output) (j : nat) : list bytes :=
  match writerMu o !! j with
  | Some t => match task o t with AEnq _ ls :: _ => ls | _ => [] end
  | None => []
  end.

(** A goroutine is at an action of a handler, with others to follow. *)
Definition busy (a : action) : bool :=
  match a with
  | APut _ ls | AEnq _ ls => forallb (fun l => negb (seqb l [])) ls
  | AFlush _ | AWait _ _ | AClose _ => true
  | _ => false
  end.
Definition started (acts : list action) : Prop :=
  match acts with [] => True | a :: rest => busy a = true /\ forallb plain rest = true end.

(** The life of a session's goroutine; [pre] are the actions of its handler. *)
Inductive stage (o : Output) (t : nat) (pre : list action) : list action -> Prop :=
| stage_serving : t ∉ over o -> stopWriter (writer o t) = false -> stage o t pre []
| stage_leaving : t ∈ over o -> stopWriter (writer o t) = false -> stage o t pre (ending t)
| stage_joining : t ∈ over o -> stopWriter (writer o t) = true -> pre = [] -> stage o t pre [AJoin t; AClose t]
| stage_closing : t ∈ over o -> stopWriter (writer o t) = true -> pre = [] -> stage o t pre [AClose t]
| stage_ended : t ∈ over o -> stopWriter (writer o t) = true -> pre = [] -> connClosed (writer o t) = true -> stage o t pre [].

Lemma stage_mono o o' k pre pre' post :
  stage o k pre post -> (k ∈ over o' <-> k ∈ over o) -> stopWriter (writer o' k) = stopWriter (writer o k) ->
  (connClosed (writer o k) = true -> connClosed (writer o' k) = true) -> (pre = [] -> pre' = []) -> stage o' k pre' post.
Proof.
  intros Hs Ho E Hc Hp.
  destruct Hs; [apply stage_serving|apply stage_leaving|apply stage_joining|apply stage_closing|apply stage_ended]; rewrite ?Ho, ?E; auto.
Qed.

Record inv (o : Output) : Prop := {
  inv_streams j : exists put, lines_to j (log o) = put ++ remaining o j /\ streams put (writer o j);
  inv_mu j t : writerMu o !! j = Some t <-> exists ls rest, task o t = AEnq j ls :: rest;
  inv_fifo t : by_task t (log o) ++ groups_of t (task o t) = by_task t (given o);
  inv_life t : exists pre post, task o t = pre ++ post /\ started pre /\ stage o t pre post;
  inv_wait t j d : AWait j d ∈ task o t -> d ∈ chans (writer o j)
}.

Lemma groups_of_app t l l' : groups_of t (l ++ l') = groups_of t l ++ groups_of t l'.
Proof. apply omap_app. Qed.
Lemma groups_of_ending t t' : groups_of t (ending t') = [].
Proof. done. Qed.
Lemma by_task_app t l l' : by_task t (l ++ l') = by_task t l ++ by_task t l'.
Proof. apply filter_app. Qed.
Lemma by_task_groups t acts : by_task t (groups_of t acts) = groups_of t acts.
Proof.
  unfold by_task. induction acts as [|a acts IH]; [done|]. destruct a as [j ls| | | | | |]; try exact IH.
  change (groups_of t (APut j ls :: acts)) with ((t, (j, ls)) :: groups_of t acts). rewrite filter_cons_True by done. by f_equal.
Qed.
Lemma by_task_groups_ne t t' acts : t <> t' -> by_task t (groups_of t' acts) = [].
Proof.
  intros Hn. unfold by_task. induction acts as [|a acts IH]; [done|]. destruct a as [j ls| | | | | |]; try exact IH.
  change (groups_of t' (APut j ls :: acts)) with ((t', (j, ls)) :: groups_of t' acts). by rewrite filter_cons_False by (cbn; congruence).
Qed.
Lemma lines_to_app j l l' : lines_to j (l ++ l') = lines_to j l ++ lines_to j l'.
Proof. unfold lines_to. by rewrite omap_app, concat_app. Qed.

Lemma inv_new : inv newOutput.
Proof.
  split; try done.
  - intros j. exists []. split; [done|apply streams_new].
  - intros j t. split; [done|]. by intros (? & ? & ?).
  - intros t. exists [], []. split; [done|]. split; [done|]. by constructor.
  - intros t j d H. by apply not_elem_of_nil in H.
Qed.

Lemma plain_busy a : plain a = true -> busy a = true.
Proof. by destruct a. Qed.

(** What a new list of actions does to the rest of the state. *)
Record respawned (t : nat) (acts : list action) (o o' : Output) : Prop := {
  respawned_task k : task o' k = if decide (k = t) then acts else task o k;
  respawned_writers : writers o' = writers o;
  respawned_mu : writerMu o' = writerMu o;
  respawned_log : log o' = log o;
  respawned_given : given o' = given o ++ groups_of t acts
}.

Lemma started_plain acts : forallb plain acts = true -> started acts.
Proof. destruct acts as [|a acts]; [done|]. cbn. intros [? ?]%andb_true_iff. split; [by apply plain_busy|done]. Qed.

Lemma head_not_enq o t j ls rest pre post :
  AEnq j ls :: rest = pre ++ post -> stage o t pre post -> exists pre', pre = AEnq j ls :: pre'.
Proof. destruct pre as [|a pre]; cbn; [intros <- Hs; inversion Hs|intros [= <- _] _; by eexists]. Qed.

Lemma inv_respawned t acts post o o' :
  inv o -> respawned t (acts ++ post) o o' -> task o t = [] -> forallb plain acts = true -> groups_of t post = [] ->
  (forall k, k <> t -> k ∈ over o' <-> k ∈ over o) -> stage o' t acts post -> inv o'.
Proof.
  intros [I1 I2 I3 I4 I5] [R1 R2 R3 R4 R5] Ht Hp Hg Ho Hs.
  assert (forall j, writer o' j = writer o j) as Hw by (intros j; unfold writer; by rewrite R2).
  assert (forall j ls rest, acts ++ post <> AEnq j ls :: rest) as Hn.
  { intros j ls rest E. symmetry in E. destruct (head_not_enq _ _ _ _ _ _ _ E Hs) as [pre' ->]. done. }
  split.
  - intros j. destruct (I1 j) as (put & E & Hst). exists put. rewrite R4, E, Hw. split; [f_equal|done].
    unfold remaining. rewrite R3. destruct (writerMu o !! j) as [t'|] eqn:Em; [|done].
    apply I2 in Em as (ls & rest & Em). rewrite R1. case_decide; [subst; by rewrite Ht in Em|done].
  - intros j t'. rewrite R3, I2, R1. case_decide; [subst|done]. rewrite Ht. split; [by intros (? & ? & ?)|].
    intros (ls & rest & E). by apply Hn in E.
  - intros t'. rewrite R4, R5, by_task_app, <- I3, R1. case_decide as Ek.
    + subst. rewrite Ht, by_task_groups. cbn. by rewrite app_nil_r.
    + by rewrite by_task_groups_ne, app_nil_r by done.
  - intros k. rewrite R1. case_decide as Ek; [subst; exists acts, post; split; [done|]; split; [by apply started_plain|done]|].
    destruct (I4 k) as (pre & po & E & Hst & Hsg). exists pre, po. split; [done|]. split; [done|].
    apply (stage_mono o _ k pre); rewrite ?Hw; auto.
  - intros t' j d. rewrite R1, Hw. case_decide; [|apply I5]. subst. intros [Hin|Hin]%elem_of_app.
    + apply Is_true_true, forallb_True in Hp. eapply Forall_forall in Hp; [|exact Hin]. done.
    + destruct Hs; unfold ending in *; set_solver.
Qed.

(** Where a goroutine is, from its next action. *)
Lemma head_of_handler o t a rest : inv o -> task o t = a :: rest ->
  (exists pre post, rest = pre ++ post /\ busy a = true /\ forallb plain pre = true /\ stage o t (a :: pre) post) \/ stage o t [] (a :: rest).
Proof.
  intros Hi Ht. destruct (inv_life o Hi t) as ([|b pre] & post & E & Hst & Hs); rewrite Ht in E.
  - right. cbn in E. by subst.
  - left. injection E as -> ->. destruct Hst. by exists pre, post.
Qed.

Lemma busy_lines j l ls : busy (AEnq j (l :: ls)) = true -> l <> [].
Proof. cbn. intros [H _]%andb_true_iff. by destruct (seqb_spec l []). Qed.

Lemma event_of_possible t d o a rest j e :
  inv o -> task o t = a :: rest -> ready t d o = true -> event_of a d = Some (j, e) -> possible e (writer o j).
Proof.
  intros Hi Ht Hr He. unfold ready in Hr. rewrite Ht in Hr.
  destruct (head_of_handler _ _ _ _ Hi Ht) as [(pre & post & -> & Hb & _ & Hs)|Hs].
  - destruct a as [|? [|l ls]| | | | |]; simplify_eq/=; [by eapply (busy_lines 0)|by apply bool_decide_eq_true in Hr|done].
  - inversion Hs; simplify_eq/=; done.
Qed.

(** No goroutine panics: a channel is closed at most once. *)
Lemma act_no_panic t d o : inv o -> ready t d o = true -> act t d o <> None.
Proof.
  intros Hi Hr. unfold act. destruct (task o t) as [|a rest] eqn:Ht; [done|].
  assert (forall j e o0, event_of a d = Some (j, e) -> writers o0 = writers o -> write_event j e o0 <> None) as Hw.
  { intros j e o0 He E. pose proof (event_of_possible _ _ _ _ _ _ _ Hi Ht Hr He) as Hp. destruct (inv_streams o Hi j) as (put & _ & Hs).
    destruct (writer_wf_handle _ _ (streams_wf _ _ Hs) Hp) as (w & Ew & _). unfold write_event.
    replace (writer o0 j) with (writer o j) by (unfold writer; by rewrite E). by rewrite Ew. }
  destruct a as [j ls|j [|l ls]|j|j d'|j|j|j]; try done; try (by apply Hw).
  assert (stopWriter (writer o j) = false) as ->; [|by apply Hw].
  destruct (head_of_handler _ _ _ _ Hi Ht) as [(pre & post & -> & Hb & _ & Hs)|Hs]; [done|]. by inversion Hs; simplify_eq.
Qed.

(** The holder of a lock is the goroutine that is queueing lines. *)
Lemma remaining_enq o j t ls rest : inv o -> task o t = AEnq j ls :: rest -> remaining o j = ls.
Proof.
  intros Hi Ht. unfold remaining. assert (writerMu o !! j = Some t) as -> by (apply (inv_mu o Hi); eauto). by rewrite Ht.
Qed.

Lemma stage_not_enq o t pre post rest j ls : stage o t pre post -> forallb plain pre = true -> pre ++ post <> AEnq j ls :: rest.
Proof.
  intros Hs Hp E. destruct pre as [|b pre]; [|by simplify_eq/=]. cbn in E. subst. inversion Hs.
Qed.

Lemma rest_not_enq o t a rest j ls rest' : inv o -> task o t = a :: rest -> rest <> AEnq j ls :: rest'.
Proof.
  intros Hi Ht. destruct (head_of_handler _ _ _ _ Hi Ht) as [(pre & post & -> & _ & Hp & Hs)|Hs].
  - destruct pre as [|b pre]; [|cbn; intros E; by simplify_eq/=]. cbn. intros ->. inversion Hs.
  - inversion Hs; simplify_eq; done.
Qed.

Lemma started_after a d pre : busy a = true -> forallb plain pre = true -> started (after a d ++ pre).
Proof.
  intros Hb Hp. destruct a as [j ls|j [|l ls]| | | | |]; cbn in *; try done; try (by apply started_plain).
  by apply andb_true_iff in Hb as [_ ?].
Qed.

Section Acted.
Context (t d : nat) (a : action) (rest : list action) (o o' : Output).
Hypothesis (Hi : inv o) (Ha : acted t d a rest o o') (Hr : ready t d o = true).

Lemma acted_head : task o t = a :: rest.
Proof. apply Ha. Qed.

Lemma acted_free j ls : a = APut j ls -> writerMu o !! j = None.
Proof. intros E. pose proof Hr as H. unfold ready in H. rewrite acted_head, E in H. by apply bool_decide_eq_true in H. Qed.

Lemma acted_event j : match event_of a d with
  | Some (k, e) => if decide (j = k) then possible e (writer o j) /\ handle e (writer o j) = Some (writer o' j) else writer o' j = writer o j
  | None => writer o' j = writer o j
  end.
Proof.
  pose proof (acted_writers _ _ _ _ _ _ Ha j) as H. destruct (event_of a d) as [[k e]|] eqn:E; [|done].
  case_decide; [subst|done]. split; [|done]. eapply event_of_possible; [done|apply acted_head|done|done].
Qed.

Lemma acted_inv_mu j k : writerMu o' !! j = Some k <-> exists ls rest', task o' k = AEnq j ls :: rest'.
Proof.
  rewrite (acted_mu _ _ _ _ _ _ Ha). rewrite (acted_task _ _ _ _ _ _ Ha).
  pose proof (fun j' => inv_mu o Hi j' k) as Hm. pose proof acted_head as Hh. pose proof acted_free as Hfree.
  pose proof (fun j' ls' rest' => rest_not_enq o t a rest j' ls' rest' Hi Hh) as Hne.
  assert (forall b, (forall j' ls', b <> AEnq j' ls') -> (exists ls rest', b :: rest = AEnq j ls :: rest') <-> False) as Hno.
  { intros b Hb. split; [|done]. intros (? & ? & [= E _]). by apply Hb in E. }
  assert (forall j', (forall ls', a <> AEnq j' ls') -> writerMu o !! j' <> Some t) as Hn.
  { intros j' Hb E%(inv_mu o Hi). rewrite Hh in E. destruct E as (? & ? & [= E _]). by apply Hb in E. }
  assert (locking t a (writerMu o) = writerMu o -> (forall j' ls', a <> AEnq j' ls') -> (forall j' ls', after a d <> [AEnq j' ls']) ->
    locking t a (writerMu o) !! j = Some k <-> exists ls rest', (if decide (k = t) then after a d ++ rest else task o k) = AEnq j ls :: rest') as Hsame.
  { intros -> Hb Hb'. case_decide; [subst|apply Hm]. split; [intros E; by apply Hn in E|]. intros (ls & rest' & E).
    destruct (after a d) as [|b [|]] eqn:Ea; cbn in E; [by apply Hne in E| |by destruct a as [| ? [|]| | | | |]].
    injection E as -> _. by destruct (Hb' j ls). }
  destruct a as [j' ls|j' [|l ls]|j'|j' d'|j'|j'|j']; try (by apply Hsame); cbn.
  - pose proof (Hfree _ _ eq_refl) as Hf. case_decide as Ek; [subst k|].
    + destruct (decide (j' = j)) as [->|Hj]; [rewrite lookup_insert_eq; split; eauto|]. rewrite lookup_insert_ne by done.
      split; [intros E; by apply Hn in E|]. by intros (? & ? & [= ? _ _]).
    + destruct (decide (j' = j)) as [->|Hj]; [rewrite lookup_insert_eq|by rewrite lookup_insert_ne].
      split; [congruence|]. intros E%Hm. congruence.
  - case_decide as Ek; [subst k|].
    + split; [|intros (? & ? & E); by apply Hne in E]. destruct (decide (j' = j)) as [->|Hj]; [by rewrite lookup_delete_eq|].
      rewrite lookup_delete_ne by done. intros E. apply Hn in E; [done|]. congruence.
    + assert (writerMu o !! j' = Some t) as E' by (apply (inv_mu o Hi); eauto).
      destruct (decide (j' = j)) as [->|Hj]; [rewrite lookup_delete_eq|by rewrite lookup_delete_ne].
      split; [done|]. intros E%Hm. congruence.
  - case_decide as Ek; [subst k|apply Hm]. rewrite Hm, Hh. split; intros (? & ? & [= <- <- <-]); eauto.
Qed.

Lemma acted_inv_fifo k : by_task k (log o') ++ groups_of k (task o' k) = by_task k (given o').
Proof.
  rewrite (acted_log _ _ _ _ _ _ Ha), (acted_given _ _ _ _ _ _ Ha), (acted_task _ _ _ _ _ _ Ha), by_task_app.
  rewrite <- (inv_fifo o Hi k). case_decide as Ek; [subst|by rewrite by_task_groups_ne, app_nil_r by done].
  assert (groups_of t (after a d) = []) as E by (by destruct a as [| ? [|]| | | | |]).
  rewrite acted_head, by_task_groups, groups_of_app, E, <- app_assoc, app_nil_l. by rewrite <- (groups_of_app t [a] rest).
Qed.

Lemma acted_effect j : (exists e, effect e (writer o j) (writer o' j) /\ event_of a d = Some (j, e)) \/ writer o' j = writer o j.
Proof.
  pose proof (acted_event j) as H. destruct (event_of a d) as [[k e]|]; [|auto]. case_decide; [subst|auto]. destruct H as [Hp He].
  left. exists e. split; [by apply handle_effect|done].
Qed.

Lemma acted_remaining j : (forall ls, a <> APut j ls) -> (forall ls, a <> AEnq j ls) -> remaining o' j = remaining o j.
Proof.
  intros H1 H2. unfold remaining. rewrite (acted_mu _ _ _ _ _ _ Ha).
  assert (locking t a (writerMu o) !! j = writerMu o !! j) as ->.
  { destruct a as [j' ls|j' [|l ls]| | | | |]; try done; cbn; [rewrite lookup_insert_ne|rewrite lookup_delete_ne]; congruence. }
  destruct (writerMu o !! j) as [k|] eqn:E; [|done]. rewrite (acted_task _ _ _ _ _ _ Ha). case_decide as Ek; [|done].
  subst. apply (inv_mu o Hi) in E as (ls & rest' & E). rewrite acted_head in E. injection E as E _. by destruct (H2 ls).
Qed.

Definition streaming (s : Output) (j : nat) : Prop := exists put, lines_to j (log s) = put ++ remaining s j /\ streams put (writer s j).

Lemma streaming_put j ls : a = APut j ls -> streaming o' j.
Proof.
  intros Ea. destruct (inv_streams o Hi j) as (put & E & Hs). pose proof (acted_event j) as He. exists put.
  rewrite (acted_log _ _ _ _ _ _ Ha), lines_to_app, E.
  assert (remaining o j = []) as -> by (unfold remaining; by rewrite (acted_free j ls Ea)).
  assert (remaining o' j = ls) as ->.
  { unfold remaining. assert (writerMu o' !! j = Some t) as ->; rewrite ?(acted_mu _ _ _ _ _ _ Ha), ?(acted_task _ _ _ _ _ _ Ha), Ea; cbn.
    - apply lookup_insert_eq.
    - by rewrite decide_True. }
  rewrite Ea in He |- *. cbn in He. rewrite He. split; [|done]. unfold lines_to. cbn. rewrite decide_True by done. cbn. by rewrite !app_nil_r.
Qed.

Lemma streaming_enq j ls : a = AEnq j ls -> streaming o' j.
Proof.
  intros Ea. destruct (inv_streams o Hi j) as (put & E & Hs). pose proof (acted_event j) as He. pose proof acted_head as Hh. rewrite Ea in He, Hh.
  unfold streaming. rewrite (acted_log _ _ _ _ _ _ Ha), lines_to_app, E, (remaining_enq o j t ls rest Hi Hh).
  unfold remaining. rewrite (acted_mu _ _ _ _ _ _ Ha), Ea. destruct ls as [|l ls]; cbn in *.
  - exists put. rewrite lookup_delete_eq, He, app_nil_r. done.
  - rewrite decide_True in He by done. destruct He as [Hp He]. exists (put ++ [l]). split; [|by eapply (streams_event put (ESend l))].
    assert (writerMu o !! j = Some t) as -> by (apply (inv_mu o Hi); eauto). rewrite (acted_task _ _ _ _ _ _ Ha), Ea. cbn.
    rewrite decide_True by done. unfold lines_to. cbn. by rewrite app_nil_r, <- app_assoc.
Qed.

Lemma streaming_other j : (forall ls, a <> APut j ls) -> (forall ls, a <> AEnq j ls) -> streaming o' j.
Proof.
  intros H1 H2. destruct (inv_streams o Hi j) as (put & E & Hs). pose proof (acted_event j) as He. exists put.
  rewrite (acted_log _ _ _ _ _ _ Ha), lines_to_app, E, acted_remaining by done. split.
  - assert (lines_to j (groups_of t [a]) = []) as ->; [|by rewrite app_nil_r]. destruct a as [j' ls| | | | | |]; try done.
    unfold lines_to. cbn. rewrite decide_False; [done|]. intros ->. by destruct (H1 ls).
  - destruct (event_of a d) as [[k e]|] eqn:Ee; [|by rewrite He]. case_decide; [subst|by rewrite He]. destruct He as [Hp He].
    pose proof (streams_event put e _ _ Hs Hp He) as Hs'. replace (put_of e) with (@nil bytes) in Hs'; [by rewrite app_nil_r in Hs'|].
    destruct a as [|? [|]| | | | |]; simplify_eq/=; try done. by destruct (H2 (l :: l0)).
Qed.

Lemma acted_inv_streams j : streaming o' j.
Proof.
  pose proof (streaming_put j) as H1. pose proof (streaming_enq j) as H2. pose proof (streaming_other j) as H3.
  destruct a as [j' ls|j' ls| | | | |]; try (by apply H3); destruct (decide (j' = j)) as [->|]; eauto; apply H3; congruence.
Qed.

Lemma acted_chans j : chans (writer o j) ⊆ chans (writer o' j).
Proof.
  pose proof (acted_event j) as H. destruct (event_of a d) as [[k e]|]; [|by rewrite H]. case_decide; [|by rewrite H].
  destruct H as [Hp He]. apply (handle_shape _ _ _ Hp He).
Qed.

Lemma acted_inv_wait k j c : AWait j c ∈ task o' k -> c ∈ chans (writer o' j).
Proof.
  rewrite (acted_task _ _ _ _ _ _ Ha). pose proof (acted_chans j) as Hc. pose proof (inv_wait o Hi) as Hw. case_decide; [subst|set_solver].
  intros [Hin|Hin]%elem_of_app; [|apply Hc, (Hw t); rewrite acted_head; set_solver].
  pose proof (acted_event j) as He. destruct a as [|? [|]| | | | |]; cbn in Hin; try set_solver.
  apply list_elem_of_singleton in Hin as [= -> ->]. cbn in He. rewrite decide_True in He by done. destruct He as [_ He].
  cbn in He. apply enqueue_shape in He as (_ & -> & _). cbn. set_solver.
Qed.

Lemma acted_stop j : (forall j', a <> AStop j') \/ j <> t -> stopWriter (writer o' j) = stopWriter (writer o j).
Proof.
  intros H. destruct (acted_effect j) as [(e & [_ _ _ _ -> _] & Ee)| ->]; [|done].
  pose proof (head_of_handler _ _ _ _ Hi acted_head) as Hh.
  destruct a as [|? [|]| | | |j'|]; simplify_eq/=; try done. destruct H as [H|H]; [by destruct (H j)|].
  destruct Hh as [(? & ? & _ & Hb & _)|Hs]; [done|]. by inversion Hs; simplify_eq.
Qed.

Lemma acted_closed j : connClosed (writer o j) = true -> connClosed (writer o' j) = true.
Proof. destruct (acted_effect j) as [(e & [H _ _ _ _ _] & _)| ->]; [|done]. intros Hc. by apply H. Qed.

Lemma acted_stage k pre pre' post :
  stage o k pre post -> stopWriter (writer o' k) = stopWriter (writer o k) -> (pre = [] -> pre' = []) -> stage o' k pre' post.
Proof. intros Hs E. apply (stage_mono o); try done; [by rewrite (acted_over _ _ _ _ _ _ Ha)|apply acted_closed]. Qed.

Lemma acted_inv_life k : exists pre post, task o' k = pre ++ post /\ started pre /\ stage o' k pre post.
Proof.
  rewrite (acted_task _ _ _ _ _ _ Ha). pose proof (acted_over _ _ _ _ _ _ Ha) as Ho. case_decide as Ek.
  - rewrite Ek. clear k Ek. destruct (head_of_handler _ _ _ _ Hi acted_head) as [(pre & post & Er & Hb & Hp & Hs)|Hs].
    + exists (after a d ++ pre), post. rewrite Er, app_assoc. split; [done|]. split; [by apply started_after|].
      eapply acted_stage; [exact Hs|apply acted_stop; left; intros j' E; by rewrite E in Hb|done].
    + exists [], (after a d ++ rest). split; [done|]. split; [done|]. pose proof (acted_event t) as He.
      inversion Hs as [|Hv Hst [E1 E2]|Hv Hst _ [E1 E2]|Hv Hst _ [E1 E2]|]; rewrite <- ?E1 in He; cbn in *; rewrite ?decide_True in He by done.
      * destruct He as [_ He]. constructor; rewrite ?Ho; try done. by injection He as <-.
      * constructor; rewrite ?Ho, ?He; done.
      * destruct He as [_ He]. injection He as He. constructor; rewrite ?Ho, <- ?He; done.
  - destruct (inv_life o Hi k) as (pre & post & E & Hst & Hs). exists pre, post. split; [done|]. split; [done|].
    eapply acted_stage; [exact Hs|apply acted_stop; auto|auto].
Qed.

Lemma inv_acted : inv o'.
Proof.
  split; [apply acted_inv_streams|apply acted_inv_mu|apply acted_inv_fifo|apply acted_inv_life|apply acted_inv_wait].
Qed.
End Acted.

Lemma loops_effect e w w' : loops e = true -> possible e w -> handle e w = Some w' -> effect e w w' /\ put_of e = [] /\ e <> ESignal.
Proof. intros Hl Hp He. split; [by apply handle_effect|]. by destruct e. Qed.

Lemma inv_loop j e o o' : inv o -> loops e = true -> possible e (writer o j) -> write_event j e o = Some o' -> inv o'.
Proof.
  intros [I1 I2 I3 I4 I5] Hl Hp He. apply write_event_spec in He as (H1 & H2 & H3 & H4 & H5 & H6).
  assert (forall k, task o' k = task o k) as Ht by (intros k; unfold task; by rewrite H3).
  assert (forall k, writer o' k = writer o k \/
     (k = j /\ handle e (writer o k) = Some (writer o' k))) as Hw.
  { intros k. specialize (H1 k). cbn in H1. case_decide; auto. }
  assert (forall k, stopWriter (writer o' k) = stopWriter (writer o k) /\ (connClosed (writer o k) = true -> connClosed (writer o' k) = true)) as Hs.
  { intros k. destruct (Hw k) as [->|[-> Hh]]; [done|]. destruct (loops_effect _ _ _ Hl Hp Hh) as ([E1 _ _ _ E5 _] & _ & Hn).
    split; [|intros H; by apply E1]. rewrite E5. by destruct e. }
  split.
  - intros k. destruct (I1 k) as (put & E & Hst). exists put. rewrite H6. unfold remaining in *. rewrite H2.
    split; [destruct (writerMu o !! k); by rewrite ?Ht|]. destruct (Hw k) as [->|[-> Hh]]; [done|].
    destruct (loops_effect _ _ _ Hl Hp Hh) as (_ & Hpo & _). pose proof (streams_event _ _ _ _ Hst Hp Hh) as Hse. by rewrite Hpo, app_nil_r in Hse.
  - intros k t. by rewrite H2, Ht.
  - intros t. by rewrite H6, H5, Ht.
  - intros t. destruct (I4 t) as (pre & post & E & Hst & Hsg). exists pre, post. rewrite Ht. split; [done|]. split; [done|].
    destruct (Hs t) as [Es Ec]. apply (stage_mono o _ t pre); rewrite ?H4; auto.
  - intros t k d. rewrite Ht. intros Hin%I5. destruct (Hw k) as [->|[-> Hh]]; [done|]. by apply (handle_shape _ _ _ Hp Hh).
Qed.

Lemma inv_istep o o' : inv o -> istep o o' -> inv o'.
Proof.
  intros Hi [t d ? Hr Ha|j e ? Hl Hp He]; [|by eapply inv_loop].
  destruct (act_acted _ _ _ _ Ha Hr) as (a & rest & Hac & _). by eapply inv_acted.
Qed.

Lemma inv_ostep o o' : inv o -> ostep o o' -> inv o'.
Proof.
  intros Hi Hs. destruct Hs as [t acts Ht Ho Hp|t acts Ht Ho Hp|o' Hs]; [| |by eapply inv_istep].
  all: assert (stopWriter (writer o t) = false) as Hst
    by (destruct (inv_life o Hi t) as (? & ? & _ & _ & Hsg); by inversion Hsg).
  - apply (inv_respawned t acts [] o); try done; [split; try done; cbn; [intros k; rewrite app_nil_r; apply task_set_task|by rewrite app_nil_r]|].
    by constructor.
  - apply (inv_respawned t acts (ending t) o); try done; [split; try done; intros k; apply (task_set_task t (acts ++ ending t) (set_over ({[t]} ∪ over o) o))| |].
    + intros k Hk. cbn. set_solver.
    + constructor; [cbn; set_solver|done].
Qed.

Lemma inv_oreachable o : oreachable o -> inv o.
Proof. apply (rtc_ind_r inv newOutput inv_new). intros x y _ Hs Hi. by eapply inv_ostep. Qed.

(* ------------------------------------------------------------------ *)
(** ** How much is left to do *)

Definition weight (w : Writer) : nat :=
  3 * wakers w + (if writeWake w then 2 else 0) +
  match loop w with
  | Selecting => 2 * length (writeQueue w) + 1
  | Draining => 2 * length (writeQueue w) + 2
  | Writing _ => 2 * length (writeQueue w) + 3
  | Returned => 0
  end.

Definition cost (a : action) : nat :=
  match a with
  | APut _ ls => 7 * length ls + 2
  | AEnq _ ls => 7 * length ls + 1
  | AFlush _ => 8
  | AClose _ | AStop _ => 2
  | AWait _ _ | AJoin _ => 1
  end.
Definition costs (acts : list action) : nat := sum_list_with cost acts.
#[local] Arguments weight : simpl never.

Definition sum_map {A} (f : A -> nat) (m : gmap nat A) : nat := sum_list_with (fun kx => f kx.2) (map_to_list m).
Definition todo_all (o : Output) : nat := sum_map weight (writers o) + sum_map costs (tasks o).

Lemma sum_map_perm {A} (f : A -> nat) (l l' : list (nat * A)) :
  l ≡ₚ l' -> sum_list_with (fun kx => f kx.2) l = sum_list_with (fun kx => f kx.2) l'.
Proof. induction 1; cbn; lia. Qed.

Lemma sum_map_insert {A} (f : A -> nat) m k x :
  (sum_map f (<[k := x]> m) + match m !! k with Some y => f y | None => 0 end = sum_map f m + f x)%nat.
Proof.
  unfold sum_map. destruct (m !! k) as [y|] eqn:E.
  - rewrite <- (insert_delete_eq m k x), (sum_map_perm f _ _ (map_to_list_insert _ k x (lookup_delete_eq m k))).
    rewrite <- (insert_delete_id m k y E) at 2. rewrite (sum_map_perm f _ _ (map_to_list_insert _ k y (lookup_delete_eq m k))). cbn. lia.
  - rewrite (sum_map_perm f _ _ (map_to_list_insert _ k x E)). cbn. lia.
Qed.

Lemma costs_cons a acts : costs (a :: acts) = (cost a + costs acts)%nat.
Proof. done. Qed.

Lemma todo_all_set_task t acts o : (todo_all (set_task t acts o) + costs (task o t) = todo_all o + costs acts)%nat.
Proof.
  pose proof (sum_map_insert costs (tasks o) t acts) as H. unfold todo_all, task. cbn [writers tasks set_task].
  destruct (tasks o !! t); cbn [from_option id]; [lia|]. change (costs []) with 0%nat. lia.
Qed.

(** A session has no writer before its first event. *)
Lemma todo_all_set_writer j w o :
  (todo_all (set_writer j w o) + weight (writer o j) = todo_all o + weight w + match writers o !! j with Some _ => 0 | None => 1 end)%nat.
Proof.
  pose proof (sum_map_insert weight (writers o) j w) as H. unfold todo_all, writer. cbn [writers tasks set_writer].
  destruct (writers o !! j); cbn [from_option id]; [lia|]. change (weight newWriter) with 1%nat. lia.
Qed.

Lemma enqueue_weight item w w' : enqueue item w = Some w' -> (weight w' <= weight w + 5)%nat.
Proof.
  unfold enqueue. destruct (_ >? _).
  - unfold close_done. destruct (done item); [case_bool_decide; [done|]|]; intros [= <-]; unfold weight; cbn; lia.
  - intros [= <-]. unfold weight. cbn. rewrite length_app. destruct (loop w), (writeWake w); cbn; lia.
Qed.

Lemma close_done_weight item w w' : close_done w item = Some w' -> forall l, weight (with_loop w' l) = weight (with_loop w l).
Proof. unfold close_done. destruct (done item); [case_bool_decide; [done|]|]; by intros [= <-]. Qed.

Lemma loops_weight e w w' : loops e = true -> possible e w -> handle e w = Some w' -> (weight w' < weight w)%nat.
Proof.
  intros Hl Hp He. destruct e as [l|d| | | | |f| |]; try done; cbn in *.
  - simplify_eq. unfold weight. cbn. destruct (wakers w); [done|]. destruct (loop w), (writeWake w); cbn; lia.
  - destruct Hp as [Hs Hk]. simplify_eq. unfold weight. cbn. rewrite Hs, Hk. lia.
  - destruct Hp as [Hs _]. simplify_eq. unfold weight. cbn. rewrite Hs. destruct (writeWake w); lia.
  - simplify_eq. unfold next, weight. rewrite Hp. destruct (writeQueue w) eqn:Eq; cbn; rewrite ?Eq; cbn; destruct (writeWake w); lia.
  - destruct Hp as (item & Hs & _). rewrite Hs in He. unfold write in He.
    destruct (line item); [|destruct f].
    1, 3: destruct (close_done _ item) as [w1|] eqn:E; [|done]; change (Some (with_loop w1 Draining) = Some w') in He; assert (w' = with_loop w1 Draining) as -> by congruence;
      rewrite (close_done_weight _ _ _ E); unfold weight; cbn; rewrite Hs; destruct (writeWake w); lia.
    simplify_eq/=. unfold weight. cbn. rewrite Hs. destruct (writeWake w); lia.
Qed.

Lemma write_event_todo_all j e o o' : write_event j e o = Some o' ->
  (todo_all o' + weight (writer o j) <= todo_all o + weight (writer o' j) + 1)%nat /\
  (is_Some (writers o !! j) -> todo_all o' + weight (writer o j) = todo_all o + weight (writer o' j))%nat.
Proof.
  unfold write_event. destruct (handle e (writer o j)) as [w|]; [|done]. intros [= <-].
  pose proof (todo_all_set_writer j w o) as H. rewrite writer_set_writer, decide_True by done.
  split; [destruct (writers o !! j); lia|]. intros [x E]. rewrite E in H. lia.
Qed.

Lemma act_decreases t d o o' : ready t d o = true -> act t d o = Some o' -> (todo_all o' < todo_all o)%nat.
Proof.
  unfold ready, act. destruct (task o t) as [|a rest] eqn:Et; [done|]. intros Hr.
  assert (forall acts, todo_all (set_task t acts o) + costs (a :: rest) = todo_all o + costs acts)%nat as Ht
    by (intros acts; rewrite <- Et; apply todo_all_set_task).
  assert (forall j e acts, write_event j e (set_task t acts o) = Some o' -> (costs acts + 7 <= costs (a :: rest))%nat \/
    (costs acts + 2 <= costs (a :: rest) /\ (forall w w', handle e w = Some w' -> weight w' = weight w))%nat ->
    (forall w w', handle e w = Some w' -> weight w' <= weight w + 5)%nat -> (todo_all o' < todo_all o)%nat) as Hw.
  { intros j e acts He Hc Hh. destruct (write_event_todo_all _ _ _ _ He) as [H1 _]. apply write_event_spec in He as (Hm & _).
    specialize (Hm j). cbn in Hm. rewrite decide_True in Hm by done. specialize (Ht acts). pose proof (Hh _ _ Hm).
    destruct Hc as [Hc|[Hc Hs]]; [lia|]. rewrite (Hs _ _ Hm) in H1. lia. }
  pose proof (costs_cons a rest) as Hc. destruct a as [j ls|j [|l ls]|j|j d'|j|j|j]; cbn [cost length] in Hc.
  - intros [= <-]. change (todo_all (set_task t (AEnq j ls :: rest) o) < todo_all o)%nat.
    specialize (Ht (AEnq j ls :: rest)). rewrite (costs_cons (AEnq j ls)) in Ht. cbn [cost] in Ht. lia.
  - intros [= <-]. change (todo_all (set_task t rest o) < todo_all o)%nat. specialize (Ht rest). lia.
  - intros He. apply (Hw _ _ _ He); [left; rewrite (costs_cons (AEnq j ls)); cbn [cost]; lia|]. intros w w'. apply enqueue_weight.
  - intros He. apply (Hw _ _ _ He); [left; rewrite (costs_cons (AWait j d)); cbn [cost]; lia|]. intros w w' E. by apply enqueue_weight in E.
  - intros [= <-]. specialize (Ht rest). lia.
  - intros He. apply (Hw _ _ _ He); [right; split; [lia|by intros w w' [= <-]]|intros w w' [= <-]; unfold weight; cbn; lia].
  - destruct (stopWriter _); [done|]. intros He. apply (Hw _ _ _ He); [right; split; [lia|by intros w w' [= <-]]|].
    intros w w' [= <-]. unfold weight. cbn. lia.
  - intros [= <-]. specialize (Ht rest). lia.
Qed.

Lemma new_no_loops e : loops e = true -> ~ possible e newWriter.
Proof. destruct e; cbn; try done; [naive_solver..|]. by intros _ (? & ? & _). Qed.

Lemma istep_decreases o o' : istep o o' -> (todo_all o' < todo_all o)%nat.
Proof.
  intros [t d ? Hr Ha|j e ? Hl Hp He]; [by eapply act_decreases|].
  destruct (write_event_todo_all _ _ _ _ He) as [_ H]. apply write_event_spec in He as (Hm & _). specialize (Hm j). cbn in Hm.
  rewrite decide_True in Hm by done. pose proof (loops_weight _ _ _ Hl Hp Hm).
  unfold writer in Hp. destruct (writers o !! j) eqn:E; [|by apply (new_no_loops e) in Hl]. specialize (H ltac:(by eexists)). lia.
Qed.

(* ------------------------------------------------------------------ *)
(** ** At rest *)

Definition at_rest (o : Output) : Prop := forall o', ~ istep o o'.

Lemma rest_no_act t d o : inv o -> at_rest o -> ready t d o = false.
Proof.
  intros Hi Hr. destruct (ready t d o) eqn:E; [|done]. destruct (act t d o) as [o'|] eqn:Ea; [|by apply act_no_panic in Ea].
  destruct (Hr o'). by eapply istep_act.
Qed.

Lemma rest_no_loop j e o : inv o -> at_rest o -> loops e = true -> ~ possible e (writer o j).
Proof.
  intros Hi Hr Hl Hp. destruct (inv_streams o Hi j) as (put & _ & Hs).
  destruct (writer_wf_handle _ _ (streams_wf _ _ Hs) Hp) as (w & Ew & _).
  apply (Hr (set_writer j w o)). apply (istep_loop o j e); try done. unfold write_event. by rewrite Ew.
Qed.

(** A writer at rest is in its select with nothing to write, or has returned. *)
Lemma rest_writer j o : inv o -> at_rest o ->
  loop (writer o j) = Returned \/ (loop (writer o j) = Selecting /\ writeQueue (writer o j) = [] /\ stopWriter (writer o j) = false).
Proof.
  intros Hi Hr. pose proof (fun e => rest_no_loop j e o Hi Hr) as Hn. destruct (inv_streams o Hi j) as (put & _ & Hs).
  assert (wakers (writer o j) = 0%nat) as Hk.
  { destruct (wakers (writer o j)) eqn:E; [done|]. destruct (Hn EWaker eq_refl). cbn. lia. }
  destruct (loop (writer o j)) as [| |item|] eqn:El; [right|..|by left].
  - split; [done|]. split.
    + destruct (writeQueue (writer o j)) as [|x q] eqn:Eq; [done|].
      destruct (wf_wake _ (streams_wf _ _ Hs) El) as [Hw|Hw]; [by rewrite Eq| |done]. by destruct (Hn EWake eq_refl).
    + destruct (stopWriter (writer o j)) eqn:Es; [|done]. by destruct (Hn EStop eq_refl).
  - by destruct (Hn ENext eq_refl).
  - destruct (Hn (EWrite (Some 0%nat)) eq_refl). exists item. done.
Qed.

Lemma rest_flushed j d o : inv o -> at_rest o -> d ∈ chans (writer o j) -> flushed d (writer o j) = true.
Proof.
  intros Hi Hr Hd. unfold flushed. destruct (inv_streams o Hi j) as (put & _ & Hs).
  destruct (rest_writer j o Hi Hr) as [->|(Hl & Hq & _)]; [by rewrite (bool_decide_true (Returned = _)), orb_true_r|].
  destruct (wf_chans _ (streams_wf _ _ Hs) d Hd) as [Hc|[Hc|Hc]]; [by rewrite bool_decide_true| |congruence].
  unfold items in Hc. rewrite Hl, Hq in Hc. set_solver.
Qed.

(** No goroutine waits for another for ever. *)
Lemma rest_task t o : inv o -> at_rest o -> task o t = [].
Proof.
  intros Hi Hr. destruct (task o t) as [|a rest] eqn:Et; [done|]. exfalso.
  pose proof (fun d => rest_no_act t d o Hi Hr) as Hn. unfold ready in Hn. rewrite Et in Hn.
  pose proof (head_of_handler _ _ _ _ Hi Et) as Hh.
  destruct a as [j ls|j ls|j|j d|j|j|j]; try (by specialize (Hn 0%nat)).
  - specialize (Hn 0%nat). apply bool_decide_eq_false in Hn. destruct (writerMu o !! j) as [t'|] eqn:Em; [|done].
    apply (inv_mu o Hi) in Em as (ls' & rest' & Em). pose proof (rest_no_act t' 0 o Hi Hr) as Hn'. unfold ready in Hn'. by rewrite Em in Hn'.
  - destruct (exist_fresh (chans (writer o j))) as [d Hd]. specialize (Hn d). by apply bool_decide_eq_false in Hn.
  - specialize (Hn 0%nat). rewrite (rest_flushed j d) in Hn; [done|done|done|]. apply (inv_wait o Hi t). rewrite Et. set_solver.
  - specialize (Hn 0%nat). apply bool_decide_eq_false in Hn. destruct Hh as [(? & ? & _ & ? & _)|Hs]; [done|].
    destruct (rest_writer j o Hi Hr) as [?|(_ & _ & Hst)]; [done|]. inversion Hs; simplify_eq. congruence.
Qed.

Lemma rest_complete j o : inv o -> at_rest o -> connClosed (writer o j) = false -> out (writer o j) = concat (lines_to j (log o)).
Proof.
  intros Hi Hr Hc. destruct (inv_streams o Hi j) as (put & E & Hs).
  assert (remaining o j = []) as Hrem.
  { unfold remaining. destruct (writerMu o !! j) as [t|]; [|done]. by rewrite rest_task. }
  rewrite E, Hrem, app_nil_r, <- (streams_taken _ _ Hs Hc).
  destruct (rest_writer j o Hi Hr) as [Hl|(Hl & Hq & _)].
  - destruct (streams_end _ _ Hs Hl) as [?|Hst]; [congruence|]. destruct (inv_life o Hi j) as (pre & post & Et & _ & Hsg).
    rewrite rest_task in Et by done. symmetry in Et. apply app_eq_nil in Et as [-> ->]. inversion Hsg; congruence.
  - rewrite (wf_order _ (streams_wf _ _ Hs)) by congruence. unfold items. rewrite Hl, Hq. symmetry. apply app_nil_r.
Qed.

Lemma nsteps_todo_all n o o' : nsteps istep n o o' -> (n + todo_all o' <= todo_all o)%nat.
Proof. induction 1 as [o|n o o1 o' Hs _ IH]; [lia|]. apply istep_decreases in Hs. lia. Qed.

(** What a client sees, whatever the order in which the goroutines and the writers
    run: what has been written to it is a prefix of the groups sent to it, each whole and
    not mixed with another, in the order in which their senders took its lock, and the
    groups of one sender are in the order in which it came to them. *)
Lemma clients_see_groups o : oreachable o ->
  (forall j, out (writer o j) `prefix_of` concat (lines_to j (log o))) /\
  (forall t, by_task t (log o) `prefix_of` by_task t (given o)).
Proof.
  intros Hi%inv_oreachable. split.
  - intros j. destruct (inv_streams o Hi j) as (put & -> & Hs). rewrite concat_app. etrans; [apply (streams_out _ _ Hs)|by apply prefix_app_r].
  - intros t. rewrite <- (inv_fifo o Hi t). by apply prefix_app_r.
Qed.

(** The output never blocks for good.  No goroutine panics; left to themselves the
    goroutines and the writers come to rest after at most [todo_all o] steps whichever of
    them run; and at rest every goroutine is done with its actions, all that was sent has
    passed the locks, and a client whose connection is open has received all of it. *)
Lemma output_settles o : oreachable o ->
  (forall t d, ready t d o = true -> act t d o <> None) /\
  (forall n o', nsteps istep n o o' -> (n <= todo_all o)%nat) /\
  (at_rest o ->
     (forall t, task o t = [] /\ by_task t (log o) = by_task t (given o)) /\
     (forall j, connClosed (writer o j) = false -> out (writer o j) = concat (lines_to j (log o)))).
Proof.
  intros Hi%inv_oreachable. split; [intros t d; by apply act_no_panic|]. split.
  - intros n o' H%nsteps_todo_all. lia.
  - intros Hr. split; [|intros j; by apply rest_complete]. intros t. pose proof (rest_task t o Hi Hr) as Ht.
    split; [done|]. rewrite <- (inv_fifo o Hi t), Ht. cbn. by rewrite app_nil_r.
Qed.

(* ------------------------------------------------------------------ *)
(** ** Flushing before closing *)

Lemma taken_mono e w w' : possible e w -> handle e w = Some w' -> taken w `prefix_of` taken w'.
Proof.
  intros Hp He. destruct e as [l|d| | | | |f| |]; cbn in *.
  1, 2: apply enqueue_effect in He as (_ & _ & _ & [[_ ->]|[_ ->]]); cbn; [done|by apply prefix_app_r].
  all: simplify_eq; try done.
  - unfold next. by destruct (writeQueue w).
  - destruct (handle_effect (EWrite f) w w' Hp He) as [_ _ _ E _ _]. by rewrite E by eauto.
Qed.

(** Every step of the whole is at most one event of a writer. *)
Lemma ostep_writer o o' j : inv o -> ostep o o' ->
  writer o' j = writer o j \/ exists e, possible e (writer o j) /\ handle e (writer o j) = Some (writer o' j).
Proof.
  intros Hi [t acts _ _ _|t acts _ _ _|? [t d ? Hr Ha|k e ? Hl Hp He]]; [by left|by left|..].
  - destruct (act_acted _ _ _ _ Ha Hr) as (a & rest & Hac & _). pose proof (acted_event _ _ _ _ _ _ Hi Hac Hr j) as H.
    destruct (event_of a d) as [[k e]|]; [|by left]. case_decide; [right; eauto|by left].
  - apply write_event_spec in He as (Hm & _). specialize (Hm j). cbn in Hm. case_decide; [subst; right; eauto|by left].
Qed.

(** A goroutine is in a flush: it was already, or it has just begun it. *)
Lemma ostep_wait o o' t j d rest : inv o -> ostep o o' -> task o' t = AWait j d :: rest ->
  (exists rest', task o t = AWait j d :: rest') \/ handle (EFlush d) (writer o j) = Some (writer o' j).
Proof.
  intros Hi [t' acts Ht _ Hp|t' acts Ht _ Hp|? [t' d' ? Hr Ha|k e ? Hl Hp He]] Hw.
  - left. change (task (set_task t' acts o) t = AWait j d :: rest) in Hw. rewrite task_set_task in Hw. case_decide; [subst; done|eauto].
  - left. change (task (set_task t' (acts ++ ending t') o) t = AWait j d :: rest) in Hw. rewrite task_set_task in Hw. case_decide; [|eauto].
    destruct acts as [|b acts]; [done|]. by simplify_eq/=.
  - destruct (act_acted _ _ _ _ Ha Hr) as (a & rest' & Hac & _). rewrite (acted_task _ _ _ _ _ _ Hac) in Hw. case_decide; [subst|left; eauto].
    pose proof (acted_writers _ _ _ _ _ _ Hac j) as Hm. pose proof (acted_was _ _ _ _ _ _ Hac) as Hh.
    assert (rest' <> AWait j d :: rest) as Hn.
    { destruct (head_of_handler _ _ _ _ Hi Hh) as [(pre & post & -> & _ & Hp & Hs)|Hs]; [|by inversion Hs; simplify_eq].
      destruct pre; [cbn; intros ->; inversion Hs|intros E; by simplify_eq/=]. }
    destruct a as [?|? [|]| | | | |]; simplify_eq/=. rewrite decide_True in Hm by done. by right.
  - left. apply write_event_spec in He as (_ & _ & E & _). exists rest. unfold task in *. by rewrite E in Hw.
Qed.

Lemma ostep_closed o o' j : inv o -> ostep o o' -> connClosed (writer o j) = true -> connClosed (writer o' j) = true.
Proof.
  intros Hi Hs Hc. destruct (ostep_writer o o' j Hi Hs) as [->|(e & Hp & He)]; [done|]. by apply (handle_effect e _ _ Hp He).
Qed.

(** The actions of a busy goroutine change only by its own steps. *)
Lemma ostep_task o o' t a rest : ostep o o' -> task o t = a :: rest ->
  task o' t = a :: rest \/ exists d, acted t d a rest o o' /\ ready t d o = true.
Proof.
  intros [t' acts Ht _ _|t' acts Ht _ _|? [t' d ? Hr Ha|k e ? _ _ He]] Hw.
  - left. change (task (set_task t' acts o) t = a :: rest). rewrite task_set_task. case_decide; [congruence|done].
  - left. change (task (set_task t' (acts ++ ending t') o) t = a :: rest). rewrite task_set_task. case_decide; [congruence|done].
  - destruct (act_acted _ _ _ _ Ha Hr) as (b & rest' & Hac & _). destruct (decide (t = t')) as [->|Hne].
    + right. exists d. pose proof (acted_was _ _ _ _ _ _ Hac) as E. rewrite Hw in E. injection E as <- <-. done.
    + left. rewrite (acted_task _ _ _ _ _ _ Hac). by rewrite decide_False.
  - left. apply write_event_spec in He as (_ & _ & E & _). unfold task in *. by rewrite E.
Qed.

Section Goodbye.
Context (t j : nat) (l : bytes).

(** A goroutine is about to send a last line to [j], flush it and close it. *)
Definition goodbye : list action := [APut j [l]; AFlush j; AClose j].
Definition sends (a : action) : bool := match a with APut _ _ | AEnq _ _ => true | _ => false end.

(** The line is queued, and a flush of [t] in progress waits for it. *)
Definition queued (o : Output) : Prop :=
  l ∈ taken (writer o j) /\
  forall d rest, task o t = AWait j d :: rest -> exists tk, marks (writer o j) !! d = Some tk /\ l ∈ tk.

Inductive leaving (o : Output) : Prop :=
| leaving_closed : connClosed (writer o j) = true -> leaving o
| leaving_before pre : task o t = pre ++ goodbye -> forallb sends pre = true -> leaving o
| leaving_locked : task o t = [AEnq j [l]; AFlush j; AClose j] -> leaving o
| leaving_queued : queued o -> leaving o.

Lemma queued_ostep o o' : inv o -> queued o -> ostep o o' -> queued o'.
Proof.
  intros Hi [Ht Hm] Hs. split.
  - destruct (ostep_writer o o' j Hi Hs) as [->|(e & Hp & He)]; [done|]. destruct (taken_mono _ _ _ Hp He) as [k ->]. set_solver.
  - intros d rest Hw. destruct (ostep_wait _ _ _ _ _ _ Hi Hs Hw) as [(rest' & Hw')|Hf].
    + destruct (Hm d rest' Hw') as (tk & E & Hin). exists tk. split; [|done].
      destruct (ostep_writer o o' j Hi Hs) as [->|(e & Hp & He)]; [done|]. eapply handle_shape; try done.
      apply (inv_wait o Hi t). rewrite Hw'. set_solver.
    + exists (taken (writer o j)). split; [|done]. cbn in Hf. unfold flush, enqueue in Hf. cbn in Hf.
      assert (wf (writer o j)) as Hwf by (destruct (inv_streams o Hi j) as (put & _ & Hst); apply Hst).
      pose proof (wf_bound _ Hwf) as Hb. assert (writeBytes (writer o j) + 0 >? maxQueuedOutput = false) as E by lia.
      change (blen []) with 0 in Hf. rewrite E in Hf. injection Hf as <-. cbn. apply lookup_insert_eq.
Qed.

Lemma leaving_ostep o o' : inv o -> leaving o -> ostep o o' -> leaving o'.
Proof.
  intros Hi Hl Hs. destruct Hl as [Hc|[|a pre] Ht Hp|Ht|Hq].
  - apply leaving_closed. by eapply ostep_closed.
  - destruct (ostep_task _ _ _ _ _ Hs Ht) as [Ht'|(d & Hac & _)]; [by eapply (leaving_before _ [])|].
    apply leaving_locked. rewrite (acted_task _ _ _ _ _ _ Hac). by rewrite decide_True.
  - destruct (ostep_task _ _ _ _ _ Hs Ht) as [Ht'|(d & Hac & _)]; [by eapply (leaving_before _ (a :: pre))|].
    apply (leaving_before _ (after a d ++ pre)); [rewrite (acted_task _ _ _ _ _ _ Hac), decide_True by done; by rewrite app_assoc|].
    change (sends a && forallb sends pre = true) in Hp. apply andb_true_iff in Hp as [Ha Hp]. rewrite forallb_app, Hp. by destruct a as [| ? [|]| | | | |].
  - destruct (ostep_task _ _ _ _ _ Hs Ht) as [Ht'|(d & Hac & _)]; [by apply leaving_locked|].
    pose proof (acted_writers _ _ _ _ _ _ Hac j) as Hw. cbn in Hw. rewrite decide_True in Hw by done.
    apply enqueue_effect in Hw as (_ & _ & _ & [[Hc _]|[_ Htk]]); [by apply leaving_closed|].
    apply leaving_queued. split; [rewrite Htk; set_solver|]. intros d' rest'. rewrite (acted_task _ _ _ _ _ _ Hac). by rewrite decide_True.
  - apply leaving_queued. by eapply queued_ostep.
Qed.

Lemma elem_concat (x : bytes) (ls : list bytes) : x ∈ ls -> exists a b, concat ls = a ++ x ++ b.
Proof.
  intros (l1 & l2 & ->)%list_elem_of_split. exists (concat l1), (concat l2). by rewrite concat_app.
Qed.

(** Told before it is closed: when such a flush ends, with the connection open and the
    writer not stopped, the line has been written. *)
Lemma goodbye_written o o' pre d rest' :
  inv o -> task o t = pre ++ goodbye -> forallb sends pre = true -> rtc ostep o o' ->
  task o' t = AWait j d :: rest' -> ready t d o' = true ->
  connClosed (writer o' j) = false -> stopWriter (writer o' j) = false -> exists a b, out (writer o' j) = a ++ l ++ b.
Proof.
  intros Hi Ht Hp Hs Hw Hr Hc Hst.
  assert (inv o' /\ leaving o') as [Hi' Hl].
  { assert (leaving o) as Hl by (by eapply leaving_before). clear -Hi Hl Hs.
    induction Hs as [|x y z Hxy _ IH]; [done|]. apply IH; [by eapply inv_ostep|by eapply leaving_ostep]. }
  destruct Hl as [Hc'|pre' Ht' Hp'|Ht'|[_ Hm]]; [congruence| |congruence|].
  { rewrite Hw in Ht'. destruct pre' as [|b pre']; [done|]. by simplify_eq/=. }
  destruct (Hm d rest' Hw) as (tk & E & Hin). unfold ready in Hr. rewrite Hw in Hr. unfold flushed in Hr.
  destruct (inv_streams o' Hi' j) as (put & _ & Hstr).
  apply orb_true_iff in Hr as [Hr%bool_decide_eq_true|Hr%bool_decide_eq_true]; [|by destruct (streams_end _ _ Hstr Hr); congruence].
  destruct (wf_marked _ (streams_wf _ _ Hstr) _ _ E Hr) as [b ->]. destruct (elem_concat l tk Hin) as (x & y & ->).
  exists x, (y ++ b). by rewrite <- !app_assoc.
Qed.
End Goodbye.

(* ------------------------------------------------------------------ *)
(** ** Runs *)

Inductive oevent := Spawn (t : nat) (acts : list action) | Leave (t : nat) (acts : list action) | Act (t d : nat) | Turn (j : nat) (e : event).

Definition oexec (e : oevent) (o : Output) : option Output :=
  match e with
  | Spawn t acts => if bool_decide (task o t = []) && bool_decide (t ∉ over o) && forallb plain acts then Some (spawn t acts o) else None
  | Leave t acts => if bool_decide (task o t = []) && bool_decide (t ∉ over o) && forallb plain acts then Some (leave t acts o) else None
  | Act t d => if ready t d o then act t d o else None
  | Turn j e => if loops e && possibleb e (writer o j) then write_event j e o else None
  end.

Lemma oexec_istep e o o' : match e with Act _ _ | Turn _ _ => True | _ => False end -> oexec e o = Some o' -> istep o o'.
Proof.
  destruct e as [| |t d|j e]; try done; intros _; cbn.
  - destruct (ready t d o) eqn:E; [|done]. by apply istep_act.
  - destruct (loops e) eqn:El; [|done]. cbn. destruct (possibleb e (writer o j)) eqn:Ep; [|done]. by apply istep_loop, possibleb_sound.
Qed.

Lemma oexec_ostep e o o' : oexec e o = Some o' -> ostep o o'.
Proof.
  destruct e as [t acts|t acts|t d|j e]; intros H;
    [| |apply ostep_istep; by apply (oexec_istep (Act t d))|apply ostep_istep; by apply (oexec_istep (Turn j e))].
  all: cbn in H; destruct (bool_decide _ && bool_decide _ && forallb plain acts) eqn:E; [|done]; injection H as <-;
    apply andb_true_iff in E as [[E1%bool_decide_eq_true E2%bool_decide_eq_true]%andb_true_iff E3].
  - by apply ostep_spawn.
  - by apply ostep_leave.
Qed.

Fixpoint orun (es : list oevent) (o : Output) : option Output :=
  match es with [] => Some o | e :: es => o ← oexec e o; orun es o end.

Lemma orun_rtc es : forall o o', orun es o = Some o' -> rtc ostep o o'.
Proof.
  induction es as [|e es IH]; cbn; intros o o' H; [by simplify_eq|]. destruct (oexec e o) as [o1|] eqn:E; [|done].
  apply oexec_ostep in E. eapply rtc_l; [exact E|by apply IH].
Qed.

(** Whether nothing more happens of itself. *)
Definition idle (w : Writer) : bool :=
  bool_decide (wakers w = 0%nat) &&
  match loop w with Selecting => negb (writeWake w) && negb (stopWriter w) | Returned => true | _ => false end.
Definition restb (o : Output) : bool :=
  forallb (fun ta : nat * list action => bool_decide (ta.2 = [])) (map_to_list (tasks o)) &&
  forallb (fun jw : nat * Writer => idle jw.2) (map_to_list (writers o)).

Lemma idle_sound e w : idle w = true -> loops e = true -> ~ possible e w.
Proof.
  unfold idle. intros [Hk%bool_decide_eq_true Hl]%andb_true_iff He Hp. destruct e; try done; cbn in Hp.
  - destruct Hp as [Hp Hp']. by rewrite Hp, Hp' in Hl.
  - destruct Hp as [Hp Hp']. rewrite Hp, Hp' in Hl. by destruct (writeWake w).
  - by rewrite Hp in Hl.
  - destruct Hp as (item & Hp & _). by rewrite Hp in Hl.
Qed.

Lemma restb_sound o : restb o = true -> at_rest o.
Proof.
  unfold restb. intros [Ht Hw]%andb_true_iff o' [t d ? Hr _|j e ? Hl Hp _].
  - unfold ready, task in Hr. destruct (tasks o !! t) as [acts|] eqn:E; [|done]. apply elem_of_map_to_list in E.
    apply Is_true_true, forallb_True in Ht. eapply Forall_forall in Ht; [|exact E]. apply Is_true_true, bool_decide_eq_true in Ht.
    cbn in *. by subst.
  - unfold writer in Hp. destruct (writers o !! j) as [w|] eqn:E; [|by apply new_no_loops in Hp]. apply elem_of_map_to_list in E.
    apply Is_true_true, forallb_True in Hw. eapply Forall_forall in Hw; [|exact E]. apply Is_true_true in Hw. cbn in *. by apply (idle_sound e w).
Qed.
