(* ===== verification/IrcListener.v ===== *)
(** * irc/server/server.go: accepting connections

    The accept loops with their limit on clients, event by event: a connection is a
    number, its life is spread over several events, and those of different connections
    interleave.  Two loops, for plain and TLS connections, share the counter. *)

From S2P Require Import Prelude.

(** [refusing] are the connections over the limit, between the two changes of the
    counter; [starting] those handed to [startSession], [serving] those in
    [handleSession]. *)
Record Listeners := {
  clientsCurrent : Z; clientsTotal : Z;
  refusing : gset nat; starting : gset nat; serving : gset nat; gone : gset nat
}.
Definition newListeners : Listeners :=
  {| clientsCurrent := 0; clientsTotal := 0; refusing := ∅; starting := ∅; serving := ∅; gone := ∅ |}.

Inductive event := EAccept (i : nat) | ERefuse (i : nat) | EHandshake (i : nat) (works : bool) | EEnd (i : nat).

Definition possible (e : event) (s : Listeners) : Prop :=
  match e with
  | EAccept i => i ∉ refusing s ∪ starting s ∪ serving s ∪ gone s
  | ERefuse i => i ∈ refusing s
  | EHandshake i _ => i ∈ starting s
  | EEnd i => i ∈ serving s
  end.

Definition acceptLoop (MaxClients : Z) (i : nat) (s : Listeners) : Listeners :=
  let current := clientsCurrent s + 1 in
  if (0 <? MaxClients) && (MaxClients <? current)
  then {| clientsCurrent := current; clientsTotal := clientsTotal s; refusing := {[i]} ∪ refusing s; starting := starting s;
          serving := serving s; gone := gone s |}
  else {| clientsCurrent := current; clientsTotal := clientsTotal s; refusing := refusing s; starting := {[i]} ∪ starting s;
          serving := serving s; gone := gone s |}.

(** The counter is taken back, the connection told and closed. *)
Definition refuse (i : nat) (s : Listeners) : Listeners :=
  {| clientsCurrent := clientsCurrent s - 1; clientsTotal := clientsTotal s; refusing := refusing s ∖ {[i]}; starting := starting s;
     serving := serving s; gone := {[i]} ∪ gone s |}.

(** [works] is the result of the handshake, always true without TLS. *)
Definition startSession (i : nat) (works : bool) (s : Listeners) : Listeners :=
  if works
  then {| clientsCurrent := clientsCurrent s; clientsTotal := clientsTotal s + 1; refusing := refusing s;
          starting := starting s ∖ {[i]}; serving := {[i]} ∪ serving s; gone := gone s |}
  else {| clientsCurrent := clientsCurrent s - 1; clientsTotal := clientsTotal s; refusing := refusing s;
          starting := starting s ∖ {[i]}; serving := serving s; gone := {[i]} ∪ gone s |}.

(** The deferred part of [handleSession]. *)
Definition endSession (i : nat) (s : Listeners) : Listeners :=
  {| clientsCurrent := clientsCurrent s - 1; clientsTotal := clientsTotal s; refusing := refusing s; starting := starting s;
     serving := serving s ∖ {[i]}; gone := {[i]} ∪ gone s |}.

Definition handle (MaxClients : Z) (e : event) (s : Listeners) : Listeners :=
  match e with
  | EAccept i => acceptLoop MaxClients i s
  | ERefuse i => refuse i s
  | EHandshake i works => startSession i works s
  | EEnd i => endSession i s
  end.

Inductive reachable (MaxClients : Z) : Listeners -> Prop :=
| reach_new : reachable MaxClients newListeners
| reach_step e s : reachable MaxClients s -> possible e s -> reachable MaxClients (handle MaxClients e s).

Definition admitted (s : Listeners) : Z := Z.of_nat (size (starting s)) + Z.of_nat (size (serving s)).

(** The counter counts, and the limit holds. *)
Record wf (MaxClients : Z) (s : Listeners) : Prop := {
  wf_count : clientsCurrent s = Z.of_nat (size (refusing s)) + admitted s;
  wf_limit : 0 < MaxClients -> admitted s <= MaxClients;
  wf_phase : starting s ## serving s
}.

Lemma listener_wf_handle MaxClients e s : wf MaxClients s -> possible e s -> wf MaxClients (handle MaxClients e s).
Proof.
  intros [Hc Hl Hd] Hp. unfold admitted in *. destruct e as [i|i|i works|i]; cbn in Hp |- *.
  - unfold acceptLoop. destruct (Z.ltb_spec 0 MaxClients), (Z.ltb_spec MaxClients (clientsCurrent s + 1)); cbn;
      (split; unfold admitted; cbn; [rewrite ?size_add by set_solver; lia..|set_solver]).
  - split; unfold admitted; cbn; rewrite ?size_del by done; [lia|lia|set_solver].
  - unfold startSession. destruct works; (split; unfold admitted; cbn; [rewrite ?size_del, ?size_add by set_solver; lia..|set_solver]).
  - split; unfold admitted; cbn; rewrite ?size_del by done; [lia|lia|set_solver].
Qed.

(** The limit on clients.  Whatever the interleaving of the accept loops and of the
    sessions, at most [MaxClients] connections are admitted at a time, and the counter is
    the number of those plus the ones being refused. *)
Theorem clients_limited MaxClients s : reachable MaxClients s ->
  clientsCurrent s = Z.of_nat (size (refusing s)) + admitted s /\ (0 < MaxClients -> admitted s <= MaxClients).
Proof.
  intros Hr. assert (wf MaxClients s) as [? ?]; [|done].
  induction Hr as [|e s _ IH Hp]; [split; unfold admitted; cbn; rewrite ?size_empty; [lia|lia|set_solver]|by apply listener_wf_handle].
Qed.

(** ** Runs *)

#[export] Instance possible_dec e s : Decision (possible e s).
Proof. destruct e; cbn; apply _. Defined.

Fixpoint go (MaxClients : Z) (es : list event) (s : Listeners) : option Listeners :=
  match es with
  | [] => Some s
  | e :: es => if bool_decide (possible e s) then go MaxClients es (handle MaxClients e s) else None
  end.

Lemma listener_go_reachable MaxClients es : forall s s', reachable MaxClients s -> go MaxClients es s = Some s' -> reachable MaxClients s'.
Proof.
  induction es as [|e es IH]; intros s s' Hr; cbn; [by intros [= <-]|]. case_bool_decide; [|done]. apply IH. by constructor.
Qed.

Definition full : Listeners := default newListeners (go 1 [EAccept 0; EHandshake 0 true; EAccept 1] newListeners).

Lemma clients_limited_witness : clientsCurrent full = Z.of_nat (size (refusing full)) + admitted full /\ (0 < 1 -> admitted full <= 1).
Proof.
  apply (clients_limited 1 full). apply (listener_go_reachable 1 [EAccept 0; EHandshake 0 true; EAccept 1] newListeners); [constructor|].
  vm_compute. reflexivity.
Defined.

(** The counter includes connections that are being refused, so that one can be refused
    while nobody is admitted. *)
Lemma refused_when_empty : exists s, reachable 1 s /\ admitted s = 0 /\ possible (EAccept 2) s /\ 2%nat ∈ refusing (handle 1 (EAccept 2) s).
Proof.
  exists (default newListeners (go 1 [EEnd 0] full)). split; [|split; [by vm_compute|split; apply (bool_decide_eq_true_1 _); by vm_compute]].
  apply (listener_go_reachable 1 [EAccept 0; EHandshake 0 true; EAccept 1; EEnd 0] newListeners); [constructor|]. vm_compute. reflexivity.
Qed.

(* ------------------------------------------------------------------ *)
(** ** The listeners *)

(** [listeners] are those tracked, by number; [opened] the ones not closed; [tls] those
    that [tls.Listen] made; [accepting] the running accept loops with their argument
    [secure]. *)
Record Accepting := { listeners : list nat; opened : gset nat; tls : gset nat; accepting : list (nat * bool) }.
Definition newAccepting : Accepting := {| listeners := []; opened := ∅; tls := ∅; accepting := [] |}.

Definition trackListener (ln : nat) (secure : bool) (a : Accepting) : Accepting :=
  {| listeners := listeners a ++ [ln]; opened := {[ln]} ∪ opened a; tls := if secure then {[ln]} ∪ tls a else tls a; accepting := accepting a |}.
Definition go_accept (l : list (nat * bool)) (a : Accepting) : Accepting :=
  {| listeners := listeners a; opened := opened a; tls := tls a; accepting := accepting a ++ l |}.
Definition close_listener (ln : nat) (a : Accepting) : Accepting :=
  {| listeners := listeners a; opened := opened a ∖ {[ln]}; tls := tls a; accepting := accepting a |}.

(** [ListenAndServe] up to its wait.  [valid] is the result of [validateConfig], [plain]
    that of [net.Listen], and [second], with TLS, that of [tls.Listen]; [None] is an error,
    of which the second closes the first listener. *)
Definition ListenAndServe (valid : bool) (plain : option nat) (second : option (option nat)) (a : Accepting) : Accepting :=
  if negb valid then a
  else match plain with
       | None => a
       | Some ln =>
           let a := go_accept [(ln, false)] (trackListener ln false a) in
           match second with
           | None => a
           | Some (Some tlsLn) => go_accept [(tlsLn, true)] (trackListener tlsLn true a)
           | Some None => close_listener ln a
           end
       end.
Definition ListenRandom (valid : bool) (plain : option nat) (a : Accepting) : Accepting :=
  if negb valid then a else match plain with None => a | Some ln => trackListener ln false a end.
Definition ServeListener (a : Accepting) : Accepting := go_accept (map (fun ln => (ln, false)) (listeners a)) a.
Definition CloseListeners (a : Accepting) : Accepting :=
  {| listeners := listeners a; opened := opened a ∖ list_to_set (listeners a); tls := tls a; accepting := accepting a |}.

(** An accept loop ends when [Accept] fails, as it does on a closed listener, and closes
    its own. *)
Definition end_loop (k : nat) (a : Accepting) : Accepting :=
  match accepting a !! k with
  | Some (ln, _) => {| listeners := listeners a; opened := opened a ∖ {[ln]}; tls := tls a; accepting := delete k (accepting a) |}
  | None => a
  end.

Inductive astep (a : Accepting) : Accepting -> Prop :=
| astep_serve valid plain second :
    (forall ln, plain = Some ln -> ln ∉ listeners a) -> (forall t, second = Some (Some t) -> t ∉ option_list plain ++ listeners a) ->
    astep a (ListenAndServe valid plain second a)
| astep_random valid plain : (forall ln, plain = Some ln -> ln ∉ listeners a) -> astep a (ListenRandom valid plain a)
| astep_listener : astep a (ServeListener a)
| astep_close : astep a (CloseListeners a)
| astep_end k : astep a (end_loop k a).

Definition tracked (a : Accepting) : Prop :=
  (forall ln s, (ln, s) ∈ accepting a -> ln ∈ listeners a) /\ (forall ln, ln ∈ opened a -> ln ∈ listeners a).

Lemma tracked_astep a a' : tracked a -> astep a a' -> tracked a'.
Proof.
  intros [H1 H2] Hs. destruct Hs as [[|] [ln|] second _ _|[|] [ln|] _| | |k]; try done.
  - destruct second as [[t|]|]; split; cbn; set_solver.
  - split; cbn; set_solver.
  - split; cbn; [|exact H2]. intros ln s [Hin|Hin]%elem_of_app; [by eapply H1|]. by apply list_elem_of_fmap in Hin as (x & [= -> _] & ?).
  - split; cbn; set_solver.
  - unfold end_loop. destruct (accepting a !! k) as [[ln s]|] eqn:E; [|done]. split; cbn; [|set_solver].
    intros ln' s' Hin. apply (H1 ln' s'). rewrite delete_take_drop in Hin. rewrite <- (take_drop k (accepting a)), elem_of_app.
    apply elem_of_app in Hin as [Hin|Hin]; [by left|right]. rewrite <- (take_drop 1 (drop k (accepting a))), elem_of_app. right. rewrite drop_drop.
    by replace (k + 1)%nat with (S k) by lia.
Qed.

(** [Close] is final for what the server listens on: whatever was started before, no accept
    loop is left that can accept another connection. *)
Theorem close_stops_accepting a : rtc astep newAccepting a ->
  forall ln s, (ln, s) ∈ accepting (CloseListeners a) -> ln ∉ opened (CloseListeners a).
Proof.
  intros Hr. assert (tracked a) as [H1 _].
  { revert Hr. apply (rtc_ind_r tracked newAccepting); [split; set_solver|]. intros x y _ Hs Hi. by eapply tracked_astep. }
  intros ln s Hin. cbn in *. apply H1 in Hin. set_solver.
Qed.

Lemma close_stops_accepting_witness :
  forall ln s, (ln, s) ∈ accepting (CloseListeners (ServeListener (ListenRandom true (Some 1%nat) newAccepting))) ->
    ln ∉ opened (CloseListeners (ServeListener (ListenRandom true (Some 1%nat) newAccepting))).
Proof.
  apply close_stops_accepting. eapply rtc_l; [apply (astep_random _ true (Some 1%nat)); set_solver|]. apply rtc_once, astep_listener.
Defined.

(** [ServeListener] accepts on every tracked listener as if it were a plain one: sessions
    of a TLS listener that it serves are not marked secure. *)
Theorem serve_listener_forgets_tls : exists a ln,
  rtc astep newAccepting a /\ ln ∈ tls a /\ (ln, false) ∈ accepting (ServeListener a).
Proof.
  exists (ListenAndServe true (Some 1%nat) (Some (Some 2%nat)) newAccepting), 2%nat. split; [|split; cbn; set_solver].
  apply rtc_once, astep_serve; [set_solver|]. intros t [= <-]. set_solver.
Qed.
