(* ===== verification/IrcLabels.v ===== *)
(** * Labelled responses of the IRC server

    While a labelled command runs, everything the server has to say to its sender is
    collected; [outputs] follows the collection through every handler. *)

From S2P Require Import Prelude GoStrings GoTime GoEncoding IrcMessage IrcMode IrcNames IrcConst IrcServer IrcHandlers IrcReason IrcInvariant IrcAuthority IrcSessions.

(** What a program may do to the output while a response for [i] is collected: extend
    it, and send to others.  Sessions neither begin nor end. *)
Record outputs (i : nat) (a b : Server) : Prop := {
  outputs_who : forall j, is_Some (response b !! j) <-> is_Some (response a !! j);
  outputs_sent : exists d, sent b = sent a ++ d /\ (is_Some (response a !! i) -> Forall (fun jm => jm.1 <> i) d);
  outputs_label : forall r, response a !! i = Some r -> exists r', response b !! i = Some r' /\ rlabel r' = rlabel r;
  outputs_live : live b = live a;
  outputs_store : forall j, is_Some (store a !! j) -> is_Some (store b !! j)
}.

#[export] Instance outputs_pre i : PreOrder (outputs i).
Proof.
  split.
  - intros a. split; [done|exists []; by rewrite app_nil_r|eauto|done|done].
  - intros a b c [A1 (d1 & A2 & A3) A4 A5 A6] [B1 (d2 & B2 & B3) B4 B5 B6]. split; [| | |congruence|auto].
    + intros j. by rewrite B1, A1.
    + exists (d1 ++ d2). split; [by rewrite B2, A2, app_assoc|]. intros H. apply Forall_app. split; [auto|]. apply B3. by apply A1.
    + intros r Hr. destruct (A4 r Hr) as (r1 & H1 & E1). destruct (B4 r1 H1) as (r2 & H2 & E2). exists r2. split; [done|congruence].
Qed.

Lemma outputs_same i m :
  (forall srv, response (m srv) = response srv) -> (forall srv, sent (m srv) = sent srv) -> (forall srv, live (m srv) = live srv) ->
  (forall srv, store (m srv) = store srv) -> stable (outputs i) (modify m).
Proof.
  intros H1 H2 H3 H4 srv. unfold modify. cbn [snd].
  split; rewrite ?H1, ?H2, ?H3, ?H4; [done|exists []; by rewrite app_nil_r|eauto|done|done].
Qed.

Lemma outputs_update i j f : stable (outputs i) (update j f).
Proof.
  intros srv. unfold update, modify. cbn [snd]. split; [done|exists []; by rewrite app_nil_r|eauto|done|].
  intros k Hk. cbn. by apply lookup_alter_is_Some.
Qed.

Create HintDb outs discriminated.
#[export] Hint Constants Opaque : outs.

Ltac out_step :=
  match goal with
  | |- stable _ (mbind _ _) => apply stable_bind; [apply _|..|intros ?]
  | |- stable _ (mret _) => intros ?; reflexivity
  | |- stable _ get => intros ?; reflexivity
  | |- stable _ (the _) => intros ?; reflexivity
  | |- stable _ (update _ _) => apply outputs_update
  | |- stable _ (modify_channel _ _) => apply outputs_same; reflexivity
  | |- stable _ (modify _) => apply outputs_same; reflexivity
  | |- stable _ (when _ _) => apply stable_when; [apply _|]
  | |- stable _ (forM_ _ _) => apply stable_forM_; [apply _|intros ?]
  | |- stable _ (foldM _ _ _) => apply stable_foldM; [apply _|intros ? ?]
  | |- stable _ (match ?x with _ => _ end) => destruct x
  | |- stable _ (let _ := _ in _) => cbv zeta
  end.
Ltac solve_outs := repeat first [ solve [eauto 2 with outs nocore] | out_step ].

Section Labels.
Context {HU : GoUnicode} {HI : IterOrder} {cfg : Config} {env : Env} {HB : Bcrypt}.

Lemma out_Send_ i b j msg : stable (outputs i) (Send_ b j msg).
Proof.
  apply stable_get. intros srv. cbv zeta. if_step; [reflexivity|].
  destruct (response srv !! j) as [r|] eqn:E.
  - split; cbn.
    + intros k. destruct (decide (j = k)) as [<-|]; [rewrite lookup_insert_eq, E|by rewrite lookup_insert_ne]. by split; eexists.
    + exists []. by rewrite app_nil_r.
    + intros r0 Hr. destruct (decide (j = i)) as [->|]; [|rewrite lookup_insert_ne by done; eauto].
      rewrite lookup_insert_eq. simplify_eq. eexists. split; [done|]. by destruct b.
    + done.
    + done.
  - split; cbn; [done| |eauto|done|done]. eexists. split; [done|]. intros [r Hr]. constructor; [cbn; congruence|constructor].
Qed.
Lemma out_Send i j msg : stable (outputs i) (Send j msg).
Proof. apply out_Send_. Qed.
#[local] Hint Resolve out_Send : outs.
Lemma out_sendImmediate i j msg : stable (outputs i) (sendImmediate j msg).
Proof. apply out_Send_. Qed.
#[local] Hint Resolve out_sendImmediate : outs.
Lemma out_SendNumeric i j n ps : stable (outputs i) (SendNumeric j n ps).
Proof. unfold SendNumeric. solve_outs. Qed.
#[local] Hint Resolve out_SendNumeric : outs.
Lemma out_Sendf i j c ps : stable (outputs i) (Sendf j c ps).
Proof. unfold Sendf. solve_outs. Qed.
#[local] Hint Resolve out_Sendf : outs.
Lemma out_Channel_Broadcast i ch msg ex : stable (outputs i) (Channel_Broadcast ch msg ex).
Proof. unfold Channel_Broadcast. solve_outs. Qed.
#[local] Hint Resolve out_Channel_Broadcast : outs.
Lemma out_sendMonitorList i j n vs : stable (outputs i) (sendMonitorList j n vs).
Proof. unfold sendMonitorList. solve_outs. Qed.
#[local] Hint Resolve out_sendMonitorList : outs.
Lemma out_notifyMonitorOnline i j : stable (outputs i) (notifyMonitorOnline j).
Proof. unfold notifyMonitorOnline. solve_outs. Qed.
#[local] Hint Resolve out_notifyMonitorOnline : outs.
Lemma out_notifyMonitorOffline i n : stable (outputs i) (notifyMonitorOffline n).
Proof. unfold notifyMonitorOffline. solve_outs. Qed.
#[local] Hint Resolve out_notifyMonitorOffline : outs.
Lemma out_sendMOTD i j : stable (outputs i) (sendMOTD j).
Proof. unfold sendMOTD. solve_outs. Qed.
#[local] Hint Resolve out_sendMOTD : outs.
Lemma out_sendLusers i j : stable (outputs i) (sendLusers j).
Proof. unfold sendLusers. solve_outs. Qed.
#[local] Hint Resolve out_sendLusers : outs.
Lemma out_sendCAP i j a b : stable (outputs i) (sendCAP j a b).
Proof. unfold sendCAP. solve_outs. Qed.
#[local] Hint Resolve out_sendCAP : outs.
Lemma out_sendCAPList i j a cs : stable (outputs i) (sendCAPList j a cs).
Proof.
  unfold sendCAPList. destruct cs as [|c cs]; [apply out_sendCAP|]. generalize (groups 400 (c :: cs)) as ls.
  induction ls as [|g [|g' ls] IH]; cbn [send_cap_lines]; solve_outs.
Qed.
#[local] Hint Resolve out_sendCAPList : outs.
Lemma out_notify_new i msg p no l : stable (outputs i) (notify_new msg p no l).
Proof. unfold notify_new. solve_outs. Qed.
#[local] Hint Resolve out_notify_new : outs.
Lemma out_rejoin i j k p chs : stable (outputs i) (rejoin j k p chs).
Proof. unfold rejoin. solve_outs. Qed.
#[local] Hint Resolve out_rejoin : outs.
Lemma out_notifyAccount i j p : stable (outputs i) (notifyAccount j p).
Proof. unfold notifyAccount. solve_outs. Qed.
#[local] Hint Resolve out_notifyAccount : outs.
Lemma out_notifyHostChange i j p : stable (outputs i) (notifyHostChange j p).
Proof. unfold notifyHostChange. solve_outs. Qed.
#[local] Hint Resolve out_notifyHostChange : outs.
Lemma out_sendNames i j ch : stable (outputs i) (sendNames j ch).
Proof. unfold sendNames. solve_outs. Qed.
#[local] Hint Resolve out_sendNames : outs.
Lemma out_send_topic i j n ch : stable (outputs i) (send_topic j n ch).
Proof. unfold send_topic. solve_outs. Qed.
#[local] Hint Resolve out_send_topic : outs.
Lemma out_sendChatHistoryFail i j a b c : stable (outputs i) (sendChatHistoryFail j a b c).
Proof. unfold sendChatHistoryFail. solve_outs. Qed.
#[local] Hint Resolve out_sendChatHistoryFail : outs.
Lemma out_sendHistoryBatch i j a b es c : stable (outputs i) (sendHistoryBatch j a b es c).
Proof. unfold sendHistoryBatch. solve_outs. Qed.
#[local] Hint Resolve out_sendHistoryBatch : outs.
Lemma out_no_such_nick i j t : stable (outputs i) (no_such_nick j t).
Proof. unfold no_such_nick. solve_outs. Qed.
#[local] Hint Resolve out_no_such_nick : outs.
Lemma out_Registry_Add i j : stable (outputs i) (Registry_Add j).
Proof. unfold Registry_Add. solve_outs. Qed.
#[local] Hint Resolve out_Registry_Add : outs.
Lemma out_Registry_Rename i a b : stable (outputs i) (Registry_Rename a b).
Proof. unfold Registry_Rename. solve_outs. Qed.
#[local] Hint Resolve out_Registry_Rename : outs.
Lemma out_tryRegister i j : stable (outputs i) (tryRegister j).
Proof. unfold tryRegister. solve_outs. Qed.
#[local] Hint Resolve out_tryRegister : outs.
Lemma out_saslFailure i j n t : stable (outputs i) (saslFailure j n t).
Proof. unfold saslFailure. solve_outs. Qed.
#[local] Hint Resolve out_saslFailure : outs.
Lemma out_saslFail i j : stable (outputs i) (saslFail j).
Proof. unfold saslFail. solve_outs. Qed.
#[local] Hint Resolve out_saslFail : outs.
Lemma out_login i j a : stable (outputs i) (login j a).
Proof. unfold login. solve_outs. Qed.
#[local] Hint Resolve out_login : outs.
Lemma out_Channels_GetOrCreate i n : stable (outputs i) (Channels_GetOrCreate n).
Proof. unfold Channels_GetOrCreate. solve_outs. Qed.
#[local] Hint Resolve out_Channels_GetOrCreate : outs.
Lemma out_Channels_Remove i n : stable (outputs i) (Channels_Remove n).
Proof. unfold Channels_Remove. solve_outs. Qed.
#[local] Hint Resolve out_Channels_Remove : outs.
Lemma out_remove_member i k n c : stable (outputs i) (remove_member k n c).
Proof. unfold remove_member. solve_outs. Qed.
#[local] Hint Resolve out_remove_member : outs.
Lemma out_Session_appendHistory i j t e : stable (outputs i) (Session_appendHistory j t e).
Proof. unfold Session_appendHistory. solve_outs. Qed.
#[local] Hint Resolve out_Session_appendHistory : outs.
Lemma out_enter_negotiation i j : stable (outputs i) (enter_negotiation j).
Proof. unfold enter_negotiation. solve_outs. Qed.
#[local] Hint Resolve out_enter_negotiation : outs.
Lemma out_handlePass i j msg : stable (outputs i) (handlePass j msg).
Proof. unfold handlePass. solve_outs. Qed.
#[local] Hint Resolve out_handlePass : outs.
Lemma out_handleNick i j msg : stable (outputs i) (handleNick j msg).
Proof. unfold handleNick. solve_outs. Qed.
#[local] Hint Resolve out_handleNick : outs.
Lemma out_handleUser i j msg : stable (outputs i) (handleUser j msg).
Proof. unfold handleUser. solve_outs. Qed.
#[local] Hint Resolve out_handleUser : outs.
Lemma out_handleCAP i j msg : stable (outputs i) (handleCAP j msg).
Proof. unfold handleCAP. solve_outs. Qed.
#[local] Hint Resolve out_handleCAP : outs.
Lemma out_handleAuthenticate i j msg : stable (outputs i) (handleAuthenticate j msg).
Proof. unfold handleAuthenticate. solve_outs. Qed.
#[local] Hint Resolve out_handleAuthenticate : outs.
Lemma out_handleQuit i j msg : stable (outputs i) (handleQuit j msg).
Proof. unfold handleQuit. solve_outs. Qed.
#[local] Hint Resolve out_handleQuit : outs.
Lemma out_handlePing i j msg : stable (outputs i) (handlePing j msg).
Proof. unfold handlePing. solve_outs. Qed.
#[local] Hint Resolve out_handlePing : outs.
Lemma out_handleTagmsg i j msg : stable (outputs i) (handleTagmsg j msg).
Proof. unfold handleTagmsg. solve_outs. Qed.
#[local] Hint Resolve out_handleTagmsg : outs.
Lemma out_handleChatHistoryTargets i j msg : stable (outputs i) (handleChatHistoryTargets j msg).
Proof. unfold handleChatHistoryTargets. solve_outs. Qed.
#[local] Hint Resolve out_handleChatHistoryTargets : outs.
Lemma out_handleChatHistory i j msg : stable (outputs i) (handleChatHistory j msg).
Proof. unfold handleChatHistory. solve_outs. Qed.
#[local] Hint Resolve out_handleChatHistory : outs.
Lemma out_handleJoin i j msg : stable (outputs i) (handleJoin j msg).
Proof. unfold handleJoin, join_one. solve_outs. Qed.
#[local] Hint Resolve out_handleJoin : outs.
Lemma out_handlePart i j msg : stable (outputs i) (handlePart j msg).
Proof. unfold handlePart, part_one. solve_outs. Qed.
#[local] Hint Resolve out_handlePart : outs.
Lemma out_handleTopic i j msg : stable (outputs i) (handleTopic j msg).
Proof. unfold handleTopic. solve_outs. Qed.
#[local] Hint Resolve out_handleTopic : outs.
Lemma out_handleNames i j msg : stable (outputs i) (handleNames j msg).
Proof. unfold handleNames. solve_outs. Qed.
#[local] Hint Resolve out_handleNames : outs.
Lemma out_handleList i j msg : stable (outputs i) (handleList j msg).
Proof. unfold handleList. solve_outs. Qed.
#[local] Hint Resolve out_handleList : outs.
Lemma out_handleKick i j msg : stable (outputs i) (handleKick j msg).
Proof. unfold handleKick. solve_outs. Qed.
#[local] Hint Resolve out_handleKick : outs.
Lemma out_handleInvite i j msg : stable (outputs i) (handleInvite j msg).
Proof. unfold handleInvite. solve_outs. Qed.
#[local] Hint Resolve out_handleInvite : outs.
Lemma out_handleChannelMode i j msg c : stable (outputs i) (handleChannelMode j msg c).
Proof. unfold handleChannelMode. solve_outs. Qed.
#[local] Hint Resolve out_handleChannelMode : outs.
Lemma out_handleUserMode i j msg c : stable (outputs i) (handleUserMode j msg c).
Proof. unfold handleUserMode. solve_outs. Qed.
#[local] Hint Resolve out_handleUserMode : outs.
Lemma out_handleMode i j msg : stable (outputs i) (handleMode j msg).
Proof. unfold handleMode. solve_outs. Qed.
#[local] Hint Resolve out_handleMode : outs.
Lemma out_handleWho i j msg : stable (outputs i) (handleWho j msg).
Proof. unfold handleWho, who_reply. solve_outs. Qed.
#[local] Hint Resolve out_handleWho : outs.
Lemma out_handleWhois i j msg : stable (outputs i) (handleWhois j msg).
Proof. unfold handleWhois. solve_outs. Qed.
#[local] Hint Resolve out_handleWhois : outs.
Lemma out_handleWhowas i j msg : stable (outputs i) (handleWhowas j msg).
Proof. unfold handleWhowas. solve_outs. Qed.
#[local] Hint Resolve out_handleWhowas : outs.
Lemma out_handleAway i j msg : stable (outputs i) (handleAway j msg).
Proof. unfold handleAway. solve_outs. Qed.
#[local] Hint Resolve out_handleAway : outs.
Lemma out_handleNickRegistered i j msg : stable (outputs i) (handleNickRegistered j msg).
Proof. unfold handleNickRegistered. solve_outs. Qed.
#[local] Hint Resolve out_handleNickRegistered : outs.
Lemma out_handleUserhost i j msg : stable (outputs i) (handleUserhost j msg).
Proof. unfold handleUserhost. solve_outs. Qed.
#[local] Hint Resolve out_handleUserhost : outs.
Lemma out_handleIson i j msg : stable (outputs i) (handleIson j msg).
Proof. unfold handleIson. solve_outs. Qed.
#[local] Hint Resolve out_handleIson : outs.
Lemma out_handleMonitor i j msg : stable (outputs i) (handleMonitor j msg).
Proof. unfold handleMonitor, need_monitor_params. solve_outs. Qed.
#[local] Hint Resolve out_handleMonitor : outs.
Lemma out_handleStats i j msg : stable (outputs i) (handleStats j msg).
Proof. unfold handleStats. solve_outs. Qed.
#[local] Hint Resolve out_handleStats : outs.
Lemma out_handleWallops i j msg : stable (outputs i) (handleWallops j msg).
Proof. unfold handleWallops. solve_outs. Qed.
#[local] Hint Resolve out_handleWallops : outs.
Lemma out_handleOper i j msg : stable (outputs i) (handleOper j msg).
Proof. unfold handleOper. solve_outs. Qed.
#[local] Hint Resolve out_handleOper : outs.
Lemma out_handleKill i j msg : stable (outputs i) (handleKill j msg).
Proof. unfold handleKill. solve_outs. Qed.
#[local] Hint Resolve out_handleKill : outs.
Lemma out_handleSetname i j msg : stable (outputs i) (handleSetname j msg).
Proof. unfold handleSetname. solve_outs. Qed.
#[local] Hint Resolve out_handleSetname : outs.
Lemma out_handlePrivmsg i j msg b : stable (outputs i) (handlePrivmsg j msg b).
Proof. unfold handlePrivmsg. solve_outs. Qed.
#[local] Hint Resolve out_handlePrivmsg : outs.
Lemma out_handleVersion i j : stable (outputs i) (handleVersion j).
Proof. unfold handleVersion. solve_outs. Qed.
#[local] Hint Resolve out_handleVersion : outs.
Lemma out_handleTime i j : stable (outputs i) (handleTime j).
Proof. unfold handleTime. solve_outs. Qed.
#[local] Hint Resolve out_handleTime : outs.
Lemma out_handleAdmin i j : stable (outputs i) (handleAdmin j).
Proof. unfold handleAdmin. solve_outs. Qed.
#[local] Hint Resolve out_handleAdmin : outs.
Lemma out_handleInfo i j : stable (outputs i) (handleInfo j).
Proof. unfold handleInfo. solve_outs. Qed.
#[local] Hint Resolve out_handleInfo : outs.

Lemma out_dispatch i j msg : stable (outputs i) (dispatch j msg).
Proof. unfold dispatch, dispatch_registered. solve_outs. Qed.
Lemma out_removeSession i j : stable (outputs i) (removeSession j).
Proof. unfold removeSession, Registry_Remove. solve_outs. Qed.

Lemma tag_message_get k v m : Tags_Get (MTags (tag_message k v m)) k = Some v.
Proof. apply lookup_insert_eq. Qed.

Lemma responseMessage_label s msg k v :
  k <> str "time" -> Tags_Get (MTags msg) k = Some v -> Tags_Get (MTags (responseMessage s msg)) k = Some v.
Proof.
  intros Hk Hm. unfold responseMessage. if_step; [|done]. cbn. rewrite lookup_insert_ne by done.
  by destruct (MTags msg).
Qed.

(** The first line of a response after the immediate ones carries the label. *)
Lemma response_lines_label s r : exists first rest,
  response_lines s r = rimmediate r ++ first :: rest /\ Tags_Get (MTags first) (str "label") = Some (rlabel r).
Proof.
  unfold response_lines. destruct (rmessages r) as [|m [|m' ms]].
  - do 2 eexists. split; [reflexivity|]. apply responseMessage_label; [done|]. apply lookup_singleton_eq.
  - do 2 eexists. split; [reflexivity|]. apply tag_message_get.
  - if_step; do 2 eexists; (split; [reflexivity|]); [apply tag_message_get|].
    apply responseMessage_label; [done|]. apply lookup_singleton_eq.
Qed.

Definition carries_label (label : bytes) (m : Message) : Prop := Tags_Get (MTags m) (str "label") = Some label.


(** [checkPassword] of a labelled command: the response is put aside while bcrypt runs
    without the lock, so that what others send meanwhile ([meanwhile]) is not collected. *)
Definition suspendResponse (i : nat) : M (option responseState) :=
  srv ← get; _ ← modify (fun srv => with_response srv (delete i (response srv))); mret (response srv !! i).
Definition resumeResponse (i : nat) (st : option responseState) : M unit :=
  modify (fun srv => with_response srv (match st with Some r => <[i := r]> (response srv) | None => delete i (response srv) end)).
Definition checkPassword_unlocked (i : nat) (hash pass : bytes) (meanwhile : M unit) : M bool :=
  srv ← get;
  match response srv !! i with
  | None => mret (checkPassword hash pass)
  | Some _ =>
      st ← suspendResponse i;
      _ ← meanwhile;
      _ ← resumeResponse i st;
      mret (checkPassword hash pass)
  end.

(** Nothing that happens meanwhile is added to the response, and nothing of it is lost. *)
Lemma checkPassword_keeps_response i hash pass meanwhile srv r :
  response srv !! i = Some r ->
  let '(ok, srv') := checkPassword_unlocked i hash pass meanwhile srv in
  ok = checkPassword hash pass /\ response srv' !! i = Some r.
Proof.
  intros E. unfold checkPassword_unlocked, suspendResponse, resumeResponse, get, modify, mbind, M_bind. cbn. rewrite E. cbn.
  destruct (meanwhile _) as [[] srv1]. cbn. split; [done|]. rewrite E. apply lookup_insert_eq.
Qed.

(** With nothing in between it is the check of the handlers. *)
Lemma checkPassword_alone i hash pass srv :
  let '(ok, srv') := checkPassword_unlocked i hash pass (mret tt) srv in
  ok = checkPassword hash pass /\ response srv' = response srv /\ sent srv' = sent srv /\ store srv' = store srv.
Proof.
  unfold checkPassword_unlocked, suspendResponse, resumeResponse, get, modify, mbind, M_bind. cbn. destruct (response srv !! i) as [r|] eqn:E; [|done].
  cbn. rewrite E. repeat split. by rewrite insert_delete_eq, insert_id.
Qed.
End Labels.
