(* ===== verification/IrcDelivery.v ===== *)
(** * Delivery of channel messages

    Who gets a PRIVMSG to a channel, and what is kept of it. *)

From S2P Require Import Prelude GoStrings GoTime IrcMessage IrcMode IrcNames IrcConst IrcServer IrcHandlers IrcReason.

Section Delivery.
Context {HU : GoUnicode} {HI : IterOrder} {cfg : Config} {env : Env} {HB : Bcrypt}.

Lemma Send_plain i msg srv :
  response srv = ∅ -> seqb (Command msg) (str "TAGMSG") = false ->
  Send i msg srv = (tt, with_sent srv (sent srv ++ [(i, prepare srv (obj srv i) msg)])).
Proof.
  intros Hr Hc. unfold Send, Send_, mbind, M_bind, get, modify. rewrite Hc. cbn [andb]. by rewrite Hr, lookup_empty.
Qed.

(** Sending to a list of members, one excepted. *)
Lemma broadcast_sent ms msg i srv :
  response srv = ∅ -> seqb (Command msg) (str "TAGMSG") = false ->
  forM_ ms (fun m => if bool_decide (Some (mid m) = Some i) then mret tt else Send (mid m) msg) srv =
  (tt, with_sent srv (sent srv ++ map (fun m => (mid m, prepare srv (obj srv (mid m)) msg))
                                      (filterb (fun m => negb (bool_decide (mid m = i))) ms))).
Proof.
  intros Hr Hc. revert srv Hr. induction ms as [|m ms IH]; intros srv Hr; cbn [forM_ filterb map].
  - rewrite app_nil_r. by destruct srv.
  - unfold mbind at 1, M_bind at 1. destruct (decide (mid m = i)) as [E|E].
    + rewrite !bool_decide_eq_true_2 by congruence. cbn. by rewrite IH.
    + rewrite !bool_decide_eq_false_2 by congruence. rewrite Send_plain by done. cbn [negb map]. rewrite IH by done.
      cbn [sent with_sent]. rewrite <- app_assoc. done.
Qed.

Definition relayed (s : Session) (msg : Message) (notice : bool) (target text : bytes) : Message :=
  {| MTags := relay_tags s (capEnabled s CapMessageTags) msg; MPrefix := Some (Prefix_of s);
     Command := if notice then str "NOTICE" else str "PRIVMSG"; Params := [target; text] |}.

End Delivery.
