(* ===== verification/IrcRuns.v ===== *)
(** * Runs of the IRC server

    Sequences of connections, lines and disconnections evaluated on a small
    configuration: witnesses for the theorems about the server, and behaviours that its
    comments and commands do not lead one to expect. *)

From S2P Require Import Prelude GoStrings GoTime GoEncoding IrcMessage IrcMode IrcNames IrcConst IrcServer IrcHandlers IrcReason IrcInvariant IrcAuthority IrcSessions IrcSasl IrcLabels IrcDelivery.

Inductive event :=
| Connect (i : nat) (h : bytes) (tls : bool)
| Line (i : nat) (line : bytes)
| Disconnect (i : nat).

Section Run.
Context {HU : GoUnicode} {HI : IterOrder} {cfg : Config} {env : Env} {HB : Bcrypt}.

Definition exec (e : event) (srv : Server) : Server :=
  match e with
  | Connect i h tls => (connect i h tls [] srv).2
  | Line i line => (handle_line i line srv).2
  | Disconnect i => (disconnect i srv).2
  end.

Definition possible (e : event) (srv : Server) : bool :=
  match e with
  | Connect i _ _ => bool_decide (store srv !! i = None)
  | Line i _ | Disconnect i => bool_decide (i ∈ live srv)
  end.

Fixpoint run (es : list event) (srv : Server) : Server :=
  match es with [] => srv | e :: es' => run es' (exec e srv) end.
Fixpoint possible_run (es : list event) (srv : Server) : bool :=
  match es with [] => true | e :: es' => possible e srv && possible_run es' (exec e srv) end.

Lemma run_reachable es srv : possible_run es srv = true -> rtc step srv (run es srv).
Proof.
  revert srv. induction es as [|e es IH]; intros srv H; [apply rtc_refl|].
  cbn [possible_run] in H. apply andb_true_iff in H as [He H]. eapply rtc_l; [|by apply IH].
  destruct e; cbn in He; apply (bool_decide_eq_true_1 _) in He; [by apply step_connect|by apply step_line|by apply step_disconnect].
Qed.
End Run.

(** ** A small server *)

#[local] Instance demo_unicode : GoUnicode := ascii_only.
#[local] Instance demo_iter : IterOrder := in_order.
#[local] Instance demo_bcrypt : Bcrypt := {| bcryptCheck h p := seqb h p |}.
#[local] Instance demo_cfg : Config := {|
  Name := str "irc.test"; Network := str "Test"; MOTD := [];
  Opers := {[str "root" := str "toor"]};
  accounts := {[str "alice" := {| AName := str "Alice"; PasswordHash := str "sesame"; AHost := [] |}]};
  dummyPasswordHash := str "-"; STS := None |}.
#[local] Instance demo_env : Env := {| now := 1709296245250000000; zone _ := 0; rnd := str "ID1"; batch_rnd := str "ID2" |}.

Definition sign_on (i : nat) (n : bytes) : list event :=
  [Connect i (str "host") false; Line i (str "NICK " ++ n); Line i (str "USER u 0 * :Real Name")].

(** alice founds a channel and bob joins it. *)
Definition two_on_channel : list event :=
  sign_on 0 (str "alice") ++ sign_on 1 (str "bob") ++ [Line 0 (str "JOIN #go"); Line 1 (str "JOIN #go")].
Definition channel_server : Server := run two_on_channel newServer.
Definition go_channel : Channel := default (newChannel []) (channels channel_server !! str "#go").

Lemma channel_server_lookup : channels channel_server !! str "#go" = Some go_channel.
Proof. by vm_compute. Qed.

Lemma server_invariant_witness : wf_server channel_server.
Proof. apply server_invariant, run_reachable. by vm_compute. Defined.

Lemma channel_server_wf : wf_server channel_server.
Proof.
  eapply rtc_wf, newServer_wf. apply run_reachable. by vm_compute.
Qed.

Definition command (s : bytes) : Message := match Parse s with Ok m => m | _ => message None [] [] end.

Lemma channel_authority_witness :
  respects channel_server (dispatch 1 (command (str "KICK #go alice")) channel_server).2 1 (str "#go") go_channel.
Proof.
  apply channel_authority; [apply channel_server_wf|apply channel_server_lookup|by vm_compute].
Defined.

(** carol, on the server but not on the channel, joins it. *)
Definition before_join : Server := run (two_on_channel ++ sign_on 2 (str "carol")) newServer.

Lemma before_join_wf : wf_server before_join.
Proof.
  eapply rtc_wf, newServer_wf. apply run_reachable. by vm_compute.
Qed.

Definition before_channel : Channel := default (newChannel []) (channels before_join !! str "#go").
Definition carol_member : Membership := {| mid := 2; mprefix := [] |}.


Lemma oper_authority_witness :
  0%nat = 0%nat /\ ToUpper (Command (command (str "OPER root toor"))) = str "OPER" /\
  oper_credentials (command (str "OPER root toor")).
Proof. apply (oper_authority 0 (command (str "OPER root toor")) channel_server 0); by vm_compute. Defined.

Lemma unregistered_confined_witness :
  confined 5 (run [Connect 5 (str "h") false] channel_server)
    (dispatch 5 (command (str "NICK eve")) (run [Connect 5 (str "h") false] channel_server)).2.
Proof. apply unregistered_confined. by vm_compute. Defined.

(** A TLS client that has enabled sasl and been prompted. *)
Definition sasl_server : Server :=
  run [Connect 0 (str "h") true; Line 0 (str "CAP REQ sasl"); Line 0 (str "AUTHENTICATE PLAIN")] newServer.
Definition alice_plain : Plain := {| Username := str "alice"; Password := str "sesame"; AuthzID := [] |}.


(** alice with labeled-response asks for two labelled replies. *)
Definition label_server : Server := run (two_on_channel ++ [Line 0 (str "CAP REQ :labeled-response batch")]) newServer.
Definition labelled_motd : Message := command (str "@label=L1 MOTD").


Definition hello : Message := command (str "PRIVMSG #go :hello").


(** ** Surprises *)

(** The numerics sent to a session after a point of a run. *)
Definition numerics (before after : Server) (i : nat) : list bytes :=
  map (fun jm => Command jm.2) (filterb (fun jm => bool_decide (jm.1 = i)) (drop (length (sent before)) (sent after))).

(** A registered session that changes its nickname is not renamed anywhere: NICK goes to
    the handler of the registration, so the registry and the channel keep the old
    name, the channel is told nothing, and messages to the new name find no one. *)
Lemma nick_change_not_applied :
  let after := run [Line 0 (str "NICK carol")] channel_server in
  nick (obj after 0) = str "carol" /\ Registry_Get after (str "alice") = Some 0%nat /\ Registry_Get after (str "carol") = None /\
  member_of after (str "#go") (str "alice") = Some {| mid := 0; mprefix := str "@" |} /\
  length (sent after) = length (sent channel_server) /\
  numerics after (run [Line 1 (str "PRIVMSG carol :hi")] after) 1 = [str "401"].
Proof. split_and!; by vm_compute. Qed.

(** When that session then disconnects, its old nickname stays taken and its place on
    the channel stays filled. *)
Lemma nick_change_leaves_ghost :
  let after := run [Line 0 (str "NICK carol"); Disconnect 0; Line 1 (str "PART #go")] channel_server in
  elements (live after) = [1%nat] /\ Registry_Get after (str "alice") = Some 0%nat /\
  member_of after (str "#go") (str "alice") = Some {| mid := 0; mprefix := str "@" |} /\
  numerics after (run [Connect 2 (str "h") false; Line 2 (str "NICK alice")] after) 2 = [str "433"].
Proof. split_and!; by vm_compute. Qed.

(** A session that never registered takes a registered one with the same nickname out
    of the registry and of its channels when it disconnects. *)
Lemma unregistered_disconnect_removes_other :
  let before := run ([Connect 5 (str "h") false; Line 5 (str "NICK dave")] ++ sign_on 6 (str "dave") ++ [Line 6 (str "JOIN #go")])
                    channel_server in
  let after := run [Disconnect 5] before in
  Registry_Get before (str "dave") = Some 6%nat /\ 6%nat ∈ live after /\
  Registry_Get after (str "dave") = None /\ member_of after (str "#go") (str "dave") = None.
Proof. split_and!; by vm_compute. Qed.

(** An invitation does not open an invite-only channel. *)
Lemma invite_does_not_admit :
  let invited := run (sign_on 2 (str "carol") ++ [Line 0 (str "MODE #go +i"); Line 0 (str "INVITE carol #go")]) channel_server in
  numerics invited (run [Line 2 (str "JOIN #go")] invited) 2 = [str "473"].
Proof. by vm_compute. Qed.

(** Any user can set the operator mode letter on themselves, without the status. *)
Lemma user_mode_o_unguarded :
  let after := run [Line 1 (str "MODE bob +o")] channel_server in
  Has (smodes (obj after 1)) (rune "o"%byte) = true /\ isOper (obj after 1) = false.
Proof. split; by vm_compute. Qed.

(** PASS is accepted before registration whatever it says; no password is ever compared. *)
Lemma password_not_checked msg srv i :
  state (obj srv i) <> StateRegistered -> handlePass i msg srv = (tt, srv).
Proof.
  intros Hs. unfold handlePass. change ((the i ≫= ?f) srv) with (f (obj srv i) srv). cbv beta.
  by rewrite bool_decide_eq_false_2.
Qed.
