(* ===== verification/IrcSystem.v ===== *)
(** * irc/server: the handlers and the output together

    The server of IrcHandlers.v says which messages a command sends, the goroutines of
    IrcOutput.v how they reach the connections.  Here a line of input starts the actions
    of its handler on the session's goroutine: the messages it sends, formatted by
    [Message.String], and for [QUIT] and [KILL] the flush and the close that follow.  The
    goroutine reads no further line before they are done.  The step that starts a line is
    also where the goroutine gets [dispatchMu]: one that waits for it has not started, and
    the lock is free when no handler is under way. *)

From S2P Require Import IrcWriter IrcOutput.
From S2P Require Import Prelude GoStrings GoTime GoEncoding IrcMessage IrcMode IrcNames IrcConst IrcServer IrcHandlers IrcReason IrcInvariant IrcAuthority IrcSessions IrcLabels.

(** The line of a message. *)
Definition wire `{MapOrder} (m : Message) : bytes := Format m ++ CRLF.

Section System.
Context {HU : GoUnicode} {HI : IterOrder} {cfg : Config} {HB : Bcrypt}.

Section Handlers.
Context {env : Env} {HM : MapOrder}.

(** The messages that the server sent from one state to another. *)
Definition since (a b : Server) : list (nat * Message) := drop (length (sent a)) (sent b).
Definition puts (l : list (nat * Message)) : list action := map (fun jm => APut jm.1 [wire jm.2]) l.

(** Whose connection a command closes: [handleQuit], [handleKill]. *)
Definition closing (i : nat) (msg : Message) (srv : Server) : option nat :=
  let cmd := ToUpper (Command msg) in
  let s := obj srv i in
  if seqb cmd (str "QUIT") then Some i
  else if seqb cmd (str "KILL") && bool_decide (state s = StateRegistered) && isOper s
  then match Params msg with n :: _ :: _ => Registry_Get srv n | _ => None end
  else None.
Definition shut (o : option nat) : list action := match o with Some j => [AFlush j; AClose j] | None => [] end.

Definition dispatch_acts (i : nat) (msg : Message) (srv : Server) : list action * Server :=
  let srv' := (dispatch i msg srv).2 in (puts (since srv srv') ++ shut (closing i msg srv), srv').

Definition command_acts (i : nat) (msg : Message) (srv : Server) : list action * Server :=
  match response_label (obj srv i) msg with
  | None => dispatch_acts i msg srv
  | Some label =>
      let r := dispatch_acts i msg (beginResponse i label srv).2 in
      let f := finishResponse i r.2 in
      (r.1 ++ [APut i (map wire f.1)], (sendPrepared i f.1 f.2).2)
  end.

(** The body of the loop of [handleSession]. *)
Definition line_acts (i : nat) (line : bytes) (srv : Server) : list action * Server :=
  if InputTooLong line then
    let srv' := (SendNumeric i ERR_INPUTTOOLONG [str "Input line was too long"] srv).2 in (puts (since srv srv'), srv')
  else match Parse line with
       | Ok msg => command_acts i msg (update i (set_idleAt now) srv).2
       | _ => ([], srv)
       end.

(** Its end, before the writer is stopped. *)
Definition end_acts (i : nat) (srv : Server) : list action * Server :=
  let srv' := (disconnect i srv).2 in (puts (since srv srv'), srv').
End Handlers.

Record Sys := { core : Server; output : Output }.
Definition newSys : Sys := {| core := newServer; output := newOutput |}.

Inductive sstep (s : Sys) : Sys -> Prop :=
| sstep_connect (env : Env) i h tls sni :
    store (core s) !! i = None ->
    sstep s {| core := (connect i h tls sni (core s)).2; output := output s |}
| sstep_line (env : Env) (HM : MapOrder) i line :
    i ∈ live (core s) -> task (output s) i = [] ->
    sstep s {| core := (line_acts i line (core s)).2; output := spawn i (line_acts i line (core s)).1 (output s) |}
| sstep_end (env : Env) (HM : MapOrder) i :
    i ∈ live (core s) -> task (output s) i = [] ->
    sstep s {| core := (end_acts i (core s)).2; output := leave i (end_acts i (core s)).1 (output s) |}
| sstep_output o : istep (output s) o -> sstep s {| core := core s; output := o |}.

Definition sreachable : Sys -> Prop := rtc sstep newSys.

(* ------------------------------------------------------------------ *)
(** ** What a handler gives to its goroutine *)

(** A line is a message in some order of its tags; [flatten] takes the groups apart. *)
Definition carries (jm : nat * Message) (jl : nat * bytes) : Prop := jm.1 = jl.1 /\ exists HM : MapOrder, jl.2 = wire jm.2.
Definition flatten (l : list group) : list (nat * bytes) := concat (map (fun g : group => map (pair g.2.1) g.2.2) l).

Lemma flatten_app l l' : flatten (l ++ l') = flatten l ++ flatten l'.
Proof. unfold flatten. by rewrite map_app, concat_app. Qed.

(** The actions are those of a handler, and their lines are the messages that the server
    sent; sessions neither begin nor end. *)
Record does (t : nat) (acts : list action) (a b : Server) : Prop := {
  does_plain : forallb plain acts = true;
  does_sent : exists d, sent b = sent a ++ d /\ Forall2 carries d (flatten (groups_of t acts));
  does_response : response b = ∅;
  does_live : live b = live a;
  does_store : forall j, is_Some (store a !! j) -> is_Some (store b !! j)
}.

Section Does.
Context {env : Env} {HM : MapOrder}.

Lemma wire_nonempty (m : Message) : wire m <> [].
Proof. unfold wire. by destruct (Format m). Qed.

Lemma wires_plain j ms : plain (APut j (map wire ms)) = true.
Proof.
  cbn. induction ms as [|m ms IH]; [done|]. cbn. rewrite IH. pose proof (wire_nonempty m). by destruct (seqb_spec (wire m) []).
Qed.

Lemma puts_plain l : forallb plain (puts l) = true.
Proof.
  induction l as [|[j m] l IH]; [done|]. change (plain (APut j (map wire [m])) && forallb plain (puts l) = true). by rewrite wires_plain.
Qed.

Lemma puts_carry t l : Forall2 carries l (flatten (groups_of t (puts l))).
Proof.
  induction l as [|[j m] l IH]; [constructor|]. change (Forall2 carries ((j, m) :: l) ((j, wire m) :: flatten (groups_of t (puts l)))).
  constructor; [split; [done|by eexists]|done].
Qed.

Lemma shut_plain o : forallb plain (shut o) = true /\ forall t, groups_of t (shut o) = [].
Proof. by destruct o. Qed.

Lemma since_sent a b d : sent b = sent a ++ d -> since a b = d.
Proof. unfold since. intros ->. by rewrite drop_app_length. Qed.

(** The messages of a program that only sends, and the rest of what it does. *)
Lemma outputs_since i a b : outputs i a b -> sent b = sent a ++ since a b.
Proof. intros [_ (d & E & _) _ _ _]. by rewrite (since_sent a b d). Qed.

Lemma outputs_empty i a b : outputs i a b -> response a = ∅ -> response b = ∅.
Proof.
  intros [H _ _ _ _] E. apply map_empty. intros j. apply eq_None_not_Some. rewrite H, E, lookup_empty. by intros [? ?].
Qed.

Lemma outputs_does i t a b acts :
  outputs i a b -> response a = ∅ -> forallb plain acts = true -> groups_of t acts = [] -> does t (puts (since a b) ++ acts) a b.
Proof.
  intros Ho Hr Hp Hg. split.
  - by rewrite forallb_app, puts_plain.
  - exists (since a b). split; [by eapply outputs_since|]. rewrite groups_of_app, Hg, app_nil_r. apply puts_carry.
  - by eapply outputs_empty.
  - apply Ho.
  - apply Ho.
Qed.

Lemma command_acts_core i msg srv : (command_acts i msg srv).2 = (dispatchCommand i msg srv).2.
Proof.
  unfold command_acts, dispatchCommand, the, get, mbind, M_bind. cbn. destruct (response_label (obj srv i) msg) as [label|]; [|done].
  cbn. destruct (dispatch i msg _) as [[] srv2]. cbn. by destruct (finishResponse i srv2).
Qed.

Lemma command_acts_does i msg srv : response srv = ∅ -> does i (command_acts i msg srv).1 srv (command_acts i msg srv).2.
Proof.
  intros Hr. unfold command_acts. destruct (response_label (obj srv i) msg) as [label|] eqn:El.
  - set (srv1 := (beginResponse i label srv).2). pose proof (out_dispatch i i msg srv1) as Ho.
    destruct (outputs_label _ _ _ Ho {| rlabel := label; rmessages := []; rimmediate := [] |}) as (r & Er & _); [apply lookup_insert_eq|].
    unfold dispatch_acts. cbn [fst snd]. destruct (dispatch i msg srv1) as [[] srv2] eqn:Ed. cbn [snd] in *.
    assert (finishResponse i srv2 = (response_lines (obj srv2 i) r, with_response srv2 (delete i (response srv2)))) as ->.
    { unfold finishResponse, get, mbind, M_bind. cbn. by rewrite Er. }
    cbn [fst snd]. destruct (shut_plain (closing i msg srv1)) as [Hsp Hsg]. split.
    + rewrite !forallb_app, puts_plain, Hsp. cbn [forallb]. by rewrite wires_plain.
    + exists (since srv1 srv2 ++ map (pair i) (response_lines (obj srv2 i) r)). split.
      * change (sent srv2 ++ map (pair i) (response_lines (obj srv2 i) r) = sent srv1 ++ since srv1 srv2 ++ map (pair i) (response_lines (obj srv2 i) r)).
        by rewrite app_assoc, <- (outputs_since _ _ _ Ho).
      * rewrite !groups_of_app, Hsg, app_nil_r, flatten_app. apply Forall2_app; [apply puts_carry|].
        unfold flatten. cbn. rewrite app_nil_r, map_map. clear. induction (response_lines _ _); constructor; [|done]. split; [done|by eexists].
    + apply map_empty. intros j. cbn. destruct (decide (i = j)) as [<-|Hne]; [apply lookup_delete_eq|].
      rewrite lookup_delete_ne by done. apply eq_None_not_Some. rewrite (outputs_who _ _ _ Ho). subst srv1. cbn.
      rewrite lookup_insert_ne, Hr, lookup_empty by done. by intros [? ?].
    + exact (outputs_live _ _ _ Ho).
    + exact (outputs_store _ _ _ Ho).
  - destruct (shut_plain (closing i msg srv)) as [Hsp Hsg]. apply (outputs_does i); try done. apply out_dispatch.
Qed.

Lemma line_acts_core i line srv : (line_acts i line srv).2 = (handle_line i line srv).2.
Proof.
  unfold line_acts, handle_line. if_step; [done|]. destruct (Parse line) as [msg| |]; try done. rewrite command_acts_core. done.
Qed.

Lemma line_acts_does i line srv : response srv = ∅ -> does i (line_acts i line srv).1 srv (line_acts i line srv).2.
Proof.
  intros Hr. unfold line_acts. if_step; [|destruct (Parse line) as [msg|e|]].
  - cbn [fst snd]. rewrite <- (app_nil_r (puts _)). apply (outputs_does i); try done. apply out_SendNumeric.
  - destruct (command_acts_does i msg (update i (set_idleAt now) srv).2) as [H1 H2 H3 H4 H5]; [done|]. split; try done.
    intros j Hj. apply H5. cbn. by apply lookup_alter_is_Some.
  - split; try done. exists []. by rewrite app_nil_r.
  - split; try done. exists []. by rewrite app_nil_r.
Qed.

Lemma end_acts_sent i srv :
  let r := end_acts i srv in
  forallb plain r.1 = true /\ (exists d, sent r.2 = sent srv ++ d /\ Forall2 carries d (flatten (groups_of i (r.1 ++ ending i)))) /\
  (response srv = ∅ -> response r.2 = ∅) /\ live r.2 = live srv ∖ {[i]} /\ (forall j, is_Some (store srv !! j) -> is_Some (store r.2 !! j)).
Proof.
  cbv zeta. unfold end_acts. pose proof (out_removeSession i i srv) as Ho. unfold disconnect, mbind, M_bind. destruct (removeSession i srv) as [[] srv'].
  cbn [fst snd] in *. change (since srv (modify _ srv').2) with (since srv srv'). split; [apply puts_plain|]. split; [|split; [|split]].
  - exists (since srv srv'). split; [exact (outputs_since i _ _ Ho)|]. rewrite groups_of_app, groups_of_ending, app_nil_r. apply puts_carry.
  - intros Hr. exact (outputs_empty i _ _ Ho Hr).
  - cbn. by rewrite (outputs_live _ _ _ Ho).
  - apply Ho.
Qed.
End Does.

(* ------------------------------------------------------------------ *)
(** ** The invariant of the whole *)

Record sys_inv (s : Sys) : Prop := {
  sys_core : wf_server (core s);
  sys_output : oreachable (output s);
  sys_over i : i ∈ over (output s) -> i ∉ live (core s) /\ is_Some (store (core s) !! i);
  sys_response : response (core s) = ∅;
  sys_given : Forall2 carries (sent (core s)) (flatten (given (output s)))
}.

Lemma sys_sent (s : Sys) t acts srv d :
  sys_inv s -> sent srv = sent (core s) ++ d -> Forall2 carries d (flatten (groups_of t acts)) ->
  Forall2 carries (sent srv) (flatten (given (output s) ++ groups_of t acts)).
Proof. intros Hi -> Hd. rewrite flatten_app. apply Forall2_app; [apply (sys_given s Hi)|done]. Qed.

(** A session that is served has not been left. *)
Lemma sys_serving s i : sys_inv s -> i ∈ live (core s) -> i ∉ over (output s).
Proof. intros Hi Hl Ho. by destruct (sys_over s Hi i Ho). Qed.

Lemma istep_over o o' : istep o o' -> over o' = over o /\ given o' = given o.
Proof.
  intros [t d ? Hr Ha|j e ? _ _ He].
  - destruct (act_acted _ _ _ _ Ha Hr) as (a & rest & Hac & _). split; apply Hac.
  - by apply write_event_spec in He as (_ & _ & _ & ? & ? & _).
Qed.

Lemma sys_inv_sstep s s' : sys_inv s -> sstep s s' -> sys_inv s'.
Proof.
  intros Hi Hs. pose proof (sys_core s Hi) as Hwf. destruct Hs as [env i h tls sni Hn|env HM i line Hl Ht|env HM i Hl Ht|o Ho].
  - split; cbn [core output]; try apply Hi.
    + by apply wf_connect.
    + intros k Hk. destruct (sys_over s Hi k Hk) as [H1 [x Hx]]. assert (k <> i) by congruence.
      unfold connect, modify, mbind, M_bind. cbn [snd store live with_store with_live]. split; [set_solver|].
      rewrite lookup_insert_ne by done. by eexists.
  - destruct (line_acts_does i line (core s) (sys_response s Hi)) as [H1 (d & H2 & H3) H4 H5 H6]. split; cbn [core output].
    + rewrite line_acts_core. eapply step_wf; [by apply step_line|done].
    + eapply rtc_r; [apply (sys_output s Hi)|]. apply ostep_spawn; try done. by apply sys_serving.
    + intros k Hk. rewrite H5. destruct (sys_over s Hi k Hk). auto.
    + done.
    + by eapply (sys_sent s i).
  - destruct (end_acts_sent i (core s)) as (H1 & (d & H2 & H3) & H4 & H5 & H6). split; cbn [core output].
    + eapply step_wf; [by apply step_disconnect|done].
    + eapply rtc_r; [apply (sys_output s Hi)|]. apply ostep_leave; try done. by apply sys_serving.
    + intros k [Hk|Hk]%elem_of_union; rewrite H5.
      * apply elem_of_singleton in Hk as ->. split; [set_solver|]. apply H6. by apply (wf_live _ Hwf).
      * destruct (sys_over s Hi k Hk) as [? ?]. split; [set_solver|auto].
    + apply H4, Hi.
    + by eapply (sys_sent s i).
  - destruct (istep_over _ _ Ho) as [E1 E2]. split; cbn [core output]; rewrite ?E1, ?E2; try apply Hi.
    eapply rtc_r; [apply (sys_output s Hi)|]. by apply ostep_istep.
Qed.

Lemma sys_inv_new : sys_inv newSys.
Proof. split; try done; first [apply newServer_wf|constructor]. Qed.

Lemma sys_inv_reachable s : sreachable s -> sys_inv s.
Proof. apply (rtc_ind_r sys_inv newSys sys_inv_new). intros x y _ Hs Hi. by eapply sys_inv_sstep. Qed.

(* ------------------------------------------------------------------ *)
(** ** What the clients receive *)

Lemma filter_cons_split {A} (P : A -> Prop) `{!forall x, Decision (P x)} (l : list A) x k :
  filter P l = x :: k -> exists a b, l = a ++ x :: b /\ filter P a = [] /\ filter P b = k.
Proof.
  induction l as [|y l IH]; [done|]. rewrite filter_cons. case_decide as Hp.
  - intros [= <- <-]. by exists [], l.
  - intros (a & b & -> & Ha & Hb)%IH. exists (y :: a), b. split; [done|]. by rewrite filter_cons_False.
Qed.

Lemma by_task_cons t g l : by_task t (g :: l) = (if decide (g.1 = t) then [g] else []) ++ by_task t l.
Proof. unfold by_task. rewrite filter_cons. by case_decide. Qed.

(** Two lists with the same groups of every goroutine are permutations. *)
Lemma by_task_perm l : forall l', (forall t, by_task t l = by_task t l') -> l ≡ₚ l'.
Proof.
  induction l as [|g l IH]; intros l' H.
  - destruct l' as [|g l']; [done|]. specialize (H g.1). rewrite by_task_cons, decide_True in H; done.
  - pose proof (H g.1) as Hg. rewrite by_task_cons, decide_True in Hg by done. symmetry in Hg.
    destruct (filter_cons_split _ _ _ _ Hg) as (a & b & -> & Ha & _). rewrite <- Permutation_middle. f_equiv.
    apply IH. intros t. specialize (H t). rewrite by_task_app, !by_task_cons in H. rewrite by_task_app.
    destruct (decide (g.1 = t)) as [<-|]; [|done]. change (by_task g.1 a = []) in Ha. rewrite Ha in H |- *. by injection H.
Qed.

(** The messages that the server sent to [j], and the lines of [j] among groups. *)
Definition messages_to (j : nat) (l : list (nat * Message)) : list Message := map snd (filter (fun jm => jm.1 = j) l).

Lemma lines_to_flatten j l : lines_to j l = map snd (filter (fun jl => jl.1 = j) (flatten l)).
Proof.
  unfold lines_to, flatten. induction l as [|[t [k ls]] l IH]; [done|]. cbn [map concat fst snd]. rewrite filter_app, map_app, <- IH. cbn.
  destruct (decide (k = j)) as [->|Hn]; cbn; f_equal.
  - induction ls as [|x ls IHl]; [done|]. cbn [map]. rewrite filter_cons_True by done. cbn. by f_equal.
  - induction ls as [|x ls IHl]; [done|]. cbn [map]. by rewrite filter_cons_False.
Qed.

Lemma carries_filter j l l' : Forall2 carries l l' ->
  Forall2 (fun m b => exists HM : MapOrder, b = wire m) (messages_to j l) (map snd (filter (fun jl => jl.1 = j) l')).
Proof.
  unfold messages_to. induction 1 as [|[a m] [b x] l l' [E Hx] _ IH]; [constructor|]. cbn [fst snd] in *. subst b.
  rewrite (filter_cons _ (a, m)), (filter_cons _ (a, x)). cbn. case_decide; [by constructor|done].
Qed.

Lemma sys_settled s : sys_inv s -> at_rest (output s) -> flatten (log (output s)) ≡ₚ flatten (given (output s)).
Proof.
  intros Hi Hr. unfold flatten. rewrite <- !flat_map_concat_map. apply Permutation_flat_map, by_task_perm. intros t.
  destruct (output_settles _ (sys_output s Hi)) as (_ & _ & H). by apply H.
Qed.

(** The lines of a client at rest are the messages sent to it. *)
Lemma settled_messages s j : sys_inv s -> at_rest (output s) ->
  exists ms, ms ≡ₚ messages_to j (sent (core s)) /\ Forall2 (fun m b => exists HM : MapOrder, b = wire m) ms (lines_to j (log (output s))).
Proof.
  intros Hi Hr. pose proof (carries_filter j _ _ (sys_given s Hi)) as Hc. rewrite lines_to_flatten.
  assert (map snd (filter (fun jl : nat * bytes => jl.1 = j) (flatten (given (output s)))) ≡ₚ
          map snd (filter (fun jl : nat * bytes => jl.1 = j) (flatten (log (output s))))) as Hp
    by (by rewrite (sys_settled s Hi Hr)).
  apply Forall2_flip in Hc. destruct (Permutation_Forall2 Hp Hc) as (ms & Hms & Hf). exists ms. split; [done|]. by apply Forall2_flip.
Qed.

(** C18. From the handlers to the connections.  Whatever order the goroutines of the
    sessions and the writers run in: the lines they are given are the messages of the
    handlers, in order; what has been written to a client is a prefix of the groups sent
    to it, where a group is one message or one labelled response, whole and not mixed with
    another; and the groups of the commands of one client are in the order of its
    commands. *)
Theorem messages_reach_clients s : sreachable s ->
  Forall2 carries (sent (core s)) (flatten (given (output s))) /\
  (forall j, out (writer (output s) j) `prefix_of` concat (lines_to j (log (output s)))) /\
  (forall t, by_task t (log (output s)) `prefix_of` by_task t (given (output s))).
Proof. intros Hi%sys_inv_reachable. split; [apply Hi|]. apply clients_see_groups, Hi. Qed.


(* ------------------------------------------------------------------ *)
(** ** The end of a connection *)

Lemma sstep_ostep s s' : sys_inv s -> sstep s s' -> rtc ostep (output s) (output s').
Proof.
  intros Hi [env i h tls sni Hn|env HM i line Hl Ht|env HM i Hl Ht|o Ho]; cbn [output]; [apply rtc_refl|..]; apply rtc_once.
  - apply ostep_spawn; [done|by apply sys_serving|]. by apply line_acts_does, Hi.
  - apply ostep_leave; [done|by apply sys_serving|]. by apply end_acts_sent.
  - by apply ostep_istep.
Qed.

Lemma rtc_sstep_ostep s s' : sys_inv s -> rtc sstep s s' -> rtc ostep (output s) (output s').
Proof.
  intros Hi Hs. revert Hi. induction Hs as [s|s1 s2 s3 H12 _ IH]; [intros; apply rtc_refl|]. intros Hi.
  etrans; [by apply sstep_ostep|]. apply IH. by eapply sys_inv_sstep.
Qed.

Section Closing.
Context {env : Env} {HM : MapOrder}.

Lemma prepare_Command srv s msg : Command (prepare srv s msg) = Command msg.
Proof. unfold prepare. by if_step. Qed.

(** A message that is sent and not collected. *)
Lemma Send_since i j msg srv f : response srv = ∅ -> Command msg = str "ERROR" ->
  since srv ((_ ← Send j msg; update i f) srv).2 = [(j, prepare srv (obj srv j) msg)].
Proof.
  intros Hr Hc. apply since_sent. unfold Send, Send_, get, mbind, M_bind. cbn [snd]. rewrite Hc. cbn. by rewrite Hr, lookup_empty.
Qed.

Ltac closed_tests :=
  repeat match goal with |- context[seqb (str ?a) (str ?b)] => let r := eval vm_compute in (seqb (str a) (str b)) in change (seqb (str a) (str b)) with r end;
  cbv beta iota.

(** [handleQuit] and [handleKill]: one message to the client whose connection is closed. *)
Lemma dispatch_closing i msg srv j : response srv = ∅ -> closing i msg srv = Some j ->
  exists m, Command m = str "ERROR" /\ (dispatch_acts i msg srv).1 = [APut j [wire m]; AFlush j; AClose j].
Proof.
  intros Hr Hc. assert (exists m, Command m = str "ERROR" /\ since srv (dispatch i msg srv).2 = [(j, m)]) as (m & Hm & E).
  { unfold closing in Hc. unfold dispatch. destruct (seqb_spec (ToUpper (Command msg)) (str "QUIT")) as [->|_].
    - injection Hc as <-. closed_tests. eexists. split; [|apply Send_since; [done|reflexivity]]. apply prepare_Command.
    - destruct (seqb_spec (ToUpper (Command msg)) (str "KILL")) as [->|_]; [|done]. closed_tests.
      unfold the, get, mbind, M_bind. cbn [fst snd]. destruct (bool_decide (state (obj srv i) = StateRegistered)) eqn:Es; [|done].
      destruct (isOper (obj srv i)) eqn:Eo; [|done]. cbn in Hc. destruct (Params msg) as [|n [|reason ps]] eqn:Ep; try done.
      unfold dispatch_registered. cbn [negb]. closed_tests. unfold handleKill, get. unfold mbind at 1, M_bind at 1.
      unfold mret, M_ret. cbv beta iota zeta. rewrite Es. cbn [negb]. rewrite Eo, Ep, Hc. cbn [negb].
      eexists. split; [|apply Send_since; [done|reflexivity]]. apply prepare_Command. }
  exists m. split; [done|]. unfold dispatch_acts. cbn [fst]. by rewrite E, Hc.
Qed.

Lemma closing_idle i msg srv : closing i msg (update i (set_idleAt now) srv).2 = closing i msg srv.
Proof.
  unfold closing, Registry_Get, obj. cbn. rewrite lookup_alter_eq. by destruct (store srv !! i).
Qed.

Lemma response_label_idle i msg srv : response_label (obj (update i (set_idleAt now) srv).2 i) msg = response_label (obj srv i) msg.
Proof.
  unfold response_label, obj. cbn. rewrite lookup_alter_eq. by destruct (store srv !! i).
Qed.

Lemma line_closing i line msg srv j :
  response srv = ∅ -> InputTooLong line = false -> Parse line = Ok msg -> response_label (obj srv i) msg = None -> closing i msg srv = Some j ->
  exists m, Command m = str "ERROR" /\ (line_acts i line srv).1 = [APut j [wire m]; AFlush j; AClose j].
Proof.
  intros Hr Hl Hp Hlab Hc. unfold line_acts. rewrite Hl, Hp. unfold command_acts. rewrite response_label_idle, Hlab.
  apply dispatch_closing; [done|]. by rewrite closing_idle.
Qed.
End Closing.

(** C20. The goodbye.  [QUIT], and [KILL] by an operator, close a connection: when such a
    command is not labelled, and when the flush that it makes has ended with the connection
    open and its writer not stopped, the client has received the ERROR message that says
    why, before the connection is closed. *)
Theorem goodbye_is_received {env : Env} {HM : MapOrder} s s' i line msg j d rest :
  sreachable s -> i ∈ live (core s) -> task (output s) i = [] ->
  InputTooLong line = false -> Parse line = Ok msg -> response_label (obj (core s) i) msg = None -> closing i msg (core s) = Some j ->
  rtc sstep {| core := (line_acts i line (core s)).2; output := spawn i (line_acts i line (core s)).1 (output s) |} s' ->
  task (output s') i = AWait j d :: rest -> ready i d (output s') = true ->
  connClosed (writer (output s') j) = false -> stopWriter (writer (output s') j) = false ->
  exists m, Command m = str "ERROR" /\ exists a b, out (writer (output s') j) = a ++ wire m ++ b.
Proof.
  intros Hs%sys_inv_reachable Hl Ht Htl Hp Hlab Hc Hrun Hw Hr Hcc Hst.
  destruct (line_closing i line msg (core s) j (sys_response s Hs) Htl Hp Hlab Hc) as (m & Hm & E). exists m. split; [done|].
  pose proof (sys_inv_sstep _ _ Hs (sstep_line s env HM i line Hl Ht)) as Hi.
  apply rtc_sstep_ostep in Hrun; [|done]. cbn [output] in Hrun.
  eapply (goodbye_written i j (wire m)); [apply inv_oreachable, (sys_output _ Hi)| |by instantiate (1 := [])|exact Hrun|done..].
  cbn [output]. rewrite E. change (task (set_task i (goodbye j (wire m)) (output s)) i = goodbye j (wire m)).
  by rewrite task_set_task, decide_True.
Qed.
End System.
