(* ===== verification/IrcSystemRuns.v ===== *)
(** * Runs of the IRC server down to the bytes of its connections

    A scheduler that lets the goroutines and the writers run until nothing is left to do,
    and on it the witnesses of IrcSystem.v and a command whose answer is never received. *)

From S2P Require Import IrcWriter IrcOutput.
From S2P Require Import Prelude GoStrings GoTime GoEncoding IrcMessage IrcMode IrcNames IrcConst IrcServer IrcHandlers IrcReason IrcInvariant IrcAuthority IrcSessions IrcLabels IrcRuns IrcSystem.

(** The first of the goroutines and writers in [ids] that can run; [d] numbers the
    channels. *)
Definition pick (ids : list nat) (d : nat) (o : Output) : option oevent :=
  match find (fun t => ready t d o) ids with
  | Some t => Some (Act t d)
  | None =>
      match omap (fun j => Turn j <$> IrcWriter.turn (false, None) (writer o j)) ids with
      | e :: _ => Some e
      | [] => None
      end
  end.

Fixpoint settle (fuel : nat) (ids : list nat) (d : nat) (o : Output) : Output :=
  match fuel with
  | O => o
  | S fuel =>
      match pick ids d o with
      | Some e => match oexec e o with Some o => settle fuel ids (S d) o | None => o end
      | None => o
      end
  end.

Lemma pick_internal ids d o e : pick ids d o = Some e -> match e with Act _ _ | Turn _ _ => True | _ => False end.
Proof.
  unfold pick. destruct (find _ ids); [by intros [= <-]|]. destruct (omap _ ids) as [|e' l] eqn:E; [done|]. intros [= <-].
  assert (e' ∈ omap (fun j => Turn j <$> IrcWriter.turn (false, None) (writer o j)) ids) as Hin by (rewrite E; set_solver).
  apply list_elem_of_omap in Hin as (j & _ & Hj). by apply fmap_Some in Hj as (? & _ & ->).
Qed.

Lemma settle_isteps fuel ids : forall d o, rtc istep o (settle fuel ids d o).
Proof.
  induction fuel as [|fuel IH]; cbn; intros d o; [apply rtc_refl|]. destruct (pick ids d o) as [e|] eqn:Ep; [|apply rtc_refl].
  destruct (oexec e o) as [o'|] eqn:Ee; [|apply rtc_refl]. eapply rtc_l; [|apply IH]. eapply oexec_istep; [by eapply pick_internal|exact Ee].
Qed.

Section Run.
Context {HU : GoUnicode} {HI : IterOrder} {cfg : Config} {env : Env} {HB : Bcrypt} {HM : MapOrder}.

Definition with_output (s : Sys) (o : Output) : Sys := {| core := core s; output := o |}.

Lemma isteps_ssteps s o : rtc istep (output s) o -> rtc sstep s (with_output s o).
Proof.
  destruct s as [c x]. cbn. intros H. revert c. induction H as [x|x y z Hxy _ IH]; intros c; [apply rtc_refl|].
  eapply rtc_l; [by apply sstep_output|]. apply IH.
Qed.

(** An input, and what it leads to; [n] numbers the channels. *)
Definition start (e : IrcRuns.event) (s : Sys) : Sys :=
  match e with
  | Connect i h tls => {| core := (connect i h tls [] (core s)).2; output := output s |}
  | Line i line => let r := line_acts i line (core s) in {| core := r.2; output := spawn i r.1 (output s) |}
  | Disconnect i => let r := end_acts i (core s) in {| core := r.2; output := leave i r.1 (output s) |}
  end.
Definition startable (e : IrcRuns.event) (s : Sys) : bool :=
  match e with
  | Connect i _ _ => bool_decide (store (core s) !! i = None)
  | Line i _ | Disconnect i => bool_decide (i ∈ live (core s)) && bool_decide (task (output s) i = [])
  end.

Lemma start_sstep e s : startable e s = true -> sstep s (start e s).
Proof.
  destruct e as [i h tls|i line|i]; cbn.
  - intros H%bool_decide_eq_true. by apply sstep_connect.
  - intros [H1%bool_decide_eq_true H2%bool_decide_eq_true]%andb_true_iff. by apply sstep_line.
  - intros [H1%bool_decide_eq_true H2%bool_decide_eq_true]%andb_true_iff. by apply sstep_end.
Qed.

Fixpoint serve (es : list IrcRuns.event) (n : nat) (s : Sys) : option Sys :=
  match es with
  | [] => Some s
  | e :: es =>
      if startable e s then
        let s := start e s in serve es (n + 100) (with_output s (settle 300 [0%nat; 1%nat] n (output s)))
      else None
  end.

Lemma serve_rtc es : forall n s s', serve es n s = Some s' -> rtc sstep s s'.
Proof.
  induction es as [|e es IH]; cbn [serve]; intros n s s' H; [by simplify_eq|]. destruct (startable e s) eqn:E; [|done].
  eapply rtc_l; [by apply start_sstep|]. etrans; [|by apply (IH _ _ _ H)]. apply isteps_ssteps, settle_isteps.
Qed.
End Run.

#[local] Instance sys_unicode : GoUnicode := ascii_only.
#[local] Instance sys_iter : IterOrder := in_order.
#[local] Instance sys_bcrypt : Bcrypt := demo_bcrypt.
#[local] Instance sys_cfg : Config := demo_cfg.
#[local] Instance sys_env : Env := demo_env.
#[local] Instance sys_order : MapOrder := canonical_order.

(** alice and bob are on a channel and alice has greeted it. *)
Definition greeting : list IrcRuns.event := two_on_channel ++ [Line 0 (str "PRIVMSG #go :hi")].
Definition greeted : Sys := default newSys (serve greeting 0 newSys).

Lemma greeted_run : serve greeting 0 newSys = Some greeted.
Proof. vm_compute. reflexivity. Qed.

Lemma greeted_reachable : sreachable greeted.
Proof. by eapply serve_rtc, greeted_run. Qed.

Definition bob_ends_with : bytes := str ":alice!u@host PRIVMSG #go hi" ++ CRLF.
Example bob_is_greeted : HasSuffix (out (writer (output greeted) 1)) bob_ends_with = true.
Proof. by vm_compute. Qed.

Lemma messages_reach_clients_witness : out (writer (output greeted) 1) `prefix_of` concat (lines_to 1 (log (output greeted))).
Proof. apply (messages_reach_clients greeted greeted_reachable). Defined.


(** alice quits; the message of [QUIT] and the flush are on their way. *)
Definition farewell : list oevent :=
  [Act 0 7000; Act 0 7000; Act 0 7000; Act 0 7000; Turn 0 EWaker; Turn 0 EWaker; Turn 0 EWake; Turn 0 ENext; Turn 0 (EWrite None);
   Turn 0 ENext; Turn 0 (EWrite None)].
Definition quitting : Sys := start (Line 0 (str "QUIT :bye")) greeted.
Definition flushed_quit : Output := default newOutput (orun farewell (output quitting)).

Lemma orun_isteps es : forall o o',
  forallb (fun e => match e with Act _ _ | Turn _ _ => true | _ => false end) es = true -> orun es o = Some o' -> rtc istep o o'.
Proof.
  induction es as [|e es IH]; cbn [orun forallb]; intros o o' Hes H; [by simplify_eq|]. apply andb_true_iff in Hes as [He Hes].
  destruct (oexec e o) as [o1|] eqn:E; [|done]. eapply rtc_l; [|by apply IH]. eapply oexec_istep; [|exact E]. by destruct e.
Qed.

Lemma quit_reachable : rtc sstep quitting (with_output quitting flushed_quit).
Proof. apply isteps_ssteps, (orun_isteps farewell); by vm_compute. Qed.

Lemma goodbye_is_received_witness :
  exists m, Command m = str "ERROR" /\ exists a b, out (writer flushed_quit 0) = a ++ wire m ++ b.
Proof.
  apply (goodbye_is_received greeted (with_output quitting flushed_quit) 0 (str "QUIT :bye") (command (str "QUIT :bye")) 0 7000 [AClose 0]);
    [apply greeted_reachable|apply (bool_decide_unpack _); by vm_compute| | | | | |apply quit_reachable| | | |]; by vm_compute.
Defined.

(** An operator who kills herself with a labelled command is not told: the ERROR is
    collected for the labelled response, and that is queued after the connection has been
    flushed and closed. *)
Definition oper_alice : list IrcRuns.event :=
  sign_on 0 (str "alice") ++ [Line 0 (str "CAP REQ :labeled-response batch"); Line 0 (str "OPER root toor")].
Definition opered : Sys := default newSys (serve oper_alice 0 newSys).
Definition killed : Sys := default newSys (serve [Line 0 (str "@label=L1 KILL alice :bye")] 9000 opered).

Lemma labelled_self_kill_untold :
  sreachable killed /\ at_rest (output killed) /\
  map Command (messages_to 0 (since (core opered) (core killed))) = [str "ERROR"] /\
  out (writer (output killed) 0) = out (writer (output opered) 0).
Proof.
  assert (serve oper_alice 0 newSys = Some opered) as E1 by (vm_compute; reflexivity).
  assert (serve [Line 0 (str "@label=L1 KILL alice :bye")] 9000 opered = Some killed) as E2 by (vm_compute; reflexivity).
  split; [unfold sreachable; etrans; [by eapply serve_rtc|by eapply serve_rtc]|]. split; [apply restb_sound; by vm_compute|]. split; vm_compute; reflexivity.
Qed.
