(* ===== verification/IrcInput.v ===== *)
(** * irc/server: from the bytes that clients send to the lines that are handled

    [handleSession] reads its connection through a [bufio.Scanner] of 12288 bytes.  The
    bytes of a client arrive in pieces of any size at any time, between the steps of the
    server of IrcSystem.v; a line is handled once the goroutine of the session is free. *)

From S2P Require Import IrcWriter IrcOutput.
From S2P Require Import Prelude GoStrings GoTime GoEncoding IrcMessage IrcMode IrcNames IrcConst IrcServer IrcHandlers IrcReason IrcInvariant IrcAuthority IrcSessions IrcLabels IrcSystem IrcClient.

Definition max_input : nat := Z.to_nat (8192 + 4096).

(** [Scan] on what has been read; [ended] is a read that failed, the end of the stream
    included. *)
Inductive scanned := Token (line rest : bytes) | Stop | More.
Definition Scan (ended : bool) (r : bytes) : scanned :=
  match IndexByte (take max_input r) Byte.x0a with
  | Some i => Token (dropCR (take i r)) (drop (S i) r)
  | None =>
      if Nat.leb max_input (length r) then Stop
      else if ended then (if seqb r [] then Stop else Token (dropCR r) [])
      else More
  end.

Section Input.
Context {HU : GoUnicode} {HI : IterOrder} {cfg : IrcServer.Config} {HB : Bcrypt}.

(** [unread] and [ended] are the connections.  The last two are not in the code: all that a
    client has sent, and the lines of it that were handled. *)
Record Net := {
  sys : Sys;
  unread : gmap nat bytes;
  ended : gset nat;
  received : gmap nat bytes;
  handled : gmap nat (list bytes)
}.
Definition newNet : Net := {| sys := newSys; unread := ∅; ended := ∅; received := ∅; handled := ∅ |}.

Definition bytes_of (m : gmap nat bytes) (i : nat) : bytes := default [] (m !! i).
Definition lines_of (m : gmap nat (list bytes)) (i : nat) : list bytes := default [] (m !! i).
Definition set_sys (n : Net) (s : Sys) : Net :=
  {| sys := s; unread := unread n; ended := ended n; received := received n; handled := handled n |}.

Definition arrive (i : nat) (data : bytes) (n : Net) : Net :=
  {| sys := sys n; unread := <[i := bytes_of (unread n) i ++ data]> (unread n); ended := ended n;
     received := <[i := bytes_of (received n) i ++ data]> (received n); handled := handled n |}.
Definition end_input (i : nat) (n : Net) : Net :=
  {| sys := sys n; unread := unread n; ended := {[i]} ∪ ended n; received := received n; handled := handled n |}.
Definition take_line (i : nat) (line rest : bytes) (s : Sys) (n : Net) : Net :=
  {| sys := s; unread := <[i := rest]> (unread n); ended := ended n; received := received n;
     handled := <[i := lines_of (handled n) i ++ [line]]> (handled n) |}.

(** The loop of [handleSession] runs while [Scan] gives lines. *)
Inductive nstep (n : Net) : Net -> Prop :=
| nstep_connect (env : Env) i h tls sni :
    store (core (sys n)) !! i = None ->
    nstep n (set_sys n {| core := (connect i h tls sni (core (sys n))).2; output := output (sys n) |})
| nstep_arrive i data : i ∉ ended n -> nstep n (arrive i data n)
| nstep_eof i : nstep n (end_input i n)
| nstep_line (env : Env) (HM : MapOrder) i line rest :
    i ∈ live (core (sys n)) -> task (output (sys n)) i = [] ->
    Scan (bool_decide (i ∈ ended n)) (bytes_of (unread n) i) = Token line rest ->
    nstep n (take_line i line rest
      {| core := (line_acts i line (core (sys n))).2; output := spawn i (line_acts i line (core (sys n))).1 (output (sys n)) |} n)
| nstep_end (env : Env) (HM : MapOrder) i :
    i ∈ live (core (sys n)) -> task (output (sys n)) i = [] ->
    Scan (bool_decide (i ∈ ended n)) (bytes_of (unread n) i) = Stop ->
    nstep n (set_sys n {| core := (end_acts i (core (sys n))).2; output := leave i (end_acts i (core (sys n))).1 (output (sys n)) |})
| nstep_output o : istep (output (sys n)) o -> nstep n (set_sys n {| core := core (sys n); output := o |}).

Definition nreachable : Net -> Prop := rtc nstep newNet.

(** It is the server of IrcSystem.v. *)
Lemma nstep_sstep n n' : nstep n n' -> rtc sstep (sys n) (sys n').
Proof.
  intros [env i h tls sni Hn|i data _|i|env HM i line rest Hl Ht _|env HM i Hl Ht _|o Ho]; cbn [sys set_sys arrive end_input take_line];
    try apply rtc_refl; apply rtc_once; [by apply sstep_connect|by apply sstep_line|by apply sstep_end|by apply sstep_output].
Qed.

Lemma nreachable_sreachable n : nreachable n -> sreachable (sys n).
Proof.
  apply (rtc_ind_r (fun n => sreachable (sys n)) newNet); [apply rtc_refl|]. intros x y _ Hs Hr.
  unfold sreachable in *. etrans; [exact Hr|by apply nstep_sstep].
Qed.

(* ------------------------------------------------------------------ *)
(** ** Lines *)

(** The lines of a stream of bytes, as one [Scanner] over all of it gives them. *)
Definition all_lines (r : bytes) : list bytes := (scan_lines (length r) max_input r).1.

Lemma scan_lines_fuel fuel : forall r, (length r <= fuel)%nat -> scan_lines fuel max_input r = scan_lines (length r) max_input r.
Proof.
  induction fuel as [fuel IH] using lt_wf_ind. intros r Hf. destruct r as [|c r]; [by destruct fuel|].
  destruct fuel as [|fuel]; [cbn in Hf; lia|]. cbn [length scan_lines]. destruct (IndexByte _ _) as [i|]; [|done].
  assert (length (drop (S i) (c :: r)) <= length r)%nat by (rewrite length_drop; cbn; lia). cbn in Hf.
  rewrite (IH fuel) by lia. rewrite (IH (length r)); [done|lia|done].
Qed.

Lemma all_lines_newline r more k : IndexByte (take max_input r) Byte.x0a = Some k ->
  all_lines (r ++ more) = dropCR (take k r) :: all_lines (drop (S k) r ++ more).
Proof.
  intros H. pose proof (IndexByte_lt _ _ _ H) as Hlt. rewrite length_take in Hlt.
  assert (IndexByte (take max_input (r ++ more)) Byte.x0a = Some k) as E.
  { apply IndexByte_Some in H as (p & t & E & <- & Hp). rewrite take_app, E, <- app_assoc. by apply IndexByte_app. }
  unfold all_lines. destruct (r ++ more) as [|c s] eqn:Er; [apply app_eq_nil in Er as [-> _]; cbn in Hlt; lia|].
  cbn [length scan_lines]. rewrite E, <- Er. rewrite take_app_le, drop_app_le by lia.
  rewrite scan_lines_fuel; [by destruct (scan_lines _ _ _)|].
  assert (length (r ++ more) = S (length s)) as El by (by rewrite Er). rewrite length_app in *. rewrite length_drop. lia.
Qed.

Lemma all_lines_rest r : IndexByte (take max_input r) Byte.x0a = None -> (length r < max_input)%nat -> r <> [] -> all_lines r = [dropCR r].
Proof.
  intros H Hl Hr. unfold all_lines. destruct r as [|c r]; [done|]. cbn [length scan_lines]. rewrite H. by rewrite (proj2 (Nat.ltb_lt _ _)).
Qed.

(** What is left to read after a line. *)
Lemma Scan_lines stop r line rest more : Scan stop r = Token line rest -> (stop = true -> more = []) ->
  all_lines (r ++ more) = line :: all_lines (rest ++ more).
Proof.
  unfold Scan. destruct (IndexByte _ _) as [k|] eqn:E; [intros [= <- <-] _; by apply all_lines_newline|].
  destruct (Nat.leb_spec max_input (length r)) as [|Hl]; [done|]. destruct stop; [|done]. destruct (seqb_spec r []) as [|Hr]; [done|].
  intros [= <- <-] Hm. rewrite (Hm eq_refl), app_nil_r. rewrite all_lines_rest by done. done.
Qed.

Definition reads (n : Net) (i : nat) : Prop := forall more, (i ∈ ended n -> more = []) ->
  all_lines (bytes_of (received n) i ++ more) = lines_of (handled n) i ++ all_lines (bytes_of (unread n) i ++ more).

Lemma bytes_of_insert m i b j : bytes_of (<[i := b]> m) j = if decide (i = j) then b else bytes_of m j.
Proof. unfold bytes_of. case_decide; [subst; by rewrite lookup_insert_eq|by rewrite lookup_insert_ne]. Qed.
Lemma lines_of_insert m i b j : lines_of (<[i := b]> m) j = if decide (i = j) then b else lines_of m j.
Proof. unfold lines_of. case_decide; [subst; by rewrite lookup_insert_eq|by rewrite lookup_insert_ne]. Qed.

Lemma reads_nstep n n' i : reads n i -> nstep n n' -> reads n' i.
Proof.
  intros H [env j h tls sni Hn|j data Hj|j|env HM j line rest Hl Ht Hs|env HM j Hl Ht _|o Ho]; try exact H; intros more Hm; cbn in *.
  - rewrite !bytes_of_insert. case_decide; [subst|by apply H]. rewrite <- !app_assoc. apply H. done.
  - apply H. intros Hi. apply Hm. set_solver.
  - rewrite bytes_of_insert, lines_of_insert. destruct (decide (j = i)) as [->|]; [|by apply H]. rewrite (H more Hm), <- app_assoc. f_equal.
    apply (Scan_lines _ _ _ _ more Hs). intros Hb%bool_decide_eq_true. auto.
Qed.

End Input.

(** A client sends two lines in three pieces. *)
#[local] Instance input_cfg : IrcServer.Config :=
  {| Name := str "irc.test"; Network := []; MOTD := []; Opers := ∅; accounts := ∅; dummyPasswordHash := []; IrcServer.STS := None |}.
#[local] Instance input_bcrypt : Bcrypt := {| bcryptCheck h p := seqb h p |}.
#[local] Instance input_env : Env := {| now := 0; zone _ := 0; rnd := []; batch_rnd := [] |}.
#[local] Instance input_unicode : GoUnicode := ascii_only.
#[local] Instance input_iter : IterOrder := in_order.
#[local] Instance input_order : MapOrder := canonical_order.

Definition crlf : bytes := [Byte.x0d; Byte.x0a].
Definition pieces : Net :=
  arrive 0 (str "R u 0 * :r" ++ crlf) (arrive 0 (str "K a" ++ crlf ++ str "USE") (arrive 0 (str "NIC")
    (set_sys newNet {| core := (connect 0 (str "h") false [] newServer).2; output := newOutput |}))).
Definition first_line : Net :=
  take_line 0 (str "NICK a") (str "USER u 0 * :r" ++ crlf)
    {| core := (line_acts 0 (str "NICK a") (core (sys pieces))).2; output := spawn 0 (line_acts 0 (str "NICK a") (core (sys pieces))).1 (output (sys pieces)) |} pieces.

Lemma first_line_reachable : nreachable first_line.
Proof.
  apply rtc_r with pieces.
  - do 3 (eapply rtc_r; [|apply nstep_arrive; cbn; set_solver]). apply rtc_once. by apply (nstep_connect newNet _ 0 (str "h") false []).
  - apply nstep_line; [cbn; set_solver|by vm_compute|by vm_compute].
Qed.

