(* ===== verification/IrcNumerics.v ===== *)
(** * irc/irc/numeric.go and commands.go: all the constants, as tables

    Every constant with its Go name, section by section.  The ones that the components use
    are definitions of IrcConst.v; here they are shown to agree with the tables. *)

From S2P Require Import Prelude GoStrings GoTime IrcConst.

(* ------------------------------------------------------------------ *)
(** ** numeric.go *)

(** Welcome sequence. *)
Definition welcome_sequence_numerics : list (bytes * Z) :=
  [
    (str "RPL_WELCOME", 1); (str "RPL_YOURHOST", 2); (str "RPL_CREATED", 3); (str "RPL_MYINFO", 4);
    (str "RPL_ISUPPORT", 5); (str "RPL_SNOMASK", 8); (str "RPL_STATMEMTOT", 9); (str "RPL_BOUNCE", 10);
    (str "RPL_REDIR", 10); (str "RPL_MAP", 15); (str "RPL_MAPMORE", 16); (str "RPL_MAPEND", 17);
    (str "RPL_YOURID", 42); (str "RPL_SAVENICK", 43); (str "RPL_ATTEMPTINGJUNC", 50);
    (str "RPL_ATTEMPTINGREROUTE", 51) ].

(** Tracing / stats. *)
Definition tracing_stats_numerics : list (bytes * Z) :=
  [
    (str "RPL_TRACELINK", 200); (str "RPL_TRACECONNECTING", 201); (str "RPL_TRACEHANDSHAKE", 202);
    (str "RPL_TRACEUNKNOWN", 203); (str "RPL_TRACEOPERATOR", 204); (str "RPL_TRACEUSER", 205);
    (str "RPL_TRACESERVER", 206); (str "RPL_TRACENEWTYPE", 208); (str "RPL_TRACECLASS", 209);
    (str "RPL_STATSLINKINFO", 211); (str "RPL_STATSCOMMANDS", 212); (str "RPL_STATSCLINE", 213);
    (str "RPL_STATSNLINE", 214); (str "RPL_STATSILINE", 215); (str "RPL_STATSKLINE", 216);
    (str "RPL_STATSQLINE", 217); (str "RPL_STATSYLINE", 218); (str "RPL_ENDOFSTATS", 219); (str "RPL_UMODEIS", 221);
    (str "RPL_SQLINE_NICK", 222); (str "RPL_STATSELINE", 223); (str "RPL_STATSFLINE", 224);
    (str "RPL_STATSDLINE", 225); (str "RPL_STATSCOUNT", 226); (str "RPL_STATSGLINE", 227);
    (str "RPL_SERVICEINFO", 231); (str "RPL_ENDOFSERVICES", 232); (str "RPL_SERVICE", 233);
    (str "RPL_SERVLIST", 234); (str "RPL_SERVLISTEND", 235); (str "RPL_STATSVERBOSE", 236);
    (str "RPL_STATSENGINE", 237); (str "RPL_STATSIAUTH", 239); (str "RPL_STATSVLINE", 240);
    (str "RPL_STATSLLINE", 241); (str "RPL_STATSUPTIME", 242); (str "RPL_STATSOLINE", 243);
    (str "RPL_STATSHLINE", 244); (str "RPL_STATSSLINE", 245); (str "RPL_STATSPING", 246);
    (str "RPL_STATSBLINE", 247); (str "RPL_STATSULINE", 248); (str "RPL_STATSDEBUG", 249);
    (str "RPL_STATSCONN", 250); (str "RPL_LUSERCLIENT", 251); (str "RPL_LUSEROP", 252);
    (str "RPL_LUSERUNKNOWN", 253); (str "RPL_LUSERCHANNELS", 254); (str "RPL_LUSERME", 255);
    (str "RPL_ADMINME", 256); (str "RPL_ADMINLOC1", 257); (str "RPL_ADMINLOC2", 258); (str "RPL_ADMINEMAIL", 259);
    (str "RPL_TRACELOG", 261); (str "RPL_TRACEEND", 262); (str "RPL_TRYAGAIN", 263); (str "RPL_LOCALUSERS", 265);
    (str "RPL_GLOBALUSERS", 266); (str "RPL_START_NETSTAT", 267); (str "RPL_NETSTAT", 268);
    (str "RPL_END_NETSTAT", 269); (str "RPL_PRIVS", 270); (str "RPL_SILELIST", 271); (str "RPL_ENDOFSILELIST", 272);
    (str "RPL_NOTIFY", 273); (str "RPL_ENDNOTIFY", 274); (str "RPL_STATSDELTA", 275); (str "RPL_VCHANEXIST", 276);
    (str "RPL_VCHANLIST", 277); (str "RPL_VCHANNOLIST", 278); (str "RPL_WHOISHOST", 279); (str "RPL_GLIST", 280);
    (str "RPL_ENDOFGLIST", 281); (str "RPL_ACCEPTLIST", 281); (str "RPL_ENDOFACCEPT", 282);
    (str "RPL_ENDOFGLIST2", 282); (str "RPL_JUPELIST", 283); (str "RPL_ENDOFJUPELIST", 284);
    (str "RPL_FEATURE", 284); (str "RPL_GLIST_HASH", 285); (str "RPL_CHANINFO_HANDLE", 285);
    (str "RPL_NEWHOSTIS", 285); (str "RPL_CHANINFO_USERS", 286); (str "RPL_CHKMARK", 286);
    (str "RPL_CHANINFO_CHOPS", 287); (str "RPL_CHANINFO_VOICES", 288); (str "RPL_CHANINFO_AWAY", 289);
    (str "RPL_CHANINFO_OPERS", 290); (str "RPL_HELPHDR", 290); (str "RPL_CHANINFO_BANNED", 291);
    (str "RPL_HELPOP", 291); (str "RPL_CHANINFO_BANS", 292); (str "RPL_HELPTLR", 292);
    (str "RPL_CHANINFO_INVITE", 293); (str "RPL_HELPHLP", 293); (str "RPL_CHANINFO_INVITES", 294);
    (str "RPL_HELPFWD", 294); (str "RPL_CHANINFO_KICK", 295); (str "RPL_HELPIGN", 295) ].

(** Who/Whois/Whowas. *)
Definition who_whois_whowas_numerics : list (bytes * Z) :=
  [
    (str "RPL_NONE", 300); (str "RPL_AWAY", 301); (str "RPL_USERHOST", 302); (str "RPL_ISON", 303);
    (str "RPL_TEXT", 304); (str "RPL_UNAWAY", 305); (str "RPL_NOWAWAY", 306); (str "RPL_WHOISREGNICK", 307);
    (str "RPL_SUSERHOST", 307); (str "RPL_NOTAWAY", 308); (str "RPL_WHOISSADMIN", 308); (str "RPL_RULESSTART", 308);
    (str "RPL_WHOISADMIN", 308); (str "RPL_WHOISHELPER", 309); (str "RPL_WHOISSVCMSG", 310);
    (str "RPL_WHOISHELPOP", 310); (str "RPL_WHOISUSER", 311); (str "RPL_WHOISSERVER", 312);
    (str "RPL_WHOISOPERATOR", 313); (str "RPL_WHOWASUSER", 314); (str "RPL_ENDOFWHO", 315);
    (str "RPL_WHOISCHANOP", 316); (str "RPL_WHOISIDLE", 317); (str "RPL_ENDOFWHOIS", 318);
    (str "RPL_WHOISCHANNELS", 319); (str "RPL_WHOISSPECIAL", 320); (str "RPL_LISTSTART", 321); (str "RPL_LIST", 322);
    (str "RPL_LISTEND", 323); (str "RPL_CHANNELMODEIS", 324); (str "RPL_UNIQOPIS", 325);
    (str "RPL_CHANNELPASSIS", 325); (str "RPL_NOCHANPASS", 326); (str "RPL_CHPASSUNKNOWN", 327);
    (str "RPL_CHANNEL_URL", 328); (str "RPL_CREATIONTIME", 329); (str "RPL_WHOISACCOUNT", 330);
    (str "RPL_NOTOPIC", 331); (str "RPL_TOPIC", 332); (str "RPL_TOPICWHOTIME", 333); (str "RPL_LISTUSAGE", 334);
    (str "RPL_COMMANDSYNTAX", 334); (str "RPL_LISTSYNTAX", 334); (str "RPL_WHOISBOT", 335);
    (str "RPL_BADCHANPASS", 339); (str "RPL_USERIP", 340); (str "RPL_INVITING", 341); (str "RPL_SUMMONING", 342);
    (str "RPL_INVITED", 345); (str "RPL_INVEXLIST", 346); (str "RPL_ENDOFINVEXLIST", 347);
    (str "RPL_EXCEPTLIST", 348); (str "RPL_ENDOFEXCEPTLIST", 349); (str "RPL_VERSION", 351);
    (str "RPL_WHOREPLY", 352); (str "RPL_NAMREPLY", 353); (str "RPL_WHOSPCRPL", 354); (str "RPL_NAMREPLY_", 355);
    (str "RPL_KILLDONE", 361); (str "RPL_CLOSING", 362); (str "RPL_CLOSEEND", 363); (str "RPL_LINKS", 364);
    (str "RPL_ENDOFLINKS", 365); (str "RPL_ENDOFNAMES", 366); (str "RPL_BANLIST", 367);
    (str "RPL_ENDOFBANLIST", 368); (str "RPL_ENDOFWHOWAS", 369); (str "RPL_INFO", 371); (str "RPL_MOTD", 372);
    (str "RPL_INFOSTART", 373); (str "RPL_ENDOFINFO", 374); (str "RPL_MOTDSTART", 375); (str "RPL_ENDOFMOTD", 376);
    (str "RPL_MOTD2", 377); (str "RPL_KICKLINKED", 379); (str "RPL_YOUROPER", 381); (str "RPL_REHASHING", 382);
    (str "RPL_YOURESERVICE", 383); (str "RPL_MYPORTIS", 384); (str "RPL_NOTOPERANYMORE", 385);
    (str "RPL_QLIST", 386); (str "RPL_ENDOFQLIST", 387); (str "RPL_ALIST", 388); (str "RPL_ENDOFALIST", 389);
    (str "RPL_TIME", 391); (str "RPL_USERSSTART", 392); (str "RPL_USERS", 393); (str "RPL_ENDOFUSERS", 394);
    (str "RPL_NOUSERS", 395) ].

(** Errors. *)
Definition errors_numerics : list (bytes * Z) :=
  [
    (str "ERR_NOSUCHNICK", 401); (str "ERR_NOSUCHSERVER", 402); (str "ERR_NOSUCHCHANNEL", 403);
    (str "ERR_CANNOTSENDTOCHAN", 404); (str "ERR_TOOMANYCHANNELS", 405); (str "ERR_WASNOSUCHNICK", 406);
    (str "ERR_TOOMANYTARGETS", 407); (str "ERR_NOORIGIN", 409); (str "ERR_INVALIDCAPCMD", 410);
    (str "ERR_NORECIPIENT", 411); (str "ERR_NOTEXTTOSEND", 412); (str "ERR_NOTOPLEVEL", 413);
    (str "ERR_WILDTOPLEVEL", 414); (str "ERR_INPUTTOOLONG", 417); (str "ERR_MSGNEEDREGGEDNICK", 477);
    (str "ERR_UNKNOWNCOMMAND", 421); (str "ERR_NOMOTD", 422); (str "ERR_NOADMININFO", 423);
    (str "ERR_FILEERROR", 424); (str "ERR_NONICKNAMEGIVEN", 431); (str "ERR_ERRONEUSNICKNAME", 432);
    (str "ERR_NICKNAMEINUSE", 433); (str "ERR_NORULES", 434); (str "ERR_SERVICECONFUSED", 435);
    (str "ERR_NICKCOLLISION", 436); (str "ERR_UNAVAILRESOURCE", 437); (str "ERR_NICKTOOFAST", 438);
    (str "ERR_TARGETTOOFAST", 439); (str "ERR_SERVICESDOWN", 440); (str "ERR_USERNOTINCHANNEL", 441);
    (str "ERR_NOTONCHANNEL", 442); (str "ERR_USERONCHANNEL", 443); (str "ERR_NOLOGIN", 444);
    (str "ERR_SUMMONDISABLED", 445); (str "ERR_USERSDISABLED", 446); (str "ERR_NOTREGISTERED", 451);
    (str "ERR_HOSTILENAME", 455); (str "ERR_ACCEPTFULL", 456); (str "ERR_ACCEPTEXIST", 457);
    (str "ERR_ACCEPTNOT", 458); (str "ERR_NOHIDING", 459); (str "ERR_NOTFORHALFOPS", 460);
    (str "ERR_NEEDMOREPARAMS", 461); (str "ERR_ALREADYREGISTRED", 462); (str "ERR_NOPERMFORHOST", 463);
    (str "ERR_PASSWDMISMATCH", 464); (str "ERR_YOUREBANNEDCREEP", 465); (str "ERR_YOUWILLBEBANNED", 466);
    (str "ERR_KEYSET", 467); (str "ERR_INVALIDUSERNAME", 468); (str "ERR_ONLYSERVERSCANCHANGE", 468);
    (str "ERR_LINKSET", 469); (str "ERR_LINKCHANNEL", 470); (str "ERR_CHANNELISFULL", 471);
    (str "ERR_UNKNOWNMODE", 472); (str "ERR_INVITEONLYCHAN", 473); (str "ERR_BANNEDFROMCHAN", 474);
    (str "ERR_BADCHANNELKEY", 475); (str "ERR_BADCHANMASK", 476); (str "ERR_NOCHANMODES", 477);
    (str "ERR_BANLISTFULL", 478); (str "ERR_LINKFAIL", 479); (str "ERR_BADCHANNAME", 479);
    (str "ERR_CANNOTKNOCK", 480); (str "ERR_NOPRIVILEGES", 481); (str "ERR_CHANOPRIVSNEEDED", 482);
    (str "ERR_CANTKILLSERVER", 483); (str "ERR_RESTRICTED", 484); (str "ERR_UNIQOPRIVSNEEDED", 485);
    (str "ERR_NOOPERHOST", 491); (str "ERR_NOSERVICEHOST", 492); (str "ERR_UMODEUNKNOWNFLAG", 501);
    (str "ERR_USERSDONTMATCH", 502); (str "ERR_GHOSTEDCLIENT", 503); (str "ERR_LAST_ERR_MSG", 504);
    (str "ERR_SILELISTFULL", 511); (str "ERR_TOOMANYWATCH", 512); (str "ERR_NEEDPONG", 513);
    (str "ERR_TOOMANYDCC", 514); (str "ERR_DISABLED", 517); (str "ERR_NOINVITE", 518); (str "ERR_LONGMASK", 518);
    (str "ERR_ADMONLY", 519); (str "ERR_TOOMANYUSERS", 519); (str "ERR_OPERONLY", 520); (str "ERR_MASKTOOWIDE", 520);
    (str "ERR_WHOTRUNC", 520); (str "ERR_LISTSYNTAX", 521); (str "ERR_WHOSYNTAX", 522);
    (str "ERR_WHOLIMEXCEED", 523); (str "ERR_QUARANTINED", 524); (str "ERR_OPERSPAWNREQ", 524);
    (str "ERR_REMOTEPFX", 525); (str "ERR_REMOTEPFXNOSUPP", 526) ].

(** SASL (IRCv3). *)
Definition sasl_ircv3_numerics : list (bytes * Z) :=
  [
    (str "RPL_LOGGEDIN", 900); (str "RPL_LOGGEDOUT", 901); (str "ERR_NICKLOCKED", 902); (str "RPL_SASLSUCCESS", 903);
    (str "ERR_SASLFAIL", 904); (str "ERR_SASLTOOLONG", 905); (str "ERR_SASLABORTED", 906);
    (str "ERR_SASLALREADY", 907); (str "RPL_SASLMECHS", 908); (str "RPL_MONONLINE", 730);
    (str "RPL_MONOFFLINE", 731); (str "RPL_MONLIST", 732); (str "RPL_ENDOFMONLIST", 733); (str "ERR_MONLISTFULL", 734) ].

Definition numerics : list (bytes * Z) :=
  welcome_sequence_numerics ++ tracing_stats_numerics ++ who_whois_whowas_numerics ++ errors_numerics ++ sasl_ircv3_numerics.

(* ------------------------------------------------------------------ *)
(** ** commands.go *)

(** Commands. *)
Definition command_names : list (bytes * bytes) :=
  [
    (str "PASS", str "PASS"); (str "NICK", str "NICK"); (str "USER", str "USER"); (str "OPER", str "OPER");
    (str "QUIT", str "QUIT"); (str "SQUIT", str "SQUIT"); (str "JOIN", str "JOIN"); (str "PART", str "PART");
    (str "MODE", str "MODE"); (str "TOPIC", str "TOPIC"); (str "NAMES", str "NAMES"); (str "LIST", str "LIST");
    (str "INVITE", str "INVITE"); (str "KICK", str "KICK"); (str "PRIVMSG", str "PRIVMSG");
    (str "NOTICE", str "NOTICE"); (str "TAGMSG", str "TAGMSG"); (str "MOTD", str "MOTD");
    (str "LUSERS", str "LUSERS"); (str "VERSION", str "VERSION"); (str "STATS", str "STATS");
    (str "LINKS", str "LINKS"); (str "TIME", str "TIME"); (str "CONNECT", str "CONNECT"); (str "TRACE", str "TRACE");
    (str "ADMIN", str "ADMIN"); (str "INFO", str "INFO"); (str "WHO", str "WHO"); (str "WHOIS", str "WHOIS");
    (str "WHOWAS", str "WHOWAS"); (str "KILL", str "KILL"); (str "PING", str "PING"); (str "PONG", str "PONG");
    (str "ERROR", str "ERROR"); (str "AWAY", str "AWAY"); (str "REHASH", str "REHASH");
    (str "RESTART", str "RESTART"); (str "SUMMON", str "SUMMON"); (str "USERS_", str "USERS");
    (str "WALLOPS", str "WALLOPS"); (str "USERHOST", str "USERHOST"); (str "ISON", str "ISON");
    (str "MONITOR", str "MONITOR"); (str "CAP", str "CAP"); (str "AUTHENTICATE", str "AUTHENTICATE");
    (str "BATCH", str "BATCH"); (str "CHATHISTORY", str "CHATHISTORY"); (str "FAIL", str "FAIL");
    (str "SETNAME", str "SETNAME"); (str "CHGHOST", str "CHGHOST"); (str "ACCOUNT", str "ACCOUNT");
    (str "ACK", str "ACK") ].

(** CTCP commands. *)
Definition ctcp_names : list (bytes * bytes) :=
  [
    (str "CTCP_ACTION", str "ACTION"); (str "CTCP_VERSION", str "VERSION"); (str "CTCP_PING", str "PING");
    (str "CTCP_TIME", str "TIME"); (str "CTCP_FINGER", str "FINGER"); (str "CTCP_DCC", str "DCC");
    (str "CTCP_USERINFO", str "USERINFO") ].

(** Sub-commands of CAP. *)
Definition cap_subcommands : list (bytes * bytes) :=
  [
    (str "CapLS", str "LS"); (str "CapLIST", str "LIST"); (str "CapREQ", str "REQ"); (str "CapACK", str "ACK");
    (str "CapNAK", str "NAK"); (str "CapEND", str "END"); (str "CapNEW", str "NEW"); (str "CapDEL", str "DEL") ].

(** Capabilities. *)
Definition capability_names : list (bytes * bytes) :=
  [
    (str "CapSASL", str "sasl"); (str "CapServerTime", str "server-time");
    (str "CapMessageTags", str "message-tags"); (str "CapBatch", str "batch");
    (str "CapLabeledResponse", str "labeled-response"); (str "CapEchoMessage", str "echo-message");
    (str "CapMultiPrefix", str "multi-prefix"); (str "CapAwayNotify", str "away-notify");
    (str "CapExtendedJoin", str "extended-join"); (str "CapChghost", str "chghost");
    (str "CapSetname", str "setname"); (str "CapAccountTag", str "account-tag");
    (str "CapCapNotify", str "cap-notify"); (str "CapChatHistory", str "draft/chathistory");
    (str "CapBouncerNetworks", str "soju.im/bouncer-networks");
    (str "CapBouncerNetworksNotify", str "soju.im/bouncer-networks-notify");
    (str "CapUserHostInNames", str "userhost-in-names"); (str "CapInviteNotify", str "invite-notify");
    (str "CapAccountNotify", str "account-notify"); (str "CapNoImplicitNames", str "no-implicit-names");
    (str "CapStandardReplies", str "standard-replies"); (str "CapExtendedMonitor", str "extended-monitor");
    (str "CapSTS", str "sts") ].

(* ------------------------------------------------------------------ *)
(** ** What they have in common *)

(** The constants of IrcConst.v by name. *)
Definition used_numerics : list (bytes * Z) :=
  [
    (str "RPL_WELCOME", RPL_WELCOME); (str "RPL_YOURHOST", RPL_YOURHOST); (str "RPL_CREATED", RPL_CREATED);
    (str "RPL_MYINFO", RPL_MYINFO); (str "RPL_ISUPPORT", RPL_ISUPPORT); (str "RPL_ENDOFSTATS", RPL_ENDOFSTATS);
    (str "RPL_UMODEIS", RPL_UMODEIS); (str "RPL_STATSUPTIME", RPL_STATSUPTIME);
    (str "RPL_LUSERCLIENT", RPL_LUSERCLIENT); (str "RPL_LUSERCHANNELS", RPL_LUSERCHANNELS);
    (str "RPL_LUSERME", RPL_LUSERME); (str "RPL_ADMINME", RPL_ADMINME); (str "RPL_ADMINLOC1", RPL_ADMINLOC1);
    (str "RPL_ADMINLOC2", RPL_ADMINLOC2); (str "RPL_ADMINEMAIL", RPL_ADMINEMAIL); (str "RPL_AWAY", RPL_AWAY);
    (str "RPL_USERHOST", RPL_USERHOST); (str "RPL_ISON", RPL_ISON); (str "RPL_UNAWAY", RPL_UNAWAY);
    (str "RPL_NOWAWAY", RPL_NOWAWAY); (str "RPL_WHOISUSER", RPL_WHOISUSER); (str "RPL_WHOISSERVER", RPL_WHOISSERVER);
    (str "RPL_WHOISOPERATOR", RPL_WHOISOPERATOR); (str "RPL_WHOWASUSER", RPL_WHOWASUSER);
    (str "RPL_ENDOFWHO", RPL_ENDOFWHO); (str "RPL_WHOISIDLE", RPL_WHOISIDLE); (str "RPL_ENDOFWHOIS", RPL_ENDOFWHOIS);
    (str "RPL_WHOISCHANNELS", RPL_WHOISCHANNELS); (str "RPL_LISTSTART", RPL_LISTSTART); (str "RPL_LIST", RPL_LIST);
    (str "RPL_LISTEND", RPL_LISTEND); (str "RPL_CHANNELMODEIS", RPL_CHANNELMODEIS);
    (str "RPL_CREATIONTIME", RPL_CREATIONTIME); (str "RPL_WHOISACCOUNT", RPL_WHOISACCOUNT);
    (str "RPL_NOTOPIC", RPL_NOTOPIC); (str "RPL_TOPIC", RPL_TOPIC); (str "RPL_TOPICWHOTIME", RPL_TOPICWHOTIME);
    (str "RPL_INVITING", RPL_INVITING); (str "RPL_VERSION", RPL_VERSION); (str "RPL_WHOREPLY", RPL_WHOREPLY);
    (str "RPL_NAMREPLY", RPL_NAMREPLY); (str "RPL_ENDOFNAMES", RPL_ENDOFNAMES); (str "RPL_BANLIST", RPL_BANLIST);
    (str "RPL_ENDOFBANLIST", RPL_ENDOFBANLIST); (str "RPL_ENDOFWHOWAS", RPL_ENDOFWHOWAS); (str "RPL_INFO", RPL_INFO);
    (str "RPL_MOTD", RPL_MOTD); (str "RPL_ENDOFINFO", RPL_ENDOFINFO); (str "RPL_MOTDSTART", RPL_MOTDSTART);
    (str "RPL_ENDOFMOTD", RPL_ENDOFMOTD); (str "RPL_YOUROPER", RPL_YOUROPER); (str "RPL_TIME", RPL_TIME);
    (str "ERR_NOSUCHNICK", ERR_NOSUCHNICK); (str "ERR_NOSUCHCHANNEL", ERR_NOSUCHCHANNEL);
    (str "ERR_CANNOTSENDTOCHAN", ERR_CANNOTSENDTOCHAN); (str "ERR_WASNOSUCHNICK", ERR_WASNOSUCHNICK);
    (str "ERR_INVALIDCAPCMD", ERR_INVALIDCAPCMD); (str "ERR_NORECIPIENT", ERR_NORECIPIENT);
    (str "ERR_INPUTTOOLONG", ERR_INPUTTOOLONG); (str "ERR_UNKNOWNCOMMAND", ERR_UNKNOWNCOMMAND);
    (str "ERR_NOMOTD", ERR_NOMOTD); (str "ERR_NONICKNAMEGIVEN", ERR_NONICKNAMEGIVEN);
    (str "ERR_ERRONEUSNICKNAME", ERR_ERRONEUSNICKNAME); (str "ERR_NICKNAMEINUSE", ERR_NICKNAMEINUSE);
    (str "ERR_USERNOTINCHANNEL", ERR_USERNOTINCHANNEL); (str "ERR_NOTONCHANNEL", ERR_NOTONCHANNEL);
    (str "ERR_NOTREGISTERED", ERR_NOTREGISTERED); (str "ERR_NEEDMOREPARAMS", ERR_NEEDMOREPARAMS);
    (str "ERR_ALREADYREGISTRED", ERR_ALREADYREGISTRED); (str "ERR_PASSWDMISMATCH", ERR_PASSWDMISMATCH);
    (str "ERR_CHANNELISFULL", ERR_CHANNELISFULL); (str "ERR_INVITEONLYCHAN", ERR_INVITEONLYCHAN);
    (str "ERR_BADCHANNELKEY", ERR_BADCHANNELKEY); (str "ERR_NOPRIVILEGES", ERR_NOPRIVILEGES);
    (str "ERR_CHANOPRIVSNEEDED", ERR_CHANOPRIVSNEEDED); (str "ERR_USERSDONTMATCH", ERR_USERSDONTMATCH);
    (str "RPL_LOGGEDIN", RPL_LOGGEDIN); (str "RPL_SASLSUCCESS", RPL_SASLSUCCESS); (str "ERR_SASLFAIL", ERR_SASLFAIL);
    (str "ERR_SASLTOOLONG", ERR_SASLTOOLONG); (str "ERR_SASLABORTED", ERR_SASLABORTED);
    (str "ERR_SASLALREADY", ERR_SASLALREADY); (str "RPL_SASLMECHS", RPL_SASLMECHS);
    (str "RPL_MONONLINE", RPL_MONONLINE); (str "RPL_MONOFFLINE", RPL_MONOFFLINE); (str "RPL_MONLIST", RPL_MONLIST);
    (str "RPL_ENDOFMONLIST", RPL_ENDOFMONLIST); (str "ERR_MONLISTFULL", ERR_MONLISTFULL) ].
Definition used_capabilities : list (bytes * bytes) :=
  [
    (str "CapLS", CapLS); (str "CapLIST", CapLIST); (str "CapREQ", CapREQ); (str "CapACK", CapACK);
    (str "CapNAK", CapNAK); (str "CapEND", CapEND); (str "CapNEW", CapNEW); (str "CapDEL", CapDEL);
    (str "CapSASL", CapSASL); (str "CapServerTime", CapServerTime); (str "CapMessageTags", CapMessageTags);
    (str "CapBatch", CapBatch); (str "CapLabeledResponse", CapLabeledResponse);
    (str "CapEchoMessage", CapEchoMessage); (str "CapMultiPrefix", CapMultiPrefix);
    (str "CapAwayNotify", CapAwayNotify); (str "CapExtendedJoin", CapExtendedJoin); (str "CapChghost", CapChghost);
    (str "CapSetname", CapSetname); (str "CapAccountTag", CapAccountTag); (str "CapCapNotify", CapCapNotify);
    (str "CapChatHistory", CapChatHistory); (str "CapUserHostInNames", CapUserHostInNames);
    (str "CapInviteNotify", CapInviteNotify); (str "CapAccountNotify", CapAccountNotify);
    (str "CapNoImplicitNames", CapNoImplicitNames); (str "CapStandardReplies", CapStandardReplies);
    (str "CapExtendedMonitor", CapExtendedMonitor); (str "CapSTS", CapSTS) ].

Lemma used_numerics_agree : forallb (fun e => bool_decide (e ∈ numerics)) used_numerics = true.
Proof. vm_compute. reflexivity. Qed.
Lemma used_capabilities_agree : forallb (fun e => bool_decide (e ∈ cap_subcommands ++ capability_names)) used_capabilities = true.
Proof. vm_compute. reflexivity. Qed.

(** No name is declared twice (Go would refuse it), but a code may have several names:
    dialects of IRC differ. *)
Lemma names_distinct : NoDup (numerics.*1 ++ command_names.*1 ++ ctcp_names.*1 ++ cap_subcommands.*1 ++ capability_names.*1).
Proof. apply (bool_decide_eq_true_1 _). vm_compute. reflexivity. Qed.
Lemma codes_shared : exists a b c, (a, c) ∈ numerics /\ (b, c) ∈ numerics /\ a <> b.
Proof.
  exists (str "RPL_BOUNCE"), (str "RPL_REDIR"), 10. split; [|split; [|done]]; apply (bool_decide_eq_true_1 _); vm_compute; reflexivity.
Qed.

(** A code of three digits or fewer, as all of the table are, is written with exactly
    three and read back. *)
Definition three_digits (n : Z) : bool :=
  (length (numeric_string n) =? 3)%nat && forallb is_digit (numeric_string n) &&
  match Atoi (numeric_string n) with (v, None) => v =? n | _ => false end.

Lemma three_digits_upto n : 0 <= n <= 999 -> three_digits n = true.
Proof.
  intros Hn. assert (forallb (fun k => three_digits (Z.of_nat k)) (seq 0 1000) = true) as H by (vm_compute; reflexivity).
  rewrite forallb_forall in H. rewrite <- (Z2Nat.id n) by lia. apply H, in_seq. lia.
Qed.

Lemma numerics_three_digits name n : (name, n) ∈ numerics -> three_digits n = true.
Proof.
  intros Hin. apply three_digits_upto.
  assert (Forall (fun e : bytes * Z => 1 <= e.2 <= 999) numerics) as H.
  { apply (bool_decide_eq_true_1 _). vm_compute. reflexivity. }
  rewrite Forall_forall in H. specialize (H _ Hin). cbn in H. lia.
Qed.

(** Commands are words of capital letters, so that a message carries them as they are. *)
Lemma commands_are_words : forallb (fun e => forallb is_upper e.2 && negb (seqb e.2 [])) command_names = true.
Proof. vm_compute. reflexivity. Qed.
