(* ===== verification/Ircx.v ===== *)
(** * irc/cmd/ircx: the XDCC downloader

    The checks of its flags, what it sends when it is welcomed, and its handlers of NOTICE
    and PRIVMSG as functions of the message: what it shows, and the offer that it accepts.
    The transfer that follows is [Receive] (Dcc.v, DccTransfer.v). *)

From S2P Require Import Prelude GoStrings GoEncoding Paths IrcMessage IrcConst Dcc Xdcc IrcClient.

Record Flags := {
  fserver : bytes; fnick : bytes; fchannel : bytes; fbot : bytes; fpack : Z; fdest : bytes; flist : bool; showVer : bool
}.

(** Print the version, stop with status 1, or connect. *)
Inductive start_ := ShowVersion | Exit1 | Connects (cfg : ClientConfig builtin).

Definition ircx_main (fl : Flags) : start_ :=
  if showVer fl then ShowVersion
  else if seqb (fserver fl) [] then Exit1
  else if seqb (fbot fl) [] && negb (flist fl) then Exit1
  else Connects
    {| Addr := fserver fl; cfgNick := fnick fl; cfgUser := str "ircx"; RealName := str "go-irc XDCC client"; cfgPassword := [];
       TLS := false; SASL := None; RequestedCaps := []; DisableDefaultCaps := false; ReconnectDelay := 0; AutoReconnect := false;
       ConnectTimeout := 0 |}.

Definition message (cmd : bytes) (params : list bytes) : Message := {| MTags := None; MPrefix := None; Command := cmd; Params := params |}.

(** The handler of 001, and what its timer sends two seconds later. *)
Definition on_welcome (fl : Flags) : list Message :=
  if seqb (fchannel fl) [] then [] else [message (str "JOIN") [fchannel fl]].
Definition on_timer (fl : Flags) : list Message :=
  if flist fl then [message (str "PRIVMSG") [fbot fl; [Byte.x01] ++ str "DCC LIST" ++ [Byte.x01]]]
  else if 0 <? fpack fl then [message (str "PRIVMSG") [fbot fl; str "XDCC SEND #" ++ Itoa (fpack fl)]]
  else [].

Section Handlers.
Context {HU : GoUnicode} {HF : GoFloat} {HI : GoIP}.

(** The handler of NOTICE: the pack that it prints. *)
Definition on_notice (fl : Flags) (msg : Message) : option Pack :=
  match MPrefix msg with
  | Some p => if flist fl && seqb (Nick p) (fbot fl) then ParseListNotice (Trailing msg) else None
  | None => None
  end.

(** [splitWords]: words between spaces that are not in quotes, quotes included.  The loop
    runs over runes; a quote or a space is a rune of one byte and no part of another.
    [cur] is [s[start:i]]. *)
Definition word (cur : bytes) : list bytes := if seqb cur [] then [] else [cur].
Fixpoint split_loop (inQuote : bool) (cur s : bytes) : list bytes :=
  match s with
  | [] => word cur
  | c :: s =>
      if beqb c Byte.x22 then split_loop (negb inQuote) (cur ++ [c]) s
      else if beqb c " "%byte && negb inQuote then word cur ++ split_loop inQuote [] s
      else split_loop inQuote (cur ++ [c]) s
  end.
Definition splitWords (s : bytes) : list bytes := split_loop false [] s.

(** What the handler of PRIVMSG does with a message. *)
Inductive reaction := Ignored | Panics | Malformed (e : dcc_err) | Accepts (req : SendRequest).

Definition on_privmsg (msg : Message) : reaction :=
  match MPrefix msg with
  | None => Ignored
  | Some _ =>
      match DecodeCTCP (Trailing msg) with
      | None => Ignored
      | Some (cmd, args) =>
          if negb (seqb cmd (str "DCC")) then Ignored
          else match splitWords args with
          | [] => Ignored
          | w :: _ =>
              if negb (seqb w (str "SEND")) then Ignored
              else if blen args <? 5 then Panics
              else match ParseSendRequest (drop 5 args) with
                   | Ok req => Accepts req
                   | Err e => Malformed e
                   | Panic => Panics
                   end
          end
      end
  end.

(** What it says to the server because of a message: when [Receive] took the offer
    ([received]), the handler waits for the end of the transfer, good or bad, and leaves.
    It runs on the goroutine that reads from the server, which reads nothing meanwhile. *)
Definition privmsg_says (received : bool) (msg : Message) : list Message :=
  match on_privmsg msg with
  | Accepts _ => if received then [message (str "QUIT") [str "thanks!"]] else []
  | _ => []
  end.

(* ------------------------------------------------------------------ *)
(** ** Words *)

(** Without quotes the words are the pieces between spaces that are not empty. *)
Lemma split_loop_plain s : forall cur, Byte.x22 ∉ s -> " "%byte ∉ cur ->
  split_loop false cur s = filterb (fun w => negb (seqb w [])) (Split (cur ++ s) " "%byte).
Proof.
  assert (forall cur, " "%byte ∉ cur -> word cur = filterb (fun w => negb (seqb w [])) [cur]) as Hw.
  { intros cur _. unfold word. cbn. by destruct (seqb cur []). }
  induction s as [|c s IH]; intros cur Hq Hc; cbn [split_loop].
  - rewrite app_nil_r, Split_none by done. by apply Hw.
  - apply not_elem_of_cons in Hq as [Hq1 Hq]. rewrite beqb_ne by congruence.
    destruct (beqb_spec c " "%byte) as [->|Hne]; cbn [andb negb].
    + rewrite Split_app by done. cbn [filterb]. rewrite IH by set_solver. unfold word. by destruct (seqb cur []).
    + rewrite IH; [by rewrite <- app_assoc|done|set_solver].
Qed.

Lemma splitWords_plain s : Byte.x22 ∉ s -> splitWords s = filterb (fun w => negb (seqb w [])) (Split s " "%byte).
Proof. intros H. by apply (split_loop_plain s []); [|set_solver]. Qed.

(** The first word is no longer than the text, and the text itself if as long. *)
Definition first_within (all : bytes) (ws : list bytes) : Prop :=
  match ws with [] => True | w :: _ => (length w <= length all)%nat /\ (length w = length all -> w = all) end.

Lemma split_loop_first s : forall q cur, first_within (cur ++ s) (split_loop q cur s).
Proof.
  induction s as [|c s IH]; intros q cur; cbn [split_loop].
  - rewrite app_nil_r. unfold word. by destruct (seqb cur []).
  - assert (forall q, first_within (cur ++ c :: s) (split_loop q (cur ++ [c]) s)) as Hc.
    { intros q'. specialize (IH q' (cur ++ [c])). by rewrite <- app_assoc in IH. }
    destruct (beqb c Byte.x22); [apply Hc|]. destruct (beqb c " "%byte && negb q); [|apply Hc].
    unfold word. destruct (seqb_spec cur []) as [->|Hne]; cbn [app].
    + specialize (IH q []). unfold first_within in *. destruct (split_loop q [] s); [done|]. cbn in IH |- *. split; [lia|]. lia.
    + cbn. rewrite length_app. cbn. split; lia.
Qed.

(** A first word SEND in a text too short for a space after it is the whole text. *)
Lemma short_send args ws : splitWords args = str "SEND" :: ws -> blen args < 5 -> args = str "SEND".
Proof.
  intros Hs Hb. pose proof (split_loop_first args false []) as Hw. unfold splitWords in Hs. rewrite Hs in Hw.
  destruct Hw as [H1 H2]. symmetry. apply H2. unfold blen in Hb. cbn in *. lia.
Qed.

Lemma ParseSendRequest_no_panic args : ParseSendRequest args <> Panic.
Proof. unfold ParseSendRequest. repeat case_match; simplify_eq/=; repeat case_match; simplify_eq/=; done. Qed.

(** C40. What crashes the downloader: exactly a CTCP message DCC SEND without arguments,
    which any user can send to it. *)
Theorem ircx_panics_iff msg :
  on_privmsg msg = Panics <-> MPrefix msg <> None /\ DecodeCTCP (Trailing msg) = Some (str "DCC", str "SEND").
Proof.
  unfold on_privmsg. destruct (MPrefix msg); [|naive_solver]. destruct (DecodeCTCP (Trailing msg)) as [[cmd args]|]; [|naive_solver].
  destruct (seqb_spec cmd (str "DCC")) as [->|Hne]; cbn [negb]; [|naive_solver].
  destruct (splitWords args) as [|w ws] eqn:Es; [split; [done|by intros [_ [= ->]]]|].
  destruct (seqb_spec w (str "SEND")) as [Ew|Hne]; cbn [negb].
  2: { split; [done|]. intros [_ [= ->]]. by injection Es as <- <-. }
  destruct (Z.ltb_spec (blen args) 5) as [Hb|Hb].
  - split; [intros _|done]. split; [done|]. by rewrite (short_send args ws ltac:(by rewrite <- Ew) Hb).
  - split; [|intros [_ [= ->]]; done]. destruct (ParseSendRequest (drop 5 args)) eqn:Ep; [done|done|].
    by apply ParseSendRequest_no_panic in Ep.
Qed.

(** The downloader understands the sender of this repository: the offer that
    [Manager.Send] makes, sent as CTCP, is accepted with the file name, the address, the
    port and the size that were offered. *)
Theorem ircx_accepts_offer msg filename ip ip4 port size token :
  MPrefix msg <> None -> Trailing msg = EncodeCTCP (str "DCC") (FormatSendOffer filename ip port size token) ->
  is_word filename = true -> To4 ip = Some ip4 -> in_u 16 port -> in_i64 size -> in_u 32 token ->
  on_privmsg msg = Accepts {| Filename := filename; IP := ip4; Port := port; Size := size; Token := token;
                              Passive := (port =? 0) || negb (token =? 0) |}.
Proof.
  intros Hp Ht Hf Hip Hpo Hs Hto. unfold on_privmsg. destruct (MPrefix msg); [|done]. rewrite Ht, ctcp_roundtrip by (vm_compute; set_solver).
  change (ToUpper (str "DCC")) with (str "DCC"). rewrite seqb_refl. cbn [negb].
  pose proof (offer_roundtrip filename ip ip4 port size token Hf Hip Hpo Hs Hto) as Hr. rewrite FormatSendOffer_words in *.
  set (rest := Join _ _) in *. unfold TrimPrefix in Hr. rewrite HasPrefix_app, drop_app_length in Hr.
  change (splitWords (str "SEND " ++ rest)) with (str "SEND" :: split_loop false [] rest). cbv iota. rewrite seqb_refl. cbn [negb].
  rewrite (proj2 (Z.ltb_ge _ 5)) by (unfold blen; cbn; lia).
  change (drop 5 (str "SEND " ++ rest)) with rest. by rewrite Hr.
Qed.

(** What the bot of this repository lists is shown, when the downloader was told its name. *)
Lemma ircx_shows_list fl msg pre p :
  flist fl = true -> MPrefix msg = Some pre -> Nick pre = fbot fl -> Trailing msg = pack_line p ->
  0 <= Number p < 2 ^ 63 -> 0 <= Gets p < 2 ^ 63 -> list_name (PFilename p) = true ->
  (fun q => (Number q, PFilename q)) <$> on_notice fl msg = Some (Number p, PFilename p).
Proof.
  intros Hl Hp Hn Ht H1 H2 H3. unfold on_notice. by rewrite Hp, Hl, Hn, seqb_refl, Ht, pack_line_roundtrip.
Qed.
End Handlers.

(** A request for the list is a CTCP message; the request for a pack, as bots expect both,
    is plain text. *)
Lemma list_request_is_ctcp fl : flist fl = true ->
  on_timer fl = [message (str "PRIVMSG") [fbot fl; EncodeCTCP (str "DCC") (str "LIST")]].
Proof. intros H. unfold on_timer. by rewrite H. Qed.

(* ------------------------------------------------------------------ *)
(** ** Witnesses *)

#[local] Instance demo_unicode : GoUnicode := ascii_only.
#[local] Instance demo_ip : GoIP := {| ParseIP _ := [] |}.

Definition offer_message : Message :=
  {| MTags := None; MPrefix := Some {| Nick := str "bot"; User := []; Host := [] |}; Command := str "PRIVMSG";
     Params := [str "me"; EncodeCTCP (str "DCC") (FormatSendOffer (str "file.mkv") (be_put 4 2130706433) 5000 500000 0)] |}.

Lemma ircx_accepts_offer_witness :
  on_privmsg offer_message = Accepts {| Filename := str "file.mkv"; IP := be_put 4 2130706433; Port := 5000; Size := 500000; Token := 0;
                                        Passive := false |}.
Proof.
  apply (ircx_accepts_offer offer_message (str "file.mkv") (be_put 4 2130706433) (be_put 4 2130706433) 5000 500000 0);
    try reflexivity; unfold in_u, in_i64; try lia. discriminate.
Defined.

(** The words of a quoted argument. *)
Lemma splitWords_quotes : splitWords (str "SEND " ++ [Byte.x22] ++ str "a b" ++ [Byte.x22] ++ str "  1") =
  [str "SEND"; [Byte.x22] ++ str "a b" ++ [Byte.x22]; str "1"].
Proof. reflexivity. Qed.
