(* ===== verification/Programs.v ===== *)
(** * The command-line program torrent/cmd/gotorrent

    The lines it prints for a torrent file.  (sftpd is in Sftpd.v, ircd and ircb are in
    IrcConfig.v, ircx in Ircx.v, ftpd in FtpServer.v.) *)

From S2P Require Import Prelude GoStrings Bencode Metainfo.

(* ------------------------------------------------------------------ *)
(** ** gotorrent *)

Definition joinPath (parts : list bytes) : bytes := Join parts (str "/").

Definition optional (label text : bytes) : list bytes := if seqb text [] then [] else [label ++ text].

Definition info_lines (mi : MetaInfo) : list bytes :=
  [ str "Name:         " ++ Metainfo.Name (mi_Info mi);
    str "InfoHash:     " ++ Hash_String (InfoHash mi);
    str "PieceLength:  " ++ Itoa (PieceLength (mi_Info mi));
    str "Pieces:       " ++ Itoa (PieceCount (mi_Info mi));
    str "TotalLength:  " ++ Itoa (TotalLength (mi_Info mi)) ] ++
  optional (str "Announce:     ") (Announce mi) ++ optional (str "Comment:      ") (Comment mi) ++
  optional (str "CreatedBy:    ") (CreatedBy mi) ++
  (if 0 <? blen (Files (mi_Info mi))
   then str "Files:" :: map (fun fi => str "  " ++ joinPath (fi_Path fi) ++ str "  (" ++ Itoa (fi_Length fi) ++ str " bytes)") (Files (mi_Info mi))
   else []) ++
  (if 0 <? blen (Trackers mi) then str "Trackers:" :: map (fun t => str "  " ++ t) (Trackers mi) else []).

(** What the program ends in: the lines it printed, status 1, or a panic. *)
Inductive result := Printed (lines : list bytes) | Exit1 | Panicked.

Section Gotorrent.
Context `{Sha1}.

(** [file] is the contents of the file that the arguments name, if it can be opened;
    [None] is that of [Decode]. *)
Definition runInfo (file : option bytes) : option result :=
  match file with
  | None => Some Exit1
  | Some data =>
      r ← Decode data;
      Some match r with Ok mi => Printed (info_lines mi) | Err _ => Exit1 | Panic => Panicked end
  end.

Definition gotorrent (open : bytes -> option bytes) (args : list bytes) : option result :=
  match args with
  | [] => Some Exit1
  | cmd :: rest =>
      if seqb cmd (str "info") then match rest with [] => Some Exit1 | name :: _ => runInfo (open name) end
      else Some Exit1
  end.

(** The program always ends. *)
Lemma gotorrent_total open args : exists r, gotorrent open args = Some r.
Proof.
  unfold gotorrent. destruct args as [|cmd rest]; [by eexists|]. destruct (seqb cmd _); [|by eexists]. destruct rest as [|name ?]; [by eexists|].
  unfold runInfo. destruct (open name) as [data|]; [|by eexists]. unfold Decode. destruct (Bencode.Decode_total data) as [r Hr]. specialize (Hr 0%nat). rewrite Nat.add_0_r in Hr. unfold Bencode.Decode. rewrite Hr.
  destruct r as [[raw ?]|e|]; by eexists.
Qed.

(** The hash that it prints is that of the bytes of the info dictionary in the file. *)
Lemma gotorrent_shows_infohash open name dict infoRaw lines :
  open name = Some (enc (VDict dict)) -> wf_value (VDict dict) = true -> map_get dict (str "info") = Some infoRaw ->
  gotorrent open [str "info"; name] = Some (Printed lines) ->
  lines !! 1%nat = Some (str "InfoHash:     " ++ Hash_String (sha1 (enc infoRaw))) /\
  exists before after, enc (VDict dict) = before ++ enc infoRaw ++ after.
Proof.
  intros Ho Hw Hi. unfold gotorrent. rewrite seqb_refl. unfold runInfo. rewrite Ho.
  destruct (Decode (enc (VDict dict))) as [[mi|e|]|] eqn:Ed; cbn; intros E; simplify_eq.
  destruct (InfoHash_of_file dict infoRaw mi Hw Hi Ed) as [<- ?]. done.
Qed.
End Gotorrent.

(** A file of four bytes makes it panic. *)
Lemma gotorrent_panics `{Sha1} : runInfo (Some (str "d-1:")) = Some Panicked.
Proof. reflexivity. Qed.
